(* ===== verification/_CoqProject ===== *)
-Q . S2P
Prelude.v
Mem.v
CString.v
Printf.v
Grep.v
Kern.v
Spinlock.v
Riscv.v
Kalloc.v
Vm.v
PageTable.v
UserMem.v
Huffman.v
HuffmanHeap.v
HuffmanTree.v
HuffmanCode.v
Rle.v
Umalloc.v
Sleeplock.v
Bio.v
Block.v
Log.v
LogCrash.v
Pipe.v
Console.v
Virtio.v
VirtioInv.v
VirtioSpec.v
State.v
Wakeup.v
Fs.v
FsData.v
FileOps.v
Frame.v
ProcOps.v
Sysfile.v
Exec.v
Syscall.v
Steady.v
Scenario.v
Balloc.v
ReadEmpty.v
ProcInv.v
Timer.v
KillZero.v
FileRefs.v
