(* ===== verification/Prelude.v ===== *)
(** A verification of an xv6 kernel for RISC-V with file compression.

    * The program

    kernel/ is a small Unix-like kernel.  At the bottom are spinlocks
    (spinlock.c), byte routines (string.c), the page allocator (kalloc.c) and page
    tables (vm.c).  The storage stack is a disk driver (virtio_disk.c), a buffer
    cache (bio.c), a redo log (log.c), and a file system of inodes, directories and
    paths (fs.c) that stores regular files Huffman-coded (compress.c) when that
    makes them smaller.  Above are open files and pipes (file.c, pipe.c), processes
    (proc.c, sleeplock.c), program loading (exec.c) and the system calls (syscall.c,
    sysfile.c, sysproc.c).  The console (console.c, printf.c) is the terminal.
    user/ has the user library (ulib.c, printf.c) and programs; mkfs/ builds disk
    images.

    * The files

    Definitions carry the names of the C functions and are written call by call.

    - Prelude.v: machine integers with their wrap-around, little-endian encoding,
      arrays indexed by C integers.  Mem.v: byte-addressed memory.  Kern.v: the
      monad [K] of kernel operations, with the held spinlocks, the state, and
      [Panic] for what the code passes to panic.
    - CString.v (string.c, ulib.c), Printf.v (both printf.c), Grep.v (user/grep.c),
      Rle.v (user/compress.c and user/decompress.c), Umalloc.v (user/umalloc.c).
    - Spinlock.v (spinlock.c) over any number of CPUs; Sleeplock.v (sleeplock.c).
    - Riscv.v (riscv.h, memlayout.h), Kalloc.v (kalloc.c), Vm.v (vm.c); PageTable.v
      and UserMem.v have the theorems on page tables and on copies to and from
      user memory.
    - Huffman.v (compress.c), with HuffmanHeap.v, HuffmanTree.v and HuffmanCode.v.
    - Virtio.v (virtio_disk.c) with VirtioInv.v and VirtioSpec.v; Bio.v (bio.c)
      with Block.v; Log.v (log.c) with LogCrash.v.
    - Pipe.v (pipe.c) and Console.v (console.c): rings shared by processes.
    - State.v is the one kernel state [ks] the components above run on: superblock,
      log and blocks, inode table, memory, open files, pipes, processes, clock.
      Wakeup.v and ProcOps.v (proc.c), Fs.v and FsData.v (fs.c), FileOps.v (file.c,
      pipe.c), Sysfile.v (sysfile.c and the argument functions of syscall.c),
      Exec.v (exec.c), Syscall.v (sysproc.c, the table and dispatch of syscall.c,
      the clock tick of trap.c).
    - Frame.v and Steady.v walk once through every system call for all invariants:
      [Steady] is the interface a relation on states satisfies to be kept by them.
      ProcInv.v, FileRefs.v, Timer.v, KillZero.v, Balloc.v and ReadEmpty.v are
      theorems about the composed kernel; Scenario.v is the concrete kernel their
      witnesses are evaluated in.

    * What is shown

    - Locks: at most one CPU is in a critical section, with interrupts off; the
      acquire and release of [K] panic exactly when the detailed ones do, the
      pop_off at the end of release included.  Sleep
      locks exclude and lose no wakeup.
    - Memory: pages held and pages free partition the memory through any sequence of
      allocator calls; mappages refines updates of a partial map and keeps page
      tables well formed; copyin, copyout and copyinstr read and write exactly the
      user's mapped bytes and refuse all others.
    - Storage: calls of the disk driver are single transfers and none is stuck,
      whatever the order in which the device finishes; the buffer cache is
      indistinguishable from a store of blocks; after a crash at any write, recovery
      leaves all of a transaction or none of it; balloc takes the lowest free block.
    - Compression: build_tree makes a Huffman tree with the right counts; a round
      trip replaces each byte by the one at the leaf the encoder's comparisons
      reach, and that is never the whole input unchanged; the run-length coder
      restores exactly the inputs without runs of more than nine.
    - Processes and files: system calls keep pids of live processes distinct and the
      reference count of every open file equal to the number of descriptors that
      name it; a sleep of n ticks returns after n ticks; pipes are FIFO and the
      console is a line editor, through all wrap-arounds of their indices, and a
      reader and a writer of a pipe are never asleep at the same time.
    - User level: blocks from malloc, for requests below 2^31 - 31 bytes, are
      disjoint, keep what is stored in them and none is lost; grep's matcher agrees with the meaning of patterns; numbers
      printed are read back by atoi.
    - Where the code fails its purpose this is a theorem too: reading an empty file
      panics, kill(0) kills the next child, %u overruns a buffer, three operations
      that begin_op admits overflow the log, a pipe writer killed in mid-loop leaves
      a reader asleep on its bytes, a huge malloc returns memory never obtained,
      Huffman coding loses data.

    * Conventions and bounds

    A C integer is a [Z] in range, wrapped by [u8] to [u64], [s32] and [s64] where the
    code can wrap.  What C leaves undefined (an array access out of range) is
    [Panic "undefined: ..."], [None], or in Printf.v a [Fault] that says which.  A system call is one atomic step; a process
    that would sleep is the outcome [Panic "sleep"], and what happens across sleeps
    is a step relation or a run over events: Spinlock.v, Sleeplock.v, Virtio.v,
    Pipe.v, Console.v, Timer.v.  Those also hold the wakeups of the locks, buffers,
    log and console, which Log.v, Bio.v and Sleeplock.v leave out of the process
    table; pipes and the clock call [wakeup] on it.

    Fuel is used where the loop is not structural, and is a bound the code itself
    has: the size of a table or ring, the length of a string or buffer, the number
    of bytes or pages to go; running out is the outcome [Panic "...: fuel"] or
    [None], and theorems that an operation returns rule it out.

    The device switch entries of drivers and the first address after the kernel are
    arguments.  The disk device of Virtio.v is a party that follows section 5.2 of
    the virtio specification.

    * Not modelled

    Assembly (entry.S, swtch.S, trampoline.S, kernelvec.S, usys) and the traps around
    it (trap.c, except the clock tick), because they act on machine registers;
    uart.c, plic.c, start.c, main.c and the register handshake of
    virtio_disk_init, which are device and machine set-up; the endless loop of the
    scheduler and procdump; kvminit; the shell and the small and test programs of user/,
    whose effects are system calls; mkfs, a program of the host. *)

From stdpp Require Export base tactics numbers list option strings gmap.
From Stdlib Require Export ZArith Lia.
#[export] Set Default Goal Selector "!".
#[export] Unset Printing Records.
#[export] Set Warnings "-clear-no-such-hyp".

Open Scope Z_scope.

(** * Machine integers *)

(** Unsigned integers are kept as [Z] in range; [u32] and [u64] write out the
    wrap-around of C's [uint] and [uint64], [s32] the conversion to [int]. *)
Definition u8 (z : Z) : Z := z mod 2 ^ 8.
Definition u16 (z : Z) : Z := z mod 2 ^ 16.
Definition u32 (z : Z) : Z := z mod 2 ^ 32.
Definition u64 (z : Z) : Z := z mod 2 ^ 64.
Definition s32 (z : Z) : Z := (z + 2 ^ 31) mod 2 ^ 32 - 2 ^ 31.
Definition s64 (z : Z) : Z := (z + 2 ^ 63) mod 2 ^ 64 - 2 ^ 63.

Create HintDb xv6.
Create Rewrite HintDb xv6.

(** Division and remainder goals with literal divisors. *)
Ltac zdm := Z.div_mod_to_equations; lia.

Lemma u32_range z : 0 <= u32 z < 2 ^ 32.
Proof. apply Z.mod_pos_bound. lia. Qed.
Lemma u64_range z : 0 <= u64 z < 2 ^ 64.
Proof. apply Z.mod_pos_bound. lia. Qed.
Lemma u8_range z : 0 <= u8 z < 256.
Proof. apply (Z.mod_pos_bound z 256). lia. Qed.
Lemma u8_small z : 0 <= z < 256 -> u8 z = z.
Proof. apply Z.mod_small. Qed.
Lemma u32_small z : 0 <= z < 2 ^ 32 -> u32 z = z.
Proof. apply Z.mod_small. Qed.
Lemma u64_small z : 0 <= z < 2 ^ 64 -> u64 z = z.
Proof. apply Z.mod_small. Qed.
Lemma s32_small z : - 2 ^ 31 <= z < 2 ^ 31 -> s32 z = z.
Proof. intros. unfold s32. rewrite Z.mod_small; lia. Qed.
Lemma u32_u32 z : u32 (u32 z) = u32 z.
Proof. apply u32_small, u32_range. Qed.

#[export] Hint Resolve u8_range u32_range u64_range : xv6.
#[export] Hint Rewrite u32_u32 : xv6.

(** * Little-endian encoding *)

Fixpoint le_bytes (n : nat) (v : Z) : list Z :=
  match n with
  | O => []
  | S n => v mod 256 :: le_bytes n (v / 256)
  end.

Fixpoint le_val (l : list Z) : Z :=
  match l with
  | [] => 0
  | b :: l => b + 256 * le_val l
  end.

Lemma length_le_bytes n v : length (le_bytes n v) = n.
Proof. revert v. induction n; intros v; simpl; [done|]. by rewrite IHn. Qed.

Lemma le_bytes_range n v : Forall (fun b => 0 <= b < 256) (le_bytes n v).
Proof.
  revert v. induction n; intros v; simpl; constructor; [|done]. apply Z.mod_pos_bound. lia.
Qed.

Lemma le_val_bytes n v : le_val (le_bytes n v) = v mod 256 ^ Z.of_nat n.
Proof.
  revert v. induction n as [|n IH]; intros v; [simpl; by rewrite Z.mod_1_r|].
  cbn [le_bytes le_val]. rewrite IH, Nat2Z.inj_succ, Z.pow_succ_r by lia.
  rewrite Z.rem_mul_r by lia. done.
Qed.

Lemma s32_le_val_bytes v : s32 (le_val (le_bytes 4 v)) = s32 v.
Proof.
  rewrite le_val_bytes. unfold s32. change (256 ^ Z.of_nat 4) with (2 ^ 32).
  f_equal. by rewrite Zplus_mod_idemp_l.
Qed.

Lemma u32_le_val_bytes v : le_val (le_bytes 4 v) = u32 v.
Proof. apply le_val_bytes. Qed.

(** * Arrays indexed by C integers *)

(** A negative or too large index is out of range: [None] on a read, and
    nothing to update on a write. *)
Definition zlookup {A} (l : list A) (i : Z) : option A :=
  if i <? 0 then None else l !! Z.to_nat i.

Definition zupdate {A} (i : Z) (x : A) (l : list A) : option (list A) :=
  if (0 <=? i) && (i <? Z.of_nat (length l)) then Some (<[Z.to_nat i := x]> l) else None.

Section arrays.
Context {A : Type}.
Implicit Types (l : list A) (i j : Z).

Lemma zlookup_Some l i x : zlookup l i = Some x -> 0 <= i < Z.of_nat (length l).
Proof. unfold zlookup. case_match; [done|]. intros ?%lookup_lt_Some. lia. Qed.

Lemma zlookup_is_Some l i : 0 <= i < Z.of_nat (length l) -> exists x, zlookup l i = Some x.
Proof.
  intros H. unfold zlookup. destruct (Z.ltb_spec i 0); [lia|]. apply lookup_lt_is_Some_2. lia.
Qed.

Lemma zlookup_nat l (i : nat) : zlookup l (Z.of_nat i) = l !! i.
Proof. unfold zlookup. destruct (Z.ltb_spec (Z.of_nat i) 0); [lia|]. by rewrite Nat2Z.id. Qed.

Lemma zlookup_pos l i : 0 <= i -> zlookup l i = l !! Z.to_nat i.
Proof. intros. unfold zlookup. destruct (Z.ltb_spec i 0); [lia|done]. Qed.

Lemma zupdate_ok l i x :
  0 <= i < Z.of_nat (length l) -> zupdate i x l = Some (<[Z.to_nat i := x]> l).
Proof.
  intros. unfold zupdate. destruct (Z.leb_spec 0 i); [|lia].
  destruct (Z.ltb_spec i (Z.of_nat (length l))); [done|lia].
Qed.

Lemma zlookup_insert l i j x :
  0 <= i < Z.of_nat (length l) ->
  zlookup (<[Z.to_nat i := x]> l) j = if decide (i = j) then Some x else zlookup l j.
Proof.
  intros H. unfold zlookup. destruct (Z.ltb_spec j 0); [case_decide; [lia|done]|].
  case_decide.
  - subst. apply list_lookup_insert_eq. lia.
  - apply list_lookup_insert_ne. lia.
Qed.

Lemma zlookup_app_l l k i :
  i < Z.of_nat (length l) -> zlookup (l ++ k) i = zlookup l i.
Proof. intros. unfold zlookup. destruct (Z.ltb_spec i 0); [done|]. apply lookup_app_l. lia. Qed.
End arrays.

(** * Lists *)

Lemma filter_ne_notin {A} `{EqDecision A} (x : A) (l : list A) : x ∉ l -> filter (.≠ x) l = l.
Proof.
  induction l as [|y l IH]; [done|]. intros [Hy Hl]%not_elem_of_cons.
  rewrite filter_cons_True by done. by rewrite IH.
Qed.
