(* ===== verification/Mem.v ===== *)
(** Byte-addressed memory, as the kernel's direct map shows it to C code.

    [ld]/[st] are one-byte accesses, [ld64]/[st64] the little-endian accesses
    the compiler emits for a [uint64] (page-table entries, the allocator's
    [struct run] link).  Memory is total: an address never written reads as
    zero, so loads need no side conditions, and a byte always reads in range. *)

From S2P Require Import Prelude.

Abbreviation mem := (gmap Z Z).

Definition ld (m : mem) (a : Z) : Z := u8 (default 0 (m !! a)).
Definition st (m : mem) (a v : Z) : mem := <[a := u8 v]> m.

Fixpoint ldn (n : nat) (m : mem) (a : Z) : Z :=
  match n with
  | O => 0
  | S n => ld m a + 256 * ldn n m (a + 1)
  end.

Fixpoint stn (n : nat) (m : mem) (a v : Z) : mem :=
  match n with
  | O => m
  | S n => stn n (st m a v) (a + 1) (v / 256)
  end.

Definition ld64 (m : mem) (a : Z) : Z := ldn 8 m a.
Definition st64 (m : mem) (a v : Z) : mem := stn 8 m a v.

(** The [n] bytes starting at [a]. *)
Definition ldbytes (m : mem) (a : Z) (n : nat) : list Z :=
  (fun i => ld m (a + Z.of_nat i)) <$> seq 0 n.

Fixpoint stbytes (m : mem) (a : Z) (l : list Z) : mem :=
  match l with
  | [] => m
  | b :: l => stbytes (st m a b) (a + 1) l
  end.

Lemma ld_range m a : 0 <= ld m a < 256.
Proof. apply u8_range. Qed.

Lemma u8_ld m a : u8 (ld m a) = ld m a.
Proof. apply u8_small, ld_range. Qed.

Lemma ld_st m a b v : ld (st m a v) b = if decide (a = b) then u8 v else ld m b.
Proof.
  unfold ld, st. case_decide as E.
  - subst. rewrite lookup_insert_eq. simpl. apply u8_small, u8_range.
  - by rewrite lookup_insert_ne.
Qed.

Lemma ld_st_eq m a v : ld (st m a v) a = u8 v.
Proof. rewrite ld_st. by case_decide. Qed.

Lemma ld_st_ne m a b v : a <> b -> ld (st m a v) b = ld m b.
Proof. intros. rewrite ld_st. by case_decide. Qed.

#[export] Hint Resolve ld_range : xv6.
#[export] Hint Rewrite u8_ld ld_st_eq : xv6.

(** Two memories agree on every byte outside [a, a+n). *)
Definition same_outside (a n : Z) (m m' : mem) : Prop :=
  forall b, ~ (a <= b < a + n) -> ld m' b = ld m b.

Lemma ldn_ext n m m' a :
  (forall b, a <= b < a + Z.of_nat n -> ld m b = ld m' b) -> ldn n m a = ldn n m' a.
Proof.
  revert a. induction n as [|n IH]; intros a H; simpl; [done|].
  rewrite (H a) by lia. f_equal. f_equal. apply IH. intros. apply H. lia.
Qed.

Lemma ldn_range n m a : 0 <= ldn n m a < 256 ^ Z.of_nat n.
Proof.
  revert a. induction n as [|n IH]; intros a; [simpl; lia|].
  rewrite Nat2Z.inj_succ, Z.pow_succ_r by lia. simpl.
  pose proof (ld_range m a). pose proof (IH (a + 1)). nia.
Qed.

Lemma ld64_range m a : 0 <= ld64 m a < 2 ^ 64.
Proof. exact (ldn_range 8 m a). Qed.

Lemma ld_stn_out n m a v b :
  ~ (a <= b < a + Z.of_nat n) -> ld (stn n m a v) b = ld m b.
Proof.
  revert m a v. induction n as [|n IH]; intros m a v H; simpl; [done|].
  rewrite IH by lia. apply ld_st_ne. lia.
Qed.

Lemma ldn_stn_same n m a v :
  0 <= v < 256 ^ Z.of_nat n -> ldn n (stn n m a v) a = v.
Proof.
  revert m a v. induction n as [|n IH]; intros m a v H; [simpl in *; lia|].
  rewrite Nat2Z.inj_succ, Z.pow_succ_r in H by lia. simpl.
  rewrite ld_stn_out, ld_st_eq by lia. rewrite IH by zdm.
  unfold u8. change (2 ^ 8) with 256. zdm.
Qed.

Lemma ld64_st64_eq m a v : 0 <= v < 2 ^ 64 -> ld64 (st64 m a v) a = v.
Proof. exact (ldn_stn_same 8 m a v). Qed.

Lemma ld_st64_out m a v b : ~ (a <= b < a + 8) -> ld (st64 m a v) b = ld m b.
Proof. exact (ld_stn_out 8 m a v b). Qed.

Lemma ld64_ext m m' a :
  (forall b, a <= b < a + 8 -> ld m b = ld m' b) -> ld64 m a = ld64 m' a.
Proof. exact (ldn_ext 8 m m' a). Qed.

Lemma ld64_st64_ne m a b v : a + 8 <= b \/ b + 8 <= a -> ld64 (st64 m a v) b = ld64 m b.
Proof. intros. apply ld64_ext. intros. apply ld_st64_out. lia. Qed.

Lemma ld64_zero m a : (forall b, a <= b < a + 8 -> ld m b = 0) -> ld64 m a = 0.
Proof. intros H. unfold ld64. simpl. rewrite !H by lia. lia. Qed.

Lemma length_ldbytes m a n : length (ldbytes m a n) = n.
Proof. unfold ldbytes. by rewrite length_fmap, length_seq. Qed.

Lemma lookup_ldbytes m a n i :
  (i < n)%nat -> ldbytes m a n !! i = Some (ld m (a + Z.of_nat i)).
Proof.
  intros. unfold ldbytes. rewrite list_lookup_fmap, lookup_seq_lt by done. done.
Qed.

Lemma ld_stbytes m a l b :
  ld (stbytes m a l) b =
  (if decide (a <= b < a + Z.of_nat (length l))
   then u8 (default 0 (l !! Z.to_nat (b - a))) else ld m b).
Proof.
  revert m a. induction l as [|x l IH]; intros m a; cbn [stbytes length].
  - case_decide; [lia|done].
  - rewrite IH. repeat case_decide; try lia.
    + replace (Z.to_nat (b - a)) with (S (Z.to_nat (b - (a + 1)))) by lia. done.
    + assert (b = a) as -> by lia. rewrite Z.sub_diag. simpl. by rewrite ld_st_eq.
    + apply ld_st_ne. lia.
Qed.

Lemma stbytes_ldbytes m a l :
  Forall (fun b => 0 <= b < 256) l -> ldbytes (stbytes m a l) a (length l) = l.
Proof.
  intros Hb. apply list_eq. intros i. destruct (decide (i < length l)%nat) as [Hi|Hi].
  - rewrite lookup_ldbytes by done. rewrite ld_stbytes. case_decide; [|lia].
    replace (Z.to_nat (a + Z.of_nat i - a)) with i by lia.
    destruct (l !! i) as [x|] eqn:E; [|apply lookup_ge_None in E; lia].
    simpl. rewrite u8_small; [done|]. exact (Forall_lookup_1 _ _ _ _ Hb E).
  - rewrite (lookup_ge_None_2 l) by lia. apply lookup_ge_None_2. rewrite length_ldbytes. lia.
Qed.
