(* ===== verification/CString.v ===== *)
(** The byte and string routines of kernel/string.c, and those of user/ulib.c
    that user programs link instead.

    Pointers are addresses of [Mem.mem]; every routine is the C loop itself,
    one iteration per recursive call, over the memory the loop has produced so
    far, so overlapping arguments behave as they do in the code.  [char] is
    unsigned, as in the RISC-V ABI the Makefile builds for. *)

From S2P Require Import Prelude Mem.

(** * kernel/string.c *)

Fixpoint memset_loop (k : nat) (cdst c i : Z) (m : mem) : mem :=
  match k with
  | O => m
  | S k => memset_loop k cdst c (i + 1) (st m (cdst + i) c)
  end.

Definition memset (dst c n : Z) (m : mem) : mem :=
  memset_loop (Z.to_nat n) dst c 0 m.

Fixpoint memcmp_loop (n : nat) (s1 s2 : Z) (m : mem) : Z :=
  match n with
  | O => 0
  | S n =>
      if decide (ld m s1 <> ld m s2) then ld m s1 - ld m s2
      else memcmp_loop n (s1 + 1) (s2 + 1) m
  end.

Definition memcmp (v1 v2 n : Z) (m : mem) : Z := memcmp_loop (Z.to_nat n) v1 v2 m.

(** [while(n-- > 0) *--d = *--s;] and [while(n-- > 0) *d++ = *s++;] *)
Fixpoint copy_down (n : nat) (d s : Z) (m : mem) : mem :=
  match n with
  | O => m
  | S n => copy_down n (d - 1) (s - 1) (st m (d - 1) (ld m (s - 1)))
  end.

Fixpoint copy_up (n : nat) (d s : Z) (m : mem) : mem :=
  match n with
  | O => m
  | S n => copy_up n (d + 1) (s + 1) (st m d (ld m s))
  end.

Definition memmove (dst src n : Z) (m : mem) : mem :=
  if n =? 0 then m
  else if (src <? dst) && (src + n >? dst)
       then copy_down (Z.to_nat n) (dst + n) (src + n) m
       else copy_up (Z.to_nat n) dst src m.

Definition memcpy (dst src n : Z) (m : mem) : mem := memmove dst src n m.

Fixpoint strncmp_loop (n : nat) (p q : Z) (m : mem) : Z :=
  match n with
  | O => 0
  | S n =>
      if negb (ld m p =? 0) && (ld m p =? ld m q)
      then strncmp_loop n (p + 1) (q + 1) m
      else ld m p - ld m q
  end.

Definition strncmp (p q n : Z) (m : mem) : Z := strncmp_loop (Z.to_nat n) p q m.

(** [while(n-- > 0) *s++ = 0;] *)
Fixpoint zero_fill (n : nat) (s : Z) (m : mem) : mem :=
  match n with
  | O => m
  | S n => zero_fill n (s + 1) (st m s 0)
  end.

Fixpoint strncpy_loop (n : nat) (s t : Z) (m : mem) : mem :=
  match n with
  | O => m
  | S n =>
      let m := st m s (ld m t) in
      if ld m s =? 0 then zero_fill n (s + 1) m
      else strncpy_loop n (s + 1) (t + 1) m
  end.

Definition strncpy (s t n : Z) (m : mem) : mem := strncpy_loop (Z.to_nat n) s t m.

Fixpoint safestrcpy_loop (n : nat) (s t : Z) (m : mem) : Z * mem :=
  match n with
  | O => (s, m)
  | S n =>
      let m := st m s (ld m t) in
      if ld m s =? 0 then (s + 1, m)
      else safestrcpy_loop n (s + 1) (t + 1) m
  end.

Definition safestrcpy (s t n : Z) (m : mem) : mem :=
  if n <=? 0 then m
  else let '(s, m) := safestrcpy_loop (Z.to_nat (n - 1)) s t m in st m s 0.

(** [strlen] scans until it meets a NUL; [fuel] bounds the scan and [None]
    says that no NUL was met within it. *)
Fixpoint strlen_loop (fuel : nat) (s n : Z) (m : mem) : option Z :=
  match fuel with
  | O => None
  | S fuel => if ld m (s + n) =? 0 then Some n else strlen_loop fuel s (n + 1) m
  end.

Definition strlen (fuel : nat) (s : Z) (m : mem) : option Z := strlen_loop fuel s 0 m.

(** * user/ulib.c *)

Module Ulib.

(** [memmove] of ulib.c picks the direction by comparing the pointers only. *)
Definition memmove (vdst vsrc n : Z) (m : mem) : mem :=
  if vsrc >? vdst then copy_up (Z.to_nat n) vdst vsrc m
  else copy_down (Z.to_nat n) (vdst + n) (vsrc + n) m.

Definition memcpy (dst src n : Z) (m : mem) : mem := memmove dst src n m.

Fixpoint strcpy (fuel : nat) (s t : Z) (m : mem) : option mem :=
  match fuel with
  | O => None
  | S fuel =>
      let m := st m s (ld m t) in
      if ld m s =? 0 then Some m else strcpy fuel (s + 1) (t + 1) m
  end.

Fixpoint strcmp (fuel : nat) (p q : Z) (m : mem) : option Z :=
  match fuel with
  | O => None
  | S fuel =>
      if negb (ld m p =? 0) && (ld m p =? ld m q)
      then strcmp fuel (p + 1) (q + 1) m
      else Some (ld m p - ld m q)
  end.

(** [strchr] returns the address of the first [c] before the NUL, or 0. *)
Fixpoint strchr (fuel : nat) (s c : Z) (m : mem) : option Z :=
  match fuel with
  | O => None
  | S fuel =>
      if ld m s =? 0 then Some 0
      else if ld m s =? c then Some s else strchr fuel (s + 1) c m
  end.

(** [n = n*10 + *s++ - '0'] in [int]. *)
Fixpoint atoi_loop (fuel : nat) (s n : Z) (m : mem) : option Z :=
  match fuel with
  | O => None
  | S fuel =>
      if (48 <=? ld m s) && (ld m s <=? 57)
      then atoi_loop fuel (s + 1) (s32 (n * 10 + ld m s - 48)) m
      else Some n
  end.

Definition atoi (fuel : nat) (s : Z) (m : mem) : option Z := atoi_loop fuel s 0 m.

End Ulib.

(** * What the routines compute *)

(** The C string at [p], cut at its NUL or after [n] bytes. *)
Fixpoint cprefix (n : nat) (p : Z) (m : mem) : list Z :=
  match n with
  | O => []
  | S n => if ld m p =? 0 then [] else ld m p :: cprefix n (p + 1) m
  end.

Fixpoint lex_compare (l1 l2 : list Z) : comparison :=
  match l1, l2 with
  | [], [] => Eq
  | [], _ :: _ => Lt
  | _ :: _, [] => Gt
  | x :: l1, y :: l2 => match x ?= y with Eq => lex_compare l1 l2 | c => c end
  end.

Lemma lex_compare_eq l1 l2 : lex_compare l1 l2 = Eq <-> l1 = l2.
Proof.
  revert l2. induction l1 as [|x l1 IH]; intros [|y l2]; simpl; try (split; congruence).
  destruct (Z.compare_spec x y) as [->|H|H].
  - rewrite IH. split; congruence.
  - split; [done|]. intros [= -> _]. lia.
  - split; [done|]. intros [= -> _]. lia.
Qed.

Lemma length_cprefix n p m : (length (cprefix n p m) <= n)%nat.
Proof. revert p. induction n; intros p; simpl; [lia|]. case_match; simpl; [lia|]. specialize (IHn (p+1)). lia. Qed.

Lemma cprefix_ext n p p' m m' :
  (forall i, 0 <= i < Z.of_nat n -> ld m (p + i) = ld m' (p' + i)) ->
  cprefix n p m = cprefix n p' m'.
Proof.
  revert p p'. induction n as [|n IH]; intros p p' H; simpl; [done|].
  pose proof (H 0 ltac:(lia)) as H0. rewrite !Z.add_0_r in H0. rewrite H0.
  case_match; [done|]. f_equal. apply IH. intros i Hi.
  rewrite <- !Z.add_assoc. apply H. lia.
Qed.

Lemma ld_memset_loop k d c i m a :
  ld (memset_loop k d c i m) a =
  if decide (d + i <= a < d + i + Z.of_nat k) then u8 c else ld m a.
Proof.
  revert i m. induction k as [|k IH]; intros i m; cbn [memset_loop].
  - case_decide; [lia|done].
  - rewrite IH. repeat case_decide; try lia; try done.
    + assert (a = d + i) as -> by lia. by rewrite ld_st_eq.
    + rewrite ld_st_ne; [done|lia].
Qed.

Lemma ld_memset dst c n m a :
  ld (memset dst c n m) a = if decide (dst <= a < dst + n) then u8 c else ld m a.
Proof. unfold memset. rewrite ld_memset_loop. repeat case_decide; (done || lia). Qed.

Lemma ld_copy_up k d s m a :
  ~ (s < d < s + Z.of_nat k) ->
  ld (copy_up k d s m) a =
  if decide (d <= a < d + Z.of_nat k) then ld m (s + (a - d)) else ld m a.
Proof.
  revert d s m. induction k as [|k IH]; intros d s m H; cbn [copy_up].
  - case_decide; [lia|done].
  - rewrite IH by lia. repeat case_decide; try lia.
    + rewrite ld_st_ne by lia. f_equal. lia.
    + assert (a = d) as -> by lia. rewrite ld_st_eq, u8_ld. f_equal. lia.
    + apply ld_st_ne. lia.
Qed.

Lemma ld_copy_down k d s m a :
  ~ (d < s < d + Z.of_nat k) ->
  ld (copy_down k d s m) a =
  if decide (d - Z.of_nat k <= a < d) then ld m (s + (a - d)) else ld m a.
Proof.
  revert d s m. induction k as [|k IH]; intros d s m H; cbn [copy_down].
  - case_decide; [lia|done].
  - rewrite IH by lia. repeat case_decide; try lia.
    + rewrite ld_st_ne by lia. f_equal. lia.
    + assert (a = d - 1) as -> by lia. rewrite ld_st_eq, u8_ld. f_equal. lia.
    + apply ld_st_ne. lia.
Qed.

Lemma ld_memmove dst src n m a :
  ld (memmove dst src n m) a =
  if decide (dst <= a < dst + n) then ld m (src + (a - dst)) else ld m a.
Proof.
  unfold memmove. destruct (Z.eqb_spec n 0) as [->|Hn].
  { case_decide; [lia|done]. }
  destruct ((src <? dst) && (src + n >? dst)) eqn:E.
  - rewrite ld_copy_down by lia. repeat case_decide; try lia; try done. f_equal. lia.
  - rewrite ld_copy_up by lia. repeat case_decide; (lia || done).
Qed.

#[export] Hint Rewrite ld_memset ld_memmove : xv6.

Lemma ld_ulib_memmove dst src n m a :
  ld (Ulib.memmove dst src n m) a =
  if decide (dst <= a < dst + n) then ld m (src + (a - dst)) else ld m a.
Proof.
  unfold Ulib.memmove. destruct (src >? dst) eqn:E.
  - rewrite ld_copy_up by lia. repeat case_decide; (lia || done).
  - rewrite ld_copy_down by lia. repeat case_decide; try lia; try done. f_equal. lia.
Qed.

Lemma memcmp_loop_zero n p q m :
  memcmp_loop n p q m = 0 <-> ldbytes m p n = ldbytes m q n.
Proof.
  assert (Hs : forall r k, ldbytes m r (S k) = ld m r :: ldbytes m (r + 1) k).
  { intros r k. unfold ldbytes. rewrite <- cons_seq, <- fmap_S_seq. simpl.
    rewrite Z.add_0_r. f_equal. rewrite <- list_fmap_compose. apply list_fmap_ext.
    intros i x _. unfold compose. f_equal. lia. }
  revert p q. induction n as [|n IH]; intros p q; [done|]. rewrite !Hs. simpl.
  case_decide as E.
  - split; [intros; lia|congruence].
  - rewrite IH. assert (ld m p = ld m q) by lia. split; congruence.
Qed.

Lemma strncmp_loop_compare n p q m :
  (strncmp_loop n p q m ?= 0) = lex_compare (cprefix n p m) (cprefix n q m).
Proof.
  revert p q. induction n as [|n IH]; intros p q; [done|]. simpl.
  pose proof (ld_range m p). pose proof (ld_range m q).
  destruct (Z.eqb_spec (ld m p) 0) as [E|E]; simpl.
  - rewrite E. destruct (Z.eqb_spec (ld m q) 0) as [E'|E']; [by rewrite E'|].
    apply Z.compare_lt_iff. lia.
  - destruct (Z.eqb_spec (ld m p) (ld m q)) as [E'|E'].
    + rewrite IH, <- E'. destruct (Z.eqb_spec (ld m p) 0); [lia|]. simpl. by rewrite Z.compare_refl.
    + destruct (Z.eqb_spec (ld m q) 0) as [E2|E2]; simpl.
      * apply Z.compare_gt_iff. lia.
      * rewrite Z.compare_sub, Z.sub_0_r, <- Z.compare_sub.
        destruct (Z.compare_spec (ld m p) (ld m q)); congruence.
Qed.

Lemma ld_zero_fill n s m a :
  ld (zero_fill n s m) a = if decide (s <= a < s + Z.of_nat n) then 0 else ld m a.
Proof.
  revert s m. induction n as [|n IH]; intros s m; cbn [zero_fill].
  - case_decide; [lia|done].
  - rewrite IH. repeat case_decide; try lia; try done.
    + assert (a = s) as -> by lia. by rewrite ld_st_eq.
    + apply ld_st_ne. lia.
Qed.

Lemma strncpy_loop_spec n s t m :
  s + Z.of_nat n <= t \/ t + Z.of_nat n <= s ->
  forall a, ld (strncpy_loop n s t m) a =
    if decide (s <= a < s + Z.of_nat n)
    then default 0 (cprefix n t m !! Z.to_nat (a - s)) else ld m a.
Proof.
  revert s t m. induction n as [|n IH]; intros s t m D a; cbn [strncpy_loop cprefix].
  { case_decide; [lia|done]. }
  rewrite ld_st_eq, u8_ld. destruct (Z.eqb_spec (ld m t) 0) as [E|E].
  - rewrite ld_zero_fill, lookup_nil. repeat case_decide; try lia; try done.
    + assert (a = s) as -> by lia. by rewrite ld_st_eq, u8_ld.
    + apply ld_st_ne. lia.
  - rewrite IH by lia.
    rewrite (cprefix_ext n (t + 1) (t + 1) (st m s (ld m t)) m)
      by (intros; apply ld_st_ne; lia).
    repeat case_decide; try lia.
    + replace (Z.to_nat (a - s)) with (S (Z.to_nat (a - (s + 1)))) by lia. done.
    + assert (a = s) as -> by lia. rewrite Z.sub_diag, ld_st_eq, u8_ld. done.
    + apply ld_st_ne. lia.
Qed.

Lemma safestrcpy_loop_spec n s t m s' m' :
  s + Z.of_nat n + 1 <= t \/ t + Z.of_nat n <= s ->
  safestrcpy_loop n s t m = (s', m') ->
  s <= s' <= s + Z.of_nat n /\
  cprefix (S n) s (st m' s' 0) = cprefix n t m /\
  (forall a, ~ (s <= a < s + Z.of_nat n + 1) -> ld (st m' s' 0) a = ld m a).
Proof.
  revert s t m. induction n as [|n IH]; intros s t m D E; cbn [safestrcpy_loop] in E.
  { simplify_eq. split_and!; [lia|lia| |].
    - simpl. by rewrite ld_st_eq.
    - intros. apply ld_st_ne. lia. }
  rewrite ld_st_eq, u8_ld in E. destruct (Z.eqb_spec (ld m t) 0) as [Z0|Z0].
  - simplify_eq. split_and!; [lia|lia| |].
    + cbn [cprefix]. rewrite ld_st_ne, ld_st_eq, u8_ld by lia. by rewrite Z0.
    + intros a Ha. rewrite !ld_st_ne by lia. done.
  - apply IH in E as (Hs & Hc & Ho); [|lia]. split_and!; [lia|lia| |].
    + change (cprefix (S (S n)) s (st m' s' 0)) with
        (if ld (st m' s' 0) s =? 0 then []
         else ld (st m' s' 0) s :: cprefix (S n) (s + 1) (st m' s' 0)).
      rewrite Hc, Ho by lia. rewrite ld_st_eq, u8_ld. cbn [cprefix].
      destruct (Z.eqb_spec (ld m t) 0); [lia|]. f_equal.
      apply cprefix_ext. intros. apply ld_st_ne. lia.
    + intros a Ha. rewrite Ho by lia. apply ld_st_ne. lia.
Qed.

Lemma strlen_loop_spec fuel s n m :
  strlen_loop fuel s n m =
  (let k := length (cprefix fuel (s + n) m) in
   if decide (k < fuel)%nat then Some (n + Z.of_nat k) else None).
Proof.
  revert n. induction fuel as [|fuel IH]; intros n; cbn [strlen_loop cprefix]; [done|].
  destruct (Z.eqb_spec (ld m (s + n)) 0); cbn [length].
  - cbn zeta. case_decide; [f_equal; lia|lia].
  - rewrite IH. cbn zeta. rewrite Z.add_assoc. repeat case_decide; try lia; try done. f_equal. lia.
Qed.

(** ** Properties *)

(** C23: [memmove] copies [n] bytes from [src] to [dst] and leaves every other
    byte alone, whatever the overlap of the two ranges: each destination byte
    is the byte the source held before the call. *)
Theorem memmove_correct dst src n m a :
  ld (memmove dst src n m) a =
  if decide (dst <= a < dst + n) then ld m (src + (a - dst)) else ld m a.
Proof. apply ld_memmove. Qed.

(** The kernel's [memmove] and the one user programs link from ulib.c
    choose the copy direction by different tests, and still leave the same
    bytes everywhere. *)
Theorem memmove_kernel_ulib dst src n m a :
  ld (Ulib.memmove dst src n m) a = ld (memmove dst src n m) a.
Proof. by rewrite ld_ulib_memmove, ld_memmove. Qed.

(** The sign of [strncmp p q n] is the lexicographic order of the two C
    strings cut at [n] bytes; in particular it is zero exactly when they are
    equal. *)
Theorem strncmp_correct p q n m :
  (strncmp p q n m ?= 0) =
  lex_compare (cprefix (Z.to_nat n) p m) (cprefix (Z.to_nat n) q m).
Proof. apply strncmp_loop_compare. Qed.

(** On disjoint arguments [strncpy] fills exactly the [n] bytes at [s]:
    the string at [t] cut at [n] bytes, padded with NULs. *)
Theorem strncpy_correct s t n m :
  0 <= n -> s + n <= t \/ t + n <= s ->
  forall a, ld (strncpy s t n m) a =
    if decide (s <= a < s + n)
    then default 0 (cprefix (Z.to_nat n) t m !! Z.to_nat (a - s)) else ld m a.
Proof.
  intros Hn D a. unfold strncpy. rewrite strncpy_loop_spec by lia.
  by rewrite Z2Nat.id by done.
Qed.

Lemma strncpy_correct_witness :
  ld (strncpy 0 100 4 (stbytes ∅ 100 [97; 98; 0])) 1 = 98.
Proof.
  rewrite (strncpy_correct 0 100 4 _ ltac:(lia) ltac:(lia) 1). vm_compute. reflexivity.
Defined.

(** C40: for [n > 0], [safestrcpy] leaves a NUL-terminated string in the [n]
    bytes at [s]: the string at [t] cut at [n - 1] bytes, for ranges that do not
    overlap; no byte outside those [n] changes. *)
Theorem safestrcpy_correct s t n m :
  0 < n -> s + n <= t \/ t + n <= s ->
  cprefix (Z.to_nat n) s (safestrcpy s t n m) = cprefix (Z.to_nat (n - 1)) t m /\
  same_outside s n m (safestrcpy s t n m).
Proof.
  intros Hn D. unfold safestrcpy. destruct (Z.leb_spec n 0); [lia|].
  destruct (safestrcpy_loop _ s t m) as [s' m'] eqn:E.
  apply safestrcpy_loop_spec in E as (Hs & Hc & Ho); [|lia].
  replace (S (Z.to_nat (n - 1))) with (Z.to_nat n) in Hc by lia.
  split; [done|]. intros a Ha. apply Ho. lia.
Qed.

Lemma safestrcpy_correct_witness :
  cprefix 3 0 (safestrcpy 0 100 3 (stbytes ∅ 100 [97; 98; 99; 0])) = [97; 98].
Proof.
  destruct (safestrcpy_correct 0 100 3 (stbytes ∅ 100 [97; 98; 99; 0]) ltac:(lia) ltac:(lia)) as [H _].
  exact H.
Defined.
