(* ===== verification/Printf.v ===== *)
(** kernel/printf.c and user/printf.c: formatted output.

    Output is the list of characters passed to [consputc] or [putc].  The buffer
    of [printint] has sixteen characters; a store past its end is undefined, the
    fault [Overrun].  Other undefined cases have faults of their own: an argument
    that is missing or not of the type the conversion reads, and a read past the
    table of digits. *)

From S2P Require Import Prelude Mem CString.

Inductive fault := Overrun | BadArg | BadDigit | NoFuel.
Inductive pres (A : Type) := Text (a : A) | Fault (e : fault).
Arguments Text {A} _.
Arguments Fault {A} _.

#[export] Instance pres_ret : MRet pres := fun A a => Text a.
#[export] Instance pres_bind : MBind pres := fun A B f x =>
  match x with Text a => f a | Fault e => Fault e end.

(** An argument as passed: an integer register, or a pointer to a string. *)
Inductive arg := AInt (z : Z) | AStr (s : option (list Z)).

Definition put_digit (ch : Z) (buf : list Z) : pres (list Z) :=
  if decide (length buf < 16)%nat then Text (buf ++ [ch]) else Fault Overrun.

(** [digits[k]] *)
Definition digit (digits : list Z) (k : Z) : pres Z :=
  match zlookup digits k with Some d => Text d | None => Fault BadDigit end.

(** [do { buf[i++] = digits[x % base]; } while((x /= base) != 0);]  Seventeen
    turns are enough: the seventeenth store is out of the buffer. *)
Fixpoint digit_loop (fuel : nat) (digits : list Z) (x base : Z) (buf : list Z) : pres (list Z) :=
  match fuel with
  | O => Fault NoFuel
  | S fuel =>
      d ← digit digits (x mod base);
      buf ← put_digit d buf;
      if x / base =? 0 then Text buf else digit_loop fuel digits (x / base) base buf
  end.

(** The conversions both versions of printf know, in the order they are tested:
    the width of the argument, the base, and the characters skipped. *)
Inductive action :=
| PInt (wide : bool) (base : Z) (sign : bool) (skip : nat)
| PPtr | PStr | PPercent | PStop | PUnknown.

Definition action_of (c0 c1 c2 : Z) : action :=
  if c0 =? 100 then PInt false 10 true 0                                           (* d *)
  else if (c0 =? 108) && (c1 =? 100) then PInt true 10 true 1                      (* ld *)
  else if (c0 =? 108) && (c1 =? 108) && (c2 =? 100) then PInt true 10 true 2       (* lld *)
  else if c0 =? 117 then PInt false 10 false 0                                     (* u *)
  else if (c0 =? 108) && (c1 =? 117) then PInt true 10 false 1
  else if (c0 =? 108) && (c1 =? 108) && (c2 =? 117) then PInt true 10 false 2
  else if c0 =? 120 then PInt false 16 false 0                                     (* x *)
  else if (c0 =? 108) && (c1 =? 120) then PInt true 16 false 1
  else if (c0 =? 108) && (c1 =? 108) && (c2 =? 120) then PInt true 16 false 2
  else if c0 =? 112 then PPtr                                                      (* p *)
  else if c0 =? 115 then PStr                                                      (* s *)
  else if c0 =? 37 then PPercent                                                   (* % *)
  else if c0 =? 0 then PStop
  else PUnknown.

(** The action at a position: [fmt] starts at [c0]. *)
Definition action_at (fmt : list Z) : action :=
  action_of (default 0 (fmt !! 0%nat)) (default 0 (fmt !! 1%nat)) (default 0 (fmt !! 2%nat)).

Definition null_text : list Z := [40; 110; 117; 108; 108; 41].         (* (null) *)

(** * The kernel *)

Module Kernel.

(** "0123456789abcdef" *)
Definition digits : list Z := [48; 49; 50; 51; 52; 53; 54; 55; 56; 57; 97; 98; 99; 100; 101; 102].

(** [xx] is a [long long]. *)
Definition printint (xx base : Z) (sign : bool) : pres (list Z) :=
  let sign := sign && (xx <? 0) in
  let x := if sign then u64 (- xx) else u64 xx in
  buf ← digit_loop 17 digits x base [];
  buf ← (if sign then put_digit 45 buf else Text buf);
  Text (reverse buf).

Fixpoint printptr_loop (n : nat) (x : Z) : pres (list Z) :=
  match n with
  | O => Text []
  | S n =>
      d ← digit digits (Z.shiftr x 60);
      out ← printptr_loop n (u64 (Z.shiftl x 4));
      Text (d :: out)
  end.
Definition printptr (x : Z) : pres (list Z) :=
  out ← printptr_loop 16 (u64 x); Text (48 :: 120 :: out).

(** The argument a conversion takes, printed; and the remaining ones.  A [long
    long] holds the argument: [int] sign-extended, [uint64] reinterpreted. *)
Definition convert (a : action) (args : list arg) : pres (list Z * list arg) :=
  match a, args with
  | PInt false base sign _, AInt z :: args => out ← printint (s32 z) base sign; Text (out, args)
  | PInt true base sign _, AInt z :: args => out ← printint (s64 z) base sign; Text (out, args)
  | PPtr, AInt z :: args => out ← printptr z; Text (out, args)
  | PStr, AStr s :: args => Text (default null_text s, args)
  | PPercent, _ => Text ([37], args)
  | _, _ => Fault BadArg
  end.
Definition skip_of (a : action) : nat := match a with PInt _ _ _ n => n | _ => 0 end.

Fixpoint printf_loop (fuel : nat) (fmt : list Z) (args : list arg) : pres (list Z) :=
  match fuel with
  | O => Fault NoFuel
  | S fuel =>
      match fmt with
      | [] => Text []
      | cx :: fmt =>
          if negb (cx =? 37) then out ← printf_loop fuel fmt args; Text (cx :: out)
          else
            match action_at fmt with
            | PStop => Text []
            | PUnknown => out ← printf_loop fuel (drop 1 fmt) args; Text (37 :: default 0 (head fmt) :: out)
            | a =>
                '(txt, args) ← convert a args;
                out ← printf_loop fuel (drop (S (skip_of a)) fmt) args;
                Text (txt ++ out)
            end
      end
  end.

Definition printf (fmt : list Z) (args : list arg) : pres (list Z) :=
  printf_loop (S (length fmt)) fmt args.

End Kernel.

(** * User programs *)

Module User.

(** "0123456789ABCDEF" *)
Definition digits : list Z := [48; 49; 50; 51; 52; 53; 54; 55; 56; 57; 65; 66; 67; 68; 69; 70].

(** [xx] is an [int]. *)
Definition printint (xx base : Z) (sgn : bool) : pres (list Z) :=
  let neg := sgn && (xx <? 0) in
  let x := if neg then u32 (- xx) else u32 xx in
  buf ← digit_loop 17 digits x base [];
  buf ← (if neg then put_digit 45 buf else Text buf);
  Text (reverse buf).

Fixpoint printptr_loop (n : nat) (x : Z) : pres (list Z) :=
  match n with
  | O => Text []
  | S n =>
      d ← digit digits (Z.shiftr x 60);
      out ← printptr_loop n (u64 (Z.shiftl x 4));
      Text (d :: out)
  end.
Definition printptr (x : Z) : pres (list Z) :=
  out ← printptr_loop 16 (u64 x); Text (48 :: 120 :: out).

(** [printint] takes an [int], so an argument read as [uint64] is cut to 32 bits. *)
Definition convert (a : action) (args : list arg) : pres (list Z * list arg) :=
  match a, args with
  | PInt _ base sign _, AInt z :: args => out ← printint (s32 z) base sign; Text (out, args)
  | PPtr, AInt z :: args => out ← printptr z; Text (out, args)
  | PStr, AStr s :: args => Text (default null_text s, args)
  | PPercent, _ => Text ([37], args)
  | _, _ => Fault BadArg
  end.

(** [state] is whether a [%] has just been seen. *)
Fixpoint vprintf_loop (fuel : nat) (state : bool) (fmt : list Z) (args : list arg) : pres (list Z) :=
  match fuel with
  | O => Fault NoFuel
  | S fuel =>
      match fmt with
      | [] => Text []
      | c0 :: rest =>
          if negb state
          then
            if c0 =? 37 then vprintf_loop fuel true rest args
            else out ← vprintf_loop fuel false rest args; Text (c0 :: out)
          else
            match action_at fmt with
            | PStop | PUnknown => out ← vprintf_loop fuel false rest args; Text (37 :: c0 :: out)
            | a =>
                '(txt, args) ← convert a args;
                out ← vprintf_loop fuel false (drop (Kernel.skip_of a) rest) args;
                Text (txt ++ out)
            end
      end
  end.

Definition vprintf (fmt : list Z) (args : list arg) : pres (list Z) :=
  vprintf_loop (S (length fmt)) false fmt args.

End User.

(** * The fuel is enough *)

Lemma bind_no_fuel {A B} (x : pres A) (f : A -> pres B) :
  x <> Fault NoFuel -> (forall a, x = Text a -> f a <> Fault NoFuel) -> (x ≫= f) <> Fault NoFuel.
Proof. destruct x as [a|e]; cbn; [auto|congruence]. Qed.

Lemma digit_loop_fuel fuel digits x base buf :
  (length buf <= 16)%nat -> (17 <= length buf + fuel)%nat -> digit_loop fuel digits x base buf <> Fault NoFuel.
Proof.
  revert x buf. induction fuel as [|fuel IH]; intros x buf Hl Hf; [lia|]. cbn [digit_loop].
  apply bind_no_fuel; [unfold digit; by case_match|]. intros d _.
  apply bind_no_fuel; [unfold put_digit; by case_decide|]. intros buf' E.
  case_match; [done|]. unfold put_digit in E. case_decide; [|done]. injection E as <-.
  apply IH; rewrite length_app; cbn; lia.
Qed.

Lemma kernel_printint_fuel xx base sign : Kernel.printint xx base sign <> Fault NoFuel.
Proof.
  apply bind_no_fuel; [apply digit_loop_fuel; cbn; lia|]. intros buf _.
  apply bind_no_fuel; [|done]. case_match; [|done]. unfold put_digit. by case_decide.
Qed.
Lemma kernel_printptr_fuel x : Kernel.printptr x <> Fault NoFuel.
Proof.
  unfold Kernel.printptr. generalize (u64 x). generalize 16%nat. intros n y. apply bind_no_fuel; [|done].
  revert y. induction n as [|n IH]; intros y; [done|]. cbn [Kernel.printptr_loop].
  apply bind_no_fuel; [unfold digit; by case_match|]. intros d _. by apply bind_no_fuel.
Qed.
Lemma kernel_convert_fuel a args : Kernel.convert a args <> Fault NoFuel.
Proof.
  destruct a as [[] base sign n| | | | |], args as [|[z|s] args]; try done;
    (apply bind_no_fuel; [apply kernel_printint_fuel || apply kernel_printptr_fuel|done]).
Qed.

(** The loop of printf goes over the format once. *)
Theorem printf_returns fmt args : Kernel.printf fmt args <> Fault NoFuel.
Proof.
  unfold Kernel.printf. assert (length fmt < S (length fmt))%nat as Hf by lia. revert Hf.
  generalize (S (length fmt)) as fuel. intros fuel. revert fmt args.
  induction fuel as [|fuel IH]; intros fmt args Hf; [lia|]. cbn [Kernel.printf_loop].
  destruct fmt as [|cx fmt]; [done|]. cbn [length] in Hf. destruct (negb (cx =? 37)).
  { apply bind_no_fuel; [apply IH; lia|done]. }
  destruct (action_at fmt); try done;
    try (apply bind_no_fuel; [apply kernel_convert_fuel|]; intros [txt args'] _);
    (apply bind_no_fuel; [apply IH; rewrite length_drop; lia|done]).
Qed.

(** * Numerals *)

(** The value of digits, the most significant first, and canonical numerals. *)
Definition value (base : Z) (ds : list Z) : Z := foldl (fun a d => a * base + d) 0 ds.

Record numeral (base x : Z) (ds : list Z) : Prop := {
  nu_digits : Forall (fun d => 0 <= d < base) ds;
  nu_value : value base ds = x;
  nu_lead : ds = [0] \/ exists d ds', ds = d :: ds' /\ d <> 0 }.

Definition text (digits : list Z) (neg : bool) (ds : list Z) : list Z :=
  (if neg then [45] else []) ++ ((fun d => default 0 (zlookup digits d)) <$> ds).

Lemma value_snoc base ds d : value base (ds ++ [d]) = value base ds * base + d.
Proof. unfold value. by rewrite foldl_app. Qed.

Lemma digit_loop_ok digits base fuel x buf :
  length digits = 16%nat -> 2 <= base <= 16 -> 0 <= x -> (length buf + fuel = 17)%nat ->
  (length buf <= 16)%nat -> x <> 0 \/ buf = [] ->
  if decide (x < base ^ (Z.of_nat fuel - 1))
  then exists ds, digit_loop fuel digits x base buf = Text (buf ++ reverse (text digits false ds)) /\
         numeral base x ds /\ base ^ (Z.of_nat (length ds) - 1) <= Z.max x 1 /\ x < base ^ Z.of_nat (length ds)
  else digit_loop fuel digits x base buf = Fault Overrun.
Proof.
  intros Ld Hb. revert x buf. induction fuel as [|fuel IH]; intros x buf Hx Hf Hl Hn; [lia|].
  replace (Z.of_nat (S fuel) - 1) with (Z.of_nat fuel) by lia.
  assert (0 <= x mod base < base) as Hm by (apply Z.mod_pos_bound; lia).
  destruct (zlookup_is_Some digits (x mod base)) as [d Hd]; [lia|].
  cbn [digit_loop]. unfold digit. rewrite Hd. cbn [mbind pres_bind]. unfold put_digit.
  destruct (decide (length buf < 16)%nat) as [D|D]; cbn [mbind pres_bind].
  2:{ assert (fuel = 0%nat) as -> by lia. rewrite decide_False; [done|]. destruct Hn as [Hn| ->]; [lia|cbn in D; lia]. }
  pose proof (Z.div_mod x base ltac:(lia)) as Hdm. pose proof (Z.div_pos x base ltac:(lia) ltac:(lia)) as Hq.
  destruct (x / base =? 0) eqn:E.
  - assert (x < base) by (apply Z.eqb_eq, Z.div_small_iff in E; lia). rewrite Z.mod_small in Hd by lia.
    rewrite decide_True; [exists [x]; split_and!|].
    + unfold text. cbn. by rewrite Hd.
    + split; [by repeat constructor|by unfold value; cbn; lia|]. destruct (decide (x = 0)) as [->|]; [by left|right; eauto].
    + cbn. lia.
    + cbn. lia.
    + assert (base ^ 1 <= base ^ Z.of_nat fuel) by (apply Z.pow_le_mono_r; lia). lia.
  - apply Z.eqb_neq in E. specialize (IH (x / base) (buf ++ [d]) Hq).
    rewrite length_app in IH. cbn [length] in IH. specialize (IH ltac:(lia) ltac:(lia) (or_introl E)).
    assert (base ^ Z.of_nat fuel = base * base ^ (Z.of_nat fuel - 1)) as Hp.
    { rewrite <-Z.pow_succ_r by lia. f_equal. lia. }
    assert (x < base ^ Z.of_nat fuel <-> x / base < base ^ (Z.of_nat fuel - 1)) as Hiff.
    { rewrite Hp. split; [intros; apply Z.div_lt_upper_bound; lia|]. intros. nia. }
    destruct (decide (x / base < _)) as [D'|D'].
    + rewrite decide_True by by apply Hiff. destruct IH as (ds & -> & [N1 N2 N3] & L1 & L2).
      exists (ds ++ [x mod base]). split_and!.
      * unfold text. cbn [app]. rewrite fmap_app. cbn. by rewrite Hd, reverse_snoc, <-app_assoc.
      * split.
        -- apply Forall_app. split; [done|]. by apply Forall_singleton.
        -- rewrite value_snoc, N2. lia.
        -- right. destruct N3 as [->|(d' & ds' & -> & N3)]; [|by exists d', (ds' ++ [x mod base])].
           unfold value in N2. cbn in N2. lia.
      * rewrite length_app. cbn [length]. destruct ds as [|d0 ds].
        { unfold value in N2. cbn in N2. lia. }
        cbn [length] in *. replace (Z.of_nat (S (length ds) + 1) - 1) with (Z.succ (Z.of_nat (S (length ds)) - 1)) by lia.
        rewrite Z.pow_succ_r by lia. nia.
      * rewrite length_app. cbn [length]. replace (Z.of_nat (length ds + 1)) with (Z.succ (Z.of_nat (length ds))) by lia.
        rewrite Z.pow_succ_r by lia. nia.
    + rewrite decide_False by (rewrite Hiff; done). done.
Qed.

Lemma printint_ok (xx base : Z) (sign : bool) :
  base = 10 \/ base = 16 -> - 2 ^ 63 <= xx < 2 ^ 63 ->
  let neg := sign && (xx <? 0) in
  let x := if neg then - xx else u64 xx in
  if decide (x < base ^ (if neg then 15 else 16))
  then exists ds, Kernel.printint xx base sign = Text (text Kernel.digits neg ds) /\ numeral base x ds
  else Kernel.printint xx base sign = Fault Overrun.
Proof.
  intros Hb Hx neg x. unfold Kernel.printint. fold neg.
  assert ((if neg then u64 (- xx) else u64 xx) = x /\ 0 <= x) as [-> Hx0].
  { subst x. destruct neg eqn:E; [|split; [done|apply u64_range]]. subst neg.
    apply andb_true_iff in E as [_ E]. apply Z.ltb_lt in E. rewrite u64_small by lia. lia. }
  pose proof (digit_loop_ok Kernel.digits base 17 x [] eq_refl ltac:(lia) Hx0 eq_refl ltac:(cbn; lia) (or_intror eq_refl)) as H.
  change (Z.of_nat 17 - 1) with 16 in H. clearbody neg x. destruct (decide (x < base ^ 16)) as [D|D].
  - destruct H as (ds & -> & N & L1 & L2). cbn [app mbind pres_bind].
    assert (length (reverse (text Kernel.digits false ds)) = length ds) as Hl.
    { rewrite length_reverse. unfold text. cbn. apply length_fmap. }
    destruct neg; [|rewrite decide_True by done; exists ds; cbn [mbind pres_bind]; by rewrite reverse_involutive].
    unfold put_digit. rewrite Hl. destruct (decide (x < base ^ 15)) as [D'|D'].
    + assert (length ds < 16)%nat as Hlt.
      { destruct (decide (length ds < 16)%nat) as [G|G]; [exact G|].
        assert (base ^ 15 <= base ^ (Z.of_nat (length ds) - 1)) by (apply Z.pow_le_mono_r; clear -Hb G; lia).
        assert (1 < base ^ 15) by (apply Z.pow_gt_1; clear -Hb; lia). revert D' H H0 L1. clear. generalize (base ^ 15), (base ^ (Z.of_nat (length ds) - 1)). lia. }
      rewrite decide_True by exact Hlt.
      exists ds. split; [|done]. cbn [mbind pres_bind]. by rewrite reverse_snoc, reverse_involutive.
    + rewrite decide_False; [done|]. intros G. apply D'. eapply Z.lt_le_trans; [exact L2|].
      apply Z.pow_le_mono_r; clear -Hb G; lia.
  - rewrite H, decide_False; [done|]. assert (base ^ 15 <= base ^ 16) by (apply Z.pow_le_mono_r; clear -Hb; lia).
    destruct neg; [|exact D]. intros D'. apply D. by eapply Z.lt_le_trans.
Qed.

(** C27: what the kernel's [printint] prints, and when it can.  For decimal and
    hexadecimal, the text is the canonical numeral of the value with a minus sign
    for a negative signed one, provided it fits the sixteen characters of the
    buffer; every longer text, which a 64-bit decimal can have, is a store past
    the end of the buffer, and there is no other fault. *)
Theorem printint_exact (xx base : Z) (sign : bool) :
  base = 10 \/ base = 16 -> - 2 ^ 63 <= xx < 2 ^ 63 ->
  let neg := sign && (xx <? 0) in
  let x := if neg then - xx else u64 xx in
  if decide (x < base ^ (if neg then 15 else 16))
  then exists ds, Kernel.printint xx base sign = Text (text Kernel.digits neg ds) /\ numeral base x ds
  else Kernel.printint xx base sign = Fault Overrun.
Proof. exact (printint_ok xx base sign). Qed.

(** A kernel address prints in decimal with a buffer to spare, and the largest
    32-bit number printed with [%u] does not. *)
Lemma printint_exact_witness :
  (exists ds, Kernel.printint 0x80000000 10 true = Text (text Kernel.digits false ds) /\ numeral 10 0x80000000 ds) /\
  Kernel.printint (-1) 10 false = Fault Overrun.
Proof.
  split.
  - apply (printint_exact 0x80000000 10 true); [by left|lia].
  - apply (printint_exact (-1) 10 false); [by left|lia].
Defined.

Lemma u32_printed xx base sign :
  base = 10 -> - 2 ^ 31 <= xx < 2 ^ 31 ->
  exists ds, User.printint xx base sign = Text (text User.digits (sign && (xx <? 0)) ds) /\
    numeral base (if sign && (xx <? 0) then - xx else u32 xx) ds /\ (length ds <= 10)%nat.
Proof.
  intros -> Hx. unfold User.printint. set (neg := sign && (xx <? 0)).
  assert ((if neg then u32 (- xx) else u32 xx) = (if neg then - xx else u32 xx)) as Eu.
  { destruct neg eqn:E; [|done]. subst neg. apply andb_true_iff in E as [_ E]. apply Z.ltb_lt in E. apply u32_small. lia. }
  assert (0 <= (if neg then - xx else u32 xx) < 2 ^ 32) as Hr by (rewrite <-Eu; destruct neg; apply u32_range).
  rewrite Eu. set (x := if neg then - xx else u32 xx) in *. clearbody x neg.
  pose proof (digit_loop_ok User.digits 10 17 x [] eq_refl ltac:(lia) (proj1 Hr) eq_refl ltac:(cbn; lia) (or_intror eq_refl)) as H.
  rewrite decide_True in H by (change (Z.of_nat 17 - 1) with 16; lia).
  destruct H as (ds & -> & N & L1 & L2). cbn [app mbind pres_bind].
  assert (length ds <= 10)%nat as Hl.
  { destruct (decide (length ds <= 10)%nat); [done|].
    assert (10 ^ 10 <= 10 ^ (Z.of_nat (length ds) - 1)) by (apply Z.pow_le_mono_r; lia). lia. }
  exists ds. destruct neg; [|split; [cbn [mbind pres_bind]; by rewrite reverse_involutive|done]].
  unfold put_digit. rewrite decide_True.
  - split; [|done]. cbn [mbind pres_bind]. by rewrite reverse_snoc, reverse_involutive.
  - rewrite length_reverse. unfold text. cbn. rewrite length_fmap. lia.
Qed.

Lemma dec_digit d :
  0 <= d < 10 -> zlookup User.digits d = Some (48 + d) /\ zlookup Kernel.digits d = Some (48 + d).
Proof.
  intros H. assert (d = 0 \/ d = 1 \/ d = 2 \/ d = 3 \/ d = 4 \/ d = 5 \/ d = 6 \/ d = 7 \/ d = 8 \/ d = 9) as H0 by lia.
  clear H. by repeat destruct H0 as [->|H0]; [..|subst].
Qed.

(** Both tables have the same decimal digits. *)
Lemma digit_loop_dec fuel x buf :
  0 <= x -> digit_loop fuel Kernel.digits x 10 buf = digit_loop fuel User.digits x 10 buf.
Proof.
  revert x buf. induction fuel as [|fuel IH]; intros x buf Hx; [done|]. cbn [digit_loop]. unfold digit.
  assert (zlookup Kernel.digits (x mod 10) = zlookup User.digits (x mod 10)) as ->.
  { destruct (dec_digit (x mod 10)) as [-> ->]; [|done]. apply Z.mod_pos_bound. lia. }
  destruct (zlookup User.digits (x mod 10)); [|done]. cbn [mbind pres_bind].
  destruct (put_digit z buf); [|done]. cbn [mbind pres_bind]. case_match; [done|]. apply IH.
  apply Z.div_pos; lia.
Qed.

Lemma foldl_digits_ge ds n : 0 <= n -> Forall (fun d => 0 <= d < 10) ds -> n <= foldl (fun a d => a * 10 + d) n ds.
Proof.
  intros Hn Hd. revert n Hn. induction Hd as [|d ds Hd _ IH]; intros n Hn; cbn; [lia|].
  specialize (IH (n * 10 + d)). lia.
Qed.

Lemma digit_char d : 0 <= d < 10 -> default 0 (zlookup User.digits d) = 48 + d.
Proof. intros H. by rewrite (proj1 (dec_digit d H)). Qed.

Lemma atoi_loop_ok ds fuel s n m :
  (length ds < fuel)%nat ->
  Forall (fun d => 0 <= d < 10) ds -> 0 <= n -> foldl (fun a d => a * 10 + d) n ds < 2 ^ 31 ->
  Ulib.atoi_loop fuel s n (stbytes m s (text User.digits false ds ++ [0])) =
  Some (foldl (fun a d => a * 10 + d) n ds).
Proof.
  intros Hf Hd. revert fuel s n m Hf. induction Hd as [|d ds Hd Hds IH]; intros [|fuel] s n m Hf Hn Hv; [cbn in Hf; lia| |cbn in Hf; lia|].
  - cbn [length Ulib.atoi_loop text app fmap list_fmap]. rewrite ld_stbytes. cbn [length].
    rewrite decide_True by lia. by rewrite Z.sub_diag.
  - cbn [length foldl] in *. unfold text in *. cbn [app fmap list_fmap] in *. rewrite digit_char by done.
    assert (ld (stbytes m s (48 + d :: ((fun d => default 0 (zlookup User.digits d)) <$> ds) ++ [0])) s = 48 + d) as Hl.
    { rewrite ld_stbytes. cbn [length]. rewrite decide_True by lia. rewrite Z.sub_diag. cbn. apply u8_small. lia. }
    cbn [Ulib.atoi_loop]. rewrite Hl.
    destruct (Z.leb_spec 48 (48 + d)); [|lia]. destruct (Z.leb_spec (48 + d) 57); [|lia]. cbn [andb].
    replace (n * 10 + (48 + d) - 48) with (n * 10 + d) by lia.
    pose proof (foldl_digits_ge ds (n * 10 + d) ltac:(lia) Hds). rewrite s32_small by lia.
    cbn [stbytes]. apply IH; [cbn in Hf; lia|lia..].
Qed.

(** C33: decimal output.  For every [int] the kernel and the user library print
    the same text, at most ten digits and a sign, and [atoi] reads the text of a
    nonnegative one back to the number. *)
Theorem print_atoi_roundtrip (xx : Z) :
  - 2 ^ 31 <= xx < 2 ^ 31 ->
  exists txt, User.printint xx 10 true = Text txt /\ Kernel.printint xx 10 true = Text txt /\
    (length txt <= 11)%nat /\
    (0 <= xx -> forall s m, Ulib.atoi (S (length txt)) s (stbytes m s (txt ++ [0])) = Some xx).
Proof.
  intros Hx. destruct (u32_printed xx 10 true eq_refl Hx) as (ds & E & [N1 N2 N3] & Hl).
  exists (text User.digits (true && (xx <? 0)) ds). split; [done|]. cbn [andb] in *. split; [|split].
  - rewrite <-E. unfold Kernel.printint, User.printint. cbn [andb].
    assert ((if xx <? 0 then u64 (- xx) else u64 xx) = (if xx <? 0 then u32 (- xx) else u32 xx)) as ->.
    { destruct (Z.ltb_spec xx 0); rewrite u64_small, u32_small; lia. }
    rewrite digit_loop_dec; [done|]. destruct (xx <? 0); apply u32_range.
  - unfold text. rewrite length_app, length_fmap. destruct (xx <? 0); cbn; lia.
  - intros H0 s m. destruct (Z.ltb_spec xx 0); [lia|]. unfold Ulib.atoi.
    replace (length (text User.digits false ds)) with (length ds) by (unfold text; cbn; by rewrite length_fmap).
    rewrite u32_small in N2 by lia. unfold value in N2. rewrite atoi_loop_ok by (done || lia). by rewrite N2.
Qed.

Lemma print_atoi_roundtrip_witness : exists txt,
  User.printint 2024 10 true = Text txt /\ txt = [50; 48; 50; 52] /\
  Ulib.atoi 5 0 (stbytes ∅ 0 (txt ++ [0])) = Some 2024.
Proof.
  destruct (print_atoi_roundtrip 2024) as (txt & E & _ & _ & H); [lia|]. exists txt.
  assert (txt = [50; 48; 50; 52]) as -> by (vm_compute in E; congruence).
  split_and!; [exact E|reflexivity|]. apply (H ltac:(lia) 0 ∅).
Defined.

(** A format that prints: plain characters, and conversions that can be told
    apart from whatever follows and whose arguments print. *)
Inductive prints : list Z -> list arg -> Prop :=
| pr_nil : prints [] []
| pr_char c f xs : c <> 37 -> prints f xs -> prints (c :: f) xs
| pr_conv conv a txt xs f ys :
    (forall rest, action_at (conv ++ rest) = a) -> length conv = S (Kernel.skip_of a) ->
    a <> PStop -> a <> PUnknown -> (forall rest, Kernel.convert a (xs ++ rest) = Text (txt, rest)) ->
    prints f ys -> prints (37 :: conv ++ f) (xs ++ ys).

Lemma printf_u_fault fuel n after args :
  2 ^ 31 <= n < 2 ^ 32 -> Kernel.printf_loop (S fuel) (37 :: 117 :: after) (AInt n :: args) = Fault Overrun.
Proof.
  intros Hn. assert (s32 n = n - 2 ^ 32) as Es by (unfold s32; zdm).
  pose proof (printint_ok (s32 n) 10 false (or_introl eq_refl) ltac:(rewrite Es; lia)) as H.
  cbn [andb] in H. rewrite decide_False in H.
  2:{ rewrite Es. unfold u64. zdm. }
  cbn [app Kernel.printf_loop]. change (negb (37 =? 37)) with false. cbv iota.
  change (action_at (117 :: after)) with (PInt false 10 false 0). cbv iota. unfold Kernel.convert. by rewrite H.
Qed.

(** C38: [%u] in the kernel.  A 32-bit argument with its top bit set is read as
    [int] and sign-extended before it is printed unsigned, and its twenty digits
    are stored past the end of the buffer.  This is so wherever the [%u] stands,
    after any text and conversions that print and before any others. *)
Theorem printf_u_overruns (n : Z) (before after : list Z) (xs args : list arg) :
  2 ^ 31 <= n < 2 ^ 32 -> prints before xs ->
  Kernel.printf (before ++ 37 :: 117 :: after) (xs ++ AInt n :: args) = Fault Overrun.
Proof.
  intros Hn Hb. unfold Kernel.printf.
  set (fmt := before ++ 37 :: 117 :: after).
  assert (length before < S (length fmt))%nat as Hf by (unfold fmt; rewrite length_app; lia).
  revert Hf. generalize (S (length fmt)) as fuel. subst fmt.
  induction Hb as [|c f xs Hc _ IH|conv a txt xs f ys Ha Hl N1 N2 Ht _ IH]; intros [|fuel] Hf; cbn [length] in Hf; try lia.
  - by apply printf_u_fault.
  - cbn [app Kernel.printf_loop]. destruct (Z.eqb_spec c 37) as [->|_]; [done|]. cbn [negb]. rewrite IH by lia. done.
  - rewrite length_app in Hf. cbn [app Kernel.printf_loop]. change (negb (37 =? 37)) with false. cbv iota.
    rewrite <-!app_assoc, Ha.
    assert (forall rest, drop (S (Kernel.skip_of a)) (conv ++ rest) = rest) as Hd by (intros; by rewrite <-Hl, drop_app_length).
    destruct a; try done; rewrite Ht; cbn [mbind pres_bind]; rewrite Hd, IH by lia; done.
Qed.

(** "%d n=%u." *)
Lemma printf_u_overruns_witness :
  Kernel.printf [37; 100; 32; 110; 61; 37; 117; 46] [AInt (-5); AInt 0xFFFFFFFF] = Fault Overrun.
Proof.
  apply (printf_u_overruns 0xFFFFFFFF [37; 100; 32; 110; 61] [46] [AInt (-5)] []); [lia|].
  apply (pr_conv [100] (PInt false 10 true 0) [45; 53] [AInt (-5)] [32; 110; 61] []);
    [reflexivity|reflexivity|discriminate|discriminate|reflexivity|]. repeat constructor; discriminate.
Defined.
