(* ===== verification/Grep.v ===== *)
(** user/grep.c: the regular expression matcher and the line filter.

    A C string is the list of its bytes before the NUL, a pointer into it the
    rest of the list.  The recursion of [matchhere] is on the pattern, the loops
    of [matchstar] and [match] on the text.  [lang] gives patterns their usual
    meaning, independently of the matcher: a list of items, each one character
    or a starred character, and the anchors. *)

From S2P Require Import Prelude.

(** * The matcher *)

Definition fits (c x : Z) : bool := (c =? 46) || (c =? x).        (* '.' *)

(** [matchstar(c, re, text)]; [here] is [matchhere(re, .)]. *)
Fixpoint matchstar (here : list Z -> bool) (c : Z) (text : list Z) : bool :=
  if here text then true
  else
    match text with
    | [] => false
    | x :: text => if (x =? c) || (c =? 46) then matchstar here c text else false
    end.

Fixpoint matchhere (re text : list Z) : bool :=
  match re with
  | [] => true
  | c :: re1 =>
      match re1 with
      | 42 :: re2 => matchstar (matchhere re2) c text              (* '*' *)
      | _ =>
          if (c =? 36) && bool_decide (re1 = []) then bool_decide (text = [])  (* '$' *)
          else
            match text with
            | [] => false
            | x :: text => if fits c x then matchhere re1 text else false
            end
      end
  end.

(** The loop of [match]: every suffix, the empty one included. *)
Fixpoint match_loop (re text : list Z) : bool :=
  if matchhere re text then true
  else match text with [] => false | _ :: text => match_loop re text end.

Definition match_ (re text : list Z) : bool :=
  match re with
  | 94 :: re => matchhere re text                                  (* '^' *)
  | _ => match_loop re text
  end.

(** * The filter *)

Definition BUFSZ : nat := 1024.

(** [strchr(p, '\n')]: the bytes before it and those after it. *)
Fixpoint strchr_nl (p : list Z) : option (list Z * list Z) :=
  match p with
  | [] => None
  | x :: p =>
      if x =? 0 then None
      else if x =? 10 then Some ([], p)
      else '(l, r) ← strchr_nl p; Some (x :: l, r)
  end.

(** The inner loop: the output and what is left from [p] on. *)
Fixpoint scan_lines (fuel : nat) (pattern p : list Z) : option (list Z * list Z) :=
  match fuel with
  | O => None
  | S fuel =>
      match strchr_nl p with
      | None => Some ([], p)
      | Some (l, r) =>
          '(out, rest) ← scan_lines fuel pattern r;
          Some ((if match_ pattern l then l ++ [10] else []) ++ out, rest)
      end
  end.

(** [read(fd, buf, n)] on a descriptor that delivers its bytes in the given
    pieces, as a file, a pipe or the console does. *)
Definition read (n : nat) (src : list (list Z)) : list Z * list (list Z) :=
  match src with
  | [] => ([], [])
  | x :: src => if decide (length x <= n)%nat then (x, src) else (take n x, drop n x :: src)
  end.

(** [kept] is the buffer, [m] bytes long. *)
Fixpoint grep_loop (fuel : nat) (pattern : list Z) (src : list (list Z)) (kept : list Z) : option (list Z) :=
  match fuel with
  | O => None
  | S fuel =>
      let '(got, src) := read (BUFSZ - length kept - 1) src in
      match got with
      | [] => Some []
      | _ =>
          let p := kept ++ got in
          '(out, rest) ← scan_lines (S (length p)) pattern p;
          out' ← grep_loop fuel pattern src rest;
          Some (out ++ out')
      end
  end.

Definition grep (pattern : list Z) (src : list (list Z)) : option (list Z) :=
  grep_loop (S (length (mjoin src))) pattern src [].

(** * What a pattern means *)

Inductive item := One (c : Z) | Star (c : Z).

(** The items of a pattern without its leading [^], and whether it ends in [$]. *)
Fixpoint items (re : list Z) : list item * bool :=
  match re with
  | [] => ([], false)
  | c :: re1 =>
      match re1 with
      | 42 :: re2 => (Star c :: (items re2).1, (items re2).2)
      | _ => if decide (c = 36 /\ re1 = []) then ([], true)
             else (One c :: (items re1).1, (items re1).2)
      end
  end.

Inductive lang : list item -> list Z -> Prop :=
| lang_nil : lang [] []
| lang_one c x its w : c = 46 \/ c = x -> lang its w -> lang (One c :: its) (x :: w)
| lang_star c u its w : Forall (fun x => c = 46 \/ c = x) u -> lang its w -> lang (Star c :: its) (u ++ w).

(** A prefix of the text is in the language, all of it if the pattern ends in [$]. *)
Definition prefix_in (re text : list Z) : Prop :=
  exists w rest, text = w ++ rest /\ lang (items re).1 w /\ ((items re).2 = true -> rest = []).

Lemma fits_iff c x : fits c x = true <-> c = 46 \/ c = x.
Proof. unfold fits. rewrite orb_true_iff, !Z.eqb_eq. done. Qed.

Lemma matchstar_iff here c text :
  matchstar here c text = true <->
  exists u t, text = u ++ t /\ Forall (fun x => c = 46 \/ c = x) u /\ here t = true.
Proof.
  induction text as [|x text IH]; cbn [matchstar].
  - destruct (here []) eqn:E; split; try done.
    + intros _. by exists [], [].
    + intros (u & t & Ht & _ & H). symmetry in Ht. apply app_eq_nil in Ht as [-> ->]. congruence.
  - destruct (here (x :: text)) eqn:E.
    { split; [|done]. intros _. by exists [], (x :: text). }
    transitivity ((c = 46 \/ c = x) /\ exists u t, text = u ++ t /\ Forall (fun x => c = 46 \/ c = x) u /\ here t = true).
    + rewrite <-IH, <-fits_iff. unfold fits. rewrite (Z.eqb_sym c x), orb_comm.
      destruct (_ || _); naive_solver.
    + split.
      * intros (F & u & t & -> & Hu & Ht). exists (x :: u), t. auto.
      * intros ([|y u] & t & Et & Hu & Ht); cbn in Et; [congruence|]. injection Et as -> ->.
        inversion_clear Hu. split; [done|]. by exists u, t.
Qed.

Lemma items_star c re : items (c :: 42 :: re) = (Star c :: (items re).1, (items re).2).
Proof. done. Qed.

(** The first two characters of a pattern decide the case. *)
Lemma re_cases (c : Z) (re : list Z) :
  (exists re2, re = 42 :: re2) \/
  (forall text, matchhere (c :: re) text =
     if (c =? 36) && bool_decide (re = []) then bool_decide (text = [])
     else match text with [] => false | x :: text => if fits c x then matchhere re text else false end) /\
  items (c :: re) = (if decide (c = 36 /\ re = []) then ([], true) else (One c :: (items re).1, (items re).2)).
Proof.
  destruct re as [|z re]; [by right|]. destruct (decide (z = 42)) as [->|N]; [left; by eexists|right].
  split; [intros text|]; cbn [matchhere items].
  all: destruct z as [|p|p]; try done; do 6 (try destruct p as [p|p|]); done.
Qed.

Lemma prefix_star c re text :
  prefix_in (c :: 42 :: re) text <->
  exists u t, text = u ++ t /\ Forall (fun x => c = 46 \/ c = x) u /\ prefix_in re t.
Proof.
  unfold prefix_in. rewrite items_star. cbn [fst snd]. split.
  - intros (w & rest & -> & L & E). inversion L as [| |? u ? w' Hu L']; subst.
    exists u, (w' ++ rest). rewrite <-app_assoc. split_and!; [done..|]. by exists w', rest.
  - intros (u & t & -> & Hu & w & rest & -> & L & E). exists (u ++ w), rest. rewrite <-app_assoc.
    split_and!; [done| |done]. by constructor.
Qed.

Lemma matchhere_iff re text : matchhere re text = true <-> prefix_in re text.
Proof.
  remember (length re) as n eqn:Hn. revert re text Hn. induction (lt_wf n) as [n _ IH]. intros re text ->.
  destruct re as [|c re].
  { split; [|done]. intros _. exists [], text. split_and!; [done|constructor|done]. }
  destruct (re_cases c re) as [[re2 ->]|[Em Ei]].
  { rewrite prefix_star. change (matchhere (c :: 42 :: re2) text) with (matchstar (matchhere re2) c text).
    rewrite matchstar_iff. setoid_rewrite (IH (length re2)); [done|cbn; lia|done]. }
  rewrite Em. unfold prefix_in. rewrite Ei. case_decide as D.
  - destruct D as [-> ->]. cbn. rewrite bool_decide_eq_true. split.
    + intros ->. exists [], []. split_and!; [done|constructor|done].
    + intros (w & rest & -> & L & E). rewrite (E eq_refl). inversion L. by rewrite app_nil_r.
  - assert ((c =? 36) && bool_decide (re = []) = false) as ->.
    { apply not_true_is_false. rewrite andb_true_iff, Z.eqb_eq, bool_decide_eq_true. done. }
    destruct text as [|x text]; cbn [fst snd].
    + split; [done|]. intros (w & rest & Et & L & _). by inversion L; subst.
    + transitivity (fits c x = true /\ prefix_in re text).
      { rewrite <-(IH (length re)); [|cbn; lia|done]. destruct (fits c x); naive_solver. }
      rewrite fits_iff. unfold prefix_in. split.
      * intros (F & w & rest & -> & L & E). exists (x :: w), rest. split_and!; [done|by constructor|done].
      * intros (w & rest & Et & L & E). inversion L as [|? y ? w' F L'|]; subst. injection Et as -> ->.
        split; [done|]. by exists w', rest.
Qed.

Lemma match_loop_iff re text :
  match_loop re text = true <-> exists pre t, text = pre ++ t /\ matchhere re t = true.
Proof.
  induction text as [|x text IH]; cbn [match_loop].
  - destruct (matchhere re []) eqn:E; split; try done.
    + intros _. by exists [], [].
    + intros (u & t & Ht & H). symmetry in Ht. apply app_eq_nil in Ht as [-> ->]. congruence.
  - destruct (matchhere re (x :: text)) eqn:E.
    { split; [|done]. intros _. by exists [], (x :: text). }
    rewrite IH. split.
    + intros (u & t & -> & H). by exists (x :: u), t.
    + intros ([|y u] & t & Et & H); cbn in Et; [congruence|]. injection Et as -> ->. by exists u, t.
Qed.

(** The pattern without its leading [^], and whether it has one. *)
Definition anchored (re : list Z) : list Z * bool :=
  if decide (head re = Some 94) then (tail re, true) else (re, false).

(** C19: the matcher decides the language of the pattern.  [match] returns true
    exactly when some substring of the text is in the language of the pattern's
    items, at the start of the text if the pattern begins with [^] and reaching
    its end if the pattern ends in [$]. *)
Theorem match_correct (re text : list Z) :
  match_ re text = true <->
  exists pre w post, text = pre ++ w ++ post /\ lang (items (anchored re).1).1 w /\
    ((anchored re).2 = true -> pre = []) /\ ((items (anchored re).1).2 = true -> post = []).
Proof.
  transitivity (exists pre t, text = pre ++ t /\ ((anchored re).2 = true -> pre = []) /\
                  matchhere (anchored re).1 t = true).
  - unfold anchored. case_decide as D.
    + destruct re as [|c re]; [done|]. injection D as ->. cbn. split.
      * intros H. by exists [], text.
      * intros (pre & t & -> & Hp & H). by rewrite (Hp eq_refl).
    + cbn. transitivity (match_loop re text = true).
      * destruct re as [|[|p|p] re]; try done. destruct (decide (p = 94%positive)) as [->|N]; [done|].
        do 7 (try destruct p as [p|p|]); done.
      * rewrite match_loop_iff. naive_solver.
  - setoid_rewrite matchhere_iff. unfold prefix_in. split.
    + intros (pre & t & -> & Hp & w & rest & -> & L & E). by exists pre, w, rest.
    + intros (pre & w & rest & -> & L & Hp & E). exists pre, (w ++ rest). split_and!; [done..|]. by exists w, rest.
Qed.

(** * What the filter prints *)

(** The complete lines of a text, and what follows the last newline. *)
Fixpoint split_lines (s : list Z) : list (list Z) * list Z :=
  match s with
  | [] => ([], [])
  | x :: s =>
      let '(ls, rest) := split_lines s in
      if x =? 10 then ([] :: ls, rest)
      else match ls with [] => ([], x :: rest) | l :: ls => ((x :: l) :: ls, rest) end
  end.

Definition text_byte (x : Z) : Prop := 0 < x < 256.

Definition selected (pattern : list Z) (ls : list (list Z)) : list Z :=
  mjoin ((fun l => l ++ [10]) <$> filter (fun l => match_ pattern l = true) ls).

Lemma strchr_split p :
  Forall text_byte p ->
  match strchr_nl p with
  | Some (l, r) => p = l ++ 10 :: r /\ split_lines p = (l :: (split_lines r).1, (split_lines r).2)
  | None => split_lines p = ([], p)
  end.
Proof.
  induction p as [|x p IH]; [done|]. intros [Hx Hp]%Forall_cons. cbn [strchr_nl split_lines].
  assert ((x =? 0) = false) as -> by (unfold text_byte in Hx; lia). specialize (IH Hp).
  destruct (x =? 10) eqn:E; [apply Z.eqb_eq in E as ->; by destruct (split_lines p)|].
  destruct (strchr_nl p) as [[l r]|]; cbn; [|by rewrite IH].
  destruct IH as [-> Es]. by rewrite Es.
Qed.

Lemma scan_lines_ok pattern fuel p :
  Forall text_byte p -> (length p < fuel)%nat ->
  scan_lines fuel pattern p = Some (selected pattern (split_lines p).1, (split_lines p).2).
Proof.
  revert p. induction fuel as [|fuel IH]; intros p Hp Hf; [lia|]. cbn [scan_lines].
  pose proof (strchr_split p Hp) as H. destruct (strchr_nl p) as [[l r]|]; [|by rewrite H].
  destruct H as [-> ->]. rewrite length_app in Hf. cbn in Hf.
  apply Forall_app in Hp as [_ [_ Hr]%Forall_cons]. rewrite IH by (done || lia). cbn [mbind option_bind fst snd].
  f_equal. f_equal. unfold selected. rewrite filter_cons. case_decide as D.
  - by rewrite D.
  - by rewrite (not_true_is_false _ D).
Qed.

Lemma split_lines_app p q :
  split_lines (p ++ q) =
  ((split_lines p).1 ++ (split_lines ((split_lines p).2 ++ q)).1, (split_lines ((split_lines p).2 ++ q)).2).
Proof.
  induction p as [|x p IH]; [cbn; by destruct (split_lines q)|]. cbn [app split_lines]. rewrite IH.
  destruct (split_lines p) as [ls r] eqn:E. cbn [fst snd]. destruct (x =? 10) eqn:Ex; [done|].
  destruct ls as [|l ls]; cbn [app fst snd]; [|done]. cbn [split_lines]. rewrite Ex. by destruct (split_lines (r ++ q)) as [[|? ?] ?].
Qed.

Definition short (s : list Z) : Prop :=
  Forall (fun l => length l <= 1022)%nat (split_lines s).1 /\ (length (split_lines s).2 <= 1022)%nat.

Lemma rest_no_newline s : Forall (fun x => (x =? 10) = false) (split_lines s).2.
Proof.
  induction s as [|x s IH]; [by constructor|]. cbn [split_lines]. destruct (split_lines s) as [ls r].
  destruct (x =? 10) eqn:Ex; [done|]. destruct ls; [by constructor|done].
Qed.

Lemma split_lines_kept k s :
  Forall (fun x => (x =? 10) = false) k ->
  split_lines (k ++ s) =
  match split_lines s with ([], r) => ([], k ++ r) | (l :: ls, r) => ((k ++ l) :: ls, r) end.
Proof.
  induction 1 as [|x k Hx _ IH]; cbn; [by destruct (split_lines s) as [[|? ?] ?]|].
  rewrite IH, Hx. by destruct (split_lines s) as [[|? ?] ?].
Qed.

Lemma short_kept k s :
  Forall (fun x => (x =? 10) = false) k -> short (k ++ s) -> (length k <= 1022)%nat.
Proof.
  intros Hk. unfold short. rewrite (split_lines_kept _ _ Hk). destruct (split_lines s) as [[|l ls] r]; cbn [fst snd].
  - rewrite length_app. lia.
  - rewrite Forall_cons, length_app. lia.
Qed.

(** One [read] takes a nonempty first part of what is left. *)
Lemma read_some n src :
  (0 < n)%nat -> Forall (fun x => x <> []) src -> src <> [] ->
  exists got src', read n src = (got, src') /\ got <> [] /\ mjoin src = got ++ mjoin src' /\
    Forall (fun x => x <> []) src'.
Proof.
  intros Hn Hs Hne. destruct src as [|x src]; [done|]. apply Forall_cons in Hs as [Hx Hs].
  unfold read. case_decide as D; eexists _, _; (split; [reflexivity|]).
  - by split_and!.
  - assert (take n x <> []) by (intros E%(f_equal length); rewrite length_take in E; cbn in E; lia).
    assert (drop n x <> []) by (intros E%(f_equal length); rewrite length_drop in E; cbn in E; lia).
    split_and!; [done| |by constructor]. cbn. by rewrite app_assoc, take_drop.
Qed.

Lemma grep_loop_ok pattern fuel src kept :
  Forall text_byte (kept ++ mjoin src) -> Forall (fun x => x <> []) src ->
  Forall (fun x => (x =? 10) = false) kept -> short (kept ++ mjoin src) -> (length (mjoin src) < fuel)%nat ->
  grep_loop fuel pattern src kept = Some (selected pattern (split_lines (kept ++ mjoin src)).1).
Proof.
  revert src kept. induction fuel as [|fuel IH]; intros src kept Hb Hs Hk Hsh Hf; [lia|].
  pose proof (short_kept _ _ Hk Hsh) as Hl. cbn [grep_loop]. destruct (decide (src = [])) as [->|Hne].
  { cbn. rewrite (split_lines_kept _ _ Hk). done. }
  destruct (read_some (BUFSZ - length kept - 1) src) as (got & src' & -> & Hg & Ej & Hs'); [unfold BUFSZ; lia|done..|].
  destruct got as [|g got]; [done|]. set (p := kept ++ g :: got). revert Hb Hsh Hf.
  rewrite Ej, app_assoc, split_lines_app. fold p. intros Hb Hsh Hf. rewrite length_app in Hf. cbn in Hf.
  apply Forall_app in Hb as [Hp Hb]. rewrite scan_lines_ok by (done || lia). cbn [mbind option_bind].
  unfold short in Hsh. rewrite split_lines_app in Hsh. cbn [fst snd] in Hsh. destruct Hsh as [[_ Hs1]%Forall_app Hs2].
  rewrite IH; [|..|by split|lia]; [|apply Forall_app; split; [|done]|done|apply rest_no_newline].
  - cbn [fst]. unfold selected. by rewrite filter_app, fmap_app, join_app.
  - clear -Hp. induction Hp as [|x p Hx _ IH]; [by constructor|]. cbn [split_lines].
    destruct (split_lines p) as [ls r]. destruct (x =? 10); [done|]. destruct ls; [by constructor|done].
Qed.

(** C34: [grep] prints the matching lines.  Whatever pieces [read] delivers a
    text without NUL bytes in, if no line is longer than the 1022 bytes that fit
    the buffer, [grep] terminates and prints, in order, exactly the complete
    lines the pattern matches. *)
Theorem grep_correct (pattern : list Z) (src : list (list Z)) :
  Forall (fun x => x <> []) src -> Forall text_byte (mjoin src) -> short (mjoin src) ->
  grep pattern src = Some (selected pattern (split_lines (mjoin src)).1).
Proof. intros Hs Hb Hsh. apply (grep_loop_ok pattern _ src []); [done..|lia]. Qed.

(** The text "ab\nc\nxa" in two pieces, pattern "^a.*b$". *)
Lemma grep_correct_witness :
  grep [94; 97; 46; 42; 98; 36] [[97; 98; 10; 99]; [10; 120; 97]] = Some [97; 98; 10].
Proof.
  rewrite (grep_correct [94; 97; 46; 42; 98; 36] [[97; 98; 10; 99]; [10; 120; 97]]).
  - vm_compute. reflexivity.
  - repeat constructor; discriminate.
  - repeat constructor.
  - split; cbn; [repeat constructor|]; lia.
Defined.
