(* ===== verification/Kern.v ===== *)
(** The monad the kernel's operations are written in.

    An operation of a component with state [S] is a [K S A]: it takes the
    spinlocks the executing CPU holds and the component's state, and either
    returns a value with the new locks and state, or panics with the message
    the code passes to [panic].  [acquire] and [release] here are what callers
    see of kernel/spinlock.c: Spinlock.v shows that the detailed routines, run
    by any number of CPUs in any interleaving, panic exactly when these do and
    never let two CPUs hold one lock, so that the code between them is atomic
    with respect to the state the lock protects. *)

From S2P Require Import Prelude.

(** The spinlocks of the kernel. *)
Inductive lockid :=
| LKmem | LPid | LWait | LProc (i : nat) | LFtable | LItable | LBcache | LLog
| LPipe (a : Z) | LCons | LUart | LTicks | LVdisk | LSleep (a : Z).

#[export] Instance lockid_eq_dec : EqDecision lockid.
Proof. solve_decision. Defined.

Inductive res (A S : Type) :=
| Ok (a : A) (h : list lockid) (s : S)
| Panic (msg : string).
Arguments Ok {A S} a h s.
Arguments Panic {A S} msg.

Definition res_state {A S} (d : S) (r : res A S) : S := match r with Ok _ _ s => s | Panic _ => d end.
Definition res_val {A S} (d : A) (r : res A S) : A := match r with Ok a _ _ => a | Panic _ => d end.

Definition K (S A : Type) : Type := list lockid -> S -> res A S.

#[export] Instance K_ret S : MRet (K S) := fun A a h s => Ok a h s.
#[export] Instance K_bind S : MBind (K S) := fun A B f m h s =>
  match m h s with
  | Ok a h' s' => f a h' s'
  | Panic e => Panic e
  end.

Section ops.
Context {S : Type}.

Definition kget : K S S := fun h s => Ok s h s.
Definition kput (s : S) : K S unit := fun h _ => Ok tt h s.
Definition kgets {A} (f : S -> A) : K S A := fun h s => Ok (f s) h s.
Definition kmodify (f : S -> S) : K S unit := fun h s => Ok tt h (f s).
Definition panic {A} (msg : string) : K S A := fun _ _ => Panic msg.

Definition acquire (lk : lockid) : K S unit := fun h s =>
  if decide (lk ∈ h) then Panic "acquire" else Ok tt (lk :: h) s.
Definition release (lk : lockid) : K S unit := fun h s =>
  if decide (lk ∈ h) then Ok tt (filter (.≠ lk) h) s else Panic "release".

(** Run the operation [m] of a component whose state is a field of [S]. *)
Definition zoom {T A} (get : S -> T) (set : T -> S -> S) (m : K T A) : K S A :=
  fun h s =>
    match m h (get s) with
    | Ok a h' t => Ok a h' (set t s)
    | Panic e => Panic e
    end.

Lemma acquire_ok lk h (s : S) : lk ∉ h -> acquire lk h s = Ok tt (lk :: h) s.
Proof. intros. unfold acquire. by rewrite decide_False. Qed.

Lemma release_ok lk h (s : S) : lk ∉ h -> release lk (lk :: h) s = Ok tt h s.
Proof.
  intros. unfold release. rewrite decide_True by set_solver.
  rewrite filter_cons_False by (intros X; done). by rewrite filter_ne_notin.
Qed.

Lemma bind_ok {A B} (m : K S A) (f : A -> K S B) h s a h' s' :
  m h s = Ok a h' s' -> (m ≫= f) h s = f a h' s'.
Proof. intros H. unfold mbind, K_bind. by rewrite H. Qed.

Lemma bind_panic {A B} (m : K S A) (f : A -> K S B) h s e :
  m h s = Panic e -> (m ≫= f) h s = Panic e.
Proof. intros H. unfold mbind, K_bind. by rewrite H. Qed.

Lemma bind_inv {A B} (m : K S A) (f : A -> K S B) h s b h' s' :
  (m ≫= f) h s = Ok b h' s' ->
  exists a h1 s1, m h s = Ok a h1 s1 /\ f a h1 s1 = Ok b h' s'.
Proof. unfold mbind, K_bind. destruct (m h s); [eauto|done]. Qed.

End ops.

(** Symbolic execution: push a bind whose first action is known.  Lock
    operations are recognised by their head symbol and discharged by their
    lemmas, so that the state is never unfolded to compare it. *)
Ltac knotin := first [assumption | set_solver].
Ltac kstep :=
  match goal with
  | |- context [(acquire ?lk ≫= ?f) ?h ?s] =>
      rewrite (bind_ok (acquire lk) f h s tt (lk :: h) s) by (apply acquire_ok; knotin)
  | |- context [(release ?lk ≫= ?f) (?lk :: ?h) ?s] =>
      rewrite (bind_ok (release lk) f (lk :: h) s tt h s) by (apply release_ok; knotin)
  | |- context [acquire ?lk ?h ?s] => rewrite (acquire_ok lk h s) by knotin
  | |- context [release ?lk (?lk :: ?h) ?s] => rewrite (release_ok lk h s) by knotin
  | _ => erewrite bind_ok by (first [eassumption | reflexivity])
  end.
Ltac kinv H :=
  repeat match type of H with
  | (_ ≫= _) _ _ = Ok _ _ _ =>
      let a := fresh "a" in let h := fresh "h" in let s := fresh "s" in
      let H1 := fresh "E" in
      apply bind_inv in H as (a & h & s & H1 & H)
  end.
