(* ===== verification/Spinlock.v ===== *)
(** kernel/spinlock.c: spinlocks and the nesting of interrupt disabling.

    The routines act on the state of all CPUs and all locks.  A CPU that is
    inside [acquire] or [release] has a program point between the accesses
    other CPUs can see (the atomic swap, the store to [lk->cpu], the store
    that frees the lock); [sched] lists which CPU moves next, so a run is one
    interleaving of those accesses.  [own] and [xoff] are bookkeeping for the
    proof: the locks whose [acquire] has returned and whose [release] has not
    started, and the pending [push_off]s of other callers ([myproc]). *)

From stdpp Require Import functions.
From S2P Require Import Prelude Kern.

Record spinlock := Spinlock { locked : Z; cpu : option nat }.

(** Where a CPU stands: [Run] outside the routines, [Spin] in the
    test-and-set loop, [Got] after the swap that took the lock, [Unlk] after
    [lk->cpu = 0], [Pop] before the final [pop_off]. *)
Inductive point := Run | Spin (lk : lockid) | Got (lk : lockid) | Unlk (lk : lockid) | Pop.

Record cpust := Cpu {
  noff : Z;         (* c->noff *)
  intena : bool;    (* c->intena *)
  sie : bool;       (* SSTATUS_SIE *)
  pc : point;
  own : list lockid;
  xoff : Z
}.

Record mach := Mach { locks : lockid -> spinlock; cpus : nat -> cpust }.

Definition initlock : spinlock := Spinlock 0 None.
Definition cpu0 : cpust := Cpu 0 false false Run [] 0.
Definition mach0 : mach := Mach (fun _ => initlock) (fun _ => cpu0).

Definition upd_cpu (c : nat) (x : cpust) (s : mach) : mach := Mach (locks s) (<[c := x]> (cpus s)).
Definition upd_lock (lk : lockid) (x : spinlock) (s : mach) : mach := Mach (<[lk := x]> (locks s)) (cpus s).
Definition goto (p : point) (x : cpust) : cpust :=
  Cpu (noff x) (intena x) (sie x) p (own x) (xoff x).

Definition holding (c : nat) (lk : lockid) (s : mach) : bool :=
  negb (locked (locks s lk) =? 0) && bool_decide (cpu (locks s lk) = Some c).

Definition push_off (x : cpust) : cpust :=
  let old := sie x in
  Cpu (noff x + 1) (if noff x =? 0 then old else intena x) false (pc x) (own x) (xoff x).

Definition pop_off (x : cpust) : string + cpust :=
  if sie x then inl "pop_off - interruptible"%string
  else if noff x <? 1 then inl "pop_off"%string
  else
    let n := noff x - 1 in
    inr (Cpu n (intena x) (if (n =? 0) && intena x then true else sie x)
             (pc x) (own x) (xoff x)).

(** The accesses of [acquire]: entry up to the loop, one test-and-set, and
    the store to [lk->cpu] that ends it. *)
Definition acquire_enter (c : nat) (lk : lockid) (s : mach) : string + mach :=
  let x := push_off (cpus s c) in
  if holding c lk s then inl "acquire"%string
  else inr (upd_cpu c (goto (Spin lk) x) s).

Definition test_and_set (c : nat) (lk : lockid) (s : mach) : mach :=
  let old := locked (locks s lk) in
  let s := upd_lock lk (Spinlock 1 (cpu (locks s lk))) s in
  if old =? 0 then upd_cpu c (goto (Got lk) (cpus s c)) s else s.

Definition acquire_leave (c : nat) (lk : lockid) (s : mach) : mach :=
  let x := cpus s c in
  upd_lock lk (Spinlock (locked (locks s lk)) (Some c))
    (upd_cpu c (Cpu (noff x) (intena x) (sie x) Run (lk :: own x) (xoff x)) s).

(** The accesses of [release]. *)
Definition release_enter (c : nat) (lk : lockid) (s : mach) : string + mach :=
  if negb (holding c lk s) then inl "release"%string
  else
    let x := cpus s c in
    inr (upd_lock lk (Spinlock (locked (locks s lk)) None)
           (upd_cpu c (Cpu (noff x) (intena x) (sie x) (Unlk lk)
                         (filter (.≠ lk) (own x)) (xoff x)) s)).

Definition lock_release (c : nat) (lk : lockid) (s : mach) : mach :=
  upd_lock lk (Spinlock 0 (cpu (locks s lk)))
    (upd_cpu c (goto Pop (cpus s c)) s).

Definition release_leave (c : nat) (s : mach) : string + mach :=
  match pop_off (cpus s c) with
  | inl e => inl e
  | inr x => inr (upd_cpu c (goto Run x) s)
  end.

(** The whole of [release] when no other CPU moves meanwhile. *)
Definition release_run (c : nat) (lk : lockid) (s : mach) : string + mach :=
  match release_enter c lk s with
  | inl e => inl e
  | inr s => release_leave c (lock_release c lk s)
  end.

(** What a CPU at [Run] may do next: the two lock calls, the matched
    interrupt disabling of [myproc], and turning interrupts on or off while
    none is pending (usertrap, usertrapret, scheduler). *)
Inductive action := AAcquire (lk : lockid) | ARelease (lk : lockid) | APush | APop | AIntr (on : bool).

Definition run_action (c : nat) (a : action) (s : mach) : string + mach :=
  let x := cpus s c in
  match a with
  | AAcquire lk => acquire_enter c lk s
  | ARelease lk => release_enter c lk s
  | APush =>
      let y := push_off x in
      inr (upd_cpu c (Cpu (noff y) (intena y) (sie y) (pc y) (own y) (xoff y + 1)) s)
  | APop =>
      if xoff x <=? 0 then inr s
      else match pop_off x with
           | inl e => inl e
           | inr y => inr (upd_cpu c (Cpu (noff y) (intena y) (sie y) (pc y) (own y) (xoff y - 1)) s)
           end
  | AIntr on =>
      if noff x =? 0
      then inr (upd_cpu c (Cpu (noff x) (intena x) on (pc x) (own x) (xoff x)) s)
      else inr s
  end.

(** One move of CPU [c]; the action is only looked at when [c] is at [Run]. *)
Definition move (c : nat) (a : action) (s : mach) : string + mach :=
  match pc (cpus s c) with
  | Run => run_action c a s
  | Spin lk => inr (test_and_set c lk s)
  | Got lk => inr (acquire_leave c lk s)
  | Unlk lk => inr (lock_release c lk s)
  | Pop => release_leave c s
  end.

Inductive reachable : mach -> Prop :=
| reach_init : reachable mach0
| reach_move s c a s' : reachable s -> move c a s = inr s' -> reachable s'.

(** A run: which CPU moves, and what it does when it is at [Run]. *)
Fixpoint moves (l : list (nat * action)) (s : mach) : string + mach :=
  match l with
  | [] => inr s
  | (c, a) :: l => match move c a s with inl e => inl e | inr s => moves l s end
  end.

(** * Invariant *)

Definition busy (x : cpust) : Z := match pc x with Run => 0 | _ => 1 end.

(** CPU [c] is the one that keeps [locked] at 1 for [lk]. *)
Definition keeps (c : nat) (lk : lockid) (s : mach) : Prop :=
  lk ∈ own (cpus s c) \/ pc (cpus s c) = Got lk \/ pc (cpus s c) = Unlk lk.

Record cpu_inv (x : cpust) : Prop := {
  inv_noff : noff x = Z.of_nat (length (own x)) + xoff x + busy x;
  inv_xoff : 0 <= xoff x;
  inv_sie : 0 < noff x -> sie x = false;
  inv_nodup : NoDup (own x)
}.

Record inv (s : mach) : Prop := {
  inv_cpu c : cpu_inv (cpus s c);
  inv_locked lk : locked (locks s lk) = 0 \/ locked (locks s lk) = 1;
  inv_keeps c lk : keeps c lk s -> locked (locks s lk) = 1;
  inv_unique c c' lk : keeps c lk s -> keeps c' lk s -> c = c';
  inv_own c lk : lk ∈ own (cpus s c) <-> cpu (locks s lk) = Some c;
  inv_gotown c lk : pc (cpus s c) = Got lk \/ pc (cpus s c) = Unlk lk -> lk ∉ own (cpus s c)
}.

Lemma cpus_upd c x s c' : cpus (upd_cpu c x s) c' = if decide (c = c') then x else cpus s c'.
Proof. done. Qed.
Lemma locks_upd lk x s lk' : locks (upd_lock lk x s) lk' = if decide (lk = lk') then x else locks s lk'.
Proof. done. Qed.
Lemma locks_upd_cpu c x s lk : locks (upd_cpu c x s) lk = locks s lk.
Proof. done. Qed.
Lemma cpus_upd_lock lk x s c : cpus (upd_lock lk x s) c = cpus s c.
Proof. done. Qed.

Create Rewrite HintDb spin.
#[local] Hint Rewrite cpus_upd locks_upd locks_upd_cpu cpus_upd_lock : spin.

Ltac ssimp := unfold keeps in *; autorewrite with spin in *.

Lemma inv_mach0 : inv mach0.
Proof.
  split; unfold keeps; simpl.
  - intros _. split; simpl; (lia || done || constructor).
  - by left.
  - intros c lk [H|[H|H]]; [by apply not_elem_of_nil in H|done|done].
  - intros c c' lk [H|[H|H]]; [by apply not_elem_of_nil in H|done|done].
  - intros c lk. split; [by intros H%not_elem_of_nil|done].
  - intros c lk _. apply not_elem_of_nil.
Qed.

Lemma holding_own c lk s : inv s -> holding c lk s = bool_decide (lk ∈ own (cpus s c)).
Proof.
  intros I. unfold holding. rewrite (bool_decide_ext _ _ (inv_own _ I c lk)).
  case_bool_decide as E; [|apply andb_false_r].
  apply (inv_own _ I) in E. by rewrite (inv_keeps _ I c lk) by (by left).
Qed.

(** Replacing the state of [c] keeps the invariant when the locks it keeps
    and its owned list stay the same. *)
Lemma inv_upd_cpu c x s :
  inv s -> cpu_inv x -> own x = own (cpus s c) ->
  (forall lk, pc x = Got lk \/ pc x = Unlk lk <-> pc (cpus s c) = Got lk \/ pc (cpus s c) = Unlk lk) ->
  inv (upd_cpu c x s).
Proof.
  intros I Hx Ho Hp.
  assert (Hk : forall c' lk, keeps c' lk (upd_cpu c x s) <-> keeps c' lk s).
  { intros c' lk. ssimp. case_decide; [subst|done]. rewrite Ho, Hp. done. }
  split.
  - intros c'. rewrite cpus_upd. case_decide; [done|apply I].
  - intros lk. rewrite locks_upd_cpu. apply I.
  - intros c' lk. rewrite Hk, locks_upd_cpu. apply I.
  - intros c1 c2 lk. rewrite !Hk. apply I.
  - intros c' lk. rewrite cpus_upd, locks_upd_cpu. case_decide; [subst; rewrite Ho|]; apply I.
  - intros c' lk. rewrite cpus_upd. case_decide; [subst; rewrite Ho, Hp|]; apply I.
Qed.

Lemma noff_nonneg x : cpu_inv x -> 0 <= noff x.
Proof. intros I. rewrite (inv_noff _ I). pose proof (inv_xoff _ I). unfold busy. case_match; lia. Qed.

Lemma acquire_enter_inv c lk s s' :
  inv s -> pc (cpus s c) = Run -> acquire_enter c lk s = inr s' -> inv s'.
Proof.
  intros I Hpc. unfold acquire_enter. case_match; [done|]. intros [= <-].
  pose proof (inv_cpu _ I c) as Ic. apply inv_upd_cpu; [done| |done|].
  - split; simpl; [|apply Ic|done|apply Ic].
    rewrite (inv_noff _ Ic). unfold busy. rewrite Hpc. simpl. lia.
  - intros lk'. simpl. rewrite Hpc. naive_solver.
Qed.

Lemma test_and_set_inv c lk s :
  inv s -> pc (cpus s c) = Spin lk -> inv (test_and_set c lk s).
Proof.
  intros I Hpc. pose proof (inv_cpu _ I c) as Ic. unfold test_and_set.
  destruct (Z.eqb_spec (locked (locks s lk)) 0) as [E|E].
  - assert (Hn : forall c', ~ keeps c' lk s).
    { intros c' H. apply (inv_keeps _ I) in H. lia. }
    split; unfold keeps in *; autorewrite with spin.
    + intros c'. autorewrite with spin. case_decide; [subst|apply I].
      split; simpl; [|apply Ic|apply Ic|apply Ic].
      rewrite (inv_noff _ Ic). unfold busy. by rewrite Hpc.
    + intros lk'. autorewrite with spin. case_decide; [by right|apply I].
    + intros c' lk'. autorewrite with spin. repeat case_decide; subst; simpl; try done.
      * intros [H|[H|H]]; [apply (inv_keeps _ I c'); by left|naive_solver|naive_solver].
      * apply (inv_keeps _ I c' lk').
    + intros c1 c2 lk'. autorewrite with spin. pose proof (inv_unique _ I c1 c2 lk') as U.
      unfold keeps in U. repeat case_decide; subst; simpl; try done.
      * intros H1 H2. destruct (decide (lk' = lk)) as [->|]; [by destruct (Hn c2)|].
        apply U; naive_solver.
      * intros H1 H2. destruct (decide (lk' = lk)) as [->|]; [by destruct (Hn c1)|].
        apply U; naive_solver.
    + intros c' lk'. autorewrite with spin. pose proof (inv_own _ I c' lk') as O.
      repeat case_decide; subst; simpl; done.
    + intros c' lk'. autorewrite with spin. case_decide; subst; simpl; [|apply I].
      intros [[= <-]|?]; [|done]. intros Ho. apply (Hn c'). by left.
  - destruct (inv_locked _ I lk) as [?|L]; [done|].
    assert (Heq : forall lk', locks (upd_lock lk (Spinlock 1 (cpu (locks s lk))) s) lk' = locks s lk').
    { intros lk'. rewrite locks_upd. case_decide; [subst|done].
      destruct (locks s lk') as [l0 c0]. simpl in *. by subst. }
    destruct I as [I1 I2 I3 I4 I5 I6]. split; intros *; rewrite ?Heq; eauto.
Qed.

Lemma acquire_leave_inv c lk s :
  inv s -> pc (cpus s c) = Got lk -> inv (acquire_leave c lk s).
Proof.
  intros I Hpc. pose proof (inv_cpu _ I c) as Ic.
  assert (Hk : keeps c lk s) by (right; by left).
  assert (Hu : forall c', keeps c' lk s -> c' = c) by (intros; by eapply inv_unique).
  assert (Hno : lk ∉ own (cpus s c)) by (apply (inv_gotown _ I); auto).
  unfold acquire_leave. split; unfold keeps in *; autorewrite with spin.
  - intros c'. autorewrite with spin. case_decide; [subst|apply I].
    split; simpl; [|apply Ic|apply Ic|by constructor; [|apply Ic]].
    rewrite (inv_noff _ Ic). unfold busy. rewrite Hpc. simpl. lia.
  - intros lk'. autorewrite with spin. case_decide; subst; apply I.
  - intros c' lk'. autorewrite with spin. pose proof (inv_keeps _ I c' lk') as Q. unfold keeps in Q.
    repeat case_decide; subst; simpl; set_solver.
  - intros c1 c2 lk'. autorewrite with spin. pose proof (inv_unique _ I c1 c2 lk') as U.
    unfold keeps in U. repeat case_decide; subst; simpl; try done; set_solver.
  - intros c' lk'. autorewrite with spin. pose proof (inv_own _ I c' lk') as O.
    pose proof (inv_own _ I c' lk) as O'. specialize (Hu c').
    repeat case_decide; subst; simpl; set_solver.
  - intros c' lk'. autorewrite with spin. case_decide; subst; simpl; [naive_solver|apply I].
Qed.

Lemma length_filter_ne lk (l : list lockid) :
  NoDup l -> lk ∈ l -> S (length (filter (.≠ lk) l)) = length l.
Proof.
  induction 1 as [|x l Hx Hl IH]; [by intros ?%not_elem_of_nil|].
  intros [->|Hin]%elem_of_cons.
  - rewrite filter_cons_False by (intros X; done). by rewrite filter_ne_notin.
  - rewrite filter_cons_True by set_solver. simpl. by rewrite IH.
Qed.

Lemma release_enter_inv c lk s s' :
  inv s -> pc (cpus s c) = Run -> release_enter c lk s = inr s' -> inv s'.
Proof.
  intros I Hpc. unfold release_enter. rewrite holding_own by done.
  case_bool_decide as Ho; [|done]. intros [= <-]. pose proof (inv_cpu _ I c) as Ic.
  assert (Hu : forall c', keeps c' lk s -> c' = c) by (intros; eapply inv_unique; [done|done|by left]).
  split; unfold keeps in *; autorewrite with spin.
  - intros c'. autorewrite with spin. case_decide; [subst|apply I].
    split; simpl; [|apply Ic|apply Ic|by apply NoDup_filter, Ic].
    rewrite (inv_noff _ Ic), <- (length_filter_ne lk _ (inv_nodup _ Ic) Ho).
    unfold busy. rewrite Hpc. simpl. lia.
  - intros lk'. autorewrite with spin. case_decide; subst; apply I.
  - intros c' lk'. autorewrite with spin. pose proof (inv_keeps _ I c' lk') as Q. unfold keeps in Q.
    repeat case_decide; subst; simpl; rewrite ?list_elem_of_filter; naive_solver.
  - intros c1 c2 lk'. autorewrite with spin. pose proof (inv_unique _ I c1 c2 lk') as U.
    unfold keeps in U. repeat case_decide; subst; simpl; rewrite ?list_elem_of_filter; naive_solver.
  - intros c' lk'. autorewrite with spin. pose proof (inv_own _ I c' lk') as O.
    specialize (Hu c'). repeat case_decide; subst; simpl; rewrite ?list_elem_of_filter; naive_solver.
  - intros c' lk'. autorewrite with spin. case_decide; subst; simpl; [|apply I].
    intros [?|[= <-]]; [done|]. rewrite list_elem_of_filter. naive_solver.
Qed.

Lemma lock_release_inv c lk s :
  inv s -> pc (cpus s c) = Unlk lk -> inv (lock_release c lk s).
Proof.
  intros I Hpc. pose proof (inv_cpu _ I c) as Ic.
  assert (Hu : forall c', keeps c' lk s -> c' = c)
    by (intros; eapply inv_unique; [done|done|right; by right]).
  assert (Hno : lk ∉ own (cpus s c)) by (apply (inv_gotown _ I); auto).
  unfold lock_release. split; unfold keeps in *; autorewrite with spin.
  - intros c'. autorewrite with spin. case_decide; [subst|apply I].
    split; simpl; [|apply Ic..]. rewrite (inv_noff _ Ic). unfold busy. rewrite Hpc. done.
  - intros lk'. autorewrite with spin. case_decide; [by left|apply I].
  - intros c' lk'. autorewrite with spin. pose proof (inv_keeps _ I c' lk') as Q. unfold keeps in Q.
    specialize (Hu c'). repeat case_decide; subst; simpl; naive_solver.
  - intros c1 c2 lk'. autorewrite with spin. pose proof (inv_unique _ I c1 c2 lk') as U.
    unfold keeps in U. repeat case_decide; subst; simpl; try done; naive_solver.
  - intros c' lk'. autorewrite with spin. pose proof (inv_own _ I c' lk') as O.
    repeat case_decide; subst; done.
  - intros c' lk'. autorewrite with spin. case_decide; subst; simpl; [naive_solver|apply I].
Qed.

Lemma pop_off_ok x :
  cpu_inv x -> 1 <= noff x ->
  pop_off x = inr (Cpu (noff x - 1) (intena x)
                     (if (noff x - 1 =? 0) && intena x then true else sie x)
                     (pc x) (own x) (xoff x)).
Proof.
  intros I H. unfold pop_off. rewrite (inv_sie _ I) by lia.
  destruct (Z.ltb_spec (noff x) 1); [lia|done].
Qed.

Lemma pop_sie x : cpu_inv x -> 0 < noff x - 1 ->
  (if (noff x - 1 =? 0) && intena x then true else sie x) = false.
Proof.
  intros I H. destruct (Z.eqb_spec (noff x - 1) 0); [lia|]. simpl. apply (inv_sie _ I). lia.
Qed.

(** From a state with the invariant no move panics inside a routine, and the
    invariant is kept. *)
Lemma move_inv c a s s' : inv s -> move c a s = inr s' -> inv s'.
Proof.
  intros I. pose proof (inv_cpu _ I c) as Ic. unfold move.
  destruct (pc (cpus s c)) eqn:Hpc.
  - destruct a; simpl; [by apply acquire_enter_inv|by apply release_enter_inv| | |].
    + intros [= <-]. apply inv_upd_cpu; [done| |done|done].
      split; simpl; [|pose proof (inv_xoff _ Ic); lia|done|apply Ic].
      rewrite (inv_noff _ Ic). unfold busy. simpl. lia.
    + destruct (Z.leb_spec (xoff (cpus s c)) 0); [by intros [= <-]|].
      assert (1 <= noff (cpus s c)) by (rewrite (inv_noff _ Ic); unfold busy; case_match; lia).
      rewrite pop_off_ok by done. intros [= <-]. apply inv_upd_cpu; [done| |done|done].
      split; simpl; [|lia|by apply pop_sie|apply Ic].
      rewrite (inv_noff _ Ic). unfold busy. simpl. lia.
    + destruct (Z.eqb_spec (noff (cpus s c)) 0); [|by intros [= <-]].
      intros [= <-]. apply inv_upd_cpu; [done| |done|done].
      split; simpl; [apply Ic|apply Ic|lia|apply Ic].
  - intros [= <-]. by apply test_and_set_inv.
  - intros [= <-]. by apply acquire_leave_inv.
  - intros [= <-]. by apply lock_release_inv.
  - unfold release_leave.
    assert (1 <= noff (cpus s c)).
    { rewrite (inv_noff _ Ic). pose proof (inv_xoff _ Ic). unfold busy. rewrite Hpc. lia. }
    rewrite pop_off_ok by done. intros [= <-]. apply inv_upd_cpu; [done| |done|].
    + split; simpl; [|apply Ic|by apply pop_sie|apply Ic].
      rewrite (inv_noff _ Ic). unfold busy. rewrite Hpc. simpl. lia.
    + intros lk. simpl. rewrite Hpc. naive_solver.
Qed.

Lemma reachable_inv s : reachable s -> inv s.
Proof. induction 1; [apply inv_mach0|by eapply move_inv]. Qed.

(** The last [pop_off] of [release] does not panic. *)
Lemma release_leave_ok c s :
  inv s -> pc (cpus s c) = Pop ->
  exists s', release_leave c s = inr s' /\ own (cpus s' c) = own (cpus s c) /\ pc (cpus s' c) = Run.
Proof.
  intros I Hpc. pose proof (inv_cpu _ I c) as Ic. unfold release_leave.
  rewrite pop_off_ok; [|done|rewrite (inv_noff _ Ic); pose proof (inv_xoff _ Ic); unfold busy; rewrite Hpc; lia].
  eexists. split; [done|]. by rewrite cpus_upd, decide_True.
Qed.

Lemma release_run_refines c lk s :
  inv s -> pc (cpus s c) = Run ->
  match release_run c lk s with
  | inl e => Kern.release lk (own (cpus s c)) tt = Panic e
  | inr s' => Kern.release lk (own (cpus s c)) tt = Ok tt (own (cpus s' c)) tt /\ pc (cpus s' c) = Run
  end.
Proof.
  intros I Hpc. unfold release_run. destruct (release_enter c lk s) as [e|s1] eqn:E.
  - unfold release_enter in E. rewrite holding_own in E by done. unfold release.
    case_bool_decide; [done|]. rewrite decide_False by done. by injection E as <-.
  - pose proof (release_enter_inv _ _ _ _ I Hpc E) as I1. unfold release_enter in E.
    rewrite holding_own in E by done. case_bool_decide as Ho; [|done]. injection E as <-.
    destruct (release_leave_ok c (lock_release c lk _) (lock_release_inv c lk _ I1
      ltac:(by rewrite cpus_upd_lock, cpus_upd, decide_True))) as (s' & -> & Eo & Ep).
    { unfold lock_release. by rewrite cpus_upd_lock, cpus_upd, decide_True. }
    split; [|done]. rewrite Eo. unfold release. rewrite decide_True by done. unfold lock_release.
    by rewrite !cpus_upd_lock, !cpus_upd, !decide_True.
Qed.

Lemma moves_reachable l s s' : reachable s -> moves l s = inr s' -> reachable s'.
Proof.
  revert s. induction l as [|[c a] l IH]; simpl; intros s R; [by intros [= <-]|].
  destruct (move c a s) as [|s1] eqn:E; [done|]. apply IH. by eapply reach_move.
Qed.

(** CPU 0 holds [LKmem] while CPU 1 spins on it. *)
Definition contended : mach :=
  match moves [(0%nat, AAcquire LKmem); (1%nat, AAcquire LKmem); (0%nat, APush); (0%nat, APush);
               (1%nat, APush)] mach0 with
  | inr s => s
  | inl _ => mach0
  end.

Lemma contended_reachable : reachable contended.
Proof.
  apply (moves_reachable [(0%nat, AAcquire LKmem); (1%nat, AAcquire LKmem); (0%nat, APush);
           (0%nat, APush); (1%nat, APush)] mach0); [constructor|]. reflexivity.
Qed.

(** ** Properties *)

(** C4: mutual exclusion.  In every interleaving of any number of CPUs, a
    lock whose [acquire] has returned on one CPU is held by that CPU alone:
    no other CPU is between the return of [acquire] and the start of
    [release] for it, and none has taken it with its swap. *)
Theorem mutual_exclusion s c c' lk :
  reachable s -> lk ∈ own (cpus s c) -> keeps c' lk s -> c' = c.
Proof.
  intros R Ho Hk. eapply (inv_unique _ (reachable_inv _ R)); [done|by left].
Qed.

Lemma mutual_exclusion_witness :
  LKmem ∈ own (cpus contended 0) /\ keeps 0 LKmem contended /\ 0%nat = 0%nat.
Proof.
  assert (H : LKmem ∈ own (cpus contended 0))
    by (change (own (cpus contended 0)) with [LKmem]; constructor).
  split_and!; [exact H|by left|].
  exact (mutual_exclusion contended 0 0 LKmem contended_reachable H (or_introl H)).
Defined.

(** C28: while a CPU holds any spinlock, or is inside [acquire] or [release],
    its interrupts are off, and [noff] counts exactly its pending
    [push_off]s. *)
Theorem interrupts_off_while_locked s c :
  reachable s -> own (cpus s c) <> [] \/ pc (cpus s c) <> Run ->
  sie (cpus s c) = false /\
  noff (cpus s c) = Z.of_nat (length (own (cpus s c))) + xoff (cpus s c) + busy (cpus s c).
Proof.
  intros R H. pose proof (inv_cpu _ (reachable_inv _ R) c) as Ic.
  split; [|apply Ic]. apply (inv_sie _ Ic). rewrite (inv_noff _ Ic).
  pose proof (inv_xoff _ Ic). unfold busy. destruct H as [H|H].
  - destruct (own _); [done|]. simpl. case_match; lia.
  - case_match; [done|lia..].
Qed.

Lemma interrupts_off_while_locked_witness : sie (cpus contended 1) = false.
Proof.
  apply (interrupts_off_while_locked contended 1 contended_reachable). right. discriminate.
Defined.

(** C17: the detailed [acquire] and [release] refine the operations the rest
    of the development uses, which act on the list of held locks.  On every
    reachable state of any number of CPUs: [acquire] panics at its entry
    exactly when [Kern.acquire] does on the CPU's held locks; the accesses
    inside [acquire] and [release] never panic, the two checks of [pop_off]
    included, and change the held locks only with the store that ends
    [acquire], to what [Kern.acquire] makes them; the whole of [release], its
    [pop_off] included, panics exactly when [Kern.release] does, and otherwise
    returns with the held locks of [Kern.release]. *)
Theorem spinlock_refines_kern s c lk a :
  reachable s ->
  match pc (cpus s c) with
  | Run =>
      (forall e, acquire_enter c lk s = inl e <-> Kern.acquire lk (own (cpus s c)) tt = Panic e) /\
      match release_run c lk s with
      | inl e => Kern.release lk (own (cpus s c)) tt = Panic e
      | inr s' => Kern.release lk (own (cpus s c)) tt = Ok tt (own (cpus s' c)) tt /\ pc (cpus s' c) = Run
      end
  | Got lk' => exists s', move c a s = inr s' /\
      Kern.acquire lk' (own (cpus s c)) tt = Ok tt (own (cpus s' c)) tt
  | Spin _ | Unlk _ | Pop => exists s', move c a s = inr s' /\ own (cpus s' c) = own (cpus s c)
  end.
Proof.
  intros R%reachable_inv. destruct (pc (cpus s c)) as [|lk'|lk'|lk'|] eqn:Hpc.
  - split; [|by apply release_run_refines].
    intros e. unfold acquire_enter, acquire. rewrite holding_own by done.
    case_bool_decide; case_decide; naive_solver.
  - unfold move. rewrite Hpc. eexists. split; [done|]. unfold test_and_set.
    case_match; autorewrite with spin; [|done]. by rewrite decide_True.
  - unfold move. rewrite Hpc. eexists. split; [done|]. unfold acquire, acquire_leave.
    rewrite decide_False by (apply (inv_gotown _ R); auto). by rewrite cpus_upd_lock, cpus_upd, decide_True.
  - unfold move. rewrite Hpc. eexists. split; [done|]. unfold lock_release.
    by rewrite cpus_upd_lock, cpus_upd, decide_True.
  - unfold move. rewrite Hpc. destruct (release_leave_ok c s R Hpc) as (s' & -> & Ho & _). eauto.
Qed.

(** CPU 0 may not take [LKmem] again, and gives it back. *)
Lemma spinlock_refines_kern_witness :
  acquire_enter 0 LKmem contended = inl "acquire" /\
  exists s', release_run 0 LKmem contended = inr s' /\ own (cpus s' 0) = [].
Proof.
  destruct (spinlock_refines_kern contended 0 LKmem APush contended_reachable) as [H1 H2].
  split; [apply H1; reflexivity|].
  destruct (release_run 0 LKmem contended) as [e|s'] eqn:E; [discriminate E|].
  exists s'. split; [reflexivity|]. destruct H2 as [H2 _]. injection H2 as H2. symmetry. exact H2.
Defined.
