(* ===== verification/Riscv.v ===== *)
(** The constants and macros of kernel/riscv.h, kernel/memlayout.h and
    kernel/param.h: pages, Sv39 page-table entries and the memory layout. *)

From S2P Require Import Prelude.

(** * kernel/riscv.h *)

Definition PGSIZE : Z := 4096.
Definition PGSHIFT : Z := 12.

Definition PGROUNDUP (sz : Z) : Z := Z.land (u64 (sz + PGSIZE - 1)) (Z.lnot (PGSIZE - 1)).
Definition PGROUNDDOWN (a : Z) : Z := Z.land a (Z.lnot (PGSIZE - 1)).

Definition PTE_V : Z := Z.shiftl 1 0.
Definition PTE_R : Z := Z.shiftl 1 1.
Definition PTE_W : Z := Z.shiftl 1 2.
Definition PTE_X : Z := Z.shiftl 1 3.
Definition PTE_U : Z := Z.shiftl 1 4.

Definition PA2PTE (pa : Z) : Z := u64 (Z.shiftl (Z.shiftr pa 12) 10).
Definition PTE2PA (pte : Z) : Z := u64 (Z.shiftl (Z.shiftr pte 10) 12).
Definition PTE_FLAGS (pte : Z) : Z := Z.land pte 0x3FF.

Definition PXMASK : Z := 0x1FF.
Definition PXSHIFT (level : Z) : Z := PGSHIFT + 9 * level.
Definition PX (level va : Z) : Z := Z.land (Z.shiftr va (PXSHIFT level)) PXMASK.

Definition MAXVA : Z := Z.shiftl 1 (9 + 9 + 9 + 12 - 1).

(** * kernel/memlayout.h *)

Definition UART0 : Z := 0x10000000.
Definition VIRTIO0 : Z := 0x10001000.
Definition PLIC : Z := 0x0c000000.
Definition KERNBASE : Z := 0x80000000.
Definition PHYSTOP : Z := KERNBASE + 128 * 1024 * 1024.
Definition TRAMPOLINE : Z := MAXVA - PGSIZE.
Definition KSTACK (p : Z) : Z := TRAMPOLINE - (p + 1) * 2 * PGSIZE.
Definition TRAPFRAME : Z := TRAMPOLINE - PGSIZE.

(** * Lemmas *)

Lemma land_page_mask a : Z.land a (Z.lnot (PGSIZE - 1)) = a - a mod PGSIZE.
Proof.
  rewrite <- Z.ldiff_land. change (PGSIZE - 1) with (Z.ones 12).
  rewrite Z.ldiff_ones_r, Z.shiftr_div_pow2, Z.shiftl_mul_pow2 by lia.
  change PGSIZE with (2 ^ 12). zdm.
Qed.

Lemma PGROUNDDOWN_eq a : PGROUNDDOWN a = a - a mod PGSIZE.
Proof. apply land_page_mask. Qed.

Lemma PGROUNDUP_eq sz :
  0 <= sz < 2 ^ 64 - PGSIZE ->
  PGROUNDUP sz = (sz + PGSIZE - 1) - (sz + PGSIZE - 1) mod PGSIZE.
Proof.
  intros H. unfold PGROUNDUP. rewrite u64_small by (unfold PGSIZE in *; lia). apply land_page_mask.
Qed.

Lemma PGROUNDUP_spec sz :
  0 <= sz < 2 ^ 64 - PGSIZE ->
  PGROUNDUP sz mod PGSIZE = 0 /\ sz <= PGROUNDUP sz < sz + PGSIZE.
Proof. intros H. rewrite PGROUNDUP_eq by done. unfold PGSIZE. zdm. Qed.

Lemma PGROUNDDOWN_spec a : PGROUNDDOWN a mod PGSIZE = 0 /\ PGROUNDDOWN a <= a < PGROUNDDOWN a + PGSIZE.
Proof. rewrite PGROUNDDOWN_eq. unfold PGSIZE. zdm. Qed.

Lemma PX_eq level va : 0 <= level -> PX level va = (va / 2 ^ PXSHIFT level) mod 512.
Proof.
  intros. unfold PX. change PXMASK with (Z.ones 9). unfold PXSHIFT, PGSHIFT.
  rewrite Z.land_ones, Z.shiftr_div_pow2 by lia. done.
Qed.

Lemma PX_range level va : 0 <= level -> 0 <= PX level va < 512.
Proof. intros. rewrite PX_eq by done. apply Z.mod_pos_bound. lia. Qed.

(** The three indices and the offset identify a user address. *)
Lemma PX_split va :
  0 <= va < MAXVA ->
  va = PX 2 va * 2 ^ 30 + PX 1 va * 2 ^ 21 + PX 0 va * 2 ^ 12 + va mod PGSIZE.
Proof.
  intros H. change MAXVA with (2 ^ 38) in H. rewrite !PX_eq by lia.
  change (2 ^ PXSHIFT 2) with (2 ^ 30). change (2 ^ PXSHIFT 1) with (2 ^ 21).
  change (2 ^ PXSHIFT 0) with (2 ^ 12). change PGSIZE with (2 ^ 12). zdm.
Qed.

Lemma PTE_FLAGS_eq pte : PTE_FLAGS pte = pte mod 1024.
Proof. unfold PTE_FLAGS. change 0x3FF with (Z.ones 10). by rewrite Z.land_ones by lia. Qed.

Lemma PTE2PA_eq pte : 0 <= pte < 2 ^ 54 -> PTE2PA pte = pte / 1024 * 4096.
Proof.
  intros H. unfold PTE2PA. rewrite Z.shiftl_mul_pow2, Z.shiftr_div_pow2 by lia.
  apply u64_small. change (2 ^ 12) with 4096. change (2 ^ 10) with 1024. zdm.
Qed.

Lemma PA2PTE_eq pa : 0 <= pa < 2 ^ 56 -> PA2PTE pa = pa / 4096 * 1024.
Proof.
  intros H. unfold PA2PTE. rewrite Z.shiftl_mul_pow2, Z.shiftr_div_pow2 by lia.
  apply u64_small. change (2 ^ 12) with 4096. change (2 ^ 10) with 1024. zdm.
Qed.

(** An entry is its page number shifted over its ten flag bits. *)
Lemma pte_lor pa fl :
  0 <= pa < 2 ^ 56 -> 0 <= fl < 1024 -> Z.lor (PA2PTE pa) fl = pa / 4096 * 1024 + fl.
Proof.
  intros Hp Hf. rewrite PA2PTE_eq by done.
  assert (Hl : Z.land (pa / 4096 * 1024) fl = 0).
  { apply Z.bits_inj'. intros i Hi. rewrite Z.land_spec, Z.bits_0.
    change 1024 with (2 ^ 10). rewrite <- Z.shiftl_mul_pow2 by lia.
    destruct (decide (i < 10)).
    - by rewrite Z.shiftl_spec_low by lia.
    - rewrite <- (Z.mod_small fl (2 ^ 10)) by lia.
      rewrite Z.mod_pow2_bits_high by lia. apply andb_false_r. }
  by rewrite <- Z.add_lor_land, Hl, Z.add_0_r.
Qed.

Lemma pte_range pa fl :
  0 <= pa < 2 ^ 56 -> 0 <= fl < 1024 -> 0 <= Z.lor (PA2PTE pa) fl < 2 ^ 54.
Proof. intros. rewrite pte_lor by done. zdm. Qed.

Lemma PTE2PA_pte pa fl :
  0 <= pa < 2 ^ 56 -> pa mod PGSIZE = 0 -> 0 <= fl < 1024 ->
  PTE2PA (Z.lor (PA2PTE pa) fl) = pa.
Proof.
  intros Hp Ha Hf. rewrite PTE2PA_eq by (by apply pte_range). rewrite pte_lor by done.
  unfold PGSIZE in Ha. zdm.
Qed.

Lemma PTE_FLAGS_pte pa fl :
  0 <= pa < 2 ^ 56 -> 0 <= fl < 1024 -> PTE_FLAGS (Z.lor (PA2PTE pa) fl) = fl.
Proof. intros. rewrite PTE_FLAGS_eq, pte_lor by done. zdm. Qed.
