(* ===== verification/Kalloc.v ===== *)
(** kernel/kalloc.c: the physical page allocator.

    The free list is threaded through the free pages themselves: [freelist]
    is the address of the first free page and the first eight bytes of a free
    page hold the address of the next ([struct run]).  The state is the
    physical memory with that pointer; [free_inv] relates it to the abstract
    stack of free pages.  [end_] is the linker's symbol [end], the first
    address after the kernel. *)

From S2P Require Import Prelude Mem CString Kern Riscv.

Record kst := Kst { kmem : mem; freelist : Z }.

Definition set_mem (m : mem) (s : kst) : kst := Kst m (freelist s).

Section kalloc.
Context (end_ : Z).

Definition kfree (pa : Z) : K kst unit :=
  if negb (pa mod PGSIZE =? 0) || (pa <? end_) || (pa >=? PHYSTOP)
  then panic "kfree"
  else
    kmodify (fun s => set_mem (memset pa 1 PGSIZE (kmem s)) s);;
    acquire LKmem;;
    kmodify (fun s => set_mem (st64 (kmem s) pa (freelist s)) s);;
    kmodify (fun s => Kst (kmem s) pa);;
    release LKmem.

Definition kalloc : K kst Z :=
  acquire LKmem;;
  r ← kgets freelist;
  (if r =? 0 then mret tt
   else kmodify (fun s => Kst (kmem s) (ld64 (kmem s) r)));;
  release LKmem;;
  (if r =? 0 then mret tt
   else kmodify (fun s => set_mem (memset r 5 PGSIZE (kmem s)) s));;
  mret r.

(** [for(; p + PGSIZE <= pa_end; p += PGSIZE) kfree(p);] *)
Fixpoint freerange_loop (fuel : nat) (p pa_end : Z) : K kst unit :=
  match fuel with
  | O => panic "freerange: fuel"
  | S fuel =>
      if p + PGSIZE <=? pa_end
      then kfree p;; freerange_loop fuel (p + PGSIZE) pa_end
      else mret tt
  end.

Definition freerange (pa_start pa_end : Z) : K kst unit :=
  let p := PGROUNDUP pa_start in
  freerange_loop (S (Z.to_nat ((pa_end - p) / PGSIZE))) p pa_end.

(** [kinit] also names the lock, which is free at boot. *)
Definition kinit : K kst unit := freerange end_ PHYSTOP.

#[local] Opaque memset st64 ld64.

(** * The abstract allocator: a stack of free pages *)

Definition page_ok (pa : Z) : Prop := pa mod PGSIZE = 0 /\ end_ <= pa < PHYSTOP.

Fixpoint chain (m : mem) (p : Z) (l : list Z) : Prop :=
  match l with
  | [] => p = 0
  | x :: l => p = x /\ chain m (ld64 m x) l
  end.

Record free_inv (s : kst) (l : list Z) : Prop := {
  fi_chain : chain (kmem s) (freelist s) l;
  fi_nodup : NoDup l;
  fi_pages : Forall page_ok l
}.

Definition in_page (pa a : Z) : Prop := pa <= a < pa + PGSIZE.

Lemma chain_frame m m' p l :
  (forall x a, x ∈ l -> in_page x a -> ld m' a = ld m a) ->
  chain m p l -> chain m' p l.
Proof.
  revert p. induction l as [|x l IH]; intros p H; simpl; [done|].
  intros [-> Hc]. split; [done|].
  rewrite (ld64_ext m' m x).
  - apply IH; [|done]. intros. apply (H x0); set_solver.
  - intros b Hb. apply (H x); [set_solver|]. unfold in_page, PGSIZE. lia.
Qed.

Lemma pages_disjoint p q a :
  p mod PGSIZE = 0 -> q mod PGSIZE = 0 -> in_page p a -> in_page q a -> p = q.
Proof. unfold in_page, PGSIZE. intros. zdm. Qed.

(** Changing one page that is not free keeps the free list. *)
Lemma free_inv_mem m s l pa :
  free_inv s l -> pa mod PGSIZE = 0 -> pa ∉ l -> same_outside pa PGSIZE (kmem s) m ->
  free_inv (set_mem m s) l.
Proof.
  intros [Hc Hn Hp] Ha Hni Ho. split; [|done|done]. simpl.
  eapply chain_frame; [|done]. intros x a Hx Hia. apply Ho. intros Hpa.
  rewrite Forall_forall in Hp. destruct (Hp x Hx) as [Hxa _].
  pose proof (pages_disjoint x pa a Hxa Ha Hia Hpa). by subst.
Qed.

Section run.
Context (Hend : 0 < end_).

Lemma page_ok_range pa : page_ok pa -> 0 < pa < 2 ^ 32 /\ pa mod PGSIZE = 0.
Proof. intros [Ha [H1 H2]]. unfold PHYSTOP, KERNBASE in H2. lia. Qed.

Lemma kalloc_nil h s :
  LKmem ∉ h -> free_inv s [] -> kalloc h s = Ok 0 h s.
Proof.
  intros Hh [Hc _ _]. simpl in Hc. unfold kalloc. do 2 kstep. rewrite Hc. cbn [Z.eqb].
  do 3 kstep. reflexivity.
Qed.

Lemma kalloc_cons h s x l :
  LKmem ∉ h -> free_inv s (x :: l) ->
  exists s', kalloc h s = Ok x h s' /\ free_inv s' l /\
    forall a, ld (kmem s') a = if decide (in_page x a) then 5 else ld (kmem s) a.
Proof.
  intros Hh [[Hf Hc] [Hx Hn]%NoDup_cons [Px Hp]%Forall_cons].
  destruct (page_ok_range _ Px) as [Hr Ha].
  eexists. split_and!.
  - unfold kalloc. do 2 kstep. rewrite Hf. destruct (Z.eqb_spec x 0); [lia|].
    do 3 kstep. reflexivity.
  - apply (free_inv_mem _ (Kst (kmem s) (ld64 (kmem s) x)) l x); [by split|done|done|].
    intros a H. cbn [kmem]. rewrite ld_memset. by case_decide.
  - intros a. cbn [kmem set_mem]. rewrite ld_memset. by apply decide_ext.
Qed.

Lemma kfree_ok h s pa l :
  LKmem ∉ h -> free_inv s l -> page_ok pa -> pa ∉ l ->
  exists s', kfree pa h s = Ok tt h s' /\ free_inv s' (pa :: l) /\
    same_outside pa PGSIZE (kmem s) (kmem s').
Proof.
  intros Hh I Pa Hni. destruct (page_ok_range _ Pa) as [Hr Ha]. destruct Pa as [_ Pe].
  set (m := st64 (memset pa 1 PGSIZE (kmem s)) pa (freelist s)).
  assert (Ho : same_outside pa PGSIZE (kmem s) m).
  { intros a H. unfold m. rewrite ld_st64_out by (unfold PGSIZE in *; lia).
    rewrite ld_memset. by case_decide. }
  exists (Kst m pa). split_and!; [| |done].
  - unfold kfree. rewrite Ha. destruct (Z.ltb_spec pa end_); [lia|].
    destruct (Z.geb_spec pa PHYSTOP); [lia|]. cbn [Z.eqb negb orb].
    do 5 kstep. cbn [kmem set_mem freelist]. reflexivity.
  - pose proof (free_inv_mem m s l pa I Ha Hni Ho) as [Hc Hn Hp].
    split; [|by constructor|by constructor]. split; [done|]. cbn [kmem freelist set_mem] in *.
    assert (Hfl : 0 <= freelist s < 2 ^ 64).
    { destruct I as [Hc' _ Hp']. destruct l as [|y l]; simpl in Hc'; [lia|].
      destruct Hc' as [-> _]. apply Forall_cons in Hp' as [Hy _].
      apply page_ok_range in Hy as [? _]. lia. }
    unfold m. by rewrite ld64_st64_eq by done.
Qed.

Lemma kfree_bad h s pa : ~ page_ok pa -> kfree pa h s = Panic "kfree".
Proof.
  intros H. unfold kfree, page_ok in *.
  destruct (Z.eqb_spec (pa mod PGSIZE) 0); [|done].
  destruct (Z.ltb_spec pa end_); [done|]. destruct (Z.geb_spec pa PHYSTOP); [done|lia].
Qed.

(** The pages [p], [p+PGSIZE], ... in the order [freerange] frees them. *)
Definition pages (p : Z) (n : nat) : list Z := (fun i => p + Z.of_nat i * PGSIZE) <$> seq 0 n.

Lemma pages_S p n : pages p (S n) = p :: pages (p + PGSIZE) n.
Proof.
  unfold pages. rewrite <- cons_seq, <- fmap_S_seq. cbn [fmap list_fmap].
  f_equal; [lia|]. rewrite <- list_fmap_compose. apply list_fmap_ext.
  intros i x _. unfold compose. lia.
Qed.

Lemma elem_of_pages p n x : x ∈ pages p n -> p <= x < p + Z.of_nat n * PGSIZE.
Proof. unfold pages. intros (i & -> & Hi%elem_of_seq)%list_elem_of_fmap. unfold PGSIZE. lia. Qed.

Lemma freerange_loop_ok h s l n fuel p pa_end :
  LKmem ∉ h -> free_inv s l -> p mod PGSIZE = 0 -> end_ <= p -> pa_end <= PHYSTOP ->
  p + Z.of_nat n * PGSIZE <= pa_end < p + Z.of_nat n * PGSIZE + PGSIZE ->
  (n < fuel)%nat -> (forall x, x ∈ l -> x < p) ->
  exists s', freerange_loop fuel p pa_end h s = Ok tt h s' /\
    free_inv s' (reverse (pages p n) ++ l).
Proof.
  intros Hh. revert s l p fuel. induction n as [|n IH]; intros s l p fuel I Hp He Hpe Hr Hf Hl.
  - exists s. destruct fuel; [lia|]. simpl. destruct (Z.leb_spec (p + PGSIZE) pa_end); [lia|].
    done.
  - destruct fuel as [|fuel]; [lia|]. cbn [freerange_loop].
    destruct (Z.leb_spec (p + PGSIZE) pa_end) as [Hle|]; [|unfold PGSIZE in *; lia].
    assert (p ∉ l) by (intros ?%Hl; lia).
    destruct (kfree_ok h s p l) as (s1 & E1 & I1 & _); [done|done| |done|].
    { unfold page_ok, PGSIZE in *. lia. }
    destruct (IH s1 (p :: l) (p + PGSIZE) fuel) as (s2 & E2 & I2); try done.
    + unfold PGSIZE in *. zdm.
    + unfold PGSIZE. lia.
    + lia.
    + lia.
    + unfold PGSIZE. intros x [->|?%Hl]%elem_of_cons; lia.
    + exists s2. split.
      * by erewrite bind_ok.
      * rewrite pages_S, reverse_cons, <- app_assoc. done.
Qed.

End run.
End kalloc.

(** The pages the kernel manages, in address order. *)
Definition all_pages (end_ : Z) : list Z :=
  let p := PGROUNDUP end_ in pages p (Z.to_nat ((PHYSTOP - p) / PGSIZE)).

(** Clients of the allocator: after [kinit], any sequence of [kalloc]s and of
    [kfree]s of pages obtained and not yet returned.  [al] is the list of
    pages the clients hold, to which they may write ([ar_write]). *)
Inductive alloc_reach (end_ : Z) : kst -> list Z -> Prop :=
| ar_init s0 s : freelist s0 = 0 -> kinit end_ [] s0 = Ok tt [] s -> alloc_reach end_ s []
| ar_alloc s al r s' :
    alloc_reach end_ s al -> kalloc [] s = Ok r [] s' -> r <> 0 -> alloc_reach end_ s' (r :: al)
| ar_nomem s al s' :
    alloc_reach end_ s al -> kalloc [] s = Ok 0 [] s' -> alloc_reach end_ s' al
| ar_free s al1 pa al2 s' :
    alloc_reach end_ s (al1 ++ pa :: al2) -> kfree end_ pa [] s = Ok tt [] s' ->
    alloc_reach end_ s' (al1 ++ al2)
| ar_write s al pa m :
    alloc_reach end_ s al -> pa ∈ al -> same_outside pa PGSIZE (kmem s) m ->
    alloc_reach end_ (set_mem m s) al.

Lemma kinit_ok end_ s0 :
  0 < end_ <= PHYSTOP -> freelist s0 = 0 ->
  exists s, kinit end_ [] s0 = Ok tt [] s /\ free_inv end_ s (reverse (all_pages end_)).
Proof.
  intros He Hf. assert (Hrange : 0 <= end_ < 2 ^ 64 - PGSIZE) by (unfold PHYSTOP, KERNBASE, PGSIZE in *; lia).
  destruct (PGROUNDUP_spec end_ Hrange) as [Ha Hr].
  assert (PGROUNDUP end_ <= PHYSTOP) by (unfold PHYSTOP, KERNBASE, PGSIZE in *; zdm).
  destruct (freerange_loop_ok end_ ltac:(lia) [] s0 []
              (Z.to_nat ((PHYSTOP - PGROUNDUP end_) / PGSIZE))
              (S (Z.to_nat ((PHYSTOP - PGROUNDUP end_) / PGSIZE))) (PGROUNDUP end_) PHYSTOP)
    as (s & E & I); [set_solver| |done|lia|done| |lia|set_solver|].
  - split; [done|constructor|constructor].
  - unfold PGSIZE in *. zdm.
  - exists s. split; [done|]. by rewrite app_nil_r in I.
Qed.

Lemma all_pages_nodup end_ : NoDup (all_pages end_).
Proof. apply NoDup_fmap_2, NoDup_seq. intros i j. unfold PGSIZE. lia. Qed.

Lemma alloc_reach_partition end_ s al :
  0 < end_ <= PHYSTOP -> alloc_reach end_ s al ->
  exists fl, free_inv end_ s fl /\ al ++ fl ≡ₚ all_pages end_ /\ Forall (page_ok end_) al.
Proof.
  intros He R. induction R as [s0 s Hf E|s al r s' R IH E Hr|s al s' R IH E|s al1 pa al2 s' R IH E|s al pa m R IH Hpa Ho].
  - destruct (kinit_ok end_ s0 He Hf) as (s1 & E1 & I). rewrite E in E1. simplify_eq.
    exists (reverse (all_pages end_)). split_and!; [done| |constructor].
    by rewrite reverse_Permutation.
  - destruct IH as (fl & I & P & A). destruct fl as [|x fl].
    + rewrite (kalloc_nil end_) in E by (done || set_solver). simplify_eq.
    + destruct (kalloc_cons end_ ltac:(lia) [] s x fl) as (s1 & E1 & I1 & _); [set_solver|done|].
      rewrite E in E1. simplify_eq. exists fl. split_and!; [done| |].
      * rewrite <- P. simpl. apply Permutation_middle.
      * constructor; [|done]. destruct I as [_ _ Hp]. by apply Forall_cons in Hp as [? _].
  - destruct IH as (fl & I & P & A). destruct fl as [|x fl].
    + rewrite (kalloc_nil end_) in E by (done || set_solver). simplify_eq. by exists [].
    + destruct (kalloc_cons end_ ltac:(lia) [] s x fl) as (s1 & E1 & I1 & _); [set_solver|done|].
      rewrite E in E1. simplify_eq. destruct I as [_ _ Hp]. apply Forall_cons in Hp as [Hp _].
      apply page_ok_range in Hp; [|lia]. lia.
  - destruct IH as (fl & I & P & A).
    assert (ND : NoDup ((al1 ++ pa :: al2) ++ fl)) by (rewrite P; apply all_pages_nodup).
    apply Forall_app in A as [A1 [Apa A2]%Forall_cons].
    assert (pa ∉ fl) by (apply NoDup_app in ND as (_ & ND & _); apply ND; set_solver).
    destruct (kfree_ok end_ ltac:(lia) [] s pa fl) as (s1 & E1 & I1 & _); [set_solver|done|done|done|].
    rewrite E in E1. simplify_eq. exists (pa :: fl). split_and!; [done| |by apply Forall_app].
    rewrite <- P, <- !app_assoc. simpl. apply Permutation_app_head. symmetry. apply Permutation_middle.
  - destruct IH as (fl & I & P & A). exists fl. split_and!; [|done|done].
    eapply free_inv_mem; [done| | |done].
    + rewrite Forall_forall in A. by apply A.
    + assert (ND : NoDup (al ++ fl)) by (rewrite P; apply all_pages_nodup).
      apply NoDup_app in ND as (_ & ND & _). by apply ND.
Qed.

(** ** Properties *)

#[local] Opaque memset st64 ld64.

(** C32: [kinit] returns, with a free list made of exactly the whole pages
    between the end of the kernel and PHYSTOP, last page first. *)
Theorem kinit_frees_all_pages end_ s0 :
  0 < end_ <= PHYSTOP -> freelist s0 = 0 ->
  exists s, kinit end_ [] s0 = Ok tt [] s /\ free_inv end_ s (reverse (all_pages end_)).
Proof. apply kinit_ok. Qed.

(** C6: over every sequence of [kalloc]s, [kfree]s of pages clients hold and
    client writes to such pages, the pages clients hold and the pages on the free list partition the managed pages:
    no page is handed out twice, none is lost, and the list threaded through
    the free pages stays intact. *)
Theorem alloc_partition end_ s al :
  0 < end_ <= PHYSTOP -> alloc_reach end_ s al ->
  exists fl, free_inv end_ s fl /\ al ++ fl ≡ₚ all_pages end_.
Proof. intros He R. destruct (alloc_reach_partition _ _ _ He R) as (fl & I & P & _). eauto. Qed.

(** C30: [kalloc] refines pop on the stack of free pages: it returns the top
    page filled with the junk byte 5 and changes no other byte, or returns 0
    and changes nothing when no page is free; the lock is released. *)
Theorem kalloc_refines end_ h s l :
  0 < end_ -> LKmem ∉ h -> free_inv end_ s l ->
  exists s', kalloc h s = Ok (hd 0 l) h s' /\ free_inv end_ s' (tail l) /\
    forall a, ld (kmem s') a =
      if decide (l <> [] /\ in_page (hd 0 l) a) then 5 else ld (kmem s) a.
Proof.
  intros He Hh I. destruct l as [|x l].
  - exists s. split_and!; [by eapply kalloc_nil|done|]. intros a. case_decide; [naive_solver|done].
  - destruct (kalloc_cons end_ He h s x l) as (s' & E & I' & M); [done|done|].
    exists s'. split_and!; [done|done|]. intros a. rewrite M.
    apply decide_ext. cbn [hd]. naive_solver.
Qed.

(** C31: [kfree] refines push: on a managed page that is not free it makes it
    the top of the free list and changes no byte of another page; on any
    other address (unaligned, inside the kernel, past PHYSTOP) it panics. *)
Theorem kfree_refines end_ h s l pa :
  0 < end_ -> LKmem ∉ h -> free_inv end_ s l -> pa ∉ l ->
  (page_ok end_ pa ->
   exists s', kfree end_ pa h s = Ok tt h s' /\ free_inv end_ s' (pa :: l) /\
     same_outside pa PGSIZE (kmem s) (kmem s')) /\
  (~ page_ok end_ pa -> kfree end_ pa h s = Panic "kfree").
Proof.
  intros He Hh I Hni. split; intros Hp; [by apply kfree_ok|by apply kfree_bad].
Qed.

(** A machine whose kernel ends three pages below PHYSTOP. *)
Definition small_end : Z := PHYSTOP - 3 * PGSIZE - 100.
Definition small_boot : kst :=
  res_state (Kst ∅ 0) (kinit small_end [] (Kst ∅ 0)).

Lemma small_end_ok : 0 < small_end <= PHYSTOP.
Proof. unfold small_end, PHYSTOP, KERNBASE, PGSIZE. lia. Qed.

Lemma small_boot_inv : free_inv small_end small_boot (reverse (all_pages small_end)).
Proof.
  destruct (kinit_ok small_end (Kst ∅ 0) small_end_ok eq_refl) as (s & E & I).
  unfold small_boot. by rewrite E.
Qed.

Lemma small_boot_reach : alloc_reach small_end small_boot [].
Proof.
  destruct (kinit_ok small_end (Kst ∅ 0) small_end_ok eq_refl) as (s & E & I).
  unfold small_boot. rewrite E. by apply (ar_init _ (Kst ∅ 0)).
Qed.

Lemma kinit_frees_all_pages_witness :
  exists s, kinit small_end [] (Kst ∅ 0) = Ok tt [] s /\
    free_inv small_end s [PHYSTOP - PGSIZE; PHYSTOP - 2 * PGSIZE; PHYSTOP - 3 * PGSIZE].
Proof. exact (kinit_frees_all_pages small_end (Kst ∅ 0) small_end_ok eq_refl). Defined.

(** One page is held, and the client has written to it. *)
Definition small_used : kst :=
  let s := res_state small_boot (kalloc [] small_boot) in
  set_mem (st (kmem s) (PHYSTOP - PGSIZE + 8) 42) s.

Lemma small_used_reach : alloc_reach small_end small_used [PHYSTOP - PGSIZE].
Proof.
  destruct (kalloc_cons small_end ltac:(apply small_end_ok) [] small_boot _ _ ltac:(apply not_elem_of_nil) small_boot_inv)
    as (s & E & _).
  apply ar_write with (pa := PHYSTOP - PGSIZE).
  - rewrite E. apply (ar_alloc _ small_boot); [apply small_boot_reach|exact E|discriminate].
  - apply list_elem_of_singleton. done.
  - intros a Ha. rewrite ld_st. rewrite decide_False; [done|]. unfold PGSIZE in *. lia.
Qed.

Lemma alloc_partition_witness :
  exists fl, free_inv small_end small_used fl /\ [PHYSTOP - PGSIZE] ++ fl ≡ₚ all_pages small_end.
Proof. exact (alloc_partition small_end small_used [PHYSTOP - PGSIZE] small_end_ok small_used_reach). Defined.

Lemma kalloc_refines_witness :
  exists s', kalloc [] small_boot = Ok (PHYSTOP - PGSIZE) [] s'.
Proof.
  destruct (kalloc_refines small_end [] small_boot _ ltac:(apply small_end_ok)
              ltac:(apply not_elem_of_nil) small_boot_inv) as (s' & E & _).
  exists s'. exact E.
Defined.

Lemma kfree_refines_witness : kfree small_end 12 [] small_boot = Panic "kfree".
Proof.
  apply (kfree_refines small_end [] small_boot (reverse (all_pages small_end)) 12
           ltac:(apply small_end_ok) ltac:(apply not_elem_of_nil) small_boot_inv).
  - change (reverse (all_pages small_end)) with
      [PHYSTOP - PGSIZE; PHYSTOP - 2 * PGSIZE; PHYSTOP - 3 * PGSIZE].
    unfold PHYSTOP, KERNBASE, PGSIZE. set_solver by lia.
  - intros [H _]. discriminate H.
Defined.
