(* ===== verification/Vm.v ===== *)
(** kernel/vm.c (and [proc_mapstacks] of kernel/proc.c): Sv39 page tables in
    kernel memory.

    The operations run on the allocator's state [kst], whose memory holds the
    page tables and the pages they map; a [pagetable_t] is the physical
    address of its root page, a [pte_t *] the address of an eight-byte entry.
    Loops take a bound on their iterations; running out of it is a panic with
    a message ending in "fuel", which the code does not have and which the
    theorems show not to happen.  [kvminithart] (page-table register, TLB) is
    not modelled: memory is accessed at physical addresses. *)

From S2P Require Import Prelude Mem CString Kern Riscv Kalloc.

Definition is_set (pte fl : Z) : bool := negb (Z.land pte fl =? 0).

Definition rd64 (a : Z) : K kst Z := kgets (fun s => ld64 (kmem s) a).
Definition wr64 (a v : Z) : K kst unit := kmodify (fun s => set_mem (st64 (kmem s) a v) s).
Definition kmem_op (f : mem -> mem) : K kst unit := kmodify (fun s => set_mem (f (kmem s)) s).

Section vm.
(** Linker symbols: the end of the kernel, of its text, and the trampoline. *)
Context (end_ etext trampoline : Z).

Abbreviation kfree := (kfree end_).

(** One level of [walk]'s loop: the next table, or [None] for [return 0]. *)
Definition walk_level (level va : Z) (alloc : bool) (pagetable : Z) : K kst (option Z) :=
  let pte := pagetable + 8 * PX level va in
  v ← rd64 pte;
  if is_set v PTE_V then mret (Some (PTE2PA v))
  else if negb alloc then mret None
  else
    pagetable ← kalloc;
    if pagetable =? 0 then mret None
    else
      kmem_op (memset pagetable 0 PGSIZE);;
      wr64 pte (Z.lor (PA2PTE pagetable) PTE_V);;
      mret (Some pagetable).

Definition walk (pagetable va : Z) (alloc : bool) : K kst Z :=
  if va >=? MAXVA then panic "walk"
  else
    r ← walk_level 2 va alloc pagetable;
    match r with
    | None => mret 0
    | Some pagetable =>
        r ← walk_level 1 va alloc pagetable;
        match r with
        | None => mret 0
        | Some pagetable => mret (pagetable + 8 * PX 0 va)
        end
    end.

Definition walkaddr (pagetable va : Z) : K kst Z :=
  if va >=? MAXVA then mret 0
  else
    pte ← walk pagetable va false;
    if pte =? 0 then mret 0
    else
      v ← rd64 pte;
      if negb (is_set v PTE_V) then mret 0
      else if negb (is_set v PTE_U) then mret 0
      else mret (PTE2PA v).

Fixpoint mappages_loop (fuel : nat) (pagetable a last pa perm : Z) : K kst Z :=
  match fuel with
  | O => panic "mappages: fuel"
  | S fuel =>
      pte ← walk pagetable a true;
      if pte =? 0 then mret (-1)
      else
        v ← rd64 pte;
        if is_set v PTE_V then panic "mappages: remap"
        else
          wr64 pte (Z.lor (Z.lor (PA2PTE pa) perm) PTE_V);;
          if a =? last then mret 0
          else mappages_loop fuel pagetable (u64 (a + PGSIZE)) last (u64 (pa + PGSIZE)) perm
  end.

Definition mappages (pagetable va size pa perm : Z) : K kst Z :=
  if negb (va mod PGSIZE =? 0) then panic "mappages: va not aligned"
  else if negb (size mod PGSIZE =? 0) then panic "mappages: size not aligned"
  else if size =? 0 then panic "mappages: size"
  else mappages_loop (S (Z.to_nat (size / PGSIZE))) pagetable va (u64 (va + size - PGSIZE)) pa perm.

Definition kvmmap (kpgtbl va pa sz perm : Z) : K kst unit :=
  r ← mappages kpgtbl va sz pa perm;
  if negb (r =? 0) then panic "kvmmap" else mret tt.

Definition NPROC : Z := 64.

Fixpoint proc_mapstacks_loop (ids : list Z) (kpgtbl : Z) : K kst unit :=
  match ids with
  | [] => mret tt
  | i :: ids =>
      pa ← kalloc;
      if pa =? 0 then panic "kalloc"
      else
        kvmmap kpgtbl (KSTACK i) pa PGSIZE (Z.lor PTE_R PTE_W);;
        proc_mapstacks_loop ids kpgtbl
  end.

Definition proc_mapstacks (kpgtbl : Z) : K kst unit := proc_mapstacks_loop (seqZ 0 NPROC) kpgtbl.

(** [kalloc]'s result is used unchecked, as in the code. *)
Definition kvmmake : K kst Z :=
  kpgtbl ← kalloc;
  kmem_op (memset kpgtbl 0 PGSIZE);;
  kvmmap kpgtbl UART0 UART0 PGSIZE (Z.lor PTE_R PTE_W);;
  kvmmap kpgtbl VIRTIO0 VIRTIO0 PGSIZE (Z.lor PTE_R PTE_W);;
  kvmmap kpgtbl PLIC PLIC 0x4000000 (Z.lor PTE_R PTE_W);;
  kvmmap kpgtbl KERNBASE KERNBASE (u64 (etext - KERNBASE)) (Z.lor PTE_R PTE_X);;
  kvmmap kpgtbl etext etext (u64 (PHYSTOP - etext)) (Z.lor PTE_R PTE_W);;
  kvmmap kpgtbl TRAMPOLINE trampoline PGSIZE (Z.lor PTE_R PTE_X);;
  proc_mapstacks kpgtbl;;
  mret kpgtbl.

Fixpoint uvmunmap_loop (fuel : nat) (pagetable a last : Z) (do_free : bool) : K kst unit :=
  match fuel with
  | O => panic "uvmunmap: fuel"
  | S fuel =>
      if a <? last
      then
        pte ← walk pagetable a false;
        if pte =? 0 then panic "uvmunmap: walk"
        else
          v ← rd64 pte;
          if negb (is_set v PTE_V) then panic "uvmunmap: not mapped"
          else if PTE_FLAGS v =? PTE_V then panic "uvmunmap: not a leaf"
          else
            (if do_free then kfree (PTE2PA v) else mret tt);;
            wr64 pte 0;;
            uvmunmap_loop fuel pagetable (u64 (a + PGSIZE)) last do_free
      else mret tt
  end.

Definition uvmunmap (pagetable va npages : Z) (do_free : bool) : K kst unit :=
  if negb (va mod PGSIZE =? 0) then panic "uvmunmap: not aligned"
  else uvmunmap_loop (S (Z.to_nat npages)) pagetable va (u64 (va + npages * PGSIZE)) do_free.

Definition uvmcreate : K kst Z :=
  pagetable ← kalloc;
  if pagetable =? 0 then mret 0
  else kmem_op (memset pagetable 0 PGSIZE);; mret pagetable.

Definition uvmfirst (pagetable src sz : Z) : K kst unit :=
  if sz >=? PGSIZE then panic "uvmfirst: more than a page"
  else
    m ← kalloc;
    kmem_op (memset m 0 PGSIZE);;
    _ ← mappages pagetable 0 PGSIZE m (Z.lor (Z.lor (Z.lor PTE_W PTE_R) PTE_X) PTE_U);
    kmem_op (memmove m src sz).

(** [npages] is an [int]. *)
Definition uvmdealloc (pagetable oldsz newsz : Z) : K kst Z :=
  if newsz >=? oldsz then mret oldsz
  else
    (if PGROUNDUP newsz <? PGROUNDUP oldsz
     then
       let npages := s32 ((PGROUNDUP oldsz - PGROUNDUP newsz) / PGSIZE) in
       uvmunmap pagetable (PGROUNDUP newsz) (u64 npages) true
     else mret tt);;
    mret newsz.

Fixpoint uvmalloc_loop (fuel : nat) (pagetable a oldsz newsz xperm : Z) : K kst Z :=
  match fuel with
  | O => panic "uvmalloc: fuel"
  | S fuel =>
      if a <? newsz
      then
        m ← kalloc;
        if m =? 0 then uvmdealloc pagetable a oldsz;; mret 0
        else
          kmem_op (memset m 0 PGSIZE);;
          r ← mappages pagetable a PGSIZE m (Z.lor (Z.lor PTE_R PTE_U) xperm);
          if negb (r =? 0)
          then kfree m;; uvmdealloc pagetable a oldsz;; mret 0
          else uvmalloc_loop fuel pagetable (u64 (a + PGSIZE)) oldsz newsz xperm
      else mret newsz
  end.

Definition uvmalloc (pagetable oldsz newsz xperm : Z) : K kst Z :=
  if newsz <? oldsz then mret oldsz
  else
    let oldsz := PGROUNDUP oldsz in
    uvmalloc_loop (S (Z.to_nat ((newsz - oldsz) / PGSIZE + 1))) pagetable oldsz oldsz newsz xperm.

(** [freewalk] on a table of the given level; a table below level 0 is not
    part of a page table. *)
Fixpoint freewalk (level : nat) (pagetable : Z) {struct level} : K kst unit :=
  match level with
  | O => panic "freewalk: fuel"
  | S level =>
      (fix entries (ids : list Z) : K kst unit :=
         match ids with
         | [] => mret tt
         | i :: ids =>
             pte ← rd64 (pagetable + 8 * i);
             (if is_set pte PTE_V && negb (is_set pte (Z.lor (Z.lor PTE_R PTE_W) PTE_X))
              then freewalk level (PTE2PA pte);; wr64 (pagetable + 8 * i) 0
              else if is_set pte PTE_V then panic "freewalk: leaf"
              else mret tt);;
             entries ids
         end) (seqZ 0 512);;
      kfree pagetable
  end.

Definition uvmfree (pagetable sz : Z) : K kst unit :=
  (if sz >? 0 then uvmunmap pagetable 0 (PGROUNDUP sz / PGSIZE) true else mret tt);;
  freewalk 3 pagetable.

Definition uvmcopy_err (new i : Z) : K kst Z := uvmunmap new 0 (i / PGSIZE) true;; mret (-1).

Fixpoint uvmcopy_loop (fuel : nat) (old new i sz : Z) : K kst Z :=
  match fuel with
  | O => panic "uvmcopy: fuel"
  | S fuel =>
      if i <? sz
      then
        pte ← walk old i false;
        if pte =? 0 then panic "uvmcopy: pte should exist"
        else
          v ← rd64 pte;
          if negb (is_set v PTE_V) then panic "uvmcopy: page not present"
          else
            let pa := PTE2PA v in
            let flags := PTE_FLAGS v in
            m ← kalloc;
            if m =? 0 then uvmcopy_err new i
            else
              kmem_op (memmove m pa PGSIZE);;
              r ← mappages new i PGSIZE m flags;
              if negb (r =? 0) then kfree m;; uvmcopy_err new i
              else uvmcopy_loop fuel old new (u64 (i + PGSIZE)) sz
      else mret 0
  end.

Definition uvmcopy (old new sz : Z) : K kst Z :=
  uvmcopy_loop (S (Z.to_nat (sz / PGSIZE + 1))) old new 0 sz.

Definition uvmclear (pagetable va : Z) : K kst unit :=
  pte ← walk pagetable va false;
  if pte =? 0 then panic "uvmclear"
  else v ← rd64 pte; wr64 pte (Z.land v (Z.lnot PTE_U)).

Fixpoint copyout_loop (fuel : nat) (pagetable dstva src len : Z) : K kst Z :=
  match fuel with
  | O => panic "copyout: fuel"
  | S fuel =>
      if len >? 0
      then
        let va0 := PGROUNDDOWN dstva in
        if va0 >=? MAXVA then mret (-1)
        else
          pte ← walk pagetable va0 false;
          if pte =? 0 then mret (-1)
          else
            v ← rd64 pte;
            if negb (is_set v PTE_V) || negb (is_set v PTE_U) || negb (is_set v PTE_W) then mret (-1)
            else
              let pa0 := PTE2PA v in
              let n := PGSIZE - (dstva - va0) in
              let n := if n >? len then len else n in
              kmem_op (memmove (pa0 + (dstva - va0)) src n);;
              copyout_loop fuel pagetable (u64 (va0 + PGSIZE)) (src + n) (len - n)
      else mret 0
  end.

Definition copyout (pagetable dstva src len : Z) : K kst Z :=
  copyout_loop (S (Z.to_nat len)) pagetable dstva src len.

Fixpoint copyin_loop (fuel : nat) (pagetable dst srcva len : Z) : K kst Z :=
  match fuel with
  | O => panic "copyin: fuel"
  | S fuel =>
      if len >? 0
      then
        let va0 := PGROUNDDOWN srcva in
        pa0 ← walkaddr pagetable va0;
        if pa0 =? 0 then mret (-1)
        else
          let n := PGSIZE - (srcva - va0) in
          let n := if n >? len then len else n in
          kmem_op (memmove dst (pa0 + (srcva - va0)) n);;
          copyin_loop fuel pagetable (dst + n) (u64 (va0 + PGSIZE)) (len - n)
      else mret 0
  end.

Definition copyin (pagetable dst srcva len : Z) : K kst Z :=
  copyin_loop (S (Z.to_nat len)) pagetable dst srcva len.

(** The inner loop of [copyinstr] over [n] bytes of one page: whether the
    terminator was found, and the new [dst], [max]. *)
Fixpoint copyinstr_page (n : nat) (p dst max : Z) : K kst (bool * Z * Z) :=
  match n with
  | O => mret (false, dst, max)
  | S n =>
      c ← kgets (fun s => ld (kmem s) p);
      if c =? 0 then kmem_op (fun m => st m dst 0);; mret (true, dst, max)
      else kmem_op (fun m => st m dst c);; copyinstr_page n (p + 1) (dst + 1) (max - 1)
  end.

Fixpoint copyinstr_loop (fuel : nat) (pagetable dst srcva max : Z) : K kst Z :=
  match fuel with
  | O => panic "copyinstr: fuel"
  | S fuel =>
      if max >? 0
      then
        let va0 := PGROUNDDOWN srcva in
        pa0 ← walkaddr pagetable va0;
        if pa0 =? 0 then mret (-1)
        else
          let n := PGSIZE - (srcva - va0) in
          let n := if n >? max then max else n in
          '(got_null, dst, max) ← copyinstr_page (Z.to_nat n) (pa0 + (srcva - va0)) dst max;
          if got_null : bool then mret 0
          else copyinstr_loop fuel pagetable dst (u64 (va0 + PGSIZE)) max
      else mret (-1)
  end.

Definition copyinstr (pagetable dst srcva max : Z) : K kst Z :=
  copyinstr_loop (S (Z.to_nat max)) pagetable dst srcva max.
End vm.
