(* ===== verification/PageTable.v ===== *)
(** The page tables kernel/vm.c builds, as partial maps from pages to entries.

    [tab m r p] follows the indices [p] from the root table [r]; [pte_of] is
    the entry of a virtual address, 0 where no table exists.  [pt_wf] says the
    tables form a tree of distinct pages.  [walk] and [mappages] are shown to
    keep it, to conserve pages between the tables and the free list, and to
    change the mapping exactly as asked. *)

From S2P Require Import Prelude Mem CString Kern Riscv Kalloc Vm.

#[local] Opaque memset memmove st64 ld64.

Definition idx (i : Z) : Prop := 0 <= i < 512.

Definition next (m : mem) (t i : Z) : option Z :=
  let v := ld64 m (t + 8 * i) in if is_set v PTE_V then Some (PTE2PA v) else None.

Fixpoint tab (m : mem) (r : Z) (p : list Z) : option Z :=
  match p with
  | [] => Some r
  | i :: p => t ← next m r i; tab m t p
  end.

Definition vpath (va : Z) : list Z := [PX 2 va; PX 1 va].

Definition pte_slot (m : mem) (r va : Z) : option Z :=
  t ← tab m r (vpath va); Some (t + 8 * PX 0 va).

Definition pte_of (m : mem) (r va : Z) : Z :=
  match pte_slot m r va with Some a => ld64 m a | None => 0 end.

(** The tables of [r] are pages of [P]; two index paths never meet. *)
Record pt_wf (end_ : Z) (m : mem) (r : Z) (P : list Z) : Prop := {
  wf_in : forall p t, (length p <= 2)%nat -> Forall idx p -> tab m r p = Some t -> t ∈ P;
  wf_inj : forall p q t, (length p <= 2)%nat -> (length q <= 2)%nat -> Forall idx p -> Forall idx q ->
    tab m r p = Some t -> tab m r q = Some t -> p = q;
  wf_pages : Forall (page_ok end_) P
}.

Lemma vpath_ok va : Forall idx (vpath va).
Proof. repeat constructor; apply PX_range; lia. Qed.

Lemma tab_snoc m r p i : tab m r (p ++ [i]) = t ← tab m r p; next m t i.
Proof.
  revert r. induction p as [|j p IH]; intros r; simpl.
  - by destruct (next m r i).
  - destruct (next m r j); simpl; [apply IH|done].
Qed.

Lemma slot_in_page t i : t mod PGSIZE = 0 -> idx i -> forall b, 0 <= b < 8 -> in_page t (t + 8 * i + b).
Proof. unfold in_page, idx, PGSIZE. lia. Qed.

Lemma slots_disjoint t i t' j :
  t mod PGSIZE = 0 -> t' mod PGSIZE = 0 -> idx i -> idx j -> (t, i) <> (t', j) ->
  t + 8 * i + 8 <= t' + 8 * j \/ t' + 8 * j + 8 <= t + 8 * i.
Proof.
  unfold idx, PGSIZE. intros Ht Ht' Hi Hj Hne.
  destruct (decide (t = t')) as [->|]; [|zdm].
  assert (i <> j) by congruence. lia.
Qed.

Lemma ld64_page_ext m m' n t i :
  n mod PGSIZE = 0 -> t mod PGSIZE = 0 -> idx i -> t <> n -> same_outside n PGSIZE m m' ->
  ld64 m' (t + 8 * i) = ld64 m (t + 8 * i).
Proof.
  intros Hn Ht Hi Hne Ho. apply ld64_ext. intros b Hb. apply Ho. intros Hin. apply Hne.
  apply (pages_disjoint t n b); [done|done| |done]. unfold in_page, idx, PGSIZE in *. lia.
Qed.

(** ** Reading: [walk] without allocation *)

Lemma walk_level_false level va t h s :
  walk_level level va false t h s = Ok (next (kmem s) t (PX level va)) h s.
Proof.
  unfold walk_level, next. erewrite bind_ok by reflexivity.
  cbn [negb]. by destruct (is_set _ PTE_V).
Qed.

Lemma walk_false r va h s :
  va < MAXVA -> walk r va false h s = Ok (default 0 (pte_slot (kmem s) r va)) h s.
Proof.
  intros Hva. unfold walk. destruct (Z.geb_spec va MAXVA); [lia|].
  rewrite (bind_ok _ _ _ _ _ _ _ (walk_level_false _ _ _ _ _)).
  unfold pte_slot, vpath. cbn [tab]. destruct (next (kmem s) r (PX 2 va)) as [t|]; [|done].
  cbn [mbind option_bind]. rewrite (bind_ok _ _ _ _ _ _ _ (walk_level_false _ _ _ _ _)).
  by destruct (next (kmem s) t (PX 1 va)).
Qed.

(** ** Changing an entry of the last level *)

Section leaf.
Context (end_ : Z) (Hend : 0 < end_).
Context (m : mem) (r : Z) (P : list Z) (W : pt_wf end_ m r P).

Lemma wf_aligned t : t ∈ P -> t mod PGSIZE = 0 /\ 0 < t < 2 ^ 32.
Proof.
  intros Ht. pose proof (wf_pages _ _ _ _ W) as F. rewrite Forall_forall in F.
  apply F in Ht. apply (page_ok_range end_) in Ht; [|done]. tauto.
Qed.

Lemma tab_aligned p t :
  (length p <= 2)%nat -> Forall idx p -> tab m r p = Some t -> t mod PGSIZE = 0 /\ 0 < t < 2 ^ 32.
Proof. intros Hl Hp Ht. apply wf_aligned. by eapply (wf_in _ _ _ _ W). Qed.

(** A path of tables reads only slots of tables above its end. *)
Lemma tab_ext m' p :
  (length p <= 2)%nat -> Forall idx p ->
  (forall q t i, (length q < length p)%nat -> Forall idx q -> idx i -> tab m r q = Some t ->
    ld64 m' (t + 8 * i) = ld64 m (t + 8 * i)) ->
  tab m' r p = tab m r p.
Proof.
  induction p as [|i p IH] using rev_ind; [done|]. intros Hl [Hp [Hi _]%Forall_cons]%Forall_app He.
  rewrite length_app in Hl. cbn [length] in Hl. rewrite !tab_snoc.
  rewrite IH; [|lia|done|intros q t j Hq ???; apply (He q); [rewrite length_app; simpl; lia|done..]].
  destruct (tab m r p) as [t|] eqn:Et; [|done]. simpl. unfold next.
  by rewrite (He p t i) by (done || (rewrite length_app; simpl; lia)).
Qed.

Lemma set_leaf va a v :
  0 <= v < 2 ^ 64 -> pte_slot m r va = Some a ->
  let m' := st64 m a v in
  (forall p, (length p <= 2)%nat -> Forall idx p -> tab m' r p = tab m r p) /\
  (forall va', pte_slot m' r va' = pte_slot m r va') /\
  (forall va', pte_of m' r va' =
     if decide (vpath va' = vpath va /\ PX 0 va' = PX 0 va) then v else pte_of m r va') /\
  pt_wf end_ m' r P.
Proof.
  intros Hv Ha. cbn zeta. unfold pte_slot in Ha. destruct (tab m r (vpath va)) as [t|] eqn:Et; [|done].
  simpl in Ha. simplify_eq. pose proof (vpath_ok va) as Hvp. pose proof (PX_range 0 va ltac:(lia)) as H0.
  assert (At : t mod PGSIZE = 0) by (eapply tab_aligned; [| |done]; [simpl; lia|done]).
  assert (T : forall p, (length p <= 2)%nat -> Forall idx p -> tab (st64 m (t + 8 * PX 0 va) v) r p = tab m r p).
  { intros p Hl Hp. apply tab_ext; [done|done|]. intros q t' i Hq Fq Hi Eq.
    apply ld64_st64_ne, slots_disjoint; try done; [eapply tab_aligned; [| |done]; [lia|done]|].
    intros [= -> _]. assert (vpath va = q) as <- by (eapply (wf_inj _ _ _ _ W); try done; simpl; lia).
    simpl in Hq. lia. }
  assert (Sl : forall va', pte_slot (st64 m (t + 8 * PX 0 va) v) r va' = pte_slot m r va').
  { intros va'. unfold pte_slot. rewrite T; [done|simpl; lia|apply vpath_ok]. }
  split_and!; [done|done| |].
  - intros va'. unfold pte_of. rewrite Sl. unfold pte_slot.
    destruct (tab m r (vpath va')) as [t'|] eqn:Et'; cbn [mbind option_bind].
    + case_decide as Hd.
      * destruct Hd as [Hp H0']. rewrite Hp in Et'. simplify_eq. rewrite H0'. by apply ld64_st64_eq.
      * apply ld64_st64_ne, slots_disjoint; try done.
        -- eapply tab_aligned; [| |done]; [simpl; lia|apply vpath_ok].
        -- apply PX_range. lia.
        -- intros [= -> E]. apply Hd. split; [|done].
           eapply (wf_inj _ _ _ _ W); try done; try (simpl; lia); apply vpath_ok.
    + rewrite decide_False; [done|]. intros [Hp _]. rewrite Hp in Et'. by rewrite Et in Et'.
  - split.
    + intros p t' Hl Hp. rewrite T by done. by apply W.
    + intros p q t' Hl Hl' Hp Hq. rewrite !T by done. by apply W.
    + apply W.
Qed.
End leaf.

(** ** Adding a table *)

Lemma is_set_V_pte n : 0 <= n < 2 ^ 56 -> n mod PGSIZE = 0 ->
  is_set (Z.lor (PA2PTE n) PTE_V) PTE_V = true /\ PTE2PA (Z.lor (PA2PTE n) PTE_V) = n /\
  0 <= Z.lor (PA2PTE n) PTE_V < 2 ^ 64.
Proof.
  intros Hn Ha. change PTE_V with 1. split_and!.
  - unfold is_set. rewrite Z.land_comm, Z.land_lor_distr_r. rewrite Z.land_diag.
    apply negb_true_iff, Z.eqb_neq. intros E. apply (f_equal (fun z => Z.testbit z 0)) in E.
    rewrite Z.lor_spec, Z.bits_0 in E. by rewrite orb_true_r in E.
  - apply PTE2PA_pte; (done || lia).
  - pose proof (pte_range n 1 ltac:(lia) ltac:(lia)). lia.
  - pose proof (pte_range n 1 ltac:(lia) ltac:(lia)). lia.
Qed.

Section grow.
Context (end_ : Z) (Hend : 0 < end_).
Context (m : mem) (r : Z) (P : list Z) (W : pt_wf end_ m r P).
Context (p : list Z) (i t n : Z) (m1 : mem).
Context (Hlen : (length p <= 1)%nat) (Hp : Forall idx p) (Hi : idx i).
Context (Et : tab m r p = Some t) (En : next m t i = None).
Context (Hn : page_ok end_ n) (Hfresh : n ∉ P).
Context (Ho : same_outside n PGSIZE m m1) (Hz : forall a, in_page n a -> ld m1 a = 0).

Definition grown : mem := st64 m1 (t + 8 * i) (Z.lor (PA2PTE n) PTE_V).

Lemma grow_n : n mod PGSIZE = 0 /\ 0 < n < 2 ^ 32.
Proof. pose proof (page_ok_range end_ Hend n Hn). tauto. Qed.

Lemma grow_t : t mod PGSIZE = 0 /\ t ∈ P.
Proof.
  split; [eapply (tab_aligned end_ Hend m r P W p); (done || lia)|].
  eapply (wf_in _ _ _ _ W p); (done || lia).
Qed.

(** Slots of the old tables other than the one written keep their entry. *)
Lemma grow_slot t' j :
  t' ∈ P -> idx j -> (t', j) <> (t, i) -> ld64 grown (t' + 8 * j) = ld64 m (t' + 8 * j).
Proof.
  intros Ht' Hj Hne. destruct (wf_aligned end_ Hend m r P W t' Ht') as [A' _].
  destruct grow_t as [At _]. destruct grow_n as [An _]. unfold grown.
  rewrite ld64_st64_ne by (apply slots_disjoint; (done || by apply not_eq_sym)).
  apply (ld64_page_ext m m1 n); try done. intros ->. done.
Qed.

Lemma grow_next_new : next grown t i = Some n.
Proof.
  destruct grow_n as [An Rn]. destruct (is_set_V_pte n) as (Sv & Pa & Rv); [lia|done|].
  unfold next, grown. rewrite ld64_st64_eq by done. by rewrite Sv, Pa.
Qed.

Lemma grow_zero j : idx j -> ld64 grown (n + 8 * j) = 0.
Proof.
  intros Hj. destruct grow_n as [An _]. destruct grow_t as [At Ht]. unfold grown.
  rewrite ld64_st64_ne.
  - apply ld64_zero. intros b Hb. apply Hz. unfold in_page, idx, PGSIZE in *. lia.
  - apply slots_disjoint; try done. intros [= -> _]. done.
Qed.

Lemma grow_tab q t' :
  (length q <= 2)%nat -> Forall idx q ->
  tab grown r q = Some t' <-> (q = p ++ [i] /\ t' = n) \/ tab m r q = Some t'.
Proof.
  revert t'. induction q as [|j q IH] using rev_ind; intros t' Hl Hq.
  - simpl. split; [auto|]. intros [[E _]|E]; [by destruct p|done].
  - apply Forall_app in Hq as [Hq [Hj _]%Forall_cons]. rewrite length_app in Hl. cbn [length] in Hl.
    rewrite !tab_snoc.
    assert (Old : forall t1, tab m r q = Some t1 -> tab grown r q = Some t1).
    { intros t1 E. apply IH; [lia|done|by right]. }
    assert (Nxt : forall t1, tab m r q = Some t1 ->
      next grown t1 j = if decide (q = p /\ j = i) then Some n else next m t1 j).
    { intros t1 E. case_decide as D.
      - destruct D as [-> ->]. rewrite Et in E. simplify_eq. apply grow_next_new.
      - unfold next. rewrite grow_slot; [done| |done|].
        + eapply (wf_in _ _ _ _ W q); (done || lia).
        + intros [= -> ->]. apply D. split; [|done]. eapply (wf_inj _ _ _ _ W q p t); (done || lia). }
    split.
    + destruct (tab grown r q) as [t1|] eqn:E1; [|done]. intros E2. simpl in E2.
      destruct (proj1 (IH t1 ltac:(lia) Hq) eq_refl) as [[-> ->]|E1'].
      * unfold next in E2. rewrite grow_zero in E2 by done. by vm_compute in E2.
      * rewrite Nxt in E2 by done. case_decide as D.
        -- destruct D as [-> ->]. simplify_eq. by left.
        -- right. rewrite E1'. done.
    + intros [[E ->]|E].
      * apply app_inj_tail in E as [-> ->]. rewrite (Old t Et). simpl. rewrite Nxt by done.
        by rewrite decide_True.
      * destruct (tab m r q) as [t1|] eqn:E1; [|done]. simpl in E. rewrite (Old t1) by done. simpl.
        rewrite Nxt by done. rewrite decide_False; [done|]. intros [-> ->]. by simplify_eq.
Qed.

Lemma grow_wf : pt_wf end_ grown r (n :: P).
Proof.
  split.
  - intros q t' Hl Hq. rewrite grow_tab by done. intros [[_ ->]|E]; [by left|right].
    by eapply (wf_in _ _ _ _ W q).
  - intros q q' t' Hl Hl' Hq Hq'. rewrite !grow_tab by done.
    intros [[-> ->]|E] [[-> E']|E']; try done.
    + exfalso. apply Hfresh. eapply (wf_in _ _ _ _ W q'); done.
    + subst. exfalso. apply Hfresh. eapply (wf_in _ _ _ _ W q); done.
    + by eapply (wf_inj _ _ _ _ W).
  - constructor; [done|apply W].
Qed.

Lemma grow_pte va : pte_of grown r va = pte_of m r va.
Proof.
  pose proof (vpath_ok va) as Hv. pose proof (PX_range 0 va ltac:(lia)) as H0. unfold pte_of, pte_slot.
  destruct (tab m r (vpath va)) as [t'|] eqn:E.
  - rewrite (proj2 (grow_tab (vpath va) t' ltac:(simpl; lia) Hv)) by auto. simpl.
    apply grow_slot; [|done|].
    + eapply (wf_in _ _ _ _ W (vpath va)); (done || simpl; lia).
    + intros [= -> _]. assert (X : vpath va = p) by (eapply (wf_inj _ _ _ _ W _ _ t); try done; simpl; lia).
      apply (f_equal length) in X. simpl in X. lia.
  - destruct (tab grown r (vpath va)) as [t'|] eqn:E'; simpl; [|done].
    apply grow_tab in E' as [[_ ->]|E']; [|congruence|simpl; lia|done]. by apply grow_zero.
Qed.
End grow.

(** ** [walk] with allocation *)

(** The tables [P] of [r] and the free pages [fl] are disjoint. *)
Record vm_inv (end_ : Z) (s : kst) (r : Z) (P fl : list Z) : Prop := {
  vi_free : free_inv end_ s fl;
  vi_wf : pt_wf end_ (kmem s) r P;
  vi_nodup : NoDup (P ++ fl)
}.

(** From [s] to [s'] pages only moved between the tables and the free list,
    and no other byte changed. *)
Record vm_step (end_ : Z) (r : Z) (s : kst) (P fl : list Z) (s' : kst) (P' fl' : list Z) : Prop := {
  vs_inv : vm_inv end_ s' r P' fl';
  vs_pages : P' ++ fl' ≡ₚ P ++ fl;
  vs_frame : forall a, (forall q, q ∈ P ++ fl -> ~ in_page q a) -> ld (kmem s') a = ld (kmem s) a
}.

Lemma vm_step_refl end_ r s P fl : vm_inv end_ s r P fl -> vm_step end_ r s P fl s P fl.
Proof. by split. Qed.

Lemma vm_step_trans end_ r s0 P0 f0 s1 P1 f1 s2 P2 f2 :
  vm_step end_ r s0 P0 f0 s1 P1 f1 -> vm_step end_ r s1 P1 f1 s2 P2 f2 -> vm_step end_ r s0 P0 f0 s2 P2 f2.
Proof.
  intros [_ Q1 F1] [I2 Q2 F2]. split; [done|by rewrite Q2|].
  intros a Ha. rewrite F2; [by apply F1|]. intros q. rewrite Q1. apply Ha.
Qed.

Section walk.
Context (end_ : Z) (Hend : 0 < end_) (h : list lockid) (Hh : LKmem ∉ h) (r : Z).

(** Writing an entry of a table keeps the free list. *)
Lemma free_inv_slot s P fl t i v :
  vm_inv end_ s r P fl -> t ∈ P -> idx i -> free_inv end_ (set_mem (st64 (kmem s) (t + 8 * i) v) s) fl.
Proof.
  intros [I W N] Ht Hi. destruct (wf_aligned end_ Hend _ _ _ W t Ht) as [At _].
  apply (free_inv_mem end_ _ s fl t); try done.
  - apply NoDup_app in N as (_ & N & _). by apply N.
  - intros a Ha. apply ld_st64_out. unfold idx, PGSIZE in *. lia.
Qed.

Lemma walk_level_true level va p t s P fl :
  0 <= level -> vm_inv end_ s r P fl -> (length p <= 1)%nat -> Forall idx p ->
  tab (kmem s) r p = Some t ->
  exists o s' P' fl', walk_level level va true t h s = Ok o h s' /\
    vm_step end_ r s P fl s' P' fl' /\
    (forall va', pte_of (kmem s') r va' = pte_of (kmem s) r va') /\
    match o with
    | Some t' => tab (kmem s') r (p ++ [PX level va]) = Some t'
    | None => fl' = []
    end.
Proof.
  intros Hlv V Hl Hp Et. pose proof (PX_range level va Hlv) as Hi. unfold walk_level.
  erewrite bind_ok by reflexivity. destruct (is_set (ld64 (kmem s) (t + 8 * PX level va)) PTE_V) eqn:Es.
  - eexists _, s, P, fl. split; [reflexivity|]. split_and!; [by apply vm_step_refl|done|].
    rewrite tab_snoc, Et. simpl. unfold next. by rewrite Es.
  - cbn [negb]. pose proof V as [I W N]. destruct fl as [|x fl].
    + erewrite bind_ok by (by apply (kalloc_nil end_)). eexists _, s, P, []. split; [reflexivity|].
      by split_and!; [apply vm_step_refl| |].
    + destruct (kalloc_cons end_ Hend h s x fl Hh I) as (s1 & E1 & I1 & M1).
      assert (Hx : page_ok end_ x) by (destruct I as [_ _ Fp]; by apply Forall_cons in Fp as [? _]).
      destruct (page_ok_range end_ Hend x Hx) as [Rx Ax].
      assert (HxP : x ∉ P) by (intros HxP; apply NoDup_app in N as (_ & N & _); by apply (N x HxP); left).
      assert (HtP : t ∈ P) by (eapply (wf_in _ _ _ _ W p); (done || lia)).
      set (m1 := memset x 0 PGSIZE (kmem s1)).
      assert (Ho : same_outside x PGSIZE (kmem s) m1).
      { intros a Ha. unfold m1. rewrite ld_memset, decide_False, M1 by done. by rewrite decide_False. }
      assert (Hz : forall a, in_page x a -> ld m1 a = 0).
      { intros a Ha. unfold m1. rewrite ld_memset. by case_decide. }
      assert (En : next (kmem s) t (PX level va) = None) by (unfold next; by rewrite Es).
      erewrite bind_ok by done. destruct (Z.eqb_spec x 0); [lia|].
      erewrite bind_ok by reflexivity. fold m1. erewrite bind_ok by reflexivity. cbn [kmem set_mem].
      set (s2 := set_mem m1 s1). eexists _, (set_mem _ s2), (x :: P), fl. split; [reflexivity|].
      change (kmem (set_mem ?m s2)) with m.
      fold (grown (PX level va) t x m1).
      split_and!.
      * split.
        -- split.
           ++ apply (free_inv_mem end_ _ s2 fl t).
              ** apply (free_inv_mem end_ _ s1 fl x); try done.
                 { apply NoDup_app in N as (_ & _ & N). by apply NoDup_cons in N as [? _]. }
                 intros a Ha. unfold m1. rewrite ld_memset. by case_decide.
              ** by eapply (wf_aligned end_ Hend _ _ _ W).
              ** apply NoDup_app in N as (_ & N & _). intros Hf. apply (N t HtP). by right.
              ** intros a Ha. apply ld_st64_out. unfold idx, PGSIZE in *. lia.
           ++ eapply grow_wf; done.
           ++ rewrite <- app_comm_cons. by rewrite Permutation_middle.
        -- simpl. apply Permutation_middle.
        -- intros a Ha. cbn [kmem set_mem]. unfold grown. rewrite ld_st64_out.
           ++ apply Ho. intros Hin. apply (Ha x); [set_solver|done].
           ++ intros Hin. apply (Ha t); [apply elem_of_app; by left|]. unfold in_page, idx, PGSIZE in *. lia.
      * intros va'. eapply grow_pte; done.
      * eapply grow_tab; try done; [rewrite length_app; simpl; lia|by apply Forall_app; split; [|repeat constructor; lia]|].
        by left.
Qed.

Lemma walk_true va s P fl :
  va < MAXVA -> vm_inv end_ s r P fl ->
  exists a s' P' fl', walk r va true h s = Ok a h s' /\
    vm_step end_ r s P fl s' P' fl' /\
    (forall va', pte_of (kmem s') r va' = pte_of (kmem s) r va') /\
    (if decide (a = 0) then fl' = [] else pte_slot (kmem s') r va = Some a).
Proof.
  intros Hva V. unfold walk. destruct (Z.geb_spec va MAXVA); [lia|].
  destruct (walk_level_true 2 va [] r s P fl) as (o & s1 & P1 & f1 & E1 & S1 & G1 & H1); try done; [simpl; lia|].
  erewrite bind_ok by exact E1. destruct o as [t|].
  - destruct (walk_level_true 1 va [PX 2 va] t s1 P1 f1) as (o & s2 & P2 & f2 & E2 & S2 & G2 & H2);
      [lia|apply S1|simpl; lia|repeat constructor; apply PX_range; lia|done|].
    erewrite bind_ok by exact E2. assert (S3 := vm_step_trans _ _ _ _ _ _ _ _ _ _ _ S1 S2).
    destruct o as [t'|]; eexists _, s2, P2, f2; (split; [reflexivity|]); split_and!; try done;
      try (intros va'; rewrite G2; apply G1).
    change (tab (kmem s2) r (vpath va) = Some t') in H2.
    rewrite decide_False; [unfold pte_slot; by rewrite H2|].
    pose proof (vs_inv _ _ _ _ _ _ _ _ S2) as [_ W2 _].
    destruct (tab_aligned end_ Hend _ _ _ W2 (vpath va) t') as [_ ?]; [simpl; lia|apply vpath_ok|done|].
    pose proof (PX_range 0 va ltac:(lia)). lia.
  - eexists _, s1, P1, f1. by split_and!.
Qed.
End walk.

(** ** [mappages] *)

Definition same_page (va va' : Z) : Prop := va / PGSIZE = va' / PGSIZE.

#[export] Instance same_page_dec va va' : Decision (same_page va va').
Proof. unfold same_page. apply _. Defined.

Lemma vpath_same_page va va' :
  0 <= va < MAXVA -> 0 <= va' < MAXVA ->
  (vpath va' = vpath va /\ PX 0 va' = PX 0 va) <-> same_page va va'.
Proof.
  intros H H'. unfold same_page, vpath. split.
  - intros [[= H2 H1] H0]. pose proof (PX_split va H) as E. pose proof (PX_split va' H') as E'.
    rewrite H2, H1, H0 in E'. change PGSIZE with 4096 in *. zdm.
  - intros E. rewrite !PX_eq by lia. change (2 ^ PXSHIFT 2) with (4096 * 2 ^ 18).
    change (2 ^ PXSHIFT 1) with (4096 * 2 ^ 9). change (2 ^ PXSHIFT 0) with (4096 * 1).
    rewrite <- !(Zdiv_Zdiv _ 4096) by lia. change PGSIZE with 4096 in E. by rewrite E.
Qed.

(** The entries of the pages from [va] to [va + n] after mapping. *)
Definition mapped (va n pa perm : Z) (f f' : Z -> Z) : Prop :=
  forall va', 0 <= va' < MAXVA ->
    f' va' = if decide (va <= va' < va + n)
             then Z.lor (Z.lor (PA2PTE (pa + (va' - va) / PGSIZE * PGSIZE)) perm) PTE_V else f va'.

Lemma pte_perm_range pa perm :
  0 <= pa < 2 ^ 56 -> 0 <= perm < 1024 -> 0 <= Z.lor (Z.lor (PA2PTE pa) perm) PTE_V < 2 ^ 64.
Proof.
  intros Hp Hf. rewrite <- Z.lor_assoc. assert (0 <= Z.lor perm PTE_V < 1024).
  { split; [apply Z.lor_nonneg; split; [lia|done]|].
    destruct (decide (Z.lor perm PTE_V = 0)) as [->|Hne]; [lia|]. apply (Z.log2_lt_pow2 _ 10).
    - assert (0 <= Z.lor perm PTE_V) by (apply Z.lor_nonneg; split; [lia|done]). lia.
    - rewrite Z.log2_lor by (lia || done). apply Z.max_lub_lt; [|done].
      destruct (decide (perm = 0)) as [->|]; [done|]. apply Z.log2_lt_pow2; lia. }
  pose proof (pte_range pa (Z.lor perm PTE_V)). lia.
Qed.

Section mappages.
Context (end_ : Z) (Hend : 0 < end_) (h : list lockid) (Hh : LKmem ∉ h) (r : Z).
Context (perm : Z) (Hperm : 0 <= perm < 1024).

(** Filling in the entry [walk] returned. *)
Lemma set_pte s P fl va a v :
  0 <= v < 2 ^ 64 -> 0 <= va < MAXVA -> vm_inv end_ s r P fl -> pte_slot (kmem s) r va = Some a ->
  let s' := set_mem (st64 (kmem s) a v) s in
  vm_step end_ r s P fl s' P fl /\
  forall va', 0 <= va' < MAXVA ->
    pte_of (kmem s') r va' = if decide (same_page va va') then v else pte_of (kmem s) r va'.
Proof.
  intros Hv Hva V Ha. cbn zeta. pose proof V as [I W N].
  destruct (set_leaf end_ Hend _ _ _ W va a v Hv Ha) as (_ & _ & Pt & W').
  assert (Sl : exists t, t ∈ P /\ a = t + 8 * PX 0 va).
  { unfold pte_slot in Ha. destruct (tab (kmem s) r (vpath va)) as [t|] eqn:Et; [|done].
    cbn [mbind option_bind] in Ha. simplify_eq. exists t. split; [|done].
    eapply (wf_in _ _ _ _ W); [| |done]; [simpl; lia|apply vpath_ok]. }
  destruct Sl as (t & Ht & ->). pose proof (PX_range 0 va ltac:(lia)) as Hi.
  split.
  - split; [|done|].
    + split; [|done|done]. by eapply (free_inv_slot end_ Hend r).
    + intros b Hb. cbn [kmem set_mem]. apply ld_st64_out. intros Hin.
      apply (Hb t); [apply elem_of_app; by left|]. unfold in_page, idx, PGSIZE in *. lia.
  - intros va' Hva'. cbn [kmem set_mem]. rewrite Pt. apply decide_ext. by apply vpath_same_page.
Qed.

(** One round of the loop: no memory for a table, or the entry is set. *)
Lemma map_one a pa s P fl :
  0 <= a < MAXVA -> 0 <= pa < 2 ^ 56 -> vm_inv end_ s r P fl ->
  is_set (pte_of (kmem s) r a) PTE_V = false ->
  exists s' P' fl', vm_step end_ r s P fl s' P' fl' /\
    ((forall fuel last, mappages_loop (S fuel) r a last pa perm h s = Ok (-1) h s' /\ fl' = [] /\
        forall va', pte_of (kmem s') r va' = pte_of (kmem s) r va') \/
     (forall fuel last, mappages_loop (S fuel) r a last pa perm h s =
        (if a =? last then Ok 0 h s'
         else mappages_loop fuel r (u64 (a + PGSIZE)) last (u64 (pa + PGSIZE)) perm h s') /\
        forall va', 0 <= va' < MAXVA -> pte_of (kmem s') r va' =
          if decide (same_page a va') then Z.lor (Z.lor (PA2PTE pa) perm) PTE_V else pte_of (kmem s) r va')).
Proof.
  intros Ha Hpa V Hun.
  destruct (walk_true end_ Hend h Hh r a s P fl ltac:(lia) V) as (pte & s1 & P1 & f1 & E1 & S1 & G1 & H1).
  case_decide as Hz.
  - exists s1, P1, f1. split; [done|]. left. intros fuel last. split_and!; try done.
    cbn [mappages_loop]. erewrite bind_ok by exact E1. subst. reflexivity.
  - destruct (set_pte s1 P1 f1 a pte _ (pte_perm_range pa perm Hpa Hperm) Ha (vs_inv _ _ _ _ _ _ _ _ S1) H1)
      as [S2 G2].
    eexists _, P1, f1. split; [by eapply vm_step_trans|]. right. intros fuel last. split.
    + cbn [mappages_loop]. erewrite bind_ok by exact E1. destruct (Z.eqb_spec pte 0); [done|].
      erewrite bind_ok by reflexivity.
      assert (Ev : ld64 (kmem s1) pte = pte_of (kmem s) r a) by (rewrite <- G1; unfold pte_of; by rewrite H1).
      rewrite Ev, Hun. erewrite bind_ok by reflexivity. by destruct (a =? last).
    + intros va' Hva'. rewrite G2 by done. by rewrite G1.
Qed.

Lemma mappages_loop_ok k fuel a last pa s P fl :
  (k < fuel)%nat ->
  a mod PGSIZE = 0 -> 0 <= a -> last = a + Z.of_nat k * PGSIZE -> last < MAXVA ->
  0 <= pa -> pa + Z.of_nat (S k) * PGSIZE <= 2 ^ 56 ->
  vm_inv end_ s r P fl ->
  (forall va', a <= va' < last + PGSIZE -> is_set (pte_of (kmem s) r va') PTE_V = false) ->
  exists rv n s' P' fl', mappages_loop fuel r a last pa perm h s = Ok rv h s' /\
    vm_step end_ r s P fl s' P' fl' /\
    (rv = 0 /\ n = S k \/ rv = -1 /\ (n <= k)%nat /\ fl' = []) /\
    mapped a (Z.of_nat n * PGSIZE) pa perm (pte_of (kmem s) r) (pte_of (kmem s') r).
Proof.
  revert fuel a pa s P fl. change PGSIZE with 4096. change MAXVA with (2 ^ 38).
  induction k as [|k IH]; intros fuel a pa s P fl Hfuel Ha Ha0 Hlast Hmax Hpa Hpm V Hun;
    (destruct fuel as [|fuel]; [lia|]).
  all: destruct (map_one a pa s P fl) as (s1 & P1 & f1 & S1 & [H|H]);
    [change MAXVA with (2 ^ 38); lia|lia|done|apply Hun; lia| |].
  - destruct (H fuel last) as (E & -> & G). eexists _, 0%nat, s1, P1, []. split_and!; try done; [right; split_and!; (done||lia)|].
    intros va' _. rewrite decide_False by lia. apply G.
  - destruct (H fuel last) as (E & G). rewrite E. destruct (Z.eqb_spec a last); [|lia].
    eexists _, 1%nat, s1, P1, f1. split; [reflexivity|]. split_and!; [done|by left|].
    intros va' Hva'. rewrite G by done. unfold same_page, PGSIZE.
    repeat case_decide; try done; [|zdm|zdm]. do 3 f_equal. zdm.
  - destruct (H fuel last) as (E & -> & G). eexists _, 0%nat, s1, P1, []. split_and!; try done; [right; split_and!; (done||lia)|].
    intros va' _. rewrite decide_False by lia. apply G.
  - destruct (H fuel last) as (E & G). rewrite E. destruct (Z.eqb_spec a last) as [|_]; [lia|].
    assert (Hl : last + 4096 <= 2 ^ 38) by zdm. unfold PGSIZE. rewrite !u64_small by lia.
    destruct (IH fuel (a + 4096) (pa + 4096) s1 P1 f1) as (rv & n & s2 & P2 & f2 & E2 & S2 & R2 & M2);
      [lia|zdm|lia|lia|lia|lia|lia|apply S1| |].
    { intros va' Hva'. rewrite G by (change MAXVA with (2 ^ 38); lia). unfold same_page, PGSIZE.
      rewrite decide_False by zdm. apply Hun. lia. }
    eexists rv, (S n), s2, P2, f2. split; [done|].
    split_and!; [by eapply vm_step_trans|destruct R2 as [[-> ->]|(-> & ? & ->)]; [by left|right; split_and!; (done||lia)]|].
    intros va' Hva'. rewrite M2 by done. rewrite G by done. unfold same_page, PGSIZE.
    repeat case_decide; try done; try zdm; do 3 f_equal; zdm.
Qed.
End mappages.

(** ** An empty page table *)

Lemma empty_tab m r p t :
  (forall i, idx i -> ld64 m (r + 8 * i) = 0) -> Forall idx p -> tab m r p = Some t -> p = [] /\ t = r.
Proof.
  intros Hz Hp. destruct p as [|i p]; simpl; [by intros [=]|]. apply Forall_cons in Hp as [Hi _].
  unfold next. rewrite Hz by done. by vm_compute.
Qed.

Lemma uvmcreate_ok end_ h s r fl :
  0 < end_ -> LKmem ∉ h -> free_inv end_ s (r :: fl) ->
  exists s', uvmcreate h s = Ok r h s' /\ vm_inv end_ s' r [r] fl /\
    forall va, pte_of (kmem s') r va = 0.
Proof.
  intros He Hh I. destruct (kalloc_cons end_ He h s r fl Hh I) as (s1 & E1 & I1 & M1).
  pose proof I as [_ [Hr N]%NoDup_cons [Hp F]%Forall_cons].
  destruct (page_ok_range end_ He r Hp) as [Rr Ar].
  set (s2 := set_mem (memset r 0 PGSIZE (kmem s1)) s1).
  assert (Hz : forall i, idx i -> ld64 (kmem s2) (r + 8 * i) = 0).
  { intros i Hi. apply ld64_zero. intros b Hb. cbn [s2 kmem set_mem]. rewrite ld_memset, decide_True; [done|].
    unfold idx, PGSIZE in *. lia. }
  exists s2. split_and!.
  - unfold uvmcreate. erewrite bind_ok by exact E1. destruct (Z.eqb_spec r 0); [lia|].
    erewrite bind_ok by reflexivity. reflexivity.
  - split.
    + apply (free_inv_mem end_ _ s1 fl r); try done. intros a Ha. rewrite ld_memset. by rewrite decide_False.
    + split.
      * intros p t _ Hpp Et. apply empty_tab in Et as [_ ->]; [by left|done|done].
      * intros p q t _ _ Hpp Hq Ep Eq. apply empty_tab in Ep as [-> _]; [|done|done].
        by apply empty_tab in Eq as [-> _].
      * constructor; [done|constructor].
    + by constructor.
  - intros va. unfold pte_of, pte_slot. destruct (tab (kmem s2) r (vpath va)) as [t|] eqn:Et; [|done].
    by apply empty_tab in Et as [E _]; [|done|apply vpath_ok].
Qed.

Lemma mappages_ok end_ h s r P fl va size pa perm :
  0 < end_ -> LKmem ∉ h -> vm_inv end_ s r P fl ->
  va mod PGSIZE = 0 -> size mod PGSIZE = 0 -> 0 < size -> 0 <= va -> va + size <= MAXVA ->
  0 <= pa -> pa + size <= 2 ^ 56 -> 0 <= perm < 1024 ->
  (forall va', va <= va' < va + size -> is_set (pte_of (kmem s) r va') PTE_V = false) ->
  exists rv n s' P' fl', mappages r va size pa perm h s = Ok rv h s' /\
    vm_step end_ r s P fl s' P' fl' /\
    (rv = 0 /\ n = size \/ rv = -1 /\ 0 <= n < size /\ fl' = []) /\
    mapped va n pa perm (pte_of (kmem s) r) (pte_of (kmem s') r).
Proof.
  intros He Hh V Ha Hs H0 Hva Hmax Hpa Hpm Hp Hun. unfold mappages. rewrite Ha, Hs. cbn [Z.eqb negb].
  destruct (Z.eqb_spec size 0) as [|_]; [lia|]. change MAXVA with (2 ^ 38) in *.
  assert (Hk : size = Z.of_nat (S (Z.to_nat (size / 4096 - 1))) * 4096) by (unfold PGSIZE in Hs; zdm).
  assert (Hn : Z.to_nat (size / PGSIZE) = S (Z.to_nat (size / 4096 - 1))) by (unfold PGSIZE in *; zdm).
  set (k := Z.to_nat (size / 4096 - 1)) in *. rewrite Hn.
  rewrite u64_small by (unfold PGSIZE; lia).
  destruct (mappages_loop_ok end_ He h Hh r perm Hp k (S (S k)) va (va + size - PGSIZE) pa s P fl)
    as (rv & n & s' & P' & fl' & E & S & R & M); try done; try (unfold PGSIZE in *; lia).
  { change MAXVA with (2 ^ 38). unfold PGSIZE. lia. }
  { intros va' Hva'. apply Hun. unfold PGSIZE in *. lia. }
  exists rv, (Z.of_nat n * PGSIZE), s', P', fl'. split_and!; [done|done| |done].
  unfold PGSIZE. destruct R as [[-> ->]|(-> & ? & ->)]; [left|right]; split_and!; (done || lia).
Qed.

(** ** Properties *)

(** C3: [mappages] refines the abstract map from pages to entries.  On page
    tables that form a tree disjoint from the free list, with the range free
    of mappings, it returns 0 having set exactly the entries of the range to
    the consecutive physical pages with the given permissions, or -1 when the
    allocator ran dry, having set those of a proper prefix; in both cases the
    tables are still such a tree, every page it took is now a table, and no
    byte outside the tables and the free pages has changed. *)
Theorem mappages_refines end_ h s r P fl va size pa perm :
  0 < end_ -> LKmem ∉ h -> vm_inv end_ s r P fl ->
  va mod PGSIZE = 0 -> size mod PGSIZE = 0 -> 0 < size -> 0 <= va -> va + size <= MAXVA ->
  0 <= pa -> pa + size <= 2 ^ 56 -> 0 <= perm < 1024 ->
  (forall va', va <= va' < va + size -> is_set (pte_of (kmem s) r va') PTE_V = false) ->
  exists rv n s' P' fl', mappages r va size pa perm h s = Ok rv h s' /\
    vm_step end_ r s P fl s' P' fl' /\
    (rv = 0 /\ n = size \/ rv = -1 /\ 0 <= n < size /\ fl' = []) /\
    mapped va n pa perm (pte_of (kmem s) r) (pte_of (kmem s') r).
Proof. apply mappages_ok. Qed.

(** The three pages of the small machine: one becomes the root, the other two
    the tables for address 0. *)
Definition small_vm : kst :=
  res_state small_boot (uvmcreate [] small_boot).
Definition small_root : Z := PHYSTOP - PGSIZE.
Definition small_free : list Z := [PHYSTOP - 2 * PGSIZE; PHYSTOP - 3 * PGSIZE].

Lemma small_vm_inv :
  vm_inv small_end small_vm small_root [small_root] small_free /\
  forall va, pte_of (kmem small_vm) small_root va = 0.
Proof.
  assert (He : 0 < small_end) by apply small_end_ok.
  destruct (uvmcreate_ok small_end [] small_boot small_root small_free He (not_elem_of_nil _) small_boot_inv)
    as (s & E & H). unfold small_vm. by rewrite E.
Qed.

Lemma mappages_refines_witness :
  exists rv n s' P' fl', mappages small_root 0 PGSIZE KERNBASE 22 [] small_vm = Ok rv [] s' /\
    (rv = 0 /\ n = PGSIZE \/ rv = -1 /\ 0 <= n < PGSIZE /\ fl' = []) /\
    vm_step small_end small_root small_vm [small_root] small_free s' P' fl'.
Proof.
  destruct (mappages_refines small_end [] small_vm small_root [small_root] small_free 0 PGSIZE KERNBASE 22)
    as (rv & n & s' & P' & fl' & E & St & R & _);
    [apply small_end_ok|apply not_elem_of_nil|apply small_vm_inv|done|done|done|done|done|done|done|lia| |].
  - intros va' _. rewrite (proj2 small_vm_inv). reflexivity.
  - exists rv, n, s', P', fl'. split_and!; [exact E|exact R|exact St].
Defined.
