(* ===== verification/UserMem.v ===== *)
(** [walkaddr], [copyin], [copyinstr] and [copyout] of kernel/vm.c as the only
    way the kernel touches user memory.

    [ubyte m r va] is the byte a user sees at [va] through the page table [r].
    [copyin] and [copyout] are shown to read and write exactly these bytes, to
    refuse exactly when a byte of the range is not mapped for the user, and to
    leave everything else alone.  [uspace] is the resulting view of a process's
    memory that the components above use. *)

From S2P Require Import Prelude Mem CString Kern Riscv Kalloc Vm PageTable.

#[local] Opaque memset memmove st64 ld64.

(** The physical page behind a user address; for writing, PTE_W is needed. *)
Definition upage (m : mem) (r va : Z) : option Z :=
  let v := pte_of m r va in
  if (va <? MAXVA) && is_set v PTE_V && is_set v PTE_U && negb (PTE2PA v =? 0)
  then Some (PTE2PA v) else None.

Definition wpage (m : mem) (r va : Z) : option Z :=
  let v := pte_of m r va in
  if (va <? MAXVA) && is_set v PTE_V && is_set v PTE_U && is_set v PTE_W
  then Some (PTE2PA v) else None.

Definition ubyte (m : mem) (r va : Z) : option Z :=
  pa ← upage m r va; Some (ld m (pa + va mod PGSIZE)).

(** The page tables only read the pages [P]. *)
Lemma pte_of_frame end_ m m' r P va :
  0 < end_ -> pt_wf end_ m r P ->
  (forall q b, q ∈ P -> in_page q b -> ld m' b = ld m b) ->
  pte_of m' r va = pte_of m r va.
Proof.
  intros He W Hf.
  assert (Hs : forall t i, t ∈ P -> idx i -> ld64 m' (t + 8 * i) = ld64 m (t + 8 * i)).
  { intros t i Ht Hi. apply ld64_ext. intros b Hb. apply (Hf t); [done|]. unfold in_page, idx, PGSIZE in *. lia. }
  assert (T : tab m' r (vpath va) = tab m r (vpath va)).
  { apply (tab_ext m r); [simpl; lia|apply vpath_ok|]. intros q t i Hq Fq Hi Eq. apply Hs; [|done].
    eapply (wf_in _ _ _ _ W q); [simpl in Hq; lia|done|done]. }
  unfold pte_of, pte_slot. rewrite T. destruct (tab m r (vpath va)) as [t|] eqn:E; [|done].
  cbn [mbind option_bind]. apply Hs; [|apply PX_range; lia].
  eapply (wf_in _ _ _ _ W); [| |done]; [simpl; lia|apply vpath_ok].
Qed.

Lemma pte_of_page m r va va' :
  0 <= va < MAXVA -> 0 <= va' < MAXVA -> same_page va va' -> pte_of m r va' = pte_of m r va.
Proof.
  intros H H' Hs. apply vpath_same_page in Hs as [E E0]; [|done|done].
  unfold pte_of, pte_slot. by rewrite E, E0.
Qed.

Section user.
Context (end_ : Z) (Hend : 0 < end_) (r : Z) (P : list Z) (h : list lockid).

Lemma slot_nonzero m va a : pt_wf end_ m r P -> pte_slot m r va = Some a -> a <> 0.
Proof.
  intros W. unfold pte_slot. destruct (tab m r (vpath va)) as [t|] eqn:Et; [|done].
  cbn [mbind option_bind]. intros [= <-].
  destruct (tab_aligned end_ Hend _ _ _ W (vpath va) t) as [_ ?]; [simpl; lia|apply vpath_ok|done|].
  pose proof (PX_range 0 va ltac:(lia)). lia.
Qed.

Lemma walkaddr_ok va s :
  pt_wf end_ (kmem s) r P -> walkaddr r va h s = Ok (default 0 (upage (kmem s) r va)) h s.
Proof.
  intros W. unfold walkaddr, upage. destruct (Z.geb_spec va MAXVA), (Z.ltb_spec va MAXVA); try lia; [done|].
  erewrite bind_ok by (by apply walk_false). unfold pte_of.
  destruct (pte_slot (kmem s) r va) as [a|] eqn:E; cbn [default from_option id]; [|reflexivity].
  pose proof (slot_nonzero _ _ _ W E). destruct (Z.eqb_spec a 0); [done|].
  erewrite bind_ok by reflexivity. cbn [andb].
  destruct (is_set _ PTE_V); [|done]. destruct (is_set _ PTE_U); [|done]. cbn [negb andb].
  by destruct (Z.eqb_spec (PTE2PA (ld64 (kmem s) a)) 0) as [->|].
Qed.

Lemma upage_nonzero m va pa : upage m r va = Some pa -> pa <> 0 /\ va < MAXVA.
Proof.
  unfold upage. destruct (Z.ltb_spec va MAXVA), (is_set _ _), (is_set _ _), (Z.eqb_spec (PTE2PA (pte_of m r va)) 0);
    cbn; intros [= <-]; done.
Qed.

(** ** copyin *)

(** A kernel buffer: its bytes are neither in a page table nor in a page the
    user has mapped. *)
Definition kbuf (m : mem) (a n : Z) : Prop :=
  (forall q b, q ∈ P -> in_page q b -> ~ (a <= b < a + n)) /\
  (forall va pa b, 0 <= va -> upage m r va = Some pa -> in_page pa b -> ~ (a <= b < a + n)).

Lemma kbuf_write m m' a n va :
  0 <= va -> pt_wf end_ m r P -> kbuf m a n -> same_outside a n m m' ->
  upage m' r va = upage m r va /\ ubyte m' r va = ubyte m r va.
Proof.
  intros H0 W [Hq Hu] Ho.
  assert (E : upage m' r va = upage m r va).
  { unfold upage. rewrite (pte_of_frame end_ m m' r P va); [done|done|done|].
    intros q b Hqp Hb. apply Ho. by apply (Hq q). }
  split; [done|]. unfold ubyte. rewrite E. destruct (upage m r va) as [pa|] eqn:Ep; [|done].
  cbn [mbind option_bind]. f_equal. apply Ho. apply (Hu va pa); [done|done|].
  unfold in_page, PGSIZE. zdm.
Qed.

Lemma wf_write m m' a n :
  pt_wf end_ m r P -> (forall q b, q ∈ P -> in_page q b -> ~ (a <= b < a + n)) ->
  same_outside a n m m' -> pt_wf end_ m' r P.
Proof.
  intros W Hq Ho.
  assert (T : forall p, (length p <= 2)%nat -> Forall idx p -> tab m' r p = tab m r p).
  { intros p Hl Hp. apply (tab_ext m r); [done|done|]. intros q t i Hlq Fq Hi Eq. apply ld64_ext. intros b Hb.
    apply Ho. apply (Hq t); [eapply (wf_in _ _ _ _ W q); (done || lia)|]. unfold in_page, idx, PGSIZE in *. lia. }
  split; [|intros p q t Hl Hl' Hp Hq'; rewrite !T by done; by apply W|apply W].
  intros p t Hl Hp. rewrite T by done. by apply W.
Qed.

Lemma kbuf_shift m m' a n k :
  pt_wf end_ m r P -> kbuf m a n -> same_outside a n m m' -> 0 <= k <= n -> kbuf m' (a + k) (n - k).
Proof.
  intros W K Ho Hk. pose proof K as [Hq Hu]. split.
  - intros q b Hqp Hb Hin. apply (Hq q b); (done || lia).
  - intros va pa b H0 Hp Hb Hin. destruct (kbuf_write m m' a n va H0 W K Ho) as [E _]. rewrite E in Hp.
    apply (Hu va pa b); (done || lia).
Qed.

(** The bytes of one page are mapped together. *)
Lemma upage_page m va va' :
  0 <= va < MAXVA -> same_page va va' -> upage m r va' = upage m r va.
Proof.
  intros H Hs. assert (0 <= va' < MAXVA).
  { unfold same_page, PGSIZE in Hs. change MAXVA with (2 ^ 38) in *. zdm. }
  unfold upage. rewrite (pte_of_page m r va va') by done.
  destruct (Z.ltb_spec va MAXVA), (Z.ltb_spec va' MAXVA); (done || lia).
Qed.

Lemma copyin_loop_ok fuel dst va len s :
  pt_wf end_ (kmem s) r P -> kbuf (kmem s) dst len -> 0 <= va < 2 ^ 64 -> 0 <= len -> (Z.to_nat len < fuel)%nat ->
  exists rv s', copyin_loop fuel r dst va len h s = Ok rv h s' /\
    freelist s' = freelist s /\ same_outside dst len (kmem s) (kmem s') /\
    (rv = 0 /\ (forall i, 0 <= i < len -> ubyte (kmem s) r (va + i) = Some (ld (kmem s') (dst + i))) \/
     rv = -1 /\ exists i, 0 <= i < len /\ ubyte (kmem s) r (va + i) = None).
Proof.
  revert dst va len s. induction fuel as [|fuel IH]; intros dst va len s W K Hva Hlen Hf; [lia|].
  cbn [copyin_loop]. destruct (Z.gtb_spec len 0) as [Hl|Hl].
  2: { eexists _, s. split; [reflexivity|]. split_and!; [done|done|]. left. split; [done|lia]. }
  rewrite PGROUNDDOWN_eq. erewrite bind_ok by (by apply walkaddr_ok).
  set (off := va mod PGSIZE).
  assert (Hoff : 0 <= off < PGSIZE) by (apply Z.mod_pos_bound; done).
  destruct (upage (kmem s) r (va - off)) as [pa|] eqn:Ep; cbn [default from_option id].
  - destruct (upage_nonzero _ _ _ Ep) as [Hpa Hmax]. destruct (Z.eqb_spec pa 0) as [|_]; [done|].
    replace (va - (va - off)) with off by lia.
    set (n := if PGSIZE - off >? len then len else PGSIZE - off).
    assert (Hn : 0 < n <= len /\ n <= PGSIZE - off /\ (n = len \/ n = PGSIZE - off))
      by (unfold n; destruct (Z.gtb_spec (PGSIZE - off) len); lia).
    erewrite bind_ok by reflexivity.
    set (s1 := set_mem (memmove dst (pa + off) n (kmem s)) s).
    assert (Ho : same_outside dst n (kmem s) (kmem s1)).
    { intros b Hb. cbn [s1 kmem set_mem]. rewrite ld_memmove. by rewrite decide_False by lia. }
    assert (Ho' : same_outside dst len (kmem s) (kmem s1)) by (intros b Hb; apply Ho; lia).
    assert (Hub : forall i, 0 <= i < n -> ubyte (kmem s) r (va + i) = Some (ld (kmem s1) (dst + i))).
    { intros i Hi. unfold ubyte. rewrite (upage_page (kmem s) (va - off)).
      - rewrite Ep. cbn [mbind option_bind s1 kmem set_mem]. rewrite ld_memmove, decide_True by lia.
        do 2 f_equal. unfold off, PGSIZE in *. zdm.
      - unfold off, PGSIZE in *. zdm.
      - unfold same_page, off, PGSIZE in *. zdm. }
    destruct (IH (dst + n) (u64 (va - off + PGSIZE)) (len - n) s1) as (rv & s2 & E2 & F2 & O2 & R2).
    { eapply wf_write; [done| |exact Ho']. apply K. }
    { eapply kbuf_shift; (done || lia). }
    { apply u64_range. }
    { lia. }
    { lia. }
    exists rv, s2. split_and!; [exact E2|done| |].
    { intros b Hb. rewrite O2 by lia. by apply Ho'. }
    assert (Hw : n < len -> u64 (va - off + PGSIZE) = va + n).
    { intros. change MAXVA with (2 ^ 38) in Hmax. rewrite u64_small by (unfold PGSIZE, off in *; zdm). lia. }
    assert (Hsh : forall i, n <= i < len -> ubyte (kmem s) r (va + i) = ubyte (kmem s1) r (u64 (va - off + PGSIZE) + (i - n))).
    { intros i Hi. rewrite Hw by lia. replace (va + n + (i - n)) with (va + i) by lia.
      destruct (kbuf_write (kmem s) (kmem s1) dst len (va + i) ltac:(lia) W K Ho') as [_ <-]. done. }
    destruct R2 as [[-> R2]|(-> & i & Hi & R2)]; [left|right]; (split; [done|]).
    + intros i Hi. destruct (decide (i < n)).
      * rewrite Hub by lia. f_equal. symmetry. apply O2. lia.
      * rewrite Hsh, R2 by lia. do 2 f_equal. lia.
    + exists (i + n). split; [lia|]. rewrite Hsh by lia. by replace (i + n - n) with i by lia.
  - rewrite Z.eqb_refl. eexists _, s. split; [reflexivity|]. split_and!; [done|done|]. right. split; [done|].
    exists 0. split; [lia|]. unfold ubyte. rewrite Z.add_0_r.
    destruct (decide (va < MAXVA)).
    + rewrite (upage_page (kmem s) (va - off)); [by rewrite Ep| |]; unfold same_page, off, PGSIZE in *; zdm.
    + unfold upage. by destruct (Z.ltb_spec va MAXVA); [lia|].
Qed.

(** ** copyout *)

Definition wbyte (m : mem) (va : Z) : option Z :=
  pa ← wpage m r va; Some (ld m (pa + va mod PGSIZE)).

(** The pages the user can write are not page tables and are mapped once. *)
Record wsep (m : mem) : Prop := {
  ws_tab : forall va pa q b, 0 <= va -> wpage m r va = Some pa -> q ∈ P -> in_page q b -> ~ in_page pa b;
  ws_inj : forall va va' pa pa' b, 0 <= va -> 0 <= va' -> wpage m r va = Some pa -> wpage m r va' = Some pa' ->
    in_page pa b -> in_page pa' b -> same_page va va'
}.

Definition ksrc (m : mem) (a n : Z) : Prop :=
  forall va pa b, 0 <= va -> wpage m r va = Some pa -> in_page pa b -> ~ (a <= b < a + n).

Lemma wpage_page m va va' : 0 <= va < MAXVA -> same_page va va' -> wpage m r va' = wpage m r va.
Proof.
  intros H Hs. assert (0 <= va' < MAXVA).
  { unfold same_page, PGSIZE in Hs. change MAXVA with (2 ^ 38) in *. zdm. }
  unfold wpage. rewrite (pte_of_page m r va va') by done.
  destruct (Z.ltb_spec va MAXVA), (Z.ltb_spec va' MAXVA); (done || lia).
Qed.

Lemma wpage_max m va pa : wpage m r va = Some pa -> va < MAXVA.
Proof. unfold wpage. by destruct (Z.ltb_spec va MAXVA). Qed.

(** Writing inside one user page keeps the tables. *)
Lemma wsep_write m m' va pa :
  pt_wf end_ m r P -> wsep m -> 0 <= va -> wpage m r va = Some pa -> same_outside pa PGSIZE m m' ->
  pt_wf end_ m' r P /\ (forall va', pte_of m' r va' = pte_of m r va').
Proof.
  intros W Ws H0 Hp Ho. assert (Hq : forall q b, q ∈ P -> in_page q b -> ~ (pa <= b < pa + PGSIZE)).
  { intros q b Hq Hb. by apply (ws_tab _ Ws va pa q b). }
  split; [by eapply wf_write|]. intros va'. eapply pte_of_frame; [done|done|].
  intros q b Hqp Hb. apply Ho. by apply (Hq q).
Qed.

Lemma wpage_ext m m' va : (forall va', pte_of m' r va' = pte_of m r va') -> wpage m' r va = wpage m r va.
Proof. intros H. unfold wpage. by rewrite H. Qed.

Lemma wsep_ext m m' : (forall va', pte_of m' r va' = pte_of m r va') -> wsep m -> wsep m'.
Proof.
  intros H [Wt Wi]. split.
  - intros va pa q b H0. rewrite (wpage_ext m) by done. by apply Wt.
  - intros va va' pa pa' b H0 H0'. rewrite (wpage_ext m m' va), (wpage_ext m m' va') by done. by apply Wi.
Qed.

(** What a copy of [upto] bytes to [va] leaves in user memory. *)
Record stored (m m' : mem) (va src upto : Z) : Prop := {
  so_pte : forall va', pte_of m' r va' = pte_of m r va';
  so_new : forall i, 0 <= i < upto -> wbyte m' (va + i) = Some (ld m (src + i));
  so_old : forall va', 0 <= va' -> ~ (va <= va' < va + upto) -> wbyte m' va' = wbyte m va';
  so_out : forall b, (forall va' pa, 0 <= va' -> wpage m r va' = Some pa -> ~ in_page pa b) -> ld m' b = ld m b
}.

Lemma in_page_off pa off : 0 <= off < PGSIZE -> in_page pa (pa + off).
Proof. unfold in_page. lia. Qed.

(** One page's worth. *)
Lemma store_page m va pa src n :
  pt_wf end_ m r P -> wsep m -> 0 <= va -> wpage m r va = Some pa ->
  0 < n <= PGSIZE - va mod PGSIZE -> ksrc m src n ->
  let m' := memmove (pa + va mod PGSIZE) src n m in
  pt_wf end_ m' r P /\ stored m m' va src n.
Proof.
  intros W Ws H0 Hp Hn Hk. cbn zeta. set (off := va mod PGSIZE) in *. pose proof (wpage_max _ _ _ Hp) as Hmax.
  assert (Hoff : 0 <= off < PGSIZE) by (apply Z.mod_pos_bound; done).
  assert (Ho : same_outside pa PGSIZE m (memmove (pa + off) src n m)).
  { intros b Hb. rewrite ld_memmove. by rewrite decide_False by lia. }
  destruct (wsep_write m _ va pa W Ws H0 Hp Ho) as [W' Pt].
  assert (Hbyte : forall va' b, 0 <= va' -> wbyte m va' = Some b ->
    exists pa', wpage m r va' = Some pa' /\ b = ld m (pa' + va' mod PGSIZE)).
  { intros va' b _. unfold wbyte. destruct (wpage m r va') as [pa'|]; [|done]. intros [= <-]. eauto. }
  split; [done|]. split; [done| | |].
  - intros i Hi. unfold wbyte. rewrite (wpage_ext m) by done. rewrite (wpage_page m va (va + i)).
    + rewrite Hp. cbn [mbind option_bind]. rewrite ld_memmove.
      assert ((va + i) mod PGSIZE = off + i) as -> by (unfold off, PGSIZE in *; zdm).
      rewrite decide_True by lia. do 2 f_equal. lia.
    + lia.
    + unfold same_page, off, PGSIZE in *. zdm.
  - intros va' H0' Hout. unfold wbyte. rewrite (wpage_ext m) by done.
    destruct (wpage m r va') as [pa'|] eqn:Hp'; [|done]. cbn [mbind option_bind]. f_equal.
    rewrite ld_memmove. case_decide as Hin; [|done]. exfalso. apply Hout.
    assert (Hs : same_page va va').
    { apply (ws_inj _ Ws va va' pa pa' (pa' + va' mod PGSIZE)); try done; [unfold in_page in *; lia|].
      apply in_page_off, Z.mod_pos_bound. done. }
    rewrite (wpage_page m va va') in Hp' by (done || lia). rewrite Hp in Hp'. simplify_eq.
    unfold same_page, off, PGSIZE in *. zdm.
  - intros b Hb. apply Ho. intros Hin. apply (Hb va pa); done.
Qed.

(** One round of [copyout]'s loop. *)
Lemma copyout_step fuel va src len s :
  pt_wf end_ (kmem s) r P -> 0 <= va < 2 ^ 64 -> 0 < len ->
  copyout_loop (S fuel) r va src len h s =
  match wpage (kmem s) r va with
  | None => Ok (-1) h s
  | Some pa =>
      let n := if PGSIZE - va mod PGSIZE >? len then len else PGSIZE - va mod PGSIZE in
      copyout_loop fuel r (u64 (va - va mod PGSIZE + PGSIZE)) (src + n) (len - n) h
        (set_mem (memmove (pa + va mod PGSIZE) src n (kmem s)) s)
  end.
Proof.
  intros W Hva Hl. cbn [copyout_loop]. destruct (Z.gtb_spec len 0); [|lia].
  rewrite PGROUNDDOWN_eq. set (off := va mod PGSIZE).
  assert (Hoff : 0 <= off < PGSIZE) by (apply Z.mod_pos_bound; done).
  unfold wpage. destruct (Z.geb_spec (va - off) MAXVA), (Z.ltb_spec va MAXVA); try lia; [done| |].
  2: { unfold off, PGSIZE in *. change MAXVA with (2 ^ 38) in *. zdm. }
  erewrite bind_ok by (by apply walk_false).
  assert (Hpg : pte_of (kmem s) r va = pte_of (kmem s) r (va - off)).
  { apply pte_of_page; unfold same_page, off, PGSIZE in *; zdm. }
  rewrite Hpg. unfold pte_of.
  destruct (pte_slot (kmem s) r (va - off)) as [a|] eqn:E; cbn [default from_option id]; [|reflexivity].
  pose proof (slot_nonzero _ _ _ W E). destruct (Z.eqb_spec a 0); [done|].
  erewrite bind_ok by reflexivity. cbn [andb]. replace (va - (va - off)) with off by lia.
  by destruct (is_set _ PTE_V), (is_set _ PTE_U), (is_set _ PTE_W).
Qed.

Lemma stored_trans m m1 m2 va n src len upto :
  0 < n <= len -> stored m m1 va src n -> ksrc m src len ->
  stored m1 m2 (va + n) (src + n) upto -> 0 <= va -> 0 <= upto <= len - n ->
  stored m m2 va src (n + upto).
Proof.
  intros Hn [P1 N1 O1 B1] Hk [P2 N2 O2 B2] Hva Hu. split.
  - intros va'. by rewrite P2.
  - intros i Hi. destruct (decide (i < n)).
    + rewrite O2 by lia. apply N1. lia.
    + replace (va + i) with (va + n + (i - n)) by lia. rewrite N2 by lia.
      replace (src + n + (i - n)) with (src + i) by lia. f_equal. apply B1.
      intros va' pa H0 Hp Hb. apply (Hk va' pa (src + i)); (done || lia).
  - intros va' H0 Hout. rewrite O2 by lia. apply O1; lia.
  - intros b Hb. rewrite B2; [by apply B1|]. intros va' pa H0. rewrite (wpage_ext m) by done. by apply Hb.
Qed.

Lemma stored_refl m va src : 0 <= va -> stored m m va src 0.
Proof. intros. split; intros; (done || lia). Qed.

Lemma copyout_loop_ok fuel va src len s :
  pt_wf end_ (kmem s) r P -> wsep (kmem s) -> ksrc (kmem s) src len -> 0 <= va < 2 ^ 64 -> 0 <= len ->
  (Z.to_nat len < fuel)%nat ->
  exists rv s' upto, copyout_loop fuel r va src len h s = Ok rv h s' /\
    freelist s' = freelist s /\ stored (kmem s) (kmem s') va src upto /\
    (rv = 0 /\ upto = len \/
     rv = -1 /\ 0 <= upto < len /\ wpage (kmem s) r (va + upto) = None).
Proof.
  revert va src len s. induction fuel as [|fuel IH]; intros va src len s W Ws Hk Hva Hlen Hf; [lia|].
  destruct (decide (len = 0)) as [->|Hnz].
  { eexists 0, s, 0. split_and!; [reflexivity|done|apply stored_refl; lia|by left]. }
  rewrite copyout_step by (done || lia). destruct (wpage (kmem s) r va) as [pa|] eqn:Hp.
  2: { eexists _, s, 0. split; [reflexivity|]. split_and!; [done|apply stored_refl; lia|].
       right. rewrite Z.add_0_r. split_and!; (done || lia). }
  cbv zeta. set (off := va mod PGSIZE). pose proof (wpage_max _ _ _ Hp) as Hmax.
  assert (Hoff : 0 <= off < PGSIZE) by (apply Z.mod_pos_bound; done).
  set (n := if PGSIZE - off >? len then len else PGSIZE - off).
  assert (Hn : 0 < n <= len /\ n <= PGSIZE - off /\ (n = len \/ n = PGSIZE - off))
    by (unfold n; destruct (Z.gtb_spec (PGSIZE - off) len); lia).
  set (s1 := set_mem (memmove (pa + off) src n (kmem s)) s).
  destruct (store_page (kmem s) va pa src n W Ws) as [W1 St]; [lia|done|fold off; lia| |].
  { intros va' pa' b H0' Hp' Hb Hin. apply (Hk va' pa' b); (done || lia). }
  change (memmove (pa + va mod PGSIZE) src n (kmem s)) with (kmem s1) in W1, St.
  assert (K1 : ksrc (kmem s1) (src + n) (len - n)).
  { intros va' pa' b H0'. rewrite (wpage_ext (kmem s)) by apply St. intros Hp' Hb Hin. apply (Hk va' pa' b); (done || lia). }
  destruct (decide (n = len)) as [En|].
  { rewrite En, Z.sub_diag in *. exists 0, s1, len. split_and!; [|done| |by left].
    - destruct fuel as [|fuel]; [lia|]. reflexivity.
    - done. }
  assert (Hw : u64 (va - off + PGSIZE) = va + n).
  { change MAXVA with (2 ^ 38) in Hmax. rewrite u64_small by (unfold PGSIZE, off in *; zdm). lia. }
  rewrite Hw. change MAXVA with (2 ^ 38) in Hmax.
  destruct (IH (va + n) (src + n) (len - n) s1) as (rv & s2 & upto & E2 & F2 & St2 & R2);
    [done|eapply wsep_ext; [apply St|done]|done|unfold PGSIZE in *; lia|lia|lia|].
  assert (0 <= upto <= len - n) by lia.
  exists rv, s2, (n + upto). split_and!; [exact E2|done|apply (stored_trans _ (kmem s1) _ _ _ _ len); (done || lia)|].
  rewrite (wpage_ext (kmem s)) in R2 by apply St. replace (va + (n + upto)) with (va + n + upto) by lia.
  destruct R2 as [[-> ->]|(-> & ? & ?)]; [left|right]; split_and!; (done || lia).
Qed.

(** ** copyinstr *)

Lemma copyinstr_page_ok n p dst max s :
  (forall i, 0 <= i < Z.of_nat n -> ~ (dst <= p + i < dst + Z.of_nat n)) ->
  exists (found : bool) k s', copyinstr_page n p dst max h s = Ok (found, dst + k, max - k) h s' /\
    0 <= k <= Z.of_nat n /\ freelist s' = freelist s /\ same_outside dst (Z.of_nat n) (kmem s) (kmem s') /\
    (forall i, 0 <= i < k -> ld (kmem s) (p + i) <> 0 /\ ld (kmem s') (dst + i) = ld (kmem s) (p + i)) /\
    (if found then k < Z.of_nat n /\ ld (kmem s) (p + k) = 0 /\ ld (kmem s') (dst + k) = 0
     else k = Z.of_nat n).
Proof.
  revert p dst max s. induction n as [|n IH]; intros p dst max s Hd.
  { exists false, 0, s. cbn [copyinstr_page]. rewrite Z.add_0_r, Z.sub_0_r. split_and!; try done; intros; lia. }
  cbn [copyinstr_page]. erewrite bind_ok by reflexivity.
  destruct (Z.eqb_spec (ld (kmem s) p) 0) as [Hz|Hnz].
  - erewrite bind_ok by reflexivity. eexists true, 0, _. split; [rewrite Z.add_0_r, Z.sub_0_r; reflexivity|].
    cbn [kmem set_mem freelist]. rewrite !Z.add_0_r. split_and!; try done; try lia.
    + intros b Hb. apply ld_st_ne. lia.
    + by rewrite ld_st_eq.
  - erewrite bind_ok by reflexivity. set (s1 := set_mem (st (kmem s) dst (ld (kmem s) p)) s).
    assert (M1 : forall b, b <> dst -> ld (kmem s1) b = ld (kmem s) b) by (intros b Hb; apply ld_st_ne; lia).
    destruct (IH (p + 1) (dst + 1) (max - 1) s1) as (found & k & s2 & E & Hk & F & Ho & Hi & Hf).
    { intros i Hi' Hin. apply (Hd (i + 1)); lia. }
    assert (Hp : forall i, 0 <= i < Z.of_nat n -> ld (kmem s1) (p + 1 + i) = ld (kmem s) (p + 1 + i)).
    { intros i Hi'. apply M1. intros Heq. apply (Hd (i + 1)); lia. }
    exists found, (k + 1), s2. split; [rewrite E; do 2 f_equal; [f_equal|]; lia|].
    split_and!; [lia|lia|by rewrite F| | |].
    + intros b Hb. rewrite Ho by lia. apply M1. lia.
    + intros i Hi'. destruct (decide (i = 0)) as [->|].
      * rewrite !Z.add_0_r. split; [done|]. rewrite Ho by lia. cbn [s1 kmem set_mem]. rewrite ld_st_eq. apply u8_ld.
      * destruct (Hi (i - 1) ltac:(lia)) as [H1 H2]. rewrite Hp in H1, H2 by lia.
        replace (p + 1 + (i - 1)) with (p + i) in * by lia.
        by replace (dst + 1 + (i - 1)) with (dst + i) in H2 by lia.
    + destruct found; [|lia]. destruct Hf as (Hk' & H1 & H2). rewrite Hp in H1 by lia.
      replace (p + (k + 1)) with (p + 1 + k) by lia. replace (dst + (k + 1)) with (dst + 1 + k) by lia.
      split_and!; (done || lia).
Qed.

(** A NUL-terminated string of [k] bytes at user address [va], found at [dst]. *)
Definition got_string (m m' : mem) (va dst k : Z) : Prop :=
  (forall i, 0 <= i < k -> exists b, b <> 0 /\ ubyte m r (va + i) = Some b /\ ld m' (dst + i) = b) /\
  ubyte m r (va + k) = Some 0 /\ ld m' (dst + k) = 0.

Lemma copyinstr_loop_ok fuel dst va max s :
  pt_wf end_ (kmem s) r P -> kbuf (kmem s) dst max -> 0 <= va < 2 ^ 64 -> 0 <= max -> (Z.to_nat max < fuel)%nat ->
  exists rv s', copyinstr_loop fuel r dst va max h s = Ok rv h s' /\
    freelist s' = freelist s /\ same_outside dst max (kmem s) (kmem s') /\
    (rv = 0 /\ (exists k, 0 <= k < max /\ got_string (kmem s) (kmem s') va dst k) \/
     rv = -1 /\ exists k, 0 <= k <= max /\ (k = max \/ ubyte (kmem s) r (va + k) = None) /\
       forall i, 0 <= i < k -> exists b, b <> 0 /\ ubyte (kmem s) r (va + i) = Some b).
Proof.
  revert dst va max s. induction fuel as [|fuel IH]; intros dst va max s W K Hva Hmax Hf; [lia|].
  cbn [copyinstr_loop]. destruct (Z.gtb_spec max 0) as [Hl|Hl].
  2: { eexists _, s. split; [reflexivity|]. split_and!; [done|done|]. right. split; [done|].
       exists 0. split_and!; [lia|lia|left; lia|intros; lia]. }
  rewrite PGROUNDDOWN_eq. erewrite bind_ok by (by apply walkaddr_ok). set (off := va mod PGSIZE).
  assert (Hoff : 0 <= off < PGSIZE) by (apply Z.mod_pos_bound; done).
  destruct (upage (kmem s) r (va - off)) as [pa|] eqn:Ep; cbn [default from_option id].
  2: { rewrite Z.eqb_refl. eexists _, s. split; [reflexivity|]. split_and!; [done|done|]. right. split; [done|].
       exists 0. split_and!; [lia|lia|right|intros; lia]. unfold ubyte. rewrite Z.add_0_r.
       destruct (decide (va < MAXVA)).
       - rewrite (upage_page (kmem s) (va - off)); [by rewrite Ep| |]; unfold same_page, off, PGSIZE in *; zdm.
       - unfold upage. by destruct (Z.ltb_spec va MAXVA); [lia|]. }
  destruct (upage_nonzero _ _ _ Ep) as [Hpa Hm]. destruct (Z.eqb_spec pa 0) as [|_]; [done|].
  replace (va - (va - off)) with off by lia.
  set (n := if PGSIZE - off >? max then max else PGSIZE - off).
  assert (Hn : 0 < n <= max /\ n <= PGSIZE - off /\ (n = max \/ n = PGSIZE - off))
    by (unfold n; destruct (Z.gtb_spec (PGSIZE - off) max); lia).
  assert (Hub : forall i, 0 <= i < n -> ubyte (kmem s) r (va + i) = Some (ld (kmem s) (pa + off + i))).
  { intros i Hi. unfold ubyte. rewrite (upage_page (kmem s) (va - off)).
    - rewrite Ep. cbn [mbind option_bind]. do 2 f_equal. unfold off, PGSIZE in *. zdm.
    - unfold off, PGSIZE in *. zdm.
    - unfold same_page, off, PGSIZE in *. zdm. }
  destruct (copyinstr_page_ok (Z.to_nat n) (pa + off) dst max s) as (found & k & s1 & E & Hk & F & Ho & Hi & Hfd).
  { intros i Hi'. pose proof (proj2 K (va - off) pa (pa + off + i) ltac:(unfold off, PGSIZE; zdm) Ep) as X. unfold in_page in X.
    intros Hin. apply X; lia. }
  rewrite Z2Nat.id in Ho, Hk, Hfd by lia.
  assert (Ho' : same_outside dst max (kmem s) (kmem s1)) by (intros b Hb; apply Ho; lia).
  erewrite bind_ok by exact E. destruct found.
  - destruct Hfd as (Hk' & H1 & H2). eexists _, s1. split; [reflexivity|]. split_and!; [done|done|].
    left. split; [done|]. exists k. split; [lia|]. split_and!.
    + intros i Hi'. destruct (Hi i Hi') as [H3 H4]. exists (ld (kmem s) (pa + off + i)).
      split_and!; [done|apply Hub; lia|done].
    + rewrite Hub by lia. by rewrite H1.
    + done.
  - subst k. destruct (IH (dst + n) (u64 (va - off + PGSIZE)) (max - n) s1) as (rv & s2 & E2 & F2 & O2 & R2).
    { eapply wf_write; [done| |exact Ho']. apply K. }
    { eapply kbuf_shift; (done || lia). }
    { apply u64_range. }
    { lia. }
    { lia. }
    exists rv, s2. split_and!; [exact E2|by rewrite F2|intros b Hb; rewrite O2 by lia; by apply Ho'|].
    assert (Hsh : forall i, n <= i < max -> ubyte (kmem s) r (va + i) = ubyte (kmem s1) r (u64 (va - off + PGSIZE) + (i - n))).
    { intros i Hi'. change MAXVA with (2 ^ 38) in Hm.
      rewrite u64_small by (unfold PGSIZE, off in *; zdm).
      replace (va - off + PGSIZE + (i - n)) with (va + i) by lia.
      destruct (kbuf_write (kmem s) (kmem s1) dst max (va + i) ltac:(lia) W K Ho') as [_ <-]. done. }
    assert (Hpre : forall i, 0 <= i < n -> exists b, b <> 0 /\ ubyte (kmem s) r (va + i) = Some b /\ ld (kmem s2) (dst + i) = b).
    { intros i Hi'. destruct (Hi i Hi') as [H3 H4]. eexists. split_and!; [exact H3|by apply Hub|].
      rewrite O2 by lia. done. }
    destruct R2 as [(-> & k & Hk2 & G1 & G2 & G3)|(-> & k & Hk2 & G1 & G2)]; [left|right]; (split; [done|]); exists (n + k).
    + split; [lia|]. split_and!.
      * intros i Hi'. destruct (decide (i < n)); [apply Hpre; lia|]. rewrite Hsh by lia.
        destruct (G1 (i - n) ltac:(lia)) as (b & ? & ? & ?). exists b. split_and!; try done.
        by replace (dst + i) with (dst + n + (i - n)) by lia.
      * rewrite Hsh by lia. by replace (n + k - n) with k by lia.
      * by replace (dst + (n + k)) with (dst + n + k) by lia.
    + split_and!; [lia|lia| |].
      * destruct G1 as [->|G1]; [left; lia|]. destruct (decide (n + k < max)); [right|left; lia].
        rewrite Hsh by lia. by replace (n + k - n) with k by lia.
      * intros i Hi'. destruct (decide (i < n)); [destruct (Hpre i ltac:(lia)) as (b & ? & ? & _); eauto|].
        rewrite Hsh by lia. apply G2. lia.
Qed.
End user.

(** ** Properties *)

(** C10: [copyin] reads user memory through the page table and nothing else.
    It returns 0 exactly when every byte of the range is mapped for the user,
    and then the destination holds those bytes; otherwise it returns -1.  In
    both cases no byte outside the destination changes and it does not panic. *)
Theorem copyin_correct end_ h s r P dst va len :
  0 < end_ -> pt_wf end_ (kmem s) r P -> kbuf r P (kmem s) dst len -> 0 <= va < 2 ^ 64 -> 0 <= len ->
  exists rv s', copyin r dst va len h s = Ok rv h s' /\
    freelist s' = freelist s /\ same_outside dst len (kmem s) (kmem s') /\
    (rv = 0 /\ (forall i, 0 <= i < len -> ubyte (kmem s) r (va + i) = Some (ld (kmem s') (dst + i))) \/
     rv = -1 /\ exists i, 0 <= i < len /\ ubyte (kmem s) r (va + i) = None).
Proof. intros He W K Hva Hl. apply (copyin_loop_ok end_ He r P); [exact W|exact K|lia..]. Qed.

(** C26: [copyinstr] returns 0 exactly when a NUL is found among the first
    [max] user bytes with every byte up to it mapped, having copied the string
    with its NUL; otherwise -1, because [max] bytes are not NUL or the string
    runs into unmapped memory.  It never writes outside [max] bytes of [dst]. *)
Theorem copyinstr_correct end_ h s r P dst va max :
  0 < end_ -> pt_wf end_ (kmem s) r P -> kbuf r P (kmem s) dst max -> 0 <= va < 2 ^ 64 -> 0 <= max ->
  exists rv s', copyinstr r dst va max h s = Ok rv h s' /\
    freelist s' = freelist s /\ same_outside dst max (kmem s) (kmem s') /\
    (rv = 0 /\ (exists k, 0 <= k < max /\ got_string r (kmem s) (kmem s') va dst k) \/
     rv = -1 /\ exists k, 0 <= k <= max /\ (k = max \/ ubyte (kmem s) r (va + k) = None) /\
       forall i, 0 <= i < k -> exists b, b <> 0 /\ ubyte (kmem s) r (va + i) = Some b).
Proof. intros He W K Hva Hl. apply (copyinstr_loop_ok end_ He r P); [exact W|exact K|lia..]. Qed.

(** C12: [copyout] writes user memory and nothing else.  On success every byte
    of the range reads back as the corresponding source byte; on -1 a prefix,
    up to the first page the user may not write, does.  Every other user byte,
    the rest of the range after a fault included, every page-table entry and
    all memory outside the user's writable pages are unchanged. *)
Theorem copyout_correct end_ h s r P va src len :
  0 < end_ -> pt_wf end_ (kmem s) r P -> wsep r P (kmem s) -> ksrc r (kmem s) src len ->
  0 <= va < 2 ^ 64 -> 0 <= len ->
  exists rv s' upto, copyout r va src len h s = Ok rv h s' /\
    freelist s' = freelist s /\ stored r (kmem s) (kmem s') va src upto /\
    (rv = 0 /\ upto = len \/
     rv = -1 /\ 0 <= upto < len /\ wpage (kmem s) r (va + upto) = None).
Proof. intros He W Ws K Hva Hl. apply (copyout_loop_ok end_ He r P); [exact W|exact Ws|exact K|lia..]. Qed.

(** The small machine with one writable user page at address 0, on the
    physical page at [KERNBASE]. *)
Definition small_mapped : kst :=
  res_state small_vm (mappages small_root 0 PGSIZE KERNBASE 22 [] small_vm).
Definition small_tables : list Z := [PHYSTOP - PGSIZE; PHYSTOP - 2 * PGSIZE; PHYSTOP - 3 * PGSIZE].

Lemma mapped_result (R : res Z kst) :
  (exists rv n s' P' fl', R = Ok rv [] s' /\
    vm_step small_end small_root small_vm [small_root] small_free s' P' fl' /\
    (rv = 0 /\ n = PGSIZE \/ rv = -1 /\ 0 <= n < PGSIZE /\ fl' = []) /\
    mapped 0 n KERNBASE 22 (pte_of (kmem small_vm) small_root) (pte_of (kmem s') small_root)) ->
  res_val 1 R = 0 ->
  let s := res_state small_vm R in
  exists P, (forall q, q ∈ P -> q ∈ small_tables) /\ pt_wf small_end (kmem s) small_root P /\
    forall va, 0 <= va < MAXVA ->
      pte_of (kmem s) small_root va = if decide (0 <= va < PGSIZE) then 536870935 else 0.
Proof.
  intros (rv & n & s' & P' & fl' & -> & St & R' & M) Hrv. cbn in Hrv. subst rv. cbn zeta. cbn [res_state].
  destruct R' as [[_ ->]|[? _]]; [|lia]. exists P'. split_and!.
  - intros q Hq. assert (q ∈ [small_root] ++ small_free); [|done].
    rewrite <- (vs_pages _ _ _ _ _ _ _ _ St). apply elem_of_app. by left.
  - apply St.
  - intros va Hva. rewrite (M va Hva), (proj2 small_vm_inv va). change (0 + PGSIZE) with PGSIZE.
    case_decide as D; [|reflexivity].
    replace ((va - 0) / PGSIZE) with 0 by (unfold PGSIZE in *; zdm). reflexivity.
Qed.

Lemma small_mapped_ok :
  exists P, (forall q, q ∈ P -> q ∈ small_tables) /\ pt_wf small_end (kmem small_mapped) small_root P /\
    forall va, 0 <= va < MAXVA ->
      pte_of (kmem small_mapped) small_root va = if decide (0 <= va < PGSIZE) then 536870935 else 0.
Proof.
  apply mapped_result; [|vm_compute; reflexivity]. destruct small_vm_inv as [V Z0].
  apply mappages_ok; [apply small_end_ok|apply not_elem_of_nil|exact V|done|done|done|done|done|done|done|lia|].
  intros va' _. by rewrite Z0.
Qed.

Lemma small_pages va pa :
  0 <= va -> upage (kmem small_mapped) small_root va = Some pa \/ wpage (kmem small_mapped) small_root va = Some pa ->
  pa = KERNBASE /\ va < PGSIZE.
Proof.
  intros H0. destruct small_mapped_ok as (_ & _ & _ & Pt). unfold upage, wpage.
  destruct (Z.ltb_spec va MAXVA); [|by intros [[=]|[=]]]. rewrite Pt by done.
  case_decide as D; [|by intros [[=]|[=]]].
  change (PTE2PA 536870935) with KERNBASE. cbn. intros [[= <-]|[= <-]]; (split; [done|lia]).
Qed.

Lemma small_tables_high q b : q ∈ small_tables -> in_page q b -> KERNBASE + PGSIZE <= b.
Proof.
  unfold small_tables, in_page, PHYSTOP, KERNBASE, PGSIZE. rewrite !elem_of_cons, elem_of_nil. lia.
Qed.

Lemma small_kbuf P n :
  (forall q, q ∈ P -> q ∈ small_tables) -> 0 <= n <= 4096 -> kbuf small_root P (kmem small_mapped) 0 n.
Proof.
  intros Hq Hn. split.
  - intros q b Hqp%Hq Hb%small_tables_high Hin; [|done]. unfold KERNBASE, PGSIZE in Hb. lia.
  - intros va pa b H0 Hp Hb Hin. destruct (small_pages va pa H0 (or_introl Hp)) as [-> _].
    unfold in_page, KERNBASE in Hb. lia.
Qed.

Lemma copyin_correct_witness :
  exists rv s', copyin small_root 0 10 5 [] small_mapped = Ok rv [] s' /\
    same_outside 0 5 (kmem small_mapped) (kmem s').
Proof.
  destruct small_mapped_ok as (P & Hq & W & _). pose proof small_end_ok as [He _].
  destruct (copyin_correct small_end [] small_mapped small_root P 0 10 5 He W
              (small_kbuf P 5 Hq ltac:(lia)) ltac:(lia) ltac:(lia)) as (rv & s' & E & _ & O & _).
  exists rv, s'. split; [exact E|exact O].
Defined.

Lemma copyinstr_correct_witness :
  exists rv s', copyinstr small_root 0 10 5 [] small_mapped = Ok rv [] s' /\
    same_outside 0 5 (kmem small_mapped) (kmem s').
Proof.
  destruct small_mapped_ok as (P & Hq & W & _). pose proof small_end_ok as [He _].
  destruct (copyinstr_correct small_end [] small_mapped small_root P 0 10 5 He W
              (small_kbuf P 5 Hq ltac:(lia)) ltac:(lia) ltac:(lia)) as (rv & s' & E & _ & O & _).
  exists rv, s'. split; [exact E|exact O].
Defined.

Lemma small_wsep P :
  (forall q, q ∈ P -> q ∈ small_tables) -> wsep small_root P (kmem small_mapped).
Proof.
  intros Hq. split.
  - intros va pa q b H0 Hp Hqp Hb Hin. destruct (small_pages va pa H0 (or_intror Hp)) as [-> _].
    pose proof (small_tables_high q b (Hq q Hqp) Hb). unfold in_page in Hin. lia.
  - intros va va' pa pa' b H0 H0' Hp Hp' _ _. destruct (small_pages va pa H0 (or_intror Hp)) as [_ H].
    destruct (small_pages va' pa' H0' (or_intror Hp')) as [_ H']. unfold same_page, PGSIZE in *. zdm.
Qed.

Lemma copyout_correct_witness :
  exists rv s' upto, copyout small_root 10 0 5 [] small_mapped = Ok rv [] s' /\
    stored small_root (kmem small_mapped) (kmem s') 10 0 upto.
Proof.
  destruct small_mapped_ok as (P & Hq & W & _). pose proof small_end_ok as [He _].
  destruct (copyout_correct small_end [] small_mapped small_root P 10 0 5 He W (small_wsep P Hq))
    as (rv & s' & upto & E & _ & O & _); [|lia|lia|].
  - intros va pa b H0 Hp Hb Hin. destruct (small_pages va pa H0 (or_intror Hp)) as [-> _].
    unfold in_page, KERNBASE in Hb. lia.
  - exists rv, s', upto. split; [exact E|exact O].
Defined.
