(* ===== verification/Huffman.v ===== *)
(** kernel/compress.c: the Huffman coder the file system applies to regular
    files.

    The static arrays [tree] and [heap] with their sizes are the state [hst];
    it survives from one call to the next, as the code's globals do.  An array
    access outside its array has no meaning in C and makes the operation
    [None] here, as does running out of the recursion bound; the theorems show
    when neither happens.  [char] buffers are lists of bytes, a null buffer is
    [None].  Frequencies never exceed the input length, an [int], so their
    sums are kept in [Z]. *)

From S2P Require Import Prelude.

Definition MAX_TREE_NODES : Z := 512.
Definition MAX_HEAP_SIZE : Z := 256.

(** [struct huffman_node]; [pad] is the three bytes of padding after [c],
    which [memmove] copies along. *)
Record node := Node { c : Z; pad : Z; freq : Z; left : Z; right : Z }.

Definition sizeof_node : Z := 16.

Record hst := Hst {
  tree : list node;
  heap : list Z;
  heap_size : Z;
  tree_size : Z
}.

Definition set_heap (h : list Z) (s : hst) : hst := Hst (tree s) h (heap_size s) (tree_size s).
Definition set_heap_size (n : Z) (s : hst) : hst := Hst (tree s) (heap s) n (tree_size s).
Definition set_tree (t : list node) (s : hst) : hst := Hst t (heap s) (heap_size s) (tree_size s).
Definition set_tree_size (n : Z) (s : hst) : hst := Hst (tree s) (heap s) (heap_size s) n.

(** The state at boot: static storage is zeroed. *)
Definition node0 : node := Node 0 0 0 0 0.
Definition hst0 : hst := Hst (replicate 512 node0) (replicate 256 0) 0 0.

(** [tree[heap[k]].freq] *)
Definition hfreq (s : hst) (k : Z) : option Z :=
  i ← zlookup (heap s) k;
  n ← zlookup (tree s) i;
  Some (freq n).

Definition swap (i j : Z) (h : list Z) : option (list Z) :=
  temp ← zlookup h i;
  b ← zlookup h j;
  h ← zupdate i b h;
  zupdate j temp h.

Fixpoint min_heapify (fuel : nat) (i : Z) (s : hst) : option hst :=
  match fuel with
  | O => None
  | S fuel =>
      let left := 2 * i + 1 in
      let right := 2 * i + 2 in
      smallest ←
        (if left <? heap_size s
         then fl ← hfreq s left; fs ← hfreq s i; Some (if fl <? fs then left else i)
         else Some i);
      smallest ←
        (if right <? heap_size s
         then fr ← hfreq s right; fs ← hfreq s smallest;
              Some (if fr <? fs then right else smallest)
         else Some smallest);
      if negb (smallest =? i)
      then h ← swap i smallest (heap s);
           min_heapify fuel smallest (set_heap h s)
      else Some s
  end.

(** [while (i > 0 && tree[heap[(i-1)/2]].freq > tree[heap[i]].freq) ...] *)
Fixpoint sift_up (fuel : nat) (i : Z) (s : hst) : option hst :=
  match fuel with
  | O => None
  | S fuel =>
      if i >? 0
      then
        fp ← hfreq s ((i - 1) / 2);
        fi ← hfreq s i;
        if fp >? fi
        then h ← swap i ((i - 1) / 2) (heap s);
             sift_up fuel ((i - 1) / 2) (set_heap h s)
        else Some s
      else Some s
  end.

Definition insert_heap (node_idx : Z) (s : hst) : option hst :=
  if heap_size s >=? MAX_HEAP_SIZE then Some s
  else
    h ← zupdate (heap_size s) node_idx (heap s);
    let i := heap_size s in
    sift_up (S (Z.to_nat i)) i (set_heap_size (heap_size s + 1) (set_heap h s)).

Definition extract_min (s : hst) : option (Z * hst) :=
  if heap_size s <=? 0 then Some (-1, s)
  else
    min ← zlookup (heap s) 0;
    let n := heap_size s - 1 in
    last ← zlookup (heap s) n;
    h ← zupdate 0 last (heap s);
    s ← min_heapify (S (Z.to_nat n)) 0 (set_heap_size n (set_heap h s));
    Some (min, s).

(** ** build_tree *)

(** [for (...) freq[(unsigned char)input[i]]++] *)
Definition count_freq (input : list Z) : list Z :=
  foldl (fun fr ch => alter (Z.add 1) (Z.to_nat ch) fr) (replicate 256 0) input.

Definition leaf_step (fr : list Z) (s : hst) (i : Z) : option hst :=
  f ← zlookup fr i;
  if f >? 0
  then
    n ← zlookup (tree s) (tree_size s);
    t ← zupdate (tree_size s) (Node i (pad n) f (-1) (-1)) (tree s);
    insert_heap (tree_size s) (set_tree_size (tree_size s + 1) (set_tree t s))
  else Some s.

Fixpoint leaf_loop (fr : list Z) (ids : list Z) (s : hst) : option hst :=
  match ids with
  | [] => Some s
  | i :: ids => s ← leaf_step fr s i; leaf_loop fr ids s
  end.

Definition merge_step (s : hst) : option hst :=
  '(l, s) ← extract_min s;
  '(r, s) ← extract_min s;
  nl ← zlookup (tree s) l;
  nr ← zlookup (tree s) r;
  n ← zlookup (tree s) (tree_size s);
  t ← zupdate (tree_size s) (Node (c n) (pad n) (freq nl + freq nr) l r) (tree s);
  insert_heap (tree_size s) (set_tree_size (tree_size s + 1) (set_tree t s)).

Fixpoint merge_loop (fuel : nat) (s : hst) : option hst :=
  match fuel with
  | O => None
  | S fuel => if heap_size s >? 1 then s ← merge_step s; merge_loop fuel s else Some s
  end.

Definition build_tree (input : list Z) (s : hst) : option hst :=
  let fr := count_freq input in
  s ← leaf_loop fr (seqZ 0 256) (set_heap_size 0 (set_tree_size 0 s));
  merge_loop (S (Z.to_nat (heap_size s))) s.

(** ** compress_huffman *)

(** The output buffer with the positions the code keeps by pointer. *)
Record wr := Wr { buf : list Z; byte_pos : Z; bit_pos : Z }.

Definition write_bit (bit : Z) (w : wr) : option wr :=
  b ← (if bit_pos w =? 0 then zupdate (byte_pos w) 0 (buf w) else Some (buf w));
  o ← zlookup b (byte_pos w);
  b ← zupdate (byte_pos w) (u8 (Z.lor o (Z.shiftl bit (7 - bit_pos w)))) b;
  let bp := (bit_pos w + 1) mod 8 in
  Some (Wr b (if bp =? 0 then byte_pos w + 1 else byte_pos w) bp).

(** The inner loop for one character.  [inl] is the early [return -1]. *)
Fixpoint encode_char (fuel : nat) (t : list node) (maxlen ch curr : Z) (w : wr) : option (wr + wr) :=
  match fuel with
  | O => None
  | S fuel =>
      n ← zlookup t curr;
      if negb (left n =? -1) || negb (right n =? -1)
      then
        if byte_pos w >=? maxlen then Some (inl w)
        else
          l ← zlookup t (left n);
          if ch <? c l
          then w ← write_bit 0 w; encode_char fuel t maxlen ch (left n) w
          else w ← write_bit 1 w; encode_char fuel t maxlen ch (right n) w
      else Some (inr w)
  end.

Fixpoint encode_loop (t : list node) (tsize maxlen : Z) (input : list Z) (w : wr) : option (wr + wr) :=
  match input with
  | [] => Some (inr w)
  | ch :: input =>
      r ← encode_char (S (Z.to_nat MAX_TREE_NODES)) t maxlen ch (tsize - 1) w;
      match r with
      | inl w => Some (inl w)
      | inr w => encode_loop t tsize maxlen input w
      end
  end.

Definition encode_node (n : node) : list Z :=
  le_bytes 1 (c n) ++ le_bytes 3 (pad n) ++ le_bytes 4 (freq n) ++
  le_bytes 4 (left n) ++ le_bytes 4 (right n).

Definition encode_tree (t : list node) : list Z := mjoin (encode_node <$> t).

(** Replace the bytes of a buffer from [pos] on; [None] if they do not fit. *)
Definition blit (pos : nat) (l b : list Z) : option (list Z) :=
  if decide (pos + length l <= length b)%nat
  then Some (take pos b ++ l ++ drop (pos + length l) b) else None.

(** Returns the value, the output buffer and the new state. *)
Definition compress_huffman (input : option (list Z)) (inlen : Z)
    (output : option (list Z)) (maxlen : Z) (s : hst) : option (Z * list Z * hst) :=
  match input, output with
  | Some input, Some output =>
      if (inlen <=? 0) || (maxlen <=? 0) then Some (-1, output, s)
      else
        s ← build_tree (take (Z.to_nat inlen) input) s;
        if 4 + sizeof_node * tree_size s >=? maxlen then Some (-1, output, s)
        else
          output ← blit 0 (le_bytes 4 (tree_size s)) output;
          output ← blit 4 (encode_tree (take (Z.to_nat (tree_size s)) (tree s))) output;
          r ← encode_loop (tree s) (tree_size s) maxlen (take (Z.to_nat inlen) input)
                (Wr output (4 + sizeof_node * tree_size s) 0);
          match r with
          | inl w => Some (-1, buf w, s)
          | inr w =>
              let bp := if bit_pos w >? 0 then byte_pos w + 1 else byte_pos w in
              if bp >=? inlen then Some (-1, buf w, s) else Some (bp, buf w, s)
          end
  | _, o => Some (-1, default [] o, s)
  end.

(** ** decompress_huffman *)

(** The input buffer with its positions. *)
Definition read_bit (input : list Z) (pos bit : Z) : option (Z * Z * Z) :=
  b ← zlookup input pos;
  let r := Z.land (Z.shiftr b (7 - bit)) 1 in
  let bit := (bit + 1) mod 8 in
  Some (r, if bit =? 0 then pos + 1 else pos, bit).

(** The inner loop: walk from [curr] to a leaf, or until the input is used up. *)
Fixpoint walk_bits (fuel : nat) (t : list node) (input : list Z) (inlen curr pos bit : Z)
    : option (Z * Z * Z) :=
  match fuel with
  | O => None
  | S fuel =>
      n ← zlookup t curr;
      if negb (left n =? -1) || negb (right n =? -1)
      then
        if pos >=? inlen then Some (curr, pos, bit)
        else
          '(r, pos, bit) ← read_bit input pos bit;
          walk_bits fuel t input inlen (if r =? 0 then left n else right n) pos bit
      else Some (curr, pos, bit)
  end.

Fixpoint decode_loop (fuel : nat) (t : list node) (tsize : Z) (input : list Z) (inlen pos bit maxlen out_pos : Z)
    (output : list Z) : option (Z * list Z) :=
  match fuel with
  | O => None
  | S fuel =>
      if (pos <? inlen) && (out_pos <? maxlen)
      then
        '(curr, pos, bit) ← walk_bits (S (8 * Z.to_nat inlen)) t input inlen (tsize - 1) pos bit;
        n ← zlookup t curr;
        if (left n =? -1) && (right n =? -1)
        then output ← zupdate out_pos (c n) output;
             decode_loop fuel t tsize input inlen pos bit maxlen (out_pos + 1) output
        else decode_loop fuel t tsize input inlen pos bit maxlen out_pos output
      else Some (out_pos, output)
  end.

Definition decode_node (l : list Z) : node :=
  Node (le_val (take 1 l)) (le_val (take 3 (drop 1 l))) (s32 (le_val (take 4 (drop 4 l))))
       (s32 (le_val (take 4 (drop 8 l)))) (s32 (le_val (take 4 (drop 12 l)))).

Fixpoint decode_tree (n : nat) (l : list Z) : list node :=
  match n with
  | O => []
  | S n => decode_node (take 16 l) :: decode_tree n (drop 16 l)
  end.

(** Returns the value, the output buffer and the new state. *)
Definition decompress_huffman (input : option (list Z)) (inlen : Z)
    (output : option (list Z)) (maxlen : Z) (s : hst) : option (Z * list Z * hst) :=
  match input, output with
  | Some input, Some output =>
      if (inlen <=? 0) || (maxlen <=? 0) then Some (-1, output, s)
      else if decide (length input < 4)%nat then None
      else
        let s := set_tree_size (s32 (le_val (take 4 input))) s in
        if (tree_size s <=? 0) || (tree_size s >? MAX_TREE_NODES) then Some (-1, output, s)
        else if 4 + sizeof_node * tree_size s >? inlen then Some (-1, output, s)
        else
          let k := Z.to_nat (tree_size s) in
          if decide (length input < 4 + 16 * k)%nat then None
          else
            let s := set_tree (decode_tree k (drop 4 input) ++ drop k (tree s)) s in
            '(r, output) ←
              decode_loop (S (8 * Z.to_nat inlen + Z.to_nat maxlen)) (tree s) (tree_size s) input inlen
                (4 + sizeof_node * tree_size s) 0 maxlen 0 output;
            Some (r, output, s)
  | _, o => Some (-1, default [] o, s)
  end.
