(* ===== verification/HuffmanHeap.v ===== *)
(** The priority queue of kernel/compress.c: [insert_heap] and [extract_min]
    keep the array [heap] a binary min-heap of node indices ordered by
    frequency, [extract_min] returns an index of least frequency, and
    [build_tree] made of them ends with a well-formed Huffman tree. *)

From S2P Require Import Prelude Huffman.

Definition parent (k : Z) : Z := (k - 1) / 2.

(** The entries in the queue, in array order. *)
Definition entries (s : hst) : list Z := take (Z.to_nat (heap_size s)) (heap s).

Definition key (s : hst) (k : Z) : Z := default 0 (hfreq s k).

(** The queue fits its array and holds indices of tree nodes. *)
Record hwf (s : hst) : Prop := {
  hwf_len : length (heap s) = 256%nat;
  hwf_size : 0 <= heap_size s <= 256;
  hwf_nodes : Forall (fun i => 0 <= i < Z.of_nat (length (tree s))) (entries s)
}.

(** Min-heap order, everywhere or except between [i] and its children. *)
Definition heap_except (i : Z) (s : hst) : Prop :=
  forall k, 0 < k < heap_size s -> parent k <> i -> key s (parent k) <= key s k.
Definition heap_ok (s : hst) : Prop :=
  forall k, 0 < k < heap_size s -> key s (parent k) <= key s k.

Lemma parent_iff k i : 0 <= i -> parent k = i <-> k = 2 * i + 1 \/ k = 2 * i + 2.
Proof. unfold parent. intros. zdm. Qed.

Lemma parent_range k : 0 < k -> 0 <= parent k < k.
Proof. unfold parent. intros. zdm. Qed.

Lemma entries_lookup s k :
  hwf s -> 0 <= k < heap_size s ->
  exists i, zlookup (heap s) k = Some i /\ i ∈ entries s /\ 0 <= i < Z.of_nat (length (tree s)).
Proof.
  intros W Hk. destruct (zlookup_is_Some (heap s) k) as [i Hi].
  { rewrite (hwf_len _ W). pose proof (hwf_size _ W). lia. }
  exists i. assert (Hin : i ∈ entries s).
  { rewrite zlookup_pos in Hi by lia. apply list_elem_of_lookup. exists (Z.to_nat k).
    unfold entries. rewrite lookup_take_lt by lia. done. }
  split_and!; [done|done| |]; pose proof (hwf_nodes _ W) as F; rewrite Forall_forall in F;
    apply F in Hin; lia.
Qed.

Lemma hfreq_key s k : hwf s -> 0 <= k < heap_size s -> hfreq s k = Some (key s k).
Proof.
  intros W Hk. destruct (entries_lookup s k W Hk) as (i & Hi & _ & Hr).
  destruct (zlookup_is_Some (tree s) i Hr) as [n Hn]. unfold key, hfreq. rewrite Hi. simpl.
  by rewrite Hn.
Qed.

(** ** Swapping two entries *)

Definition transp (i j k : Z) : Z := if decide (k = i) then j else if decide (k = j) then i else k.

Lemma swap_ok i j h :
  0 <= i < Z.of_nat (length h) -> 0 <= j < Z.of_nat (length h) ->
  exists h', swap i j h = Some h' /\ length h' = length h /\
    forall k, zlookup h' k = zlookup h (transp i j k).
Proof.
  intros Hi Hj. unfold swap.
  destruct (zlookup_is_Some h i Hi) as [a Ha]. destruct (zlookup_is_Some h j Hj) as [b Hb].
  rewrite Ha, Hb. simpl. rewrite zupdate_ok by done. simpl.
  rewrite zupdate_ok by (rewrite length_insert; done).
  eexists. split_and!; [done|by rewrite !length_insert|].
  intros k. rewrite zlookup_insert by (rewrite length_insert; done).
  rewrite zlookup_insert by done. unfold transp. repeat case_decide; subst; congruence.
Qed.

Lemma swap_entries i j n (h h' : list Z) :
  0 <= i < n -> 0 <= j < n -> length h' = length h ->
  (forall k, zlookup h' k = zlookup h (transp i j k)) ->
  take (Z.to_nat n) h' ≡ₚ take (Z.to_nat n) h.
Proof.
  intros Hi Hj Hl Hk. apply Permutation_inj. split; [rewrite !length_take; lia|].
  exists (fun k => Z.to_nat (transp i j (Z.of_nat k))). split.
  - intros a b. unfold transp. repeat case_decide; lia.
  - intros k. specialize (Hk (Z.of_nat k)). rewrite zlookup_nat in Hk.
    assert (Ht : 0 <= transp i j (Z.of_nat k)) by (unfold transp; repeat case_decide; lia).
    rewrite zlookup_pos in Hk by done.
    assert (Hlt : (k < Z.to_nat n)%nat <-> (Z.to_nat (transp i j (Z.of_nat k)) < Z.to_nat n)%nat)
      by (unfold transp; repeat case_decide; lia).
    destruct (decide (k < Z.to_nat n)%nat).
    + rewrite !lookup_take_lt by tauto. done.
    + rewrite !lookup_take_ge by lia. done.
Qed.

Lemma key_swap i j h' s k :
  (forall k, zlookup h' k = zlookup (heap s) (transp i j k)) ->
  key (set_heap h' s) k = key s (transp i j k).
Proof. intros H. unfold key, hfreq. simpl. by rewrite H. Qed.

Lemma swap_state i j s :
  hwf s -> 0 <= i < heap_size s -> 0 <= j < heap_size s ->
  exists h', swap i j (heap s) = Some h' /\ hwf (set_heap h' s) /\
    entries (set_heap h' s) ≡ₚ entries s /\
    forall k, key (set_heap h' s) k = key s (transp i j k).
Proof.
  intros W Hi Hj. pose proof (hwf_len _ W). pose proof (hwf_size _ W).
  destruct (swap_ok i j (heap s)) as (h' & E & L & T); [lia|lia|].
  assert (P : entries (set_heap h' s) ≡ₚ entries s) by (apply (swap_entries i j (heap_size s) (heap s) h'); done).
  exists h'. split_and!; [done| |done|by intros; apply key_swap].
  split; simpl; [congruence|done|]. fold (entries (set_heap h' s)). rewrite P. apply W.
Qed.

(** ** min_heapify *)

Definition smallest_of (s : hst) (i : Z) : Z :=
  let l := 2 * i + 1 in
  let r := 2 * i + 2 in
  let m := if (l <? heap_size s) && (key s l <? key s i) then l else i in
  if (r <? heap_size s) && (key s r <? key s m) then r else m.

Lemma min_heapify_unfold fuel i s :
  hwf s -> 0 <= i < heap_size s ->
  min_heapify (S fuel) i s =
  (let m := smallest_of s i in
   if m =? i then Some s
   else h ← swap i m (heap s); min_heapify fuel m (set_heap h s)).
Proof.
  intros W Hi. cbn [min_heapify]. unfold smallest_of.
  assert (El : (if 2 * i + 1 <? heap_size s
                then fl ← hfreq s (2 * i + 1); fs ← hfreq s i; Some (if fl <? fs then 2 * i + 1 else i)
                else Some i) =
               Some (if (2 * i + 1 <? heap_size s) && (key s (2 * i + 1) <? key s i)
                     then 2 * i + 1 else i)).
  { destruct (Z.ltb_spec (2 * i + 1) (heap_size s)); [|done].
    rewrite !hfreq_key by (done || lia). done. }
  rewrite El. cbn [mbind option_bind].
  set (m := if (2 * i + 1 <? heap_size s) && _ then _ else _).
  assert (Hm : 0 <= m < heap_size s) by (unfold m; destruct (Z.ltb_spec (2 * i + 1) (heap_size s)), (_ <? key s i); cbn [andb]; lia).
  assert (Er : (if 2 * i + 2 <? heap_size s
                then fr ← hfreq s (2 * i + 2); fs ← hfreq s m; Some (if fr <? fs then 2 * i + 2 else m)
                else Some m) =
               Some (if (2 * i + 2 <? heap_size s) && (key s (2 * i + 2) <? key s m)
                     then 2 * i + 2 else m)).
  { destruct (Z.ltb_spec (2 * i + 2) (heap_size s)); [|done].
    rewrite !hfreq_key by (done || lia). done. }
  rewrite Er. cbn [mbind option_bind]. cbn zeta. by destruct (_ =? i).
Qed.

(** What [smallest_of] picks. *)
Lemma smallest_of_spec s i :
  0 <= i < heap_size s ->
  let m := smallest_of s i in
  0 <= m < heap_size s /\ (m = i \/ parent m = i /\ key s m < key s i) /\
  (forall k, 0 < k < heap_size s -> parent k = i -> key s m <= key s k).
Proof.
  intros Hi. cbn zeta. unfold smallest_of.
  destruct (Z.ltb_spec (2 * i + 1) (heap_size s)); destruct (Z.ltb_spec (2 * i + 2) (heap_size s));
    try lia; cbn [andb].
  - destruct (Z.ltb_spec (key s (2 * i + 1)) (key s i)) as [H1|H1];
      (destruct (Z.ltb_spec (key s (2 * i + 2)) (key s (2 * i + 1))) as [H2|H2] ||
       idtac);
      cbn [andb];
      repeat match goal with |- context [?a <? ?b] => destruct (Z.ltb_spec a b) end;
      (split; [lia|]; split; [rewrite ?parent_iff by lia; lia|]);
      intros k Hk [-> | ->]%parent_iff; lia.
  - destruct (Z.ltb_spec (key s (2 * i + 1)) (key s i)) as [H1|H1];
      (split; [lia|]; split; [rewrite ?parent_iff by lia; lia|]);
      intros k Hk [-> | ->]%parent_iff; lia.
  - split; [lia|]; split; [lia|]. intros k Hk [-> | ->]%parent_iff; lia.
Qed.

(** A heap operation changes the order of the entries only. *)
Record reordered (s s' : hst) : Prop := {
  re_wf : hwf s';
  re_tree : tree s' = tree s;
  re_hsize : heap_size s' = heap_size s;
  re_tsize : tree_size s' = tree_size s;
  re_entries : entries s' ≡ₚ entries s
}.

Lemma reordered_refl s : hwf s -> reordered s s.
Proof. by split. Qed.

Lemma reordered_trans s1 s2 s3 : reordered s1 s2 -> reordered s2 s3 -> reordered s1 s3.
Proof. intros [] []. split; try congruence. by etrans. Qed.

Lemma swap_reordered i j s :
  hwf s -> 0 <= i < heap_size s -> 0 <= j < heap_size s ->
  exists h', swap i j (heap s) = Some h' /\ reordered s (set_heap h' s) /\
    forall k, key (set_heap h' s) k = key s (transp i j k).
Proof.
  intros W Hi Hj. destruct (swap_state i j s W Hi Hj) as (h' & E & W' & P & T).
  exists h'. split_and!; [done|by split|done].
Qed.

Lemma min_heapify_ok fuel i s :
  hwf s -> 0 <= i < heap_size s -> (Z.to_nat (heap_size s - i) <= fuel)%nat ->
  heap_except i s ->
  (forall k, 0 < i -> 0 < k < heap_size s -> parent k = i -> key s (parent i) <= key s k) ->
  exists s', min_heapify fuel i s = Some s' /\ reordered s s' /\ heap_ok s'.
Proof.
  revert i s. induction fuel as [|fuel IH]; intros i s W Hi Hf He Hc; [lia|].
  rewrite min_heapify_unfold by done. cbn zeta.
  destruct (smallest_of_spec s i Hi) as (Hm & Hor & Hmin). cbn zeta in *.
  set (m := smallest_of s i) in *. destruct (Z.eqb_spec m i) as [E|E].
  - exists s. split_and!; [done|by apply reordered_refl|]. intros k Hk.
    destruct (decide (parent k = i)) as [Hp|Hp]; [|by apply He]. rewrite Hp, <- E at 1.
    apply Hmin; done.
  - destruct Hor as [?|[Hpm Hlt]]; [done|].
    destruct (swap_reordered i m s W Hi Hm) as (h' & Es & R & T). rewrite Es. simpl.
    apply parent_iff in Hpm as Hpm'; [|lia].
    destruct (IH m (set_heap h' s)) as (s' & E' & R' & O).
    + apply R.
    + done.
    + simpl. lia.
    + intros k Hk Hpk. simpl in Hk. rewrite !T.
      pose proof (parent_range k ltac:(lia)). unfold transp at 1.
      destruct (decide (parent k = i)) as [Hp|Hp].
      * unfold transp. repeat case_decide; try lia. by apply Hmin.
      * rewrite decide_False by done. unfold transp.
        destruct (decide (k = i)) as [->|]; [apply Hc; lia|].
        destruct (decide (k = m)) as [->|]; [lia|]. by apply He.
    + intros k H0 Hk Hpk. simpl in Hk. rewrite Hpm, !T. unfold transp.
      rewrite decide_True by done. apply parent_iff in Hpk as Hpk'; [|lia].
      rewrite !decide_False by lia. rewrite <- Hpk. apply He; [done|lia].
    + exists s'. split_and!; [done|by eapply reordered_trans|done].
Qed.

Lemma min_heapify_leaf fuel i s : heap_size s <= 2 * i + 1 -> min_heapify (S fuel) i s = Some s.
Proof.
  intros H. cbn [min_heapify]. destruct (Z.ltb_spec (2 * i + 1) (heap_size s)); [lia|].
  cbn [mbind option_bind]. destruct (Z.ltb_spec (2 * i + 2) (heap_size s)); [lia|].
  cbn [mbind option_bind]. by rewrite Z.eqb_refl.
Qed.

(** ** sift_up *)

Lemma sift_up_ok fuel i s :
  hwf s -> 0 <= i < heap_size s -> (Z.to_nat i < fuel)%nat ->
  (forall k, 0 < k < heap_size s -> k <> i -> key s (parent k) <= key s k) ->
  (forall k, 0 < i -> 0 < k < heap_size s -> parent k = i -> key s (parent i) <= key s k) ->
  exists s', sift_up fuel i s = Some s' /\ reordered s s' /\ heap_ok s'.
Proof.
  revert i s. induction fuel as [|fuel IH]; intros i s W Hi Hf He Hc; [lia|].
  cbn [sift_up]. rewrite Z.gtb_ltb. destruct (Z.ltb_spec 0 i) as [Hpos|].
  2: { exists s. split_and!; [done|by apply reordered_refl|]. intros k Hk. apply He; [done|lia]. }
  fold (parent i). pose proof (parent_range i Hpos) as Hp.
  rewrite !hfreq_key by (done || lia). cbn [mbind option_bind]. rewrite Z.gtb_ltb.
  destruct (Z.ltb_spec (key s i) (key s (parent i))) as [Hlt|Hle].
  2: { exists s. split_and!; [done|by apply reordered_refl|]. intros k Hk.
       destruct (decide (k = i)) as [->|]; [lia|by apply He]. }
  destruct (swap_reordered i (parent i) s W) as (h' & Es & R & T); [done|lia|].
  rewrite Es. cbn [mbind option_bind].
  assert (Hpi : forall k, parent k = parent i -> 0 < k < heap_size s -> k <> i ->
            key s (parent i) <= key s k) by (intros k <- ? ?; by apply He).
  destruct (IH (parent i) (set_heap h' s)) as (s' & E' & R' & O).
  - apply R.
  - simpl. lia.
  - lia.
  - intros k Hk Hne. simpl in Hk. rewrite !T. pose proof (parent_range k ltac:(lia)).
    destruct (decide (k = i)) as [->|Hki].
    + unfold transp. repeat case_decide; lia.
    + unfold transp at 2. rewrite !decide_False by done. unfold transp.
      destruct (decide (parent k = i)) as [Hpk|].
      * apply Hc; done.
      * destruct (decide (parent k = parent i)) as [Hpk|].
        -- specialize (Hpi k Hpk Hk Hki). lia.
        -- by apply He.
  - intros k H0 Hk Hpk. simpl in Hk. rewrite !T. pose proof (parent_range (parent i) H0).
    assert (key s (parent (parent i)) <= key s (parent i)) by (apply He; lia).
    unfold transp at 1. rewrite !decide_False by lia. unfold transp.
    destruct (decide (k = i)) as [->|]; [done|].
    rewrite decide_False by (intros ->; unfold parent in *; zdm).
    specialize (Hpi k Hpk Hk). lia.
  - exists s'. split_and!; [done|by eapply reordered_trans|done].
Qed.

(** ** insert_heap and extract_min *)

Definition nfreq (t : list node) (i : Z) : Z := default 0 (freq <$> zlookup t i).

Lemma key_nfreq s k i : zlookup (heap s) k = Some i -> key s k = nfreq (tree s) i.
Proof. intros H. unfold key, hfreq, nfreq. rewrite H. simpl. by destruct (zlookup (tree s) i). Qed.

Lemma insert_heap_ok idx s :
  hwf s -> heap_ok s -> heap_size s < 256 -> 0 <= idx < Z.of_nat (length (tree s)) ->
  exists s', insert_heap idx s = Some s' /\ hwf s' /\ heap_ok s' /\
    tree s' = tree s /\ tree_size s' = tree_size s /\ heap_size s' = heap_size s + 1 /\
    entries s' ≡ₚ idx :: entries s.
Proof.
  intros W O Hlt Hidx. pose proof (hwf_len _ W) as L. pose proof (hwf_size _ W) as Sz.
  unfold insert_heap, MAX_HEAP_SIZE. destruct (Z.geb_spec (heap_size s) 256); [lia|].
  rewrite zupdate_ok by lia. cbn [mbind option_bind].
  set (n := Z.to_nat (heap_size s)).
  set (s1 := set_heap_size (heap_size s + 1) (set_heap (<[n:=idx]> (heap s)) s)).
  assert (Een : entries s1 = entries s ++ [idx]).
  { unfold entries, s1. simpl. fold n. replace (Z.to_nat (heap_size s + 1)) with (S n) by lia.
    rewrite (take_S_r _ n idx) by (apply list_lookup_insert_eq; lia).
    by rewrite take_insert_ge by lia. }
  assert (Hk : forall k, k < heap_size s -> key s1 k = key s k).
  { intros k Hk. unfold key, hfreq, s1. cbn [heap tree set_heap set_heap_size].
    unfold n. rewrite zlookup_insert by lia. rewrite decide_False by lia. done. }
  assert (W1 : hwf s1).
  { split; unfold s1; cbn [heap tree heap_size set_heap set_heap_size].
    - by rewrite length_insert.
    - lia.
    - fold s1. rewrite Een. apply Forall_app. split; [apply W|by constructor]. }
  destruct (sift_up_ok (S n) (heap_size s) s1) as (s' & E & R & O').
  - done.
  - simpl. lia.
  - lia.
  - intros k Hk' Hne. simpl in Hk'. pose proof (parent_range k ltac:(lia)).
    rewrite !Hk by lia. apply O. lia.
  - intros k H0 Hk' Hp. simpl in Hk'. apply parent_iff in Hp; lia.
  - exists s'. split_and!; [done|apply R|done|apply R|apply R| |].
    + by rewrite (re_hsize _ _ R).
    + rewrite (re_entries _ _ R), Een. symmetry. apply Permutation_cons_append.
Qed.

(** The root of a heap has the least key. *)
Lemma heap_root_min s k : heap_ok s -> 0 <= k < heap_size s -> key s 0 <= key s k.
Proof.
  intros O Hk. remember (Z.to_nat k) as n eqn:En. revert k Hk En.
  induction (lt_wf n) as [n _ IH]. intros k Hk ->.
  destruct (decide (k = 0)) as [->|]; [done|]. pose proof (parent_range k ltac:(lia)).
  etrans; [apply (IH (Z.to_nat (parent k)) ltac:(lia) (parent k)); lia|]. apply O. lia.
Qed.

Lemma extract_min_ok s :
  hwf s -> heap_ok s -> 0 < heap_size s ->
  exists m s', extract_min s = Some (m, s') /\ hwf s' /\ heap_ok s' /\
    tree s' = tree s /\ tree_size s' = tree_size s /\ heap_size s' = heap_size s - 1 /\
    entries s ≡ₚ m :: entries s' /\
    (forall x, x ∈ entries s -> nfreq (tree s) m <= nfreq (tree s) x).
Proof.
  intros W O Hpos. pose proof (hwf_len _ W) as L. pose proof (hwf_size _ W) as Sz.
  destruct (zlookup_is_Some (heap s) 0 ltac:(lia)) as [m Hm].
  destruct (zlookup_is_Some (heap s) (heap_size s - 1) ltac:(lia)) as [b Hb].
  set (n := heap_size s - 1) in *.
  set (s1 := set_heap_size n (set_heap (<[0%nat:=b]> (heap s)) s)).
  assert (Hmin : forall x, x ∈ entries s -> nfreq (tree s) m <= nfreq (tree s) x).
  { intros x [k Hx]%list_elem_of_lookup. unfold entries in Hx. apply lookup_take_Some in Hx as [Hx Hkn].
    rewrite <- (key_nfreq s 0), <- (key_nfreq s (Z.of_nat k) x); [|by rewrite zlookup_nat|done].
    apply heap_root_min; [done|lia]. }
  assert (Hent : entries s ≡ₚ m :: entries s1).
  { unfold entries, s1. cbn [heap heap_size set_heap set_heap_size].
    rewrite zlookup_pos in Hm, Hb by lia. destruct (heap s) as [|x h]; [done|]. simpl in Hm. simplify_eq.
    replace (Z.to_nat (heap_size s)) with (S (Z.to_nat n)) by lia. simpl. f_equiv.
    destruct (Z.to_nat n) as [|k] eqn:Ek; [done|]. simpl in *.
    rewrite (take_S_r _ _ _ Hb). symmetry. apply Permutation_cons_append. }
  assert (W1 : hwf s1).
  { split; unfold s1; cbn [heap tree heap_size set_heap set_heap_size].
    - by rewrite length_insert.
    - lia.
    - fold s1. pose proof (hwf_nodes _ W) as F. rewrite Hent in F. by apply Forall_cons in F as [_ F]. }
  assert (Hk : forall k, 0 < k -> key s1 k = key s k).
  { intros k Hk. unfold key, hfreq, s1. cbn [heap tree set_heap set_heap_size].
    change 0%nat with (Z.to_nat 0).
    rewrite zlookup_insert by lia. rewrite decide_False by lia. done. }
  assert (Hex : extract_min s = s ← min_heapify (S (Z.to_nat n)) 0 s1; Some (m, s)).
  { unfold extract_min. destruct (Z.leb_spec (heap_size s) 0); [lia|]. rewrite Hm.
    cbn [mbind option_bind]. cbn zeta. fold n. rewrite Hb. cbn [mbind option_bind].
    rewrite zupdate_ok by lia. done. }
  rewrite Hex. destruct (decide (n = 0)) as [Hn|Hn].
  - exists m, s1. rewrite min_heapify_leaf by (simpl; lia). split_and!; try done.
    intros k Hk'. simpl in Hk'. lia.
  - destruct (min_heapify_ok (S (Z.to_nat n)) 0 s1) as (s' & E & R & O').
    + done.
    + simpl. lia.
    + simpl. lia.
    + intros k Hk' Hp. simpl in Hk'. pose proof (parent_range k ltac:(lia)).
      rewrite !Hk by lia. apply O. lia.
    + lia.
    + exists m, s'. rewrite E. split_and!; [done|apply R|done|apply R|apply R|apply R| |done].
      by rewrite (re_entries _ _ R).
Qed.
