(* ===== verification/HuffmanTree.v ===== *)
(** [build_tree] of kernel/compress.c: for every nonempty input it ends with a
    binary tree in the node array, children before their parent and the root
    last, whose leaves are the distinct bytes of the input, each once, with
    their number of occurrences. *)

From S2P Require Import Prelude Huffman HuffmanHeap.

Definition is_leaf (n : node) : Prop := left n = -1 /\ right n = -1.

(** Node [i]: a leaf, or an inner node whose children come before it. *)
Definition node_ok (i : Z) (n : node) : Prop :=
  (is_leaf n /\ 0 <= c n < 256) \/ (0 <= left n < i /\ 0 <= right n < i).

Definition nodes_ok (t : list node) (k : Z) : Prop :=
  forall i, 0 <= i < k -> exists n, zlookup t i = Some n /\ node_ok i n.

(** The leaves under node [i], left to right. *)
Fixpoint leaves_f (fuel : nat) (t : list node) (i : Z) : list Z :=
  match fuel with
  | O => []
  | S fuel =>
      match zlookup t i with
      | Some n => if left n =? -1 then [i] else leaves_f fuel t (left n) ++ leaves_f fuel t (right n)
      | None => []
      end
  end.
Definition leaves (t : list node) (i : Z) : list Z := leaves_f (S (Z.to_nat i)) t i.

(** The bytes at those leaves. *)
Definition symbols_under (t : list node) (i : Z) : list Z :=
  (fun j => default 0 (c <$> zlookup t j)) <$> leaves t i.

Lemma leaves_f_ext f f' t t' i :
  (forall j, 0 <= j <= i -> zlookup t j = zlookup t' j) -> nodes_ok t (i + 1) -> 0 <= i ->
  (Z.to_nat i < f)%nat -> (Z.to_nat i < f')%nat -> leaves_f f t i = leaves_f f' t' i.
Proof.
  revert f' i. induction f as [|f IH]; intros f' i He Hn H0 Hf Hf'; [lia|].
  destruct f' as [|f']; [lia|]. cbn [leaves_f]. rewrite <- He by lia.
  destruct (Hn i ltac:(lia)) as (n & -> & [[[Hl _] _]|[Hl Hr]]); [by rewrite Hl|].
  destruct (Z.eqb_spec (left n) (-1)); [lia|].
  f_equal; apply IH; try lia; try (intros j Hj; apply He; lia); intros j Hj; apply Hn; lia.
Qed.

Lemma leaves_ext t t' i :
  (forall j, 0 <= j <= i -> zlookup t j = zlookup t' j) -> nodes_ok t (i + 1) -> 0 <= i ->
  leaves t i = leaves t' i.
Proof. intros. apply leaves_f_ext; (done || lia). Qed.

Lemma leaves_leaf t i n : 0 <= i -> zlookup t i = Some n -> left n = -1 -> leaves t i = [i].
Proof. intros Hi Hn Hl. unfold leaves. simpl. by rewrite Hn, Hl. Qed.

Lemma leaves_inner t i n :
  nodes_ok t (i + 1) -> 0 <= i -> zlookup t i = Some n -> 0 <= left n < i -> 0 <= right n < i ->
  leaves t i = leaves t (left n) ++ leaves t (right n).
Proof.
  intros Hn Hi Hz Hl Hr. unfold leaves at 1. cbn [leaves_f]. rewrite Hz.
  destruct (Z.eqb_spec (left n) (-1)); [lia|].
  f_equal; unfold leaves; apply leaves_f_ext; try lia; try done; intros j Hj; apply Hn; lia.
Qed.

(** ** Counting *)

Definition cnt (input : list Z) (ch : Z) : Z := Z.of_nat (length (filter (.= ch) input)).

(** The distinct bytes of the input in increasing order. *)
Definition symbols (input : list Z) : list Z := filter (fun ch => 0 < cnt input ch) (seqZ 0 256).

Definition is_byte (b : Z) : Prop := 0 <= b < 256.

Lemma cnt_app l1 l2 ch : cnt (l1 ++ l2) ch = cnt l1 ch + cnt l2 ch.
Proof. unfold cnt. rewrite filter_app, length_app. lia. Qed.

Lemma cnt_cons x l ch : cnt (x :: l) ch = (if decide (x = ch) then 1 else 0) + cnt l ch.
Proof.
  unfold cnt. case_decide as E.
  - rewrite filter_cons_True by done. simpl. lia.
  - rewrite filter_cons_False by done. lia.
Qed.

Lemma cnt_pos l ch : 0 < cnt l ch <-> ch ∈ l.
Proof.
  induction l as [|x l IH]; [unfold cnt; simpl; split; [lia|set_solver]|].
  rewrite cnt_cons, elem_of_cons, <- IH. unfold cnt. case_decide; naive_solver lia.
Qed.

Lemma count_freq_lookup input i :
  Forall is_byte input -> is_byte i -> zlookup (count_freq input) i = Some (cnt input i).
Proof.
  unfold count_freq, is_byte. intros Hin Hi. rewrite zlookup_pos by lia.
  assert (G : forall (fr : list Z) k, fr !! Z.to_nat i = Some k ->
    foldl (fun fr ch => alter (Z.add 1) (Z.to_nat ch) fr) fr input !! Z.to_nat i = Some (k + cnt input i)).
  { induction Hin as [|x l Hx Hl IH]; intros fr k Hk; simpl.
    - rewrite Hk. f_equal. unfold cnt. simpl. lia.
    - rewrite cnt_cons. case_decide as E.
      + subst. rewrite (IH _ (1 + k)); [f_equal; lia|]. by rewrite list_lookup_alter_eq, Hk.
      + rewrite (IH _ k); [f_equal; lia|]. by rewrite list_lookup_alter_ne by lia. }
  rewrite (G _ 0); [done|]. apply lookup_replicate_2. lia.
Qed.

Definition sumZ (l : list Z) : Z := foldr Z.add 0 l.

Lemma sumZ_app l1 l2 : sumZ (l1 ++ l2) = sumZ l1 + sumZ l2.
Proof. unfold sumZ. induction l1 as [|x l1 IH]; simpl; lia. Qed.

#[export] Instance sumZ_proper : Proper ((≡ₚ) ==> (=)) sumZ.
Proof. intros l1 l2 P. induction P; unfold sumZ in *; simpl in *; lia. Qed.

Lemma sumZ_filter_pos (f : Z -> Z) l :
  (forall x, 0 <= f x) -> sumZ (f <$> filter (fun x => 0 < f x) l) = sumZ (f <$> l).
Proof.
  intros H. induction l as [|x l IH]; [done|]. destruct (decide (0 < f x)).
  - rewrite filter_cons_True by done. cbn [fmap list_fmap sumZ foldr] in *. unfold sumZ in *. lia.
  - rewrite filter_cons_False by done. cbn [fmap list_fmap sumZ foldr] in *. unfold sumZ in *.
    specialize (H x). lia.
Qed.

Lemma sumZ_indicator (x : Z) (l : list Z) :
  NoDup l -> x ∈ l -> sumZ ((fun ch => if decide (x = ch) then 1 else 0) <$> l) = 1.
Proof.
  assert (Z0 : forall l : list Z, x ∉ l -> sumZ ((fun ch => if decide (x = ch) then 1 else 0) <$> l) = 0).
  { clear l. induction l as [|y l IH]; [done|]. intros [Hy Hl]%not_elem_of_cons.
    cbn [fmap list_fmap sumZ foldr]. rewrite decide_False by done. exact (IH Hl). }
  induction 1 as [|y l Hy Hl IH]; [set_solver|]. intros Hx. cbn [fmap list_fmap sumZ foldr].
  case_decide as E.
  - subst. change (1 + sumZ ((fun ch => if decide (y = ch) then 1 else 0) <$> l) = 1). by rewrite Z0.
  - apply elem_of_cons in Hx as [->|Hx]; [done|]. exact (IH Hx).
Qed.

Lemma sumZ_fmap_add {A} (f g : A -> Z) l :
  sumZ ((fun x => f x + g x) <$> l) = sumZ (f <$> l) + sumZ (g <$> l).
Proof.
  induction l as [|x l IH]; [done|].
  change (f x + g x + sumZ ((fun x => f x + g x) <$> l) = (f x + sumZ (f <$> l)) + (g x + sumZ (g <$> l))).
  lia.
Qed.

Lemma sum_cnt input :
  Forall is_byte input -> sumZ (cnt input <$> symbols input) = Z.of_nat (length input).
Proof.
  intros Hin. unfold symbols. rewrite sumZ_filter_pos by (intros; unfold cnt; lia).
  induction Hin as [|x l Hx Hl IH]; [vm_compute; done|].
  rewrite (list_fmap_ext _ (fun ch => (if decide (x = ch) then 1 else 0) + cnt l ch) _)
    by (intros; apply cnt_cons).
  rewrite sumZ_fmap_add, IH, sumZ_indicator; [simpl; lia|apply NoDup_seqZ|].
  apply elem_of_seqZ. unfold is_byte in Hx. lia.
Qed.

(** ** Adding a node *)

Lemma leaves_f_range f t i j :
  nodes_ok t (i + 1) -> 0 <= i -> j ∈ leaves_f f t i -> 0 <= j <= i.
Proof.
  revert i. induction f as [|f IH]; intros i Hn Hi; cbn [leaves_f]; [set_solver|].
  destruct (Hn i ltac:(lia)) as (n & -> & [[[Hl _] _]|[Hl Hr]]).
  - rewrite Hl. simpl. intros ->%list_elem_of_singleton. lia.
  - destruct (Z.eqb_spec (left n) (-1)); [lia|].
    intros [H|H]%elem_of_app; apply IH in H; try lia; intros k Hk; apply Hn; lia.
Qed.

Lemma leaves_range t i j : nodes_ok t (i + 1) -> 0 <= i -> j ∈ leaves t i -> 0 <= j <= i.
Proof. apply leaves_f_range. Qed.

Lemma nodes_ok_le t k k' : nodes_ok t k -> k' <= k -> nodes_ok t k'.
Proof. intros H Hk i Hi. apply H. lia. Qed.

Lemma nodes_ok_ext t t' k :
  (forall j, 0 <= j < k -> zlookup t j = zlookup t' j) -> nodes_ok t k -> nodes_ok t' k.
Proof. intros He H i Hi. rewrite <- He by done. by apply H. Qed.

Lemma nodes_ok_S t k n :
  nodes_ok t k -> zlookup t k = Some n -> node_ok k n -> nodes_ok t (k + 1).
Proof. intros H Hn Ho i Hi. destruct (decide (i = k)) as [->|]; [eauto|]. apply H. lia. Qed.

(** The queue holds indices of the first [tree_size] nodes, which point
    backwards; an inner node weighs what the leaves under it weigh. *)
Record base (s : hst) : Prop := {
  ba_wf : hwf s;
  ba_heap : heap_ok s;
  ba_len : length (tree s) = 512%nat;
  ba_lt : Forall (fun i => 0 <= i < tree_size s) (entries s);
  ba_size : 0 <= tree_size s;
  ba_nodes : nodes_ok (tree s) (tree_size s);
  ba_freq : forall i, 0 <= i < tree_size s ->
    nfreq (tree s) i = sumZ (nfreq (tree s) <$> leaves (tree s) i)
}.

(** The entries of the queue are the roots of a forest whose leaves are the
    symbols [syms], at the front of the array, with their counts. *)
Record forest (input syms : list Z) (s : hst) : Prop := {
  fo_base : base s;
  fo_last : 0 < heap_size s -> tree_size s - 1 ∈ entries s;
  fo_leaf : forall i ch, zlookup syms i = Some ch ->
    exists n, zlookup (tree s) i = Some n /\ is_leaf n /\ c n = ch /\ freq n = cnt input ch;
  fo_part : mjoin (leaves (tree s) <$> entries s) ≡ₚ seqZ 0 (Z.of_nat (length syms));
  fo_syms : Z.of_nat (length syms) <= tree_size s
}.

Definition put_node (n : node) (s : hst) : hst :=
  set_tree_size (tree_size s + 1) (set_tree (<[Z.to_nat (tree_size s) := n]> (tree s)) s).

Lemma put_node_lookup n s j :
  0 <= tree_size s < Z.of_nat (length (tree s)) ->
  zlookup (tree (put_node n s)) j = if decide (tree_size s = j) then Some n else zlookup (tree s) j.
Proof. intros. by apply zlookup_insert. Qed.

Lemma put_node_nfreq n s j :
  0 <= tree_size s < Z.of_nat (length (tree s)) -> j <> tree_size s ->
  nfreq (tree (put_node n s)) j = nfreq (tree s) j.
Proof. intros. unfold nfreq. rewrite put_node_lookup by done. by rewrite decide_False. Qed.

(** [insert_heap(tree_size++)] after the new node is filled in. *)
Lemma push_node n s :
  hwf s -> heap_ok s -> heap_size s < 256 -> 0 <= tree_size s < Z.of_nat (length (tree s)) ->
  Forall (fun i => 0 <= i < tree_size s) (entries s) ->
  exists s', insert_heap (tree_size s) (put_node n s) = Some s' /\ hwf s' /\ heap_ok s' /\
    tree s' = tree (put_node n s) /\ tree_size s' = tree_size s + 1 /\
    heap_size s' = heap_size s + 1 /\ entries s' ≡ₚ tree_size s :: entries s.
Proof.
  intros W O Hh Ht F.
  assert (W1 : hwf (put_node n s)).
  { split; [apply W|apply W|]. eapply Forall_impl; [apply F|]. cbn [put_node tree set_tree set_tree_size].
    rewrite length_insert. lia. }
  destruct (insert_heap_ok (tree_size s) (put_node n s)) as (s' & E & W' & O' & T & TS & HS & En); [done| |done| |].
  - intros k Hk. pose proof (parent_range k ltac:(lia)) as Hp.
    assert (K : forall k, 0 <= k < heap_size s -> key (put_node n s) k = key s k).
    { intros k' Hk'. destruct (entries_lookup s k' W Hk') as (i & Hi & Hin & _).
      rewrite (key_nfreq (put_node n s) k' i), (key_nfreq s k' i) by done. apply put_node_nfreq; [done|].
      rewrite Forall_forall in F. apply F in Hin. lia. }
    change (heap_size (put_node n s)) with (heap_size s) in Hk. rewrite !K by lia. by apply O.
  - cbn [put_node tree set_tree set_tree_size]. rewrite length_insert. lia.
  - exists s'. by split_and!.
Qed.

Lemma put_node_leaves n s i :
  base s -> tree_size s < 512 -> 0 <= i < tree_size s ->
  leaves (tree (put_node n s)) i = leaves (tree s) i.
Proof.
  intros B Ht Hi. symmetry. pose proof (ba_len _ B). apply leaves_ext; [|by eapply nodes_ok_le; [apply B|lia]|lia].
  intros j Hj. rewrite put_node_lookup by lia. by rewrite decide_False by lia.
Qed.

Lemma put_node_weight n s i :
  base s -> tree_size s < 512 -> 0 <= i < tree_size s ->
  sumZ (nfreq (tree (put_node n s)) <$> leaves (tree s) i) = nfreq (tree s) i.
Proof.
  intros B Ht Hi. rewrite (ba_freq _ B i Hi). f_equal. apply list_fmap_ext. intros k j Hj.
  apply list_elem_of_lookup_2 in Hj. pose proof (ba_len _ B).
  apply leaves_range in Hj; [|eapply nodes_ok_le; [apply B|lia]|lia].
  apply put_node_nfreq; lia.
Qed.

Lemma base_push n s :
  base s -> heap_size s < 256 -> tree_size s < 512 -> node_ok (tree_size s) n ->
  (is_leaf n \/ freq n = nfreq (tree s) (left n) + nfreq (tree s) (right n)) ->
  exists s', insert_heap (tree_size s) (put_node n s) = Some s' /\ base s' /\
    tree s' = tree (put_node n s) /\ tree_size s' = tree_size s + 1 /\
    heap_size s' = heap_size s + 1 /\ entries s' ≡ₚ tree_size s :: entries s.
Proof.
  intros B Hh Ht Hn Hf. pose proof (ba_len _ B) as L. pose proof (ba_size _ B) as Sz.
  destruct (push_node n s) as (s' & E & W & O & T & TS & HS & En); [apply B|apply B|done|lia|apply B|].
  exists s'. split_and!; try done.
  assert (Hk : zlookup (tree (put_node n s)) (tree_size s) = Some n)
    by (rewrite put_node_lookup by lia; by rewrite decide_True).
  assert (N : nodes_ok (tree (put_node n s)) (tree_size s + 1)).
  { eapply nodes_ok_S; [|done|done]. eapply nodes_ok_ext; [|apply B]. intros j Hj.
    rewrite put_node_lookup by lia. by rewrite decide_False by lia. }
  split; try done.
  - rewrite T. cbn [put_node tree set_tree set_tree_size]. by rewrite length_insert.
  - rewrite En, TS. constructor; [lia|]. eapply Forall_impl; [exact (ba_lt _ B)|]. simpl. lia.
  - lia.
  - by rewrite T, TS.
  - rewrite TS, T. intros i Hi. destruct (decide (i = tree_size s)) as [->|].
    + destruct Hn as [[Hl _]|[Hl Hr]].
      * rewrite (leaves_leaf _ _ n) by (done || apply Hl). unfold sumZ. cbn [fmap list_fmap foldr]. lia.
      * destruct Hf as [[Hl' _]|Hf]; [lia|].
        rewrite (leaves_inner _ _ n) by done. rewrite !put_node_leaves by (done || lia).
        rewrite fmap_app, sumZ_app, !put_node_weight by (done || lia).
        rewrite <- Hf. unfold nfreq. by rewrite Hk.
    + rewrite put_node_leaves, put_node_weight by (done || lia). apply put_node_nfreq; lia.
Qed.

Lemma base_extract s :
  base s -> 0 < heap_size s ->
  exists m s', extract_min s = Some (m, s') /\ base s' /\ tree s' = tree s /\
    tree_size s' = tree_size s /\ heap_size s' = heap_size s - 1 /\ entries s ≡ₚ m :: entries s' /\
    0 <= m < tree_size s.
Proof.
  intros B Hh. destruct (extract_min_ok s) as (m & s' & E & W & O & T & TS & HS & En & _); [apply B|apply B|done|].
  pose proof (ba_lt _ B) as F. rewrite En in F. apply Forall_cons in F as [Fm F].
  exists m, s'. split_and!; try done; try lia. destruct B. split; rewrite ?T, ?TS; done.
Qed.

(** The leaves of the forest before the new node is added are those after. *)
Lemma put_node_part n s l :
  base s -> tree_size s < 512 -> Forall (fun i => 0 <= i < tree_size s) l ->
  leaves (tree (put_node n s)) <$> l = leaves (tree s) <$> l.
Proof.
  intros B Ht F. apply list_fmap_ext. intros k i Hi. apply put_node_leaves; [done|done|].
  exact (Forall_lookup_1 _ _ _ _ F Hi).
Qed.

(** ** The leaf loop *)

Lemma leaf_step_skip input s i :
  Forall is_byte input -> is_byte i -> ~ 0 < cnt input i -> leaf_step (count_freq input) s i = Some s.
Proof.
  intros Hin Hi Hc. unfold leaf_step. rewrite count_freq_lookup by done. cbn [mbind option_bind].
  by destruct (Z.gtb_spec (cnt input i) 0); [lia|].
Qed.

Lemma leaf_step_push input syms s i :
  Forall is_byte input -> is_byte i -> 0 < cnt input i ->
  forest input syms s -> tree_size s = Z.of_nat (length syms) -> heap_size s = Z.of_nat (length syms) ->
  (length syms < 256)%nat ->
  exists s', leaf_step (count_freq input) s i = Some s' /\ forest input (syms ++ [i]) s' /\
    tree_size s' = Z.of_nat (length (syms ++ [i])) /\ heap_size s' = Z.of_nat (length (syms ++ [i])).
Proof.
  intros Hin Hi Hc F TS HS Hm. pose proof (fo_base _ _ _ F) as B. pose proof (ba_len _ B) as L.
  unfold leaf_step. rewrite count_freq_lookup by done. cbn [mbind option_bind].
  destruct (Z.gtb_spec (cnt input i) 0); [|lia].
  destruct (zlookup_is_Some (tree s) (tree_size s) ltac:(lia)) as [n0 ->]. cbn [mbind option_bind].
  rewrite zupdate_ok by lia. cbn [mbind option_bind]. fold (put_node (Node i (pad n0) (cnt input i) (-1) (-1)) s).
  set (n := Node i (pad n0) (cnt input i) (-1) (-1)).
  assert (Ln : is_leaf n) by done.
  destruct (base_push n s B) as (s' & E & B' & T & TS' & HS' & En); [lia|lia|left; done|by left|].
  exists s'. rewrite length_app. cbn [length]. split_and!; [done| |lia|lia].
  assert (Hk : zlookup (tree (put_node n s)) (tree_size s) = Some n)
    by (rewrite put_node_lookup by lia; by rewrite decide_True).
  split; [done| | | |].
  - intros _. rewrite En, TS'. replace (tree_size s + 1 - 1) with (tree_size s) by lia. constructor.
  - intros j ch Hj. rewrite T. destruct (decide (j = Z.of_nat (length syms))) as [->|Hne].
    + rewrite zlookup_nat, lookup_app_r, Nat.sub_diag in Hj by lia. simpl in Hj. simplify_eq.
      exists n. rewrite <- TS. done.
    + pose proof (zlookup_Some _ _ _ Hj) as Hr. rewrite length_app in Hr. cbn [length] in Hr.
      rewrite zlookup_app_l in Hj by lia. rewrite put_node_lookup, decide_False by lia.
      by apply (fo_leaf _ _ _ F).
  - rewrite T, En, length_app. cbn [length fmap list_fmap mjoin list_join].
    rewrite (leaves_leaf _ _ n) by (done || lia). rewrite put_node_part by (done || lia || apply B).
    change (fmap (leaves (tree s)) (entries s)) with (leaves (tree s) <$> entries s).
    rewrite (fo_part _ _ _ F), TS. replace (Z.of_nat (length syms + 1)) with (Z.of_nat (length syms) + 1) by lia.
    rewrite seqZ_app by lia. rewrite Permutation_app_comm. done.
  - rewrite length_app, TS'. cbn [length]. lia.
Qed.

Lemma leaf_loop_ok input ids syms s :
  Forall is_byte input -> Forall is_byte ids ->
  forest input syms s -> tree_size s = Z.of_nat (length syms) -> heap_size s = Z.of_nat (length syms) ->
  (length syms + length ids <= 256)%nat ->
  exists s', leaf_loop (count_freq input) ids s = Some s' /\
    let syms' := syms ++ filter (fun ch => 0 < cnt input ch) ids in
    forest input syms' s' /\ tree_size s' = Z.of_nat (length syms') /\ heap_size s' = Z.of_nat (length syms').
Proof.
  intros Hin Hids. revert syms s. induction Hids as [|i ids Hi Hids IH]; intros syms s F TS HS Hl.
  - exists s. cbn zeta. rewrite filter_nil, app_nil_r. done.
  - cbn [leaf_loop length] in *. destruct (decide (0 < cnt input i)) as [Hc|Hc].
    + rewrite filter_cons_True by done.
      destruct (leaf_step_push input syms s i) as (s1 & E & F1 & TS1 & HS1); try done; [lia|].
      rewrite E. cbn [mbind option_bind].
      destruct (IH (syms ++ [i]) s1) as (s' & E' & F'); try done; [rewrite length_app; simpl; lia|].
      exists s'. split; [done|]. cbn zeta in *. by rewrite <- app_assoc in F'.
    + rewrite filter_cons_False by done. rewrite leaf_step_skip by done. cbn [mbind option_bind].
      apply IH; try done. lia.
Qed.

(** ** The merge loop *)

Lemma merge_step_ok input syms s :
  forest input syms s -> 2 <= heap_size s -> tree_size s < 512 ->
  exists s', merge_step s = Some s' /\ forest input syms s' /\
    tree_size s' = tree_size s + 1 /\ heap_size s' = heap_size s - 1.
Proof.
  intros F Hh Ht. pose proof (fo_base _ _ _ F) as B. pose proof (ba_len _ B) as L.
  pose proof (ba_size _ B) as Sz.
  destruct (base_extract s B ltac:(lia)) as (l & s1 & E1 & B1 & T1 & TS1 & HS1 & En1 & Hl).
  destruct (base_extract s1 B1 ltac:(lia)) as (r & s2 & E2 & B2 & T2 & TS2 & HS2 & En2 & Hr).
  pose proof (hwf_size _ (ba_wf _ B)) as Hmax.
  unfold merge_step. rewrite E1. cbn [mbind option_bind]. rewrite E2. cbn [mbind option_bind].
  destruct (zlookup_is_Some (tree s2) l ltac:(rewrite T2, T1; lia)) as [nl Hnl].
  destruct (zlookup_is_Some (tree s2) r ltac:(rewrite T2, T1; lia)) as [nr Hnr].
  destruct (zlookup_is_Some (tree s2) (tree_size s2) ltac:(rewrite T2, T1; lia)) as [n0 Hn0].
  rewrite Hnl, Hnr, Hn0. cbn [mbind option_bind]. rewrite zupdate_ok by (rewrite T2, T1; lia).
  cbn [mbind option_bind]. fold (put_node (Node (c n0) (pad n0) (freq nl + freq nr) l r) s2).
  set (n := Node (c n0) (pad n0) (freq nl + freq nr) l r).
  assert (No : node_ok (tree_size s2) n) by (right; simpl; lia).
  destruct (base_push n s2 B2) as (s' & E & B' & T & TS' & HS' & En); [lia|lia|done| |].
  { right. unfold nfreq, n. cbn [left right freq]. by rewrite Hnl, Hnr. }
  exists s'. split_and!; [done| |lia|lia].
  assert (Hk : zlookup (tree (put_node n s2)) (tree_size s2) = Some n)
    by (rewrite put_node_lookup by (rewrite T2, T1; lia); by rewrite decide_True).
  split; [done| | | |].
  - intros _. rewrite En, TS'. replace (tree_size s2 + 1 - 1) with (tree_size s2) by lia. constructor.
  - intros j ch Hj. pose proof (zlookup_Some _ _ _ Hj) as Hjr. pose proof (fo_syms _ _ _ F).
    rewrite T, put_node_lookup, decide_False, T2, T1 by (rewrite ?T2, ?T1; lia). by apply (fo_leaf _ _ _ F).
  - rewrite T, En. cbn [fmap list_fmap mjoin list_join].
    assert (N : nodes_ok (tree (put_node n s2)) (tree_size s2 + 1)).
    { pose proof (ba_nodes _ B') as N. by rewrite T, TS' in N. }
    rewrite (leaves_inner _ _ n N) by (done || (simpl; lia)).
    rewrite !put_node_leaves by (done || (simpl; lia)).
    rewrite put_node_part by (done || lia || apply B2).
    rewrite T2, T1. rewrite <- (fo_part _ _ _ F), En1, En2.
    cbn [fmap list_fmap mjoin list_join n left right]. by rewrite app_assoc.
  - pose proof (fo_syms _ _ _ F). lia.
Qed.

Lemma merge_loop_ok fuel input syms s :
  forest input syms s -> 1 <= heap_size s -> tree_size s + heap_size s = 2 * Z.of_nat (length syms) ->
  (length syms <= 256)%nat -> (Z.to_nat (heap_size s) <= fuel)%nat ->
  exists s', merge_loop fuel s = Some s' /\ forest input syms s' /\ heap_size s' = 1 /\
    tree_size s' = 2 * Z.of_nat (length syms) - 1.
Proof.
  revert s. induction fuel as [|fuel IH]; intros s F Hh Hs Hm Hf; [lia|].
  cbn [merge_loop]. destruct (Z.gtb_spec (heap_size s) 1).
  - destruct (merge_step_ok input syms s) as (s1 & E & F1 & TS1 & HS1); [done|lia|lia|].
    rewrite E. cbn [mbind option_bind]. apply IH; (done || lia).
  - exists s. split_and!; (done || lia).
Qed.

Lemma symbols_nonempty input : input <> [] -> Forall is_byte input -> symbols input <> [].
Proof.
  destruct input as [|x l]; [done|]. intros _ [Hx _]%Forall_cons E.
  apply (not_elem_of_nil x). rewrite <- E. unfold symbols. apply list_elem_of_filter.
  split; [apply cnt_pos; constructor|]. apply elem_of_seqZ. unfold is_byte in Hx. lia.
Qed.

Lemma length_symbols input : (length (symbols input) <= 256)%nat.
Proof. unfold symbols. etrans; [apply length_filter|]. by rewrite length_seqZ. Qed.

Lemma build_tree_forest input s :
  input <> [] -> Forall is_byte input -> length (tree s) = 512%nat -> length (heap s) = 256%nat ->
  exists s', build_tree input s = Some s' /\ forest input (symbols input) s' /\ heap_size s' = 1 /\
    tree_size s' = 2 * Z.of_nat (length (symbols input)) - 1.
Proof.
  intros Hne Hin Lt Lh. unfold build_tree.
  pose proof (symbols_nonempty input Hne Hin) as Hs. pose proof (length_symbols input) as Hl.
  set (s0 := set_heap_size 0 (set_tree_size 0 s)).
  assert (F0 : forest input [] s0).
  { assert (En : entries s0 = []) by (unfold entries, s0; simpl; done).
    assert (W0 : hwf s0) by (split; [done|simpl; lia|by rewrite En]).
    split; [split| | | |]; rewrite ?En; try done; try (simpl; lia).
    - intros k Hk. simpl in Hk. lia.
    - intros i Hi. simpl in Hi. lia.
    - intros i ch Hi%zlookup_Some. simpl in Hi. lia. }
  destruct (leaf_loop_ok input (seqZ 0 256) [] s0) as (s1 & E1 & F1 & TS1 & HS1); try done.
  { apply Forall_forall. intros x Hx%elem_of_seqZ. unfold is_byte. lia. }
  rewrite E1. cbn [mbind option_bind]. rewrite app_nil_l in *. fold (symbols input) in F1, TS1, HS1.
  assert (1 <= Z.of_nat (length (symbols input))) by (destruct (symbols input); simpl; [done|lia]).
  apply merge_loop_ok; (done || lia).
Qed.

(** The bytes under a node and what they weigh. *)
Lemma forest_symbols input syms s i :
  forest input syms s -> 0 <= i < tree_size s ->
  (forall j, j ∈ leaves (tree s) i -> 0 <= j < Z.of_nat (length syms)) ->
  symbols_under (tree s) i = (fun j => default 0 (zlookup syms j)) <$> leaves (tree s) i /\
  nfreq (tree s) i = sumZ (cnt input <$> symbols_under (tree s) i).
Proof.
  intros F Hi Hr.
  assert (Hj : forall j, j ∈ leaves (tree s) i -> exists ch n,
    zlookup syms j = Some ch /\ zlookup (tree s) j = Some n /\ c n = ch /\ freq n = cnt input ch).
  { intros j Hj. destruct (zlookup_is_Some syms j (Hr j Hj)) as [ch Hch].
    destruct (fo_leaf _ _ _ F j ch Hch) as (n & ? & _ & ? & ?). eauto 10. }
  split.
  - apply list_fmap_ext. intros k j Hk%list_elem_of_lookup_2.
    destruct (Hj j Hk) as (ch & n & E & En & Ec & _). by rewrite E, En, <- Ec.
  - rewrite (ba_freq _ (fo_base _ _ _ F) i Hi). unfold symbols_under. rewrite <- list_fmap_compose.
    f_equal. apply list_fmap_ext. intros k j Hk%list_elem_of_lookup_2.
    destruct (Hj j Hk) as (ch & n & E & En & Ec & Ef). unfold nfreq, compose. rewrite En. simpl. by rewrite Ef, Ec.
Qed.

Lemma fmap_lookup_seqZ (l : list Z) :
  (fun j => default 0 (zlookup l j)) <$> seqZ 0 (Z.of_nat (length l)) = l.
Proof.
  apply list_eq. intros i. rewrite list_lookup_fmap.
  destruct (decide (i < length l)%nat) as [Hi|Hi].
  - destruct (lookup_lt_is_Some_2 l i Hi) as [x Hx]. rewrite Hx.
    rewrite lookup_seqZ_lt by lia. cbn [fmap option_fmap option_map].
    rewrite Z.add_0_l, zlookup_nat. by rewrite Hx.
  - rewrite (lookup_ge_None_2 l) by lia. rewrite lookup_seqZ_ge by lia. done.
Qed.

Lemma root_leaves input syms s :
  forest input syms s -> heap_size s = 1 ->
  leaves (tree s) (tree_size s - 1) ≡ₚ seqZ 0 (Z.of_nat (length syms)).
Proof.
  intros F Hh. pose proof (fo_base _ _ _ F) as B. pose proof (hwf_len _ (ba_wf _ B)).
  pose proof (fo_last _ _ _ F ltac:(lia)) as Hin. pose proof (fo_part _ _ _ F) as P.
  assert (L : length (entries s) = 1%nat) by (unfold entries; rewrite length_take; lia).
  destruct (entries s) as [|r [|]]; try done. apply list_elem_of_singleton in Hin as <-.
  cbn [fmap list_fmap mjoin list_join] in P. by rewrite app_nil_r in P.
Qed.

(** C7: [build_tree] is total on nonempty input and never leaves its arrays:
    with [m] distinct bytes in the input it ends with [2m-1] nodes, children
    before parents and the root last; the bytes at the leaves are exactly the
    distinct bytes of the input, each once; every node's [freq] is the number
    of occurrences of the bytes under it, the root's the input length. *)
Theorem build_tree_correct input s :
  input <> [] -> Forall is_byte input -> length (tree s) = 512%nat -> length (heap s) = 256%nat ->
  exists s', build_tree input s = Some s' /\
    length (tree s') = 512%nat /\ length (heap s') = 256%nat /\
    tree_size s' = 2 * Z.of_nat (length (symbols input)) - 1 /\
    nodes_ok (tree s') (tree_size s') /\
    symbols_under (tree s') (tree_size s' - 1) ≡ₚ symbols input /\
    nfreq (tree s') (tree_size s' - 1) = Z.of_nat (length input).
Proof.
  intros Hne Hin Lt Lh.
  destruct (build_tree_forest input s Hne Hin Lt Lh) as (s' & E & F & Hh & TS).
  pose proof (fo_base _ _ _ F) as B. pose proof (root_leaves _ _ _ F Hh) as P.
  pose proof (symbols_nonempty input Hne Hin) as Hs.
  assert (1 <= Z.of_nat (length (symbols input))) by (destruct (symbols input); simpl; [done|lia]).
  destruct (forest_symbols _ _ _ (tree_size s' - 1) F) as [Su Fr]; [lia| |].
  { intros j. rewrite P. intros Hj%elem_of_seqZ. lia. }
  assert (PS : symbols_under (tree s') (tree_size s' - 1) ≡ₚ symbols input)
    by (rewrite Su, P; by rewrite fmap_lookup_seqZ).
  exists s'. split_and!; [done|apply B|apply B|done|apply B|done|].
  rewrite Fr, PS. by apply sum_cnt.
Qed.

Lemma build_tree_correct_witness :
  exists s', build_tree [97; 98; 97; 99; 97] hst0 = Some s' /\ tree_size s' = 5 /\
    nfreq (tree s') 4 = 5.
Proof.
  destruct (build_tree_correct [97; 98; 97; 99; 97] hst0) as (s' & E & _ & _ & T & _ & _ & F).
  - done.
  - repeat constructor; done.
  - reflexivity.
  - reflexivity.
  - assert (TS : tree_size s' = 5) by (rewrite T; vm_compute; reflexivity).
    exists s'. rewrite TS in F. split_and!; [exact E|exact TS|exact F].
Defined.
