(* ===== verification/HuffmanCode.v ===== *)
(** The encoder and the decoder of kernel/compress.c put together.

    [compress_huffman] walks down the tree by comparing the byte with the [c]
    field of the left child, which for an inner node is whatever an earlier
    use of the array left there, so the leaf it ends at ([cleaf]) need not be
    the byte's own.  The theorems say exactly what survives: decoding the
    output gives every byte mapped to the byte at the leaf its comparisons
    reach, so that the round trip is the identity if and only if every byte
    of the input reaches its own leaf; inputs are given on which it does not. *)

From S2P Require Import Prelude Huffman HuffmanHeap HuffmanTree.

(** ** Bits of a buffer, most significant first *)

Definition getbit (b : list Z) (k : Z) : bool :=
  match zlookup b (k / 8) with
  | Some v => Z.testbit v (7 - k mod 8)
  | None => false
  end.

Definition wpos (w : wr) : Z := 8 * byte_pos w + bit_pos w.

(** The write position is inside a byte whose later bits are still zero. *)
Record wok (w : wr) : Prop := {
  wok_byte : 0 <= byte_pos w;
  wok_bit : 0 <= bit_pos w < 8;
  wok_low : forall v j, 0 < bit_pos w -> zlookup (buf w) (byte_pos w) = Some v ->
    0 <= j < 8 - bit_pos w -> Z.testbit v j = false
}.

(** [w'] is [w] with the bits [bl] written at its position. *)
Record appended (w : wr) (bl : list bool) (w' : wr) : Prop := {
  ap_ok : wok w';
  ap_pos : wpos w' = wpos w + Z.of_nat (length bl);
  ap_len : length (buf w') = length (buf w);
  ap_bytes : forall i, i < byte_pos w -> zlookup (buf w') i = zlookup (buf w) i;
  ap_old : forall k, 0 <= k < wpos w -> getbit (buf w') k = getbit (buf w) k;
  ap_new : forall j b, bl !! j = Some b -> getbit (buf w') (wpos w + Z.of_nat j) = b
}.

Lemma wpos_div w : wok w -> wpos w / 8 = byte_pos w /\ wpos w mod 8 = bit_pos w.
Proof. intros [? ? _]. unfold wpos. zdm. Qed.

Lemma testbit_b2z b n : Z.testbit (Z.b2z b) n = b && (n =? 0).
Proof.
  destruct (Z.eqb_spec n 0) as [->|Hn].
  - rewrite andb_true_r. apply Z.b2z_bit0.
  - rewrite andb_false_r. destruct (Z.ltb_spec n 0); [by apply Z.testbit_neg_r|].
    apply Z.bits_above_log2; destruct b; simpl; lia.
Qed.

Lemma testbit_or_bit o b p j :
  0 <= p < 8 -> 0 <= j < 8 ->
  Z.testbit (u8 (Z.lor o (Z.shiftl (Z.b2z b) (7 - p)))) j = Z.testbit o j || (b && (j =? 7 - p)).
Proof.
  intros Hp Hj. unfold u8. rewrite Z.mod_pow2_bits_low by lia.
  rewrite Z.lor_spec, Z.shiftl_spec by lia. rewrite testbit_b2z. do 2 f_equal.
  destruct (Z.eqb_spec (j - (7 - p)) 0), (Z.eqb_spec j (7 - p)); (done || lia).
Qed.

Lemma getbit_insert b i v k :
  0 <= i < Z.of_nat (length b) -> 0 <= k ->
  getbit (<[Z.to_nat i := v]> b) k = if decide (k / 8 = i) then Z.testbit v (7 - k mod 8) else getbit b k.
Proof.
  intros Hi Hk. unfold getbit. rewrite zlookup_insert by done.
  repeat case_decide; (done || congruence).
Qed.

(** The byte [write_bit] updates: zeroed on its first bit. *)
Lemma write_bit_unfold b w o :
  0 <= byte_pos w < Z.of_nat (length (buf w)) -> zlookup (buf w) (byte_pos w) = Some o ->
  let o := if bit_pos w =? 0 then 0 else o in
  let bp := (bit_pos w + 1) mod 8 in
  write_bit b w =
  Some (Wr (<[Z.to_nat (byte_pos w) := u8 (Z.lor o (Z.shiftl b (7 - bit_pos w)))]> (buf w))
           (if bp =? 0 then byte_pos w + 1 else byte_pos w) bp).
Proof.
  intros Hb Ho. cbn zeta. unfold write_bit. destruct (Z.eqb_spec (bit_pos w) 0).
  - rewrite zupdate_ok by done. cbn [mbind option_bind]. rewrite zlookup_insert, decide_True by done.
    cbn [mbind option_bind]. rewrite zupdate_ok by (by rewrite length_insert).
    cbn [mbind option_bind]. by rewrite list_insert_insert_eq.
  - cbn [mbind option_bind]. rewrite Ho. cbn [mbind option_bind]. rewrite zupdate_ok by done. done.
Qed.

Lemma write_bit_ok b w :
  wok w -> byte_pos w < Z.of_nat (length (buf w)) ->
  exists w', write_bit (Z.b2z b) w = Some w' /\ appended w [b] w'.
Proof.
  intros W Hl. pose proof (wok_byte _ W) as H0. pose proof (wok_bit _ W) as Hb.
  destruct (zlookup_is_Some (buf w) (byte_pos w) ltac:(lia)) as [o Ho].
  rewrite (write_bit_unfold _ _ o) by (done || lia). eexists. split; [done|].
  set (o' := if bit_pos w =? 0 then 0 else o).
  assert (Lo : forall j, 0 <= j < 8 - bit_pos w -> Z.testbit o' j = false).
  { intros j Hj. unfold o'. destruct (Z.eqb_spec (bit_pos w) 0); [by rewrite Z.testbit_0_l|].
    apply (wok_low _ W o j); (done || lia). }
  split; cbn [buf byte_pos bit_pos wpos].
  - split; cbn [buf byte_pos bit_pos].
    + case_match; lia.
    + apply Z.mod_pos_bound. lia.
    + intros v j Hp Hv Hj. destruct (Z.eqb_spec ((bit_pos w + 1) mod 8) 0); [lia|].
      rewrite zlookup_insert, decide_True in Hv by (done || lia). simplify_eq.
      assert ((bit_pos w + 1) mod 8 = bit_pos w + 1) as E by zdm. rewrite E in Hj.
      rewrite testbit_or_bit by lia. rewrite Lo by lia. rewrite orb_false_l.
      apply andb_false_intro2. apply Z.eqb_neq. lia.
  - unfold wpos. cbn [byte_pos bit_pos length]. destruct (Z.eqb_spec ((bit_pos w + 1) mod 8) 0); zdm.
  - by rewrite length_insert.
  - intros i Hi. rewrite zlookup_insert by lia. by rewrite decide_False by lia.
  - intros k Hk. rewrite getbit_insert by lia. destruct (wpos_div w W) as [Wd Wm].
    case_decide as E; [|done]. unfold wpos in Hk.
    assert (k mod 8 < bit_pos w) by zdm. unfold getbit. rewrite E, Ho.
    rewrite testbit_or_bit by zdm. unfold o'. destruct (Z.eqb_spec (bit_pos w) 0); [zdm|].
    rewrite (proj2 (Z.eqb_neq _ _)) by lia. by rewrite andb_false_r, orb_false_r.
  - intros j b' Hj. destruct j as [|j]; [|done]. simpl in Hj. simplify_eq.
    rewrite Z.add_0_r, getbit_insert by (unfold wpos; lia). destruct (wpos_div w W) as [-> ->].
    rewrite decide_True by done. rewrite testbit_or_bit by lia. rewrite Lo, Z.eqb_refl by lia.
    by rewrite andb_true_r.
Qed.

Lemma wpos_nonneg w : wok w -> 0 <= wpos w.
Proof. intros [? ? _]. unfold wpos. lia. Qed.

Lemma appended_nil w : wok w -> appended w [] w.
Proof. intros W. split; simpl; (done || lia). Qed.

Lemma appended_trans w bl w1 bl' w2 :
  wok w -> appended w bl w1 -> appended w1 bl' w2 -> appended w (bl ++ bl') w2.
Proof.
  intros W A1 A2. pose proof (wpos_nonneg w W). pose proof (ap_pos _ _ _ A1) as P1.
  pose proof (ap_pos _ _ _ A2) as P2. split.
  - apply A2.
  - rewrite length_app. lia.
  - rewrite (ap_len _ _ _ A2). apply A1.
  - intros i Hi. destruct (wpos_div w W) as [Wd _]. destruct (wpos_div w1) as [Wd1 _]; [apply A1|].
    rewrite (ap_bytes _ _ _ A2); [by apply A1|]. zdm.
  - intros k Hk. rewrite (ap_old _ _ _ A2) by lia. apply A1. lia.
  - intros j b Hj. apply lookup_app_Some in Hj as [Hj|[Hl Hj]].
    + pose proof (lookup_lt_Some _ _ _ Hj). rewrite (ap_old _ _ _ A2) by lia. by apply A1.
    + rewrite <- (ap_new _ _ _ A2 _ _ Hj). f_equal. lia.
Qed.

(** ** The path the encoder takes *)

(** The bits written for [ch] from node [i] on, and the leaf reached. *)
Fixpoint cpath_f (fuel : nat) (t : list node) (ch i : Z) : list bool * Z :=
  match fuel with
  | O => ([], i)
  | S fuel =>
      match zlookup t i with
      | Some n =>
          if left n =? -1 then ([], i)
          else
            let cl := default 0 (c <$> zlookup t (left n)) in
            if ch <? cl
            then let '(p, l) := cpath_f fuel t ch (left n) in (false :: p, l)
            else let '(p, l) := cpath_f fuel t ch (right n) in (true :: p, l)
      | None => ([], i)
      end
  end.

Definition cpath (t : list node) (ch i : Z) : list bool := (cpath_f (S (Z.to_nat i)) t ch i).1.
Definition cleaf (t : list node) (ch i : Z) : Z := (cpath_f (S (Z.to_nat i)) t ch i).2.

(** The byte at the leaf the comparisons for [ch] reach from the root. *)
Definition sym_of (t : list node) (root ch : Z) : Z := default 0 (c <$> zlookup t (cleaf t ch root)).

Lemma cpath_f_fuel f f' t ch i :
  nodes_ok t (i + 1) -> 0 <= i -> (Z.to_nat i < f)%nat -> (Z.to_nat i < f')%nat ->
  cpath_f f t ch i = cpath_f f' t ch i.
Proof.
  revert f' i. induction f as [|f IH]; intros f' i Hn Hi Hf Hf'; [lia|].
  destruct f' as [|f']; [lia|]. cbn [cpath_f].
  destruct (Hn i ltac:(lia)) as (n & -> & [[[Hl _] _]|[Hl Hr]]); [by rewrite Hl|].
  destruct (Z.eqb_spec (left n) (-1)); [lia|]. cbn zeta.
  by case_match; rewrite (IH f') by (lia || (intros j Hj; apply Hn; lia)).
Qed.

Lemma cpath_leaf t ch i n :
  0 <= i -> zlookup t i = Some n -> left n = -1 -> cpath t ch i = [] /\ cleaf t ch i = i.
Proof. intros Hi Hn Hl. unfold cpath, cleaf. simpl. by rewrite Hn, Hl. Qed.

Lemma cpath_inner t ch i n nl :
  nodes_ok t (i + 1) -> 0 <= i -> zlookup t i = Some n -> 0 <= left n < i -> 0 <= right n < i ->
  zlookup t (left n) = Some nl ->
  cpath t ch i = (if ch <? c nl then false :: cpath t ch (left n) else true :: cpath t ch (right n)) /\
  cleaf t ch i = (if ch <? c nl then cleaf t ch (left n) else cleaf t ch (right n)).
Proof.
  intros N Hi Hn Hl Hr Hnl.
  assert (E : cpath_f (S (Z.to_nat i)) t ch i =
    if ch <? c nl
    then (false :: cpath t ch (left n), cleaf t ch (left n))
    else (true :: cpath t ch (right n), cleaf t ch (right n))).
  { cbn [cpath_f]. rewrite Hn. destruct (Z.eqb_spec (left n) (-1)); [lia|]. cbn zeta. rewrite Hnl.
    cbn [fmap option_fmap option_map default from_option]. unfold id, cpath, cleaf.
    case_match; [rewrite (cpath_f_fuel (Z.to_nat i) (S (Z.to_nat (left n))))|
                 rewrite (cpath_f_fuel (Z.to_nat i) (S (Z.to_nat (right n))))];
      try lia; try (intros j Hj; apply N; lia); by destruct (cpath_f _ _ _ _). }
  unfold cpath at 1, cleaf at 1. rewrite E. by destruct (ch <? c nl).
Qed.

Lemma node_children t i n :
  nodes_ok t (i + 1) -> 0 <= i -> zlookup t i = Some n ->
  (is_leaf n /\ 0 <= c n < 256) \/
  (0 <= left n < i /\ 0 <= right n < i /\ exists nl nr, zlookup t (left n) = Some nl /\ zlookup t (right n) = Some nr).
Proof.
  intros N Hi Hn. destruct (N i ltac:(lia)) as (n' & Hn' & [H|[Hl Hr]]); simplify_eq; [by left|right].
  destruct (N (left n) ltac:(lia)) as (nl & Enl & _). destruct (N (right n) ltac:(lia)) as (nr & Enr & _).
  eauto 10.
Qed.

Lemma nodes_ok_lookup t k i : nodes_ok t k -> 0 <= i < k -> exists n, zlookup t i = Some n.
Proof. intros N Hi. destruct (N i Hi) as (n & Hn & _). eauto. Qed.

(** Induction along the children of a node. *)
Lemma nodes_ind (P : Z -> Prop) t k :
  nodes_ok t k ->
  (forall i n, 0 <= i < k -> zlookup t i = Some n -> is_leaf n -> 0 <= c n < 256 -> P i) ->
  (forall i n nl, 0 <= i < k -> zlookup t i = Some n -> 0 <= left n < i -> 0 <= right n < i ->
    zlookup t (left n) = Some nl -> P (left n) -> P (right n) -> P i) ->
  forall i, 0 <= i < k -> P i.
Proof.
  intros N Hleaf Hinner i Hi. remember (Z.to_nat i) as x eqn:Ex. revert i Hi Ex.
  induction (lt_wf x) as [x _ IH]. intros i Hi ->.
  destruct (nodes_ok_lookup t k i N Hi) as [n Hn].
  destruct (node_children t i n) as [[L C]|(Hl & Hr & nl & nr & Enl & Enr)];
    [eapply nodes_ok_le; [done|lia]|lia|done|by eapply Hleaf|].
  eapply Hinner; try done; (eapply IH; [|lia|done]; lia).
Qed.

Lemma cleaf_is_leaf t k ch i :
  nodes_ok t k -> 0 <= i < k ->
  exists n, zlookup t (cleaf t ch i) = Some n /\ is_leaf n /\ 0 <= c n < 256 /\ cleaf t ch i ∈ leaves t i.
Proof.
  intros N. revert i. apply (nodes_ind _ t k N).
  - intros i n Hi Hn L C. destruct (cpath_leaf t ch i n) as [_ ->]; [lia|done|apply L|].
    exists n. split_and!; try done; try lia. rewrite (leaves_leaf t i n) by (done || lia || apply L). constructor.
  - intros i n nl Hi Hn Hl Hr Hnl IHl IHr.
    assert (N' : nodes_ok t (i + 1)) by (eapply nodes_ok_le; [done|lia]).
    destruct (cpath_inner t ch i n nl) as [_ ->]; try done; [lia|].
    rewrite (leaves_inner t i n) by (done || lia).
    destruct (ch <? c nl); [destruct IHl as (m & ? & ? & ? & ?)|destruct IHr as (m & ? & ? & ? & ?)];
      exists m; split_and!; try done; try lia; set_solver.
Qed.

(** ** The encoder *)

Lemma encode_char_ok fuel t maxlen ch i w :
  nodes_ok t (i + 1) -> 0 <= i -> (Z.to_nat i < fuel)%nat ->
  wok w -> maxlen <= Z.of_nat (length (buf w)) ->
  (exists w', encode_char fuel t maxlen ch i w = Some (inl w')) \/
  (exists w', encode_char fuel t maxlen ch i w = Some (inr w') /\ appended w (cpath t ch i) w' /\
    (wpos w <= 8 * maxlen -> wpos w' <= 8 * maxlen)).
Proof.
  revert i w. induction fuel as [|fuel IH]; intros i w N Hi Hf W Hm; [lia|].
  destruct (nodes_ok_lookup t (i + 1) i N ltac:(lia)) as [n Hn]. cbn [encode_char]. rewrite Hn.
  cbn [mbind option_bind].
  destruct (node_children t i n N Hi Hn) as [[[Hl Hr] C]|(Hl & Hr & nl & nr & Enl & Enr)].
  - rewrite Hl, Hr. right. exists w. split; [done|].
    destruct (cpath_leaf t ch i n Hi Hn Hl) as [-> _]. split; [by apply appended_nil|done].
  - destruct (Z.eqb_spec (left n) (-1)); [lia|]. cbn [negb orb].
    destruct (Z.geb_spec (byte_pos w) maxlen) as [Hge|Hlt]; [left; eauto|]. rewrite Enl. cbn [mbind option_bind].
    destruct (cpath_inner t ch i n nl) as [-> _]; try done.
    assert (G : forall b j, 0 <= j < i -> exists w1, write_bit (Z.b2z b) w = Some w1 /\
      ((exists w', encode_char fuel t maxlen ch j w1 = Some (inl w')) \/
       (exists w', encode_char fuel t maxlen ch j w1 = Some (inr w') /\ appended w (b :: cpath t ch j) w' /\
         (wpos w <= 8 * maxlen -> wpos w' <= 8 * maxlen)))).
    { intros b j Hj. destruct (write_bit_ok b w W ltac:(lia)) as (w1 & E1 & A1). exists w1. split; [done|].
      destruct (IH j w1) as [H|(w' & E' & A' & M')]; [intros k Hk; apply N; lia|lia|lia|apply A1|
        rewrite (ap_len _ _ _ A1); lia|by left|].
      right. exists w'. split_and!; [done|exact (appended_trans w [b] w1 _ w' W A1 A')|].
      intros _. apply M'. rewrite (ap_pos _ _ _ A1). unfold wpos. cbn [length].
      pose proof (wok_bit _ W). lia. }
    destruct (ch <? c nl).
    + destruct (G false (left n) Hl) as (w1 & E1 & H). change (write_bit 0 w) with (write_bit (Z.b2z false) w). rewrite E1. exact H.
    + destruct (G true (right n) Hr) as (w1 & E1 & H). change (write_bit 1 w) with (write_bit (Z.b2z true) w). rewrite E1. exact H.
Qed.

Definition cbits (t : list node) (root : Z) (input : list Z) : list bool :=
  mjoin ((fun ch => cpath t ch root) <$> input).

Lemma cbits_cons t root ch input : cbits t root (ch :: input) = cpath t ch root ++ cbits t root input.
Proof. done. Qed.

Lemma encode_loop_ok t tsize maxlen input w :
  nodes_ok t tsize -> 0 < tsize <= 512 -> wok w -> maxlen <= Z.of_nat (length (buf w)) ->
  (exists w', encode_loop t tsize maxlen input w = Some (inl w')) \/
  (exists w', encode_loop t tsize maxlen input w = Some (inr w') /\
    appended w (cbits t (tsize - 1) input) w' /\ (wpos w <= 8 * maxlen -> wpos w' <= 8 * maxlen)).
Proof.
  intros N Ht. revert w. induction input as [|ch input IH]; intros w W Hm.
  - right. exists w. split_and!; [done|by apply appended_nil|done].
  - cbn [encode_loop].
    destruct (encode_char_ok (S (Z.to_nat MAX_TREE_NODES)) t maxlen ch (tsize - 1) w)
      as [[w1 ->]|(w1 & -> & A1 & M1)]; try done; try (unfold MAX_TREE_NODES; lia).
    + eapply nodes_ok_le; [done|lia].
    + left. cbn [mbind option_bind]. eauto.
    + cbn [mbind option_bind].
      destruct (IH w1) as [[w2 ->]|(w2 & -> & A2 & M2)]; [apply A1|rewrite (ap_len _ _ _ A1); lia|left; eauto|].
      right. exists w2. rewrite cbits_cons. split_and!; [done| |auto].
      exact (appended_trans _ _ _ _ _ W A1 A2).
Qed.

(** ** The decoder *)

Lemma read_bit_ok input p :
  0 <= p < 8 * Z.of_nat (length input) ->
  read_bit input (p / 8) (p mod 8) = Some (Z.b2z (getbit input p), (p + 1) / 8, (p + 1) mod 8).
Proof.
  intros Hp. destruct (zlookup_is_Some input (p / 8) ltac:(zdm)) as [v Hv].
  unfold read_bit, getbit. rewrite Hv. cbn [mbind option_bind]. do 2 f_equal; [f_equal|zdm].
  - rewrite Z.testbit_spec' by zdm. change 1 with (Z.ones 1) at 1.
    rewrite Z.land_ones, Z.shiftr_div_pow2 by zdm. done.
  - destruct (Z.eqb_spec ((p mod 8 + 1) mod 8) 0); zdm.
Qed.

(** The decoder's tree [td] has the encoder's shape. *)
Definition same_shape (t td : list node) (k : Z) : Prop :=
  forall i n, 0 <= i < k -> zlookup t i = Some n ->
    exists n', zlookup td i = Some n' /\ left n' = left n /\ right n' = right n /\
      (0 <= c n < 256 -> c n' = c n).

(** The bits [bl] are found in [input] from bit [p] on. *)
Definition bits_at (input : list Z) (p : Z) (bl : list bool) : Prop :=
  forall j b, bl !! j = Some b -> getbit input (p + Z.of_nat j) = b.

Lemma bits_at_cons input p b bl :
  bits_at input p (b :: bl) -> getbit input p = b /\ bits_at input (p + 1) bl.
Proof.
  intros H. split.
  - rewrite <- (H 0%nat b eq_refl). f_equal. lia.
  - intros j b' Hj. rewrite <- (H (S j) b' Hj). f_equal. lia.
Qed.

Lemma bits_at_app input p b1 b2 :
  bits_at input p (b1 ++ b2) -> bits_at input p b1 /\ bits_at input (p + Z.of_nat (length b1)) b2.
Proof.
  intros H. split.
  - intros j b Hj. apply H. by apply lookup_app_l_Some.
  - intros j b Hj. rewrite <- (H (length b1 + j)%nat b); [f_equal; lia|].
    rewrite lookup_app_r by lia. by replace (length b1 + j - length b1)%nat with j by lia.
Qed.

Lemma walk_bits_ok t td k ch input inlen i :
  nodes_ok t k -> same_shape t td k -> 0 <= i < k -> inlen <= Z.of_nat (length input) ->
  forall fuel p, 0 <= p -> bits_at input p (cpath t ch i) ->
    p + Z.of_nat (length (cpath t ch i)) <= 8 * inlen -> (length (cpath t ch i) < fuel)%nat ->
    walk_bits fuel td input inlen i (p / 8) (p mod 8) =
    Some (cleaf t ch i, (p + Z.of_nat (length (cpath t ch i))) / 8,
          (p + Z.of_nat (length (cpath t ch i))) mod 8).
Proof.
  intros N Sh Hi Hlen. revert i Hi. refine (nodes_ind (fun i => _) t k N _ _).
  - intros i n Hi Hn [Hl Hr] _ fuel p Hp Hb Hend Hf.
    destruct (cpath_leaf t ch i n) as [Ep El]; [lia|done|done|]. rewrite Ep, El in *.
    destruct fuel as [|fuel]; [simpl in Hf; lia|]. cbn [walk_bits length].
    destruct (Sh i n Hi Hn) as (n' & -> & Hl' & Hr' & _). cbn [mbind option_bind].
    rewrite Hl', Hr', Hl, Hr. cbn [Z.eqb negb orb Pos.eqb]. by rewrite Z.add_0_r.
  - intros i n nl Hi Hn Hl Hr Hnl IHl IHr fuel p Hp Hb Hend Hf.
    assert (N' : nodes_ok t (i + 1)) by (eapply nodes_ok_le; [done|lia]).
    destruct (cpath_inner t ch i n nl) as [Ep El]; try done; [lia|]. rewrite Ep, El in *. clear Ep El.
    destruct fuel as [|fuel]; [simpl in Hf; lia|]. cbn [walk_bits].
    destruct (Sh i n Hi Hn) as (n' & -> & Hl' & Hr' & _). cbn [mbind option_bind].
    rewrite Hl', Hr'. destruct (Z.eqb_spec (left n) (-1)); [lia|]. cbn [negb orb].
    assert (Hpos : p < 8 * inlen) by (destruct (ch <? c nl); simpl in Hend; lia).
    destruct (Z.geb_spec (p / 8) inlen); [zdm|]. rewrite read_bit_ok by lia. cbn [mbind option_bind].
    destruct (ch <? c nl); apply bits_at_cons in Hb as [-> Hb]; cbn [Z.b2z Z.eqb length] in *;
      [rewrite IHl|rewrite IHr]; try done; try lia;
      by rewrite Nat2Z.inj_succ, <- Z.add_1_l, Z.add_assoc.
Qed.

Lemma cpath_nonempty t k ch i n :
  nodes_ok t k -> 0 <= i < k -> zlookup t i = Some n -> left n <> -1 -> (0 < length (cpath t ch i))%nat.
Proof.
  intros N Hi Hn Hl. assert (N' : nodes_ok t (i + 1)) by (eapply nodes_ok_le; [done|lia]).
  destruct (node_children t i n) as [[[L _] _]|(? & ? & nl & nr & Enl & _)]; try done; [lia|].
  destruct (cpath_inner t ch i n nl) as [-> _]; try done; [lia|]. destruct (ch <? c nl); simpl; lia.
Qed.

(** The outer loop of the decoder, once the root is an inner node. *)
Lemma decode_loop_ok t td tsize n input inlen :
  nodes_ok t tsize -> same_shape t td tsize -> 0 < tsize ->
  zlookup t (tsize - 1) = Some n -> left n <> -1 -> inlen <= Z.of_nat (length input) ->
  forall src fuel p done_ output,
    0 <= p -> bits_at input p (cbits t (tsize - 1) src) ->
    p + Z.of_nat (length (cbits t (tsize - 1) src)) <= 8 * inlen ->
    (length src < fuel)%nat -> (length done_ + length src <= length output)%nat ->
    decode_loop fuel td tsize input inlen (p / 8) (p mod 8) (Z.of_nat (length done_ + length src))
      (Z.of_nat (length done_)) (done_ ++ drop (length done_) output) =
    Some (Z.of_nat (length done_ + length src),
          done_ ++ (sym_of t (tsize - 1) <$> src) ++ drop (length done_ + length src) output).
Proof.
  intros N Sh Ht Hn Hl Hlen. induction src as [|ch src IH]; intros fuel p dn output Hp Hb Hend Hf Ho.
  - destruct fuel as [|fuel]; [simpl in Hf; lia|]. cbn [decode_loop length]. rewrite Nat.add_0_r.
    rewrite Z.ltb_irrefl, andb_false_r. done.
  - destruct fuel as [|fuel]; [simpl in Hf; lia|]. cbn [decode_loop length].
    rewrite cbits_cons in Hb, Hend.
    apply bits_at_app in Hb as [Hb1 Hb2]. rewrite length_app, Nat2Z.inj_add in Hend.
    pose proof (cpath_nonempty t tsize ch (tsize - 1) n N ltac:(lia) Hn Hl) as Hne.
    destruct (Z.ltb_spec (p / 8) inlen); [|zdm].
    destruct (Z.ltb_spec (Z.of_nat (length dn)) (Z.of_nat (length dn + S (length src)))); [|lia].
    cbn [andb]. rewrite (walk_bits_ok t td tsize ch) by (done || lia). cbn [mbind option_bind].
    destruct (cleaf_is_leaf t tsize ch (tsize - 1) N ltac:(lia)) as (nf & Enf & [L R] & C & Hin).
    apply leaves_range in Hin; [|eapply nodes_ok_le; [done|lia]|lia].
    destruct (Sh (cleaf t ch (tsize - 1)) nf ltac:(lia) Enf) as (nd & -> & Ld & Rd & Cd). cbn [mbind option_bind].
    rewrite Ld, Rd, L, R. cbn [Z.eqb andb Pos.eqb].
    cbn [length] in Ho. rewrite zupdate_ok by (rewrite length_app, length_drop; lia). cbn [mbind option_bind].
    assert (Hsym : c nd = sym_of t (tsize - 1) ch) by (unfold sym_of; rewrite Enf; simpl; auto).
    destruct (drop (length dn) output) as [|o0 rest] eqn:Ed.
    { apply (f_equal length) in Ed. rewrite length_drop in Ed. simpl in Ed. lia. }
    assert (Er : rest = drop (S (length dn)) output).
    { rewrite <- Nat.add_1_r, <- drop_drop, Ed. done. }
    rewrite Nat2Z.id, insert_app_r_alt, Nat.sub_diag by lia. cbn [list_insert insert].
    specialize (IH fuel (p + Z.of_nat (length (cpath t ch (tsize - 1)))) (dn ++ [sym_of t (tsize - 1) ch]) output).
    rewrite length_app in IH. cbn [length] in IH.
    replace (length dn + 1)%nat with (S (length dn)) in IH by lia.
    replace (S (length dn) + length src)%nat with (length dn + S (length src))%nat in IH by lia.
    rewrite <- app_assoc in IH. cbn [app] in IH. rewrite <- Er in IH.
    replace (Z.of_nat (length dn) + 1) with (Z.of_nat (S (length dn))) by lia. cbn [length] in Hf.
    rewrite Hsym, IH by (done || lia). f_equal. f_equal. by rewrite <- app_assoc.
Qed.

(** ** The tree in the header *)

Lemma length_encode_node n : length (encode_node n) = 16%nat.
Proof. unfold encode_node. by rewrite !length_app, !length_le_bytes. Qed.

Lemma length_encode_tree ns : length (encode_tree ns) = (16 * length ns)%nat.
Proof.
  induction ns as [|n ns IH]; [done|].
  change (encode_tree (n :: ns)) with (encode_node n ++ encode_tree ns).
  rewrite length_app, length_encode_node, IH. simpl. lia.
Qed.

Lemma decode_encode_tree ns rest :
  decode_tree (length ns) (encode_tree ns ++ rest) = (fun n => decode_node (encode_node n)) <$> ns.
Proof.
  induction ns as [|n ns IH]; [done|]. cbn [length decode_tree fmap list_fmap].
  change (encode_tree (n :: ns)) with (encode_node n ++ encode_tree ns). rewrite <- app_assoc.
  rewrite take_app_length', drop_app_length' by (by rewrite length_encode_node). by rewrite IH.
Qed.

Lemma decode_encode_node n :
  - 2 ^ 31 <= left n < 2 ^ 31 -> - 2 ^ 31 <= right n < 2 ^ 31 ->
  left (decode_node (encode_node n)) = left n /\ right (decode_node (encode_node n)) = right n /\
  c (decode_node (encode_node n)) = c n mod 256.
Proof.
  intros Hl Hr. unfold decode_node, encode_node.
  set (a := le_bytes 1 (c n)). set (b := le_bytes 3 (pad n)). set (d := le_bytes 4 (freq n)).
  set (e := le_bytes 4 (left n)). set (f := le_bytes 4 (right n)). cbn [left right c].
  assert (D8 : drop 8 (a ++ b ++ d ++ e ++ f) = e ++ f) by (rewrite !app_assoc; reflexivity).
  assert (D12 : drop 12 (a ++ b ++ d ++ e ++ f) = f) by reflexivity.
  rewrite D8, D12. rewrite (take_app_length' a), (take_app_length' e) by (unfold a, e; by rewrite length_le_bytes).
  rewrite (take_ge f) by (unfold f; by rewrite length_le_bytes).
  unfold e, f, a. rewrite !s32_le_val_bytes, le_val_bytes, !s32_small by lia. done.
Qed.

Lemma decoded_shape t rest old k :
  nodes_ok t (Z.of_nat k) -> (k <= length t)%nat -> (k <= 512)%nat ->
  same_shape t (decode_tree k (encode_tree (take k t) ++ rest) ++ old) (Z.of_nat k).
Proof.
  intros N Hk H512 i n Hi Hn.
  assert (L : length (take k t) = k) by (rewrite length_take; lia).
  pose proof (decode_encode_tree (take k t) rest) as D. rewrite L in D. rewrite D. exists (decode_node (encode_node n)).
  rewrite zlookup_app_l by (rewrite length_fmap; lia).
  rewrite zlookup_pos in Hn |- * by lia. rewrite list_lookup_fmap, lookup_take_lt, Hn by lia. split; [done|].
  destruct (N i Hi) as (n' & Hn' & Ho). rewrite zlookup_pos, Hn in Hn' by lia. simplify_eq.
  destruct (decode_encode_node n') as (-> & -> & ->);
    [destruct Ho as [[[? ?] ?]|[? ?]]; lia..|]. split_and!; [done|done|]. intros. by apply Z.mod_small.
Qed.

(** ** compress_huffman *)

(** What a successful compression leaves in the output buffer. *)
Record encoded (input out : list Z) (s1 : hst) (n : Z) : Prop := {
  en_head : take (4 + 16 * Z.to_nat (tree_size s1)) out =
    le_bytes 4 (tree_size s1) ++ encode_tree (take (Z.to_nat (tree_size s1)) (tree s1));
  en_bits : bits_at out (8 * (4 + 16 * tree_size s1)) (cbits (tree s1) (tree_size s1 - 1) input);
  en_fit : 8 * (4 + 16 * tree_size s1) +
    Z.of_nat (length (cbits (tree s1) (tree_size s1 - 1) input)) <= 8 * n;
  en_tight : 8 * n < 8 * (4 + 16 * tree_size s1) +
    Z.of_nat (length (cbits (tree s1) (tree_size s1 - 1) input)) + 8;
  en_len : n <= Z.of_nat (length out)
}.

Lemma take_ext (l1 l2 : list Z) k :
  length l1 = length l2 -> (forall i, i < Z.of_nat k -> zlookup l1 i = zlookup l2 i) -> take k l1 = take k l2.
Proof.
  intros L H. apply list_eq. intros i. destruct (decide (i < k)%nat).
  - rewrite !lookup_take_lt by lia. rewrite <- !zlookup_nat. apply H. lia.
  - by rewrite !lookup_take_ge by lia.
Qed.

Lemma blit_header t ts output :
  (4 + 16 * ts <= length output)%nat -> (ts <= length t)%nat ->
  exists o1 o2, blit 0 (le_bytes 4 (Z.of_nat ts)) output = Some o1 /\
    blit 4 (encode_tree (take ts t)) o1 = Some o2 /\ length o2 = length output /\
    take (4 + 16 * ts) o2 = le_bytes 4 (Z.of_nat ts) ++ encode_tree (take ts t).
Proof.
  intros Hl Ht.
  assert (Le : length (encode_tree (take ts t)) = (16 * ts)%nat)
    by (rewrite length_encode_tree, length_take; lia).
  set (h := le_bytes 4 (Z.of_nat ts)). assert (Lh : length h = 4%nat) by apply length_le_bytes.
  exists (h ++ drop 4 output), (h ++ encode_tree (take ts t) ++ drop (4 + 16 * ts) output).
  unfold blit. rewrite Lh, Le. rewrite decide_True by lia. split; [done|].
  rewrite decide_True by (rewrite length_app, length_drop; lia). split_and!.
  - rewrite take_app_length' by done. rewrite drop_app_ge by lia. rewrite drop_drop, Lh.
    do 4 f_equal. lia.
  - rewrite !length_app, length_drop. lia.
  - rewrite app_assoc. apply take_app_length'. rewrite length_app. lia.
Qed.

Lemma root_inner input s :
  forest input (symbols input) s -> heap_size s = 1 -> (2 <= length (symbols input))%nat ->
  tree_size s = 2 * Z.of_nat (length (symbols input)) - 1 ->
  exists n, zlookup (tree s) (tree_size s - 1) = Some n /\ left n <> -1.
Proof.
  intros F Hh Hs Ht. pose proof (root_leaves _ _ _ F Hh) as P.
  pose proof (ba_nodes _ (fo_base _ _ _ F)) as N.
  destruct (nodes_ok_lookup _ _ (tree_size s - 1) N ltac:(lia)) as [n Hn]. exists n. split; [done|].
  intros Hl. rewrite (leaves_leaf _ _ n) in P by (done || lia).
  apply Permutation_length in P. rewrite length_seqZ in P. simpl in P. lia.
Qed.

Lemma compress_ok input output maxlen s :
  input <> [] -> Forall is_byte input -> length (tree s) = 512%nat -> length (heap s) = 256%nat ->
  0 < maxlen <= Z.of_nat (length output) ->
  exists n out s1, compress_huffman (Some input) (Z.of_nat (length input)) (Some output) maxlen s = Some (n, out, s1) /\
    build_tree input s = Some s1 /\
    (n = -1 \/ (0 < n < Z.of_nat (length input) /\ n <= maxlen /\ encoded input out s1 n)).
Proof.
  intros Hne Hin Lt Lh Hm.
  destruct (build_tree_forest input s Hne Hin Lt Lh) as (s1 & E & F & Hh & TS).
  pose proof (fo_base _ _ _ F) as B. pose proof (ba_len _ B) as L1. pose proof (ba_nodes _ B) as N.
  pose proof (length_symbols input) as Hs. pose proof (symbols_nonempty input Hne Hin) as Hs'.
  assert (1 <= Z.of_nat (length (symbols input))) by (destruct (symbols input); simpl; [done|lia]).
  unfold compress_huffman. destruct (Z.leb_spec (Z.of_nat (length input)) 0).
  { destruct input; simpl in *; [done|lia]. }
  destruct (Z.leb_spec maxlen 0); [lia|]. cbn [orb]. rewrite Nat2Z.id, firstn_all.
  rewrite E. cbn [mbind option_bind]. unfold sizeof_node.
  destruct (Z.geb_spec (4 + 16 * tree_size s1) maxlen) as [Hge|Hlt]; [eexists _, _, s1; eauto|].
  destruct (blit_header (tree s1) (Z.to_nat (tree_size s1)) output) as (o1 & o2 & B1 & B2 & L2 & T2); [lia|lia|].
  rewrite Z2Nat.id in B1, T2 by lia. rewrite B1. cbn [mbind option_bind]. rewrite B2. cbn [mbind option_bind].
  set (w0 := Wr o2 (4 + 16 * tree_size s1) 0).
  assert (W0 : wok w0) by (split; simpl; lia).
  destruct (encode_loop_ok (tree s1) (tree_size s1) maxlen input w0) as [[w1 ->]|(w1 & -> & A & M)];
    [done|lia|done|simpl; lia|..]; cbn [mbind option_bind].
  { eexists _, _, s1. eauto. }
  set (bp := if bit_pos w1 >? 0 then byte_pos w1 + 1 else byte_pos w1).
  pose proof (wok_bit _ (ap_ok _ _ _ A)) as Hbit. pose proof (ap_pos _ _ _ A) as Hpos.
  assert (M1 : wpos w1 <= 8 * maxlen) by (apply M; unfold wpos; simpl; lia).
  assert (Hbp : wpos w1 <= 8 * bp < wpos w1 + 8 /\ bp <= maxlen /\ 4 + 16 * tree_size s1 <= bp).
  { unfold wpos in *. simpl in Hpos. unfold bp. destruct (Z.gtb_spec (bit_pos w1) 0); lia. }
  destruct (Z.geb_spec bp (Z.of_nat (length input))); eexists _, _, s1; (split; [done|]); split; auto.
  right. split_and!; try lia. pose proof (ap_len _ _ _ A) as AL. simpl in AL. split.
  - rewrite <- T2. apply take_ext; [done|]. intros i Hi. apply (ap_bytes _ _ _ A). simpl. lia.
  - intros j b Hj. replace (8 * (4 + 16 * tree_size s1)) with (wpos w0) by (unfold wpos; simpl; lia).
    by apply (ap_new _ _ _ A).
  - unfold wpos in Hbp, Hpos. simpl in Hpos. lia.
  - unfold wpos in Hbp, Hpos. simpl in Hpos. lia.
  - lia.
Qed.

(** ** decompress_huffman *)

Lemma decompress_ok input out outbuf s1 n s2 :
  Z.of_nat (length input) <= Z.of_nat (length outbuf) -> 0 < Z.of_nat (length input) ->
  nodes_ok (tree s1) (tree_size s1) -> 0 < tree_size s1 <= 512 -> length (tree s1) = 512%nat ->
  (exists r, zlookup (tree s1) (tree_size s1 - 1) = Some r /\ left r <> -1) ->
  encoded input out s1 n -> 0 < n ->
  exists s3, decompress_huffman (Some out) n (Some outbuf) (Z.of_nat (length input)) s2 =
    Some (Z.of_nat (length input),
          (sym_of (tree s1) (tree_size s1 - 1) <$> input) ++ drop (length input) outbuf, s3).
Proof.
  intros Ho Hi N Ht L (r & Hr & Hlr) [Hh Hb Hf _ Hl] Hn.
  set (k := Z.to_nat (tree_size s1)) in *.
  assert (Hk : tree_size s1 = Z.of_nat k) by lia.
  assert (Hlen : 4 + 16 * tree_size s1 <= n) by lia.
  assert (E4 : take 4 out = le_bytes 4 (tree_size s1)).
  { transitivity (take 4 (take (4 + 16 * k) out)).
    - rewrite take_take. done.
    - rewrite Hh. by apply take_app_length'. }
  assert (ED : exists rest, drop 4 out = encode_tree (take k (tree s1)) ++ rest).
  { exists (drop (4 + 16 * k) out). rewrite <- (take_drop (4 + 16 * k) out) at 1. rewrite Hh.
    rewrite <- app_assoc, drop_app_length' by done. done. }
  destruct ED as [rest ED].
  unfold decompress_huffman. destruct (Z.leb_spec n 0); [lia|].
  destruct (Z.leb_spec (Z.of_nat (length input)) 0); [lia|]. cbn [orb].
  rewrite decide_False by lia. rewrite E4, s32_le_val_bytes, s32_small by lia. cbn zeta.
  cbn [tree_size set_tree_size tree set_tree]. unfold MAX_TREE_NODES, sizeof_node.
  destruct (Z.leb_spec (tree_size s1) 0); [lia|]. destruct (Z.gtb_spec (tree_size s1) 512); [lia|]. cbn [orb].
  destruct (Z.gtb_spec (4 + 16 * tree_size s1) n); [lia|]. fold k.
  rewrite decide_False by lia. rewrite ED.
  pose proof (decode_loop_ok (tree s1) (decode_tree k (encode_tree (take k (tree s1)) ++ rest) ++ drop k (tree s2))
    (tree_size s1) r out n) as D.
  specialize (D N ltac:(rewrite Hk; apply decoded_shape; [by rewrite <- Hk|lia|lia]) ltac:(lia) Hr Hlr Hl).
  specialize (D input (S (8 * Z.to_nat n + Z.to_nat (Z.of_nat (length input))))
    (8 * (4 + 16 * tree_size s1)) [] outbuf ltac:(lia) Hb Hf ltac:(lia) ltac:(simpl; lia)).
  cbn [length app] in D. rewrite Nat.add_0_l, drop_0 in D.
  rewrite (Z.mul_comm 8 (4 + _)), Z.div_mul, Z.mod_mul in D by lia.
  change (Z.of_nat 0) with 0 in D. rewrite D. cbn [mbind option_bind]. eauto.
Qed.

Lemma fmap_id_iff (f : Z -> Z) (l : list Z) : f <$> l = l <-> forall x, x ∈ l -> f x = x.
Proof.
  induction l as [|x l IH]; [set_solver|]. cbn [fmap list_fmap]. split.
  - intros [= Hx Hl] y [->|Hy]%elem_of_cons; [done|]. by apply IH.
  - intros H. f_equal; [apply H; set_solver|]. apply IH. set_solver.
Qed.

(** ** Properties *)

(** C25: the bit writer and the bit reader agree: a bit written with
    [write_bit] inside the buffer is what [read_bit] returns at that position,
    the reader's position after it is the writer's, and every bit written
    before is unchanged. *)
Theorem write_read_bit b w :
  wok w -> byte_pos w < Z.of_nat (length (buf w)) ->
  exists w', write_bit (Z.b2z b) w = Some w' /\
    read_bit (buf w') (byte_pos w) (bit_pos w) = Some (Z.b2z b, byte_pos w', bit_pos w') /\
    forall k, 0 <= k < wpos w -> getbit (buf w') k = getbit (buf w) k.
Proof.
  intros W Hl. destruct (write_bit_ok b w W Hl) as (w' & E & A). exists w'. split_and!; [done| |apply A].
  destruct (wpos_div w W) as [Wd Wm]. destruct (wpos_div w' (ap_ok _ _ _ A)) as [Wd' Wm'].
  pose proof (ap_pos _ _ _ A) as P. cbn [length] in P. change (Z.of_nat 1) with 1 in P.
  pose proof (ap_new _ _ _ A 0%nat b eq_refl) as Hb. rewrite Z.add_0_r in Hb.
  pose proof (wpos_nonneg w W). pose proof (wok_bit _ W).
  rewrite <- Wd at 1. rewrite <- Wm, read_bit_ok, Hb, <- P, Wd', Wm'; [done|].
  rewrite (ap_len _ _ _ A). unfold wpos in *. lia.
Qed.

Lemma write_read_bit_witness :
  exists w', write_bit (Z.b2z true) (Wr [255; 0] 0 0) = Some w' /\ buf w' = [128; 0].
Proof.
  destruct (write_read_bit true (Wr [255; 0] 0 0)) as (w' & E & _).
  - split; simpl; lia.
  - simpl. lia.
  - exists w'. split; [exact E|]. vm_compute in E. injection E as <-. reflexivity.
Defined.

(** C24: memory safety and bounds of the compressor: for every nonempty input
    of bytes and every output buffer of at least [maxlen] bytes,
    [compress_huffman] returns without an access outside its arrays or the
    buffer, and its value is -1 or a size between 1 and both [maxlen] and one
    less than the input length. *)
Theorem compress_bounds input output maxlen s :
  input <> [] -> Forall is_byte input -> length (tree s) = 512%nat -> length (heap s) = 256%nat ->
  0 < maxlen <= Z.of_nat (length output) ->
  exists n out s1,
    compress_huffman (Some input) (Z.of_nat (length input)) (Some output) maxlen s = Some (n, out, s1) /\
    (n = -1 \/ 0 < n < Z.of_nat (length input) /\ n <= maxlen).
Proof.
  intros Hne Hin Lt Lh Hm. destruct (compress_ok input output maxlen s Hne Hin Lt Lh Hm)
    as (n & out & s1 & E & _ & H). exists n, out, s1. naive_solver.
Qed.

Lemma compress_bounds_witness :
  exists n out s1, compress_huffman (Some [1; 2; 3]) 3 (Some (replicate 8 0)) 8 hst0 = Some (n, out, s1) /\
    (n = -1 \/ 0 < n < 3 /\ n <= 8).
Proof.
  apply (compress_bounds [1; 2; 3] (replicate 8 0) 8 hst0).
  - discriminate.
  - repeat constructor; done.
  - reflexivity.
  - reflexivity.
  - simpl. lia.
Defined.

(** With one distinct byte the header is all there is, and the decoder's loop
    does not start. *)
Lemma decompress_header_only input out outbuf s1 s2 n :
  (length (symbols input) = 1)%nat -> tree_size s1 = 1 -> nodes_ok (tree s1) 1 ->
  0 < Z.of_nat (length input) -> encoded input out s1 n ->
  exists s3, decompress_huffman (Some out) n (Some outbuf) (Z.of_nat (length input)) s2 =
    Some (0, outbuf, s3).
Proof.
  intros Hs TS N Hi [Hh Hb Hf Hti Hl]. destruct (N 0 ltac:(lia)) as (r & Hr & [[[L _] _]|?]); [|lia].
  assert (Hbits : cbits (tree s1) 0 input = []).
  { clear -L Hr. induction input as [|ch input IH]; [done|]. rewrite cbits_cons, IH.
    destruct (cpath_leaf (tree s1) ch 0 r) as [-> _]; done. }
  rewrite TS in *. change (1 - 1) with 0 in *. rewrite Hbits in Hf, Hti. cbn [length] in Hf, Hti.
  assert (n = 20) as -> by lia.
  assert (E4 : take 4 out = le_bytes 4 1).
  { transitivity (take 4 (take (4 + 16 * Z.to_nat 1) out)); [by rewrite take_take|]. by rewrite Hh. }
  unfold decompress_huffman. destruct (Z.leb_spec (Z.of_nat (length input)) 0); [lia|].
  change (20 <=? 0) with false. cbn [orb]. rewrite decide_False by lia. rewrite E4.
  change (s32 (le_val (le_bytes 4 1))) with 1. cbn zeta. cbn [tree_size set_tree_size].
  unfold MAX_TREE_NODES, sizeof_node.
  change ((1 <=? 0) || (1 >? 512)) with false. change (4 + 16 * 1 >? 20) with false. cbv iota.
  rewrite decide_False by lia.
  replace (decode_loop _ _ _ _ _ _ _ _ _ _) with (Some (0, outbuf)); [cbn [mbind option_bind]; eauto|].
  cbn [decode_loop]. done.
Qed.

(** C2: what a round trip does, exactly.  If [compress_huffman] accepts a
    nonempty input, then [decompress_huffman] on its output, with the input's
    length as the limit, returns.  With one distinct byte it returns 0 and
    writes nothing.  With two or more it returns the input's length, each byte of
    the input replaced by the byte at the leaf its comparisons reach; so the
    file comes back unchanged if and only if every byte of it reaches its own
    leaf. *)
Theorem huffman_roundtrip input output maxlen s n out s1 outbuf s2 :
  Forall is_byte input -> input <> [] ->
  length (tree s) = 512%nat -> length (heap s) = 256%nat ->
  0 < maxlen <= Z.of_nat (length output) -> (length input <= length outbuf)%nat ->
  compress_huffman (Some input) (Z.of_nat (length input)) (Some output) maxlen s = Some (n, out, s1) ->
  n <> -1 ->
  exists dec s3,
    decompress_huffman (Some out) n (Some outbuf) (Z.of_nat (length input)) s2 =
      Some (Z.of_nat (length dec), dec ++ drop (length dec) outbuf, s3) /\
    if decide (length (symbols input) = 1%nat) then dec = []
    else dec = sym_of (tree s1) (tree_size s1 - 1) <$> input /\
      (dec = input <-> forall ch, ch ∈ input -> sym_of (tree s1) (tree_size s1 - 1) ch = ch).
Proof.
  intros Hin Hne Lt Lh Hm Ho E Hn.
  destruct (compress_ok input output maxlen s Hne Hin Lt Lh Hm) as (n' & out' & s1' & E' & Eb & H).
  rewrite E in E'. simplify_eq. destruct H as [|(Hr & Hmax & En)]; [done|].
  destruct (build_tree_forest input s Hne Hin Lt Lh) as (s1'' & Eb' & F & Hh & TS).
  rewrite Eb in Eb'. simplify_eq. pose proof (fo_base _ _ _ F) as B. pose proof (length_symbols input).
  pose proof (ba_nodes _ B) as N. pose proof (symbols_nonempty input Hne Hin) as Hs'.
  assert (1 <= Z.of_nat (length (symbols input))) by (destruct (symbols input); simpl; [done|lia]).
  assert (0 < Z.of_nat (length input)) by (destruct input; simpl; [done|lia]).
  case_decide as Hs.
  - assert (TS1 : tree_size s1'' = 1) by lia. rewrite TS1 in N.
    destruct (decompress_header_only input out' outbuf s1'' s2 n') as (s3 & D); try done. by exists [], s3.
  - destruct (decompress_ok input out' outbuf s1'' n' s2) as (s3 & D); try done; try lia; try apply B.
    { eapply root_inner; try done. lia. }
    exists (sym_of (tree s1'') (tree_size s1'' - 1) <$> input), s3.
    rewrite length_fmap. split_and!; [done|done|]. apply fmap_id_iff.
Qed.

(** Sixty [a] and forty [b]. *)
Definition sample : list Z := replicate 60 97 ++ replicate 40 98.

Definition roundtrip_of (input : list Z) : option (Z * list Z) :=
  '(n, out, s1) ← compress_huffman (Some input) (Z.of_nat (length input)) (Some (replicate 128 0)) 128 hst0;
  '(r, dec, _) ← decompress_huffman (Some out) n (Some (replicate (length input) 0)) (Z.of_nat (length input)) s1;
  Some (r, dec).

(** Every [a] comes back as [b] and every [b] as [a]. *)
Example sample_swapped : roundtrip_of sample = Some (100, replicate 60 98 ++ replicate 40 97).
Proof. vm_compute. reflexivity. Qed.

Lemma huffman_roundtrip_witness :
  exists n out s1 dec s3,
    compress_huffman (Some sample) 100 (Some (replicate 128 0)) 128 hst0 = Some (n, out, s1) /\
    decompress_huffman (Some out) n (Some (replicate 100 0)) 100 hst0 = Some (100, dec, s3) /\
    dec = sym_of (tree s1) (tree_size s1 - 1) <$> sample.
Proof.
  destruct (compress_huffman (Some sample) 100 (Some (replicate 128 0)) 128 hst0) as [[[n out] s1]|] eqn:E;
    [|vm_compute in E; discriminate E].
  destruct (huffman_roundtrip sample (replicate 128 0) 128 hst0 n out s1 (replicate 100 0) hst0)
    as (dec & s3 & D & H).
  - repeat constructor; done.
  - discriminate.
  - reflexivity.
  - reflexivity.
  - simpl. lia.
  - simpl. lia.
  - exact E.
  - intros ->. vm_compute in E. discriminate E.
  - destruct (decide (length (symbols sample) = 1%nat)) as [X|_]; [vm_compute in X; discriminate X|].
    destruct H as [H _]. assert (length dec = 100%nat) as L by (rewrite H, length_fmap; reflexivity).
    rewrite L, drop_ge, app_nil_r in D by (rewrite length_replicate; lia).
    exists n, out, s1, dec, s3. split_and!; [reflexivity|exact D|exact H].
Defined.

(** ** No compressed file is restored *)

(** Under every inner node there is a leaf whose byte does not find it: where
    the left child is a leaf, its own byte is not less than itself. *)
Lemma lost_leaf t k i n :
  nodes_ok t k -> 0 <= i < k -> zlookup t i = Some n -> left n <> -1 -> NoDup (leaves t i) ->
  exists j nj, j ∈ leaves t i /\ zlookup t j = Some nj /\ cleaf t (c nj) i <> j.
Proof.
  intros N Hi. revert i Hi n. refine (nodes_ind (fun i => _) t k N _ _).
  - intros i n Hi Hn [Hl _] _ n' Hn' Hl'. by simplify_eq.
  - intros i n nl Hi Hn Hl Hr Hnl IHl IHr n' Hn' _ ND. simplify_eq.
    assert (N' : nodes_ok t (i + 1)) by (eapply nodes_ok_le; [done|lia]).
    rewrite (leaves_inner t i n) in ND |- * by (done || lia). apply NoDup_app in ND as (ND & Dis & _).
    assert (Hright : forall ch, cleaf t ch (right n) ∈ leaves t (right n)).
    { intros ch. destruct (cleaf_is_leaf t k ch (right n) N ltac:(lia)) as (? & _ & _ & _ & H). done. }
    destruct (decide (left nl = -1)) as [Hleaf|Hinner].
    + assert (Lv : leaves t (left n) = [left n]) by (eapply leaves_leaf; [lia|done|done]).
      exists (left n), nl. split_and!; [rewrite Lv; set_solver|done|].
      destruct (cpath_inner t (c nl) i n nl) as [_ ->]; try done; [lia|]. rewrite Z.ltb_irrefl.
      intros E. apply (Dis (left n)); [rewrite Lv; set_solver|]. rewrite <- E. apply Hright.
    + destruct (IHl nl Hnl Hinner ND) as (j & nj & Hj & Hnj & Hne). exists j, nj.
      split_and!; [set_solver|done|]. destruct (cpath_inner t (c nj) i n nl) as [_ ->]; try done; [lia|].
      destruct (c nj <? c nl); [done|]. intros E. apply (Dis j Hj). rewrite <- E. apply Hright.
Qed.

Lemma NoDup_symbols input : NoDup (symbols input).
Proof. apply NoDup_filter, NoDup_seqZ. Qed.

Lemma sym_lost input s :
  forest input (symbols input) s -> heap_size s = 1 -> (2 <= length (symbols input))%nat ->
  tree_size s = 2 * Z.of_nat (length (symbols input)) - 1 ->
  exists ch, ch ∈ input /\ sym_of (tree s) (tree_size s - 1) ch <> ch.
Proof.
  intros F Hh Hs TS. pose proof (ba_nodes _ (fo_base _ _ _ F)) as N.
  destruct (root_inner input s F Hh Hs TS) as (r & Hr & Hlr). pose proof (root_leaves _ _ _ F Hh) as P.
  set (root := tree_size s - 1) in *.
  assert (Hroot : 0 <= root < tree_size s) by lia.
  destruct (lost_leaf (tree s) (tree_size s) root r N Hroot Hr Hlr) as (j & nj & Hj & Hnj & Hne).
  { rewrite P. apply NoDup_seqZ. }
  assert (Hleaf : forall l, l ∈ leaves (tree s) root -> exists n ch, zlookup (tree s) l = Some n /\
    zlookup (symbols input) l = Some ch /\ c n = ch).
  { intros l. rewrite P. intros Hl%elem_of_seqZ.
    destruct (zlookup_is_Some (symbols input) l ltac:(lia)) as [ch Hch].
    destruct (fo_leaf _ _ _ F l ch Hch) as (n & ? & _ & ? & _). eauto. }
  destruct (Hleaf j Hj) as (nj' & ch & Ej & Hch & Ec). rewrite Hnj in Ej. simplify_eq.
  exists (c nj'). split.
  - apply cnt_pos. pose proof (zlookup_Some _ _ _ Hch). rewrite zlookup_pos in Hch by lia.
    apply list_elem_of_lookup_2 in Hch. unfold symbols in Hch. by apply list_elem_of_filter in Hch as [? _].
  - intros E. destruct (cleaf_is_leaf (tree s) (tree_size s) (c nj') root N Hroot) as (nl & El & _ & _ & Hl).
    destruct (Hleaf _ Hl) as (nl' & ch' & El' & Hch' & Ec'). rewrite El in El'. simplify_eq.
    unfold sym_of in E. rewrite El in E. simpl in E. apply Hne.
    pose proof (zlookup_Some _ _ _ Hch). pose proof (zlookup_Some _ _ _ Hch').
    rewrite zlookup_pos in Hch, Hch' by lia. rewrite E in Hch'.
    pose proof (NoDup_lookup _ _ _ _ (NoDup_symbols input) Hch Hch'). lia.
Qed.

(** C1: no file the compressor accepts is ever restored.  Whenever
    [compress_huffman] succeeds on a nonempty input, [decompress_huffman] on
    its output terminates with something other than the input: nothing at all
    when the input has one distinct byte, and otherwise a result of full
    length in which at least one byte value is replaced by another. *)
Theorem huffman_never_restores input output maxlen s n out s1 outbuf s2 :
  input <> [] -> Forall is_byte input ->
  length (tree s) = 512%nat -> length (heap s) = 256%nat ->
  0 < maxlen <= Z.of_nat (length output) -> (length input <= length outbuf)%nat ->
  compress_huffman (Some input) (Z.of_nat (length input)) (Some output) maxlen s = Some (n, out, s1) ->
  n <> -1 ->
  exists r dec s3,
    decompress_huffman (Some out) n (Some outbuf) (Z.of_nat (length input)) s2 = Some (r, dec, s3) /\
    r = (if decide (length (symbols input) = 1%nat) then 0 else Z.of_nat (length input)) /\
    take (Z.to_nat r) dec <> input.
Proof.
  intros Hne Hin Lt Lh Hm Ho E Hn.
  destruct (compress_ok input output maxlen s Hne Hin Lt Lh Hm) as (n' & out' & s1' & E' & Eb & H).
  rewrite E in E'. simplify_eq. destruct H as [|(Hr & Hmax & En)]; [done|].
  destruct (build_tree_forest input s Hne Hin Lt Lh) as (s1'' & Eb' & F & Hh & TS).
  rewrite Eb in Eb'. simplify_eq. pose proof (fo_base _ _ _ F) as B. pose proof (length_symbols input).
  pose proof (ba_nodes _ B) as N. pose proof (symbols_nonempty input Hne Hin) as Hs'.
  assert (1 <= Z.of_nat (length (symbols input))) by (destruct (symbols input); simpl; [done|lia]).
  case_decide as Hs.
  - assert (TS1 : tree_size s1'' = 1) by lia. rewrite TS1 in N.
    destruct (decompress_header_only input out' outbuf s1'' s2 n') as (s3 & D); try done; [lia|].
    exists 0, outbuf, s3. split_and!; [done|done|]. simpl. by apply not_eq_sym.
  - destruct (decompress_ok input out' outbuf s1'' n' s2) as (s3 & D); try done; try lia; try apply B.
    { eapply root_inner; try done. lia. }
    eexists _, _, s3. split_and!; [done|done|]. rewrite Nat2Z.id, take_app_length' by (by rewrite length_fmap).
    rewrite fmap_id_iff. intros Hid. destruct (sym_lost input s1'') as (ch & Hch & Hx); try done; [lia|]. auto.
Qed.

Lemma huffman_never_restores_witness :
  exists r dec n out s1 s3,
    compress_huffman (Some sample) 100 (Some (replicate 128 0)) 128 hst0 = Some (n, out, s1) /\
    decompress_huffman (Some out) n (Some (replicate 100 0)) 100 hst0 = Some (r, dec, s3) /\
    take (Z.to_nat r) dec <> sample.
Proof.
  destruct (compress_huffman (Some sample) 100 (Some (replicate 128 0)) 128 hst0) as [[[n out] s1]|] eqn:E;
    [|vm_compute in E; discriminate E].
  destruct (huffman_never_restores sample (replicate 128 0) 128 hst0 n out s1 (replicate 100 0) hst0)
    as (r & dec & s3 & D & _ & X).
  - discriminate.
  - repeat constructor; done.
  - reflexivity.
  - reflexivity.
  - simpl. lia.
  - simpl. lia.
  - exact E.
  - intros ->. vm_compute in E. discriminate E.
  - exists r, dec, n, out, s1, s3. split_and!; [reflexivity|exact D|exact X].
Defined.
