(* ===== verification/Rle.v ===== *)
(** user/compress.c, user/comprtest.c (a copy of it) and user/decompress.c:
    run-length coding of a file as pairs of a byte and a decimal digit.

    A source descriptor is the list of the results its [read]s give: a block
    of bytes, or [None] for an error; past the end of the list [read] returns
    0.  A destination is any state with a [write] function returning what the
    system call returns.  The programs' loops over a block keep the part of
    [buf] not yet consumed instead of the index into it. *)

From S2P Require Import Prelude.

Definition BLOCK_SIZE : Z := 512.
Definition ch0 : Z := 48.

Abbreviation srcfd := (list (option (list Z))).

(** The value of [read], the bytes in [buf] and the descriptor after it. *)
Definition read (src : srcfd) : Z * list Z * srcfd :=
  match src with
  | [] => (0, [], [])
  | None :: src => (-1, [], src)
  | Some b :: src => (Z.of_nat (length b), b, src)
  end.

Section programs.
Context {D : Type} (write : D -> list Z -> Z * D).

(** ** compress_file *)

Record rst := Rst { prev : Z; count : Z; dest : D }.

(** The value of [write] is ignored. *)
Definition put_pair (s : rst) : rst :=
  Rst (prev s) (count s) (write (dest s) [prev s; u8 (ch0 + count s)]).2.

Definition compress_byte (s : rst) (curr : Z) : rst :=
  if curr =? prev s
  then
    let count := count s + 1 in
    Rst (prev s) (if count >? 9 then 9 else count) (dest s)
  else
    let s := if count s >? 0 then put_pair s else s in
    Rst curr 1 (dest s).

(** [while ((n = read(src_fd, buf, BLOCK_SIZE)) > 0) for ...]: each [read]
    uses up one element of [src], so the recursion is on it. *)
Fixpoint compress_loop (src : srcfd) (s : rst) : rst :=
  match src with
  | Some b :: src =>
      if Z.of_nat (length b) >? 0 then compress_loop src (foldl compress_byte s b) else s
  | _ => s
  end.

Definition compress_file (src : srcfd) (d : D) : D :=
  let s := compress_loop src (Rst 0 0 d) in
  if count s >? 0 then dest (put_pair s) else dest s.

(** ** decompress_file *)

(** Returned normally, or [exit(1)] with the message printed. *)
Inductive outcome := Returned (d : D) | Exited (msg : string) (d : D).

(** [for (int j = 0; j < count; j++) if (write(...) != 1) exit(1)] *)
Fixpoint write_run (j : nat) (ch : Z) (d : D) : D + D :=
  match j with
  | O => inl d
  | S j =>
      let '(r, d) := write d [ch] in
      if negb (r =? 1) then inr d else write_run j ch d
  end.

(** The byte of the count, once it has been read. *)
Definition put_run (curr_char b : Z) (d : D) : D + (string * D) :=
  let count := b - ch0 in
  if (count <? 1) || (count >? 9) then inr ("invalid count"%string, d)
  else match write_run (Z.to_nat count) curr_char d with
       | inl d => inl d
       | inr d => inr ("write error"%string, d)
       end.

(** The inner loop on what is left of the block, [buf]; with the block used
    up, back to the [read] of the outer loop. *)
Fixpoint decompress_loop (fuel : nat) (buf : list Z) (src : srcfd) (d : D) : option outcome :=
  match fuel with
  | O => None
  | S fuel =>
      match buf with
      | [] =>
          let '(n, b, src) := read src in
          if n >? 0 then decompress_loop fuel b src d
          else if n <? 0 then Some (Exited "read error" d) else Some (Returned d)
      | curr_char :: buf =>
          let '(n, buf, src) :=
            match buf with
            | [] => read src
            | _ => (Z.of_nat (length buf), buf, src)
            end in
          if n <=? 0 then Some (Exited "unexpected EOF" d)
          else match buf with
               | [] => None
               | b :: buf =>
                   match put_run curr_char b d with
                   | inl d => decompress_loop fuel buf src d
                   | inr (msg, d) => Some (Exited msg d)
                   end
               end
      end
  end.

Definition src_bytes (src : srcfd) : list Z := mjoin (default [] <$> src).

Definition decompress_file (src : srcfd) (d : D) : option outcome :=
  decompress_loop (S (length src + length (src_bytes src))) [] src d.
End programs.
Arguments Returned {D} d.
Arguments Exited {D} msg d.

(** A destination that takes every byte. *)
Definition append_write (d l : list Z) : Z * list Z := (Z.of_nat (length l), d ++ l).

(** ** Reference definitions *)

(** A source whose reads all succeed: some cutting of [l] into blocks. *)
Definition cut (src : srcfd) (l : list Z) : Prop :=
  Forall (fun o => exists b, o = Some b /\ b <> []) src /\ src_bytes src = l.

(** Decoding of a list of pairs. *)
Fixpoint decode_pairs (fuel : nat) (l d : list Z) : outcome :=
  match fuel, l with
  | S fuel, ch :: b :: l =>
      if (b - ch0 <? 1) || (b - ch0 >? 9) then Exited "invalid count" d
      else decode_pairs fuel l (d ++ replicate (Z.to_nat (b - ch0)) ch)
  | _, [_] => Exited "unexpected EOF" d
  | _, _ => Returned d
  end.

(** The input with each run cut at nine bytes, [k] bytes of value [prev]
    having been seen; whether no run is longer. *)
Fixpoint cut_runs (prev k : Z) (l : list Z) : list Z :=
  match l with
  | [] => []
  | x :: l =>
      if x =? prev then (if k <? 9 then x :: cut_runs prev (k + 1) l else cut_runs prev 9 l)
      else x :: cut_runs x 1 l
  end.

Fixpoint short_runs (prev k : Z) (l : list Z) : bool :=
  match l with
  | [] => true
  | x :: l => if x =? prev then (k <? 9) && short_runs prev (k + 1) l else short_runs x 1 l
  end.

Lemma cut_cons b src l :
  cut (Some b :: src) l -> b <> [] /\ cut src (src_bytes src) /\ l = b ++ src_bytes src.
Proof. intros [[(b' & [= ->] & Hb) F]%Forall_cons <-]. done. Qed.

Lemma cut_inv src l :
  cut src l -> (src = [] /\ l = []) \/
  (exists b src', src = Some b :: src' /\ b <> [] /\ cut src' (src_bytes src') /\ l = b ++ src_bytes src').
Proof.
  intros C. destruct src as [|[b|] src].
  - left. split; [done|]. by destruct C as [_ <-].
  - right. exists b, src. split; [done|]. by apply cut_cons.
  - destruct C as [[(b & [=] & _) _]%Forall_cons _].
Qed.

(** ** The compressor writes a run code *)

Definition flush (p k : Z) : list Z := if k >? 0 then [p; ch0 + k] else [].

Fixpoint enc (p k : Z) (l : list Z) : list Z :=
  match l with
  | [] => flush p k
  | x :: l => if x =? p then enc p (Z.min 9 (k + 1)) l else flush p k ++ enc x 1 l
  end.

Lemma compress_loop_foldl {D} (write : D -> list Z -> Z * D) src l s :
  cut src l -> compress_loop write src s = foldl (compress_byte write) s l.
Proof.
  revert l s. induction src as [|o src IH]; intros l s C.
  - by destruct C as [_ <-].
  - destruct o as [b|]; [|destruct C as [[(b & [=] & _) _]%Forall_cons _]].
    apply cut_cons in C as (Hb & C & ->). cbn [compress_loop].
    destruct (Z.gtb_spec (Z.of_nat (length b)) 0) as [_|H]; [|by destruct b; [|simpl in H; lia]].
    rewrite foldl_app. by apply IH.
Qed.

Lemma put_pair_append (s : rst (D := list Z)) :
  0 <= count s <= 9 -> count s > 0 -> dest (put_pair append_write s) = dest s ++ flush (prev s) (count s).
Proof.
  intros H H0. unfold put_pair, flush. simpl. destruct (Z.gtb_spec (count s) 0); [|lia].
  rewrite u8_small; [done|]. unfold ch0. lia.
Qed.

Lemma compress_enc l (s : rst (D := list Z)) :
  0 <= count s <= 9 ->
  let s' := foldl (compress_byte append_write) s l in
  (if count s' >? 0 then dest (put_pair append_write s') else dest s') = dest s ++ enc (prev s) (count s) l.
Proof.
  revert s. induction l as [|x l IH]; intros s Hc; cbn zeta in *; cbn [foldl enc].
  - destruct (Z.gtb_spec (count s) 0) as [H|H]; [apply put_pair_append; lia|].
    unfold flush. destruct (Z.gtb_spec (count s) 0); [lia|]. by rewrite app_nil_r.
  - destruct (Z.eqb_spec x (prev s)) as [->|Hx].
    + assert (E : compress_byte append_write s (prev s) = Rst (prev s) (Z.min 9 (count s + 1)) (dest s)).
      { unfold compress_byte. rewrite Z.eqb_refl. f_equal. destruct (Z.gtb_spec (count s + 1) 9); lia. }
      rewrite E. apply (IH (Rst _ _ _)). simpl. lia.
    + assert (E : compress_byte append_write s x = Rst x 1 (dest s ++ flush (prev s) (count s))).
      { unfold compress_byte. destruct (Z.eqb_spec x (prev s)); [done|]. f_equal.
        destruct (Z.gtb_spec (count s) 0) as [H|H]; [apply put_pair_append; lia|].
        unfold flush. destruct (Z.gtb_spec (count s) 0); [lia|]. by rewrite app_nil_r. }
      rewrite E, app_assoc. apply (IH (Rst _ _ _)). simpl. lia.
Qed.

Lemma compress_file_enc src l : cut src l -> compress_file append_write src [] = enc 0 0 l.
Proof.
  intros C. unfold compress_file. rewrite (compress_loop_foldl _ _ l) by done. cbn zeta.
  by rewrite (compress_enc l (Rst 0 0 [])) by (simpl; lia).
Qed.

(** ** Decoding *)

Lemma write_run_append j ch d : write_run append_write j ch d = inl (d ++ replicate j ch).
Proof.
  revert d. induction j as [|j IH]; intros d; cbn [write_run replicate]; [by rewrite app_nil_r|].
  unfold append_write at 1. cbn [length negb Z.eqb]. change (Z.of_nat 1 =? 1) with true. cbn [negb].
  rewrite IH. by rewrite <- app_assoc.
Qed.

Lemma decompress_loop_decode fuel f2 buf src d :
  cut src (src_bytes src) ->
  (length src + length buf + length (src_bytes src) < fuel)%nat ->
  (length buf + length (src_bytes src) <= f2)%nat ->
  decompress_loop append_write fuel buf src d = Some (decode_pairs f2 (buf ++ src_bytes src) d).
Proof.
  revert f2 buf src d. induction fuel as [|fuel IH]; intros f2 buf src d C Hf H2; [lia|].
  cbn [decompress_loop].
  assert (Step : forall ch b rest src', cut src' (src_bytes src') ->
    (S (length src' + length rest + length (src_bytes src')) < S fuel)%nat ->
    (2 + length rest + length (src_bytes src') <= f2)%nat ->
    match put_run append_write ch b d with
    | inl d => decompress_loop append_write fuel rest src' d
    | inr (msg, d) => Some (Exited msg d)
    end = Some (decode_pairs f2 (ch :: b :: rest ++ src_bytes src') d)).
  { intros ch b rest src' C' Hf' H2'. destruct f2 as [|f2]; [lia|]. cbn [decode_pairs]. unfold put_run.
    destruct ((b - ch0 <? 1) || (b - ch0 >? 9)); [done|]. rewrite write_run_append. apply IH; (done || lia). }
  destruct buf as [|ch buf].
  - destruct (cut_inv _ _ C) as [[-> El]|(b & src' & -> & Hb & C' & El)].
    + rewrite El. simpl. by destruct f2.
    + cbn [read]. destruct (Z.gtb_spec (Z.of_nat (length b)) 0) as [_|H]; [|by destruct b; [|simpl in H; lia]].
      rewrite El, length_app in Hf, H2. simpl in Hf, H2. rewrite El. apply IH; (done || lia).
  - destruct buf as [|b buf].
    + destruct (cut_inv _ _ C) as [[-> El]|(b & src' & -> & Hb & C' & El)].
      * rewrite El. simpl. by destruct f2.
      * cbn [read]. destruct b as [|b rest]; [done|]. destruct (Z.leb_spec (Z.of_nat (length (b :: rest))) 0) as [H|_];
          [simpl in H; lia|]. rewrite El. rewrite El, length_app in Hf, H2. simpl in Hf, H2.
        simpl app. apply Step; try done; lia.
    + destruct (Z.leb_spec (Z.of_nat (length (b :: buf))) 0) as [H|_]; [simpl in H; lia|].
      simpl app. simpl in Hf, H2. apply Step; try done; lia.
Qed.

Lemma length_flush p k : (length (flush p k) <= 2)%nat.
Proof. unfold flush. case_match; simpl; lia. Qed.

Lemma decode_flush p k rest f d :
  0 <= k <= 9 -> decode_pairs (S f) (flush p k ++ rest) d =
  decode_pairs (if k >? 0 then f else S f) rest (d ++ replicate (Z.to_nat k) p).
Proof.
  intros Hk. unfold flush. destruct (Z.gtb_spec k 0).
  - cbn [app decode_pairs]. replace (ch0 + k - ch0) with k by lia.
    destruct (Z.ltb_spec k 1); [lia|]. destruct (Z.gtb_spec k 9); [lia|]. done.
  - replace k with 0 by lia. simpl. by rewrite app_nil_r.
Qed.

Lemma decode_enc l p k f d :
  0 <= k <= 9 -> (length l < f)%nat ->
  decode_pairs f (enc p k l) d = Returned (d ++ replicate (Z.to_nat k) p ++ cut_runs p k l).
Proof.
  revert p k f d. induction l as [|x l IH]; intros p k f d Hk Hf; cbn [enc cut_runs length] in *.
  - destruct f as [|f]; [lia|]. rewrite <- (app_nil_r (flush p k)), decode_flush by done.
    rewrite app_nil_r. by destruct (k >? 0), f.
  - destruct (Z.eqb_spec x p) as [->|Hx].
    + rewrite IH by lia. do 2 f_equal. destruct (Z.ltb_spec k 9).
      * rewrite Z.min_r by lia. replace (Z.to_nat (k + 1)) with (Z.to_nat k + 1)%nat by lia.
        by rewrite replicate_add, <- app_assoc.
      * replace k with 9 by lia. done.
    + destruct f as [|f]; [lia|]. rewrite decode_flush by done. rewrite IH by (lia || case_match; lia).
      rewrite <- app_assoc. done.
Qed.

Lemma cut_runs_length p k l : (length (cut_runs p k l) <= length l)%nat.
Proof. revert p k. induction l as [|x l IH]; intros p k; simpl; [lia|]. repeat case_match; simpl; auto with arith. Qed.

Lemma cut_runs_id p k l : cut_runs p k l = l <-> short_runs p k l = true.
Proof.
  revert p k. induction l as [|x l IH]; intros p k; cbn [cut_runs short_runs]; [done|].
  destruct (x =? p).
  - destruct (k <? 9); cbn [andb].
    + rewrite <- IH. split; [by intros [=]|by intros ->].
    + split; [|done]. intros H. pose proof (cut_runs_length p 9 l). rewrite H in *. simpl in *. lia.
  - rewrite <- IH. split; [by intros [=]|by intros ->].
Qed.

(** ** Properties *)

(** C39: [decompress_file] does not depend on how the blocks cut the file:
    whatever the sizes its [read]s return, when no read or write fails it
    terminates with what decoding the whole contents pair by pair gives, including the two errors, a count
    outside 1..9 and an odd byte at the end. *)
Theorem decompress_file_pairs src l :
  cut src l -> decompress_file append_write src [] = Some (decode_pairs (length l) l []).
Proof.
  intros C. unfold decompress_file. destruct C as [F <-]. apply (decompress_loop_decode _ _ [] src []);
    [by split|simpl; lia|simpl; lia].
Qed.

Lemma decompress_file_pairs_witness :
  decompress_file append_write [Some [97]; Some [51; 98; 50]] [] = Some (Returned [97; 97; 97; 98; 98]).
Proof.
  rewrite (decompress_file_pairs _ [97; 51; 98; 50]); [vm_compute; reflexivity|].
  split; [|reflexivity]. repeat constructor; eauto.
Defined.

(** C18: compressing a file and decompressing the result gives the file with
    each run of equal bytes cut at nine, whatever block sizes either program
    reads; so the file is restored if and only if no run is longer than nine. *)
Theorem rle_roundtrip input src src' :
  cut src input -> cut src' (compress_file append_write src []) ->
  decompress_file append_write src' [] = Some (Returned (cut_runs 0 0 input)) /\
  (cut_runs 0 0 input = input <-> short_runs 0 0 input = true).
Proof.
  intros C C'. split; [|apply cut_runs_id]. rewrite (compress_file_enc _ input) in C' by done.
  unfold decompress_file. destruct C' as [F E].
  rewrite (decompress_loop_decode _ (S (length input) + length (enc 0 0 input)) [] src');
    [|by split|simpl; lia|simpl; rewrite E; lia].
  rewrite app_nil_l, E, decode_enc by lia. done.
Qed.

Lemma rle_roundtrip_witness :
  decompress_file append_write [Some [97; 57]] [] = Some (Returned (replicate 9 97)).
Proof.
  apply (rle_roundtrip (replicate 12 97) [Some (replicate 5 97); Some (replicate 7 97)] [Some [97; 57]]).
  - split; [|reflexivity]. repeat constructor; eexists; (split; [reflexivity|discriminate]).
  - split; [|reflexivity]. repeat constructor; eexists; (split; [reflexivity|discriminate]).
Defined.
