(* ===== verification/Umalloc.v ===== *)
(** user/umalloc.c: the memory allocator of user programs.

    The free list is a circular list through the headers of the free blocks, in
    the order of their addresses, that starts at the static header [base].  Memory
    is seen at the grain of a header: [cells] maps an address to the header last
    stored there, by the allocator or by the program that owns the memory.  Sizes
    are in units of [sizeof(Header)], sixteen bytes.

    [sbrk] moves the break of the process as [growproc] of kernel/proc.c does; it
    fails above [limit], which stands for the memory the kernel has left. *)

From stdpp Require Import sorting.
From S2P Require Import Prelude.

Record Header := Hdr { s_ptr : Z; s_size : Z }.
Record ust := Ust { cells : gmap Z Header; freep : Z; brk : Z; limit : Z }.

Definition sizeof_Header : Z := 16.

Definition at_ (s : ust) (p : Z) : Header := default (Hdr 0 0) (cells s !! p).
Definition ptr (s : ust) (p : Z) : Z := s_ptr (at_ s p).
Definition size_ (s : ust) (p : Z) : Z := s_size (at_ s p).

Definition set_ptr (p q : Z) (s : ust) : ust :=
  Ust (<[p := Hdr q (size_ s p)]> (cells s)) (freep s) (brk s) (limit s).
Definition set_size (p n : Z) (s : ust) : ust :=
  Ust (<[p := Hdr (ptr s p) n]> (cells s)) (freep s) (brk s) (limit s).
Definition set_freep (p : Z) (s : ust) : ust := Ust (cells s) p (brk s) (limit s).
Definition set_brk (z : Z) (s : ust) : ust := Ust (cells s) (freep s) z (limit s).

(** The argument is an [int]; an attempt to go below zero changes nothing. *)
Definition sbrk (n : Z) (s : ust) : Z * ust :=
  let n := s32 n in
  if n >? 0 then if brk s + n <=? limit s then (brk s, set_brk (brk s + n) s) else (-1, s)
  else if brk s + n <? 0 then (brk s, s) else (brk s, set_brk (brk s + n) s).

(** The loop of [free]: the free block after which [bp] belongs. *)
Fixpoint find_place (fuel : nat) (p bp : Z) (s : ust) : option Z :=
  match fuel with
  | O => None
  | S fuel =>
      if (bp >? p) && (bp <? ptr s p) then Some p
      else if (p >=? ptr s p) && ((bp >? p) || (bp <? ptr s p)) then Some p
      else find_place fuel (ptr s p) bp s
  end.

(** Twice round the list. *)
Definition laps (s : ust) : nat := 2 * size (cells s) + 4.

Definition free (ap : Z) (s : ust) : option ust :=
  let bp := ap - sizeof_Header in
  p ← find_place (laps s) (freep s) bp s;
  let s :=
    if bp + sizeof_Header * size_ s bp =? ptr s p
    then
      let s := set_size bp (u32 (size_ s bp + size_ s (ptr s p))) s in
      set_ptr bp (ptr s (ptr s p)) s
    else set_ptr bp (ptr s p) s in
  let s :=
    if p + sizeof_Header * size_ s p =? bp
    then
      let s := set_size p (u32 (size_ s p + size_ s bp)) s in
      set_ptr p (ptr s bp) s
    else set_ptr p bp s in
  Some (set_freep p s).

Definition morecore (nu : Z) (s : ust) : option (Z * ust) :=
  let nu := if nu <? 4096 then 4096 else nu in
  let '(p, s) := sbrk (nu * sizeof_Header) s in
  if p =? -1 then Some (0, s)
  else
    let s := set_size p nu s in
    s ← free (p + sizeof_Header) s;
    Some (freep s, s).

(** Take [nunits] from block [p], whose predecessor is [prevp]. *)
Definition take_block (prevp p nunits : Z) (s : ust) : Z * ust :=
  let '(p, s) :=
    if size_ s p =? nunits then (p, set_ptr prevp (ptr s p) s)
    else
      let s := set_size p (size_ s p - nunits) s in
      let p := p + sizeof_Header * size_ s p in
      (p, set_size p nunits s) in
  (p + sizeof_Header, set_freep prevp s).

Fixpoint malloc_loop (fuel : nat) (prevp p nunits : Z) (s : ust) : option (Z * ust) :=
  match fuel with
  | O => None
  | S fuel =>
      if size_ s p >=? nunits then Some (take_block prevp p nunits s)
      else if p =? freep s
      then
        '(p, s) ← morecore nunits s;
        if p =? 0 then Some (0, s) else malloc_loop fuel p (ptr s p) nunits s
      else malloc_loop fuel p (ptr s p) nunits s
  end.

(** [base] is the address of the static header. *)
Definition malloc (base nbytes : Z) (s : ust) : option (Z * ust) :=
  let nunits := u32 ((nbytes + sizeof_Header - 1) / sizeof_Header + 1) in
  let s :=
    if freep s =? 0 then set_size base 0 (set_freep base (set_ptr base base s)) else s in
  malloc_loop (laps s) (freep s) (ptr s (freep s)) nunits s.

(** * The free list *)

Definition next (l : list (Z * Z)) (e : Z) : Z := match l with [] => e | (a, _) :: _ => a end.

(** The blocks [l], address and units, are linked one to the next, the last to [e]. *)
Fixpoint path (m : gmap Z Header) (l : list (Z * Z)) (e : Z) : Prop :=
  match l with
  | [] => True
  | (a, n) :: l => m !! a = Some (Hdr (next l e) n) /\ path m l e
  end.

Lemma next_app l1 l2 e : next (l1 ++ l2) e = next l1 (next l2 e).
Proof. by destruct l1 as [|[]]. Qed.

Lemma path_app m l1 l2 e : path m (l1 ++ l2) e <-> path m l1 (next l2 e) /\ path m l2 e.
Proof.
  induction l1 as [|[a n] l1 IH]; cbn; [tauto|]. rewrite IH, next_app. tauto.
Qed.

Lemma path_ext m m' l e : (forall a n, (a, n) ∈ l -> m' !! a = m !! a) -> path m l e -> path m' l e.
Proof.
  induction l as [|[a n] l IH]; cbn; [done|]. intros H [H1 H2]. split; [rewrite <-H1; apply (H a n); left|].
  apply IH; [|done]. intros b k Hb. apply (H b k). by right.
Qed.

Lemma path_at m l e j a n :
  path m l e -> l !! j = Some (a, n) -> m !! a = Some (Hdr (next (drop (S j) l) e) n).
Proof.
  revert j. induction l as [|[b k] l IH]; intros [|j]; cbn; [done|done|..].
  - intros [H _] [= <- <-]. by rewrite drop_0.
  - intros [_ H] E. by apply (IH j).
Qed.

(** Sorted by address, with room between blocks. *)
Definition gap (x y : Z * Z) : Prop := x.1 + 16 * x.2 < y.1.

(** Blocks [x] and [y] do not overlap. *)
Definition apart (x y : Z * Z) : Prop := x.1 + 16 * x.2 <= y.1 \/ y.1 + 16 * y.2 <= x.1.

Record heap (base : Z) (s : ust) (fl : list (Z * Z)) (al : gmap Z Z) : Prop := {
  hp_base : 0 < base;
  hp_path : path (cells s) ((base, 0) :: fl) base;
  hp_freep : exists n, (freep s, n) ∈ (base, 0) :: fl;
  hp_sorted : StronglySorted gap fl;
  hp_free a n : (a, n) ∈ fl -> 1 <= n /\ base + 16 <= a /\ a + 16 * n <= brk s /\ (16 | a);
  hp_al a n : al !! a = Some n -> 1 <= n /\ base + 16 <= a /\ a + 16 * n <= brk s /\ (16 | a);
  hp_size a n : al !! a = Some n -> exists q, cells s !! a = Some (Hdr q n);
  hp_apart a n b k : al !! a = Some n -> al !! b = Some k -> a <> b -> apart (a, n) (b, k);
  hp_apart_free a n b k : al !! a = Some n -> (b, k) ∈ fl -> apart (a, n) (b, k);
  hp_brk : (16 | brk s) /\ base + 16 <= brk s <= 2 ^ 36 }.

Lemma sorted_split l1 x l2 : StronglySorted gap (l1 ++ x :: l2) -> (forall y, y ∈ l1 -> gap y x) /\ (forall y, y ∈ l2 -> gap x y).
Proof.
  intros H. split.
  - induction l1 as [|z l1 IH]; [by intros y ?%elem_of_nil|]. cbn in H. apply StronglySorted_inv in H as [H F].
    intros y [->|Hy]%elem_of_cons; [|by apply IH]. rewrite Forall_forall in F. apply F. set_solver.
  - induction l1 as [|z l1 IH]; cbn in H; apply StronglySorted_inv in H as [H F]; [|by apply IH].
    intros y Hy. rewrite Forall_forall in F. by apply F.
Qed.

Section place.
Context {base : Z} {s : ust} {fl : list (Z * Z)} {al : gmap Z Z} (H : heap base s fl al).

Lemma ring_at l1 a n l2 : (base, 0) :: fl = l1 ++ (a, n) :: l2 -> ptr s a = next l2 base /\ size_ s a = n.
Proof.
  intros E. pose proof (hp_path _ _ _ _ H) as P. rewrite E in P. apply path_app in P as [_ [P _]].
  unfold ptr, size_, at_. by rewrite P.
Qed.

(** A position in the list, [base] included. *)
Lemma ring_order l1 a n l2 :
  (base, 0) :: fl = l1 ++ (a, n) :: l2 ->
  base <= a /\ 0 <= n /\ (forall b k, (b, k) ∈ l2 -> a + 16 * n < b) /\ (forall b k, (b, k) ∈ l1 -> b + 16 * k < a).
Proof.
  intros E. destruct l1 as [|x l1]; cbn in E.
  - injection E as <- <- <-. split_and!; [lia..| |by intros b k ?%elem_of_nil].
    intros b k Hb. apply (hp_free _ _ _ _ H) in Hb. lia.
  - injection E as <- E. pose proof (hp_sorted _ _ _ _ H) as S. rewrite E in S. apply sorted_split in S as [S1 S2].
    destruct (hp_free _ _ _ _ H a n) as (? & ? & _); [rewrite E; set_solver|]. split_and!; [lia..| |].
    + intros b k Hb. apply (S2 _ Hb).
    + intros b k [[= -> ->]|Hb]%elem_of_cons; [lia|apply (S1 _ Hb)].
Qed.

Lemma in_tail l1 x l2 y : (base, 0) :: fl = l1 ++ x :: l2 -> y ∈ l2 -> y ∈ fl.
Proof. intros E Hy. destruct l1 as [|z l1]; simplify_eq/=; set_solver. Qed.

(** Where block [bp] belongs. *)
Definition belongs (bp : Z) (l1 : list (Z * Z)) (p sp : Z) (l2 : list (Z * Z)) : Prop :=
  (base, 0) :: fl = l1 ++ (p, sp) :: l2 /\ p < bp /\ (forall b k, (b, k) ∈ l2 -> bp < b).

Lemma find_here fuel l1 p sp l2 bp :
  base < bp -> belongs bp l1 p sp l2 -> find_place (S fuel) p bp s = Some p.
Proof.
  intros Hb (E & L & G). cbn [find_place]. destruct (ring_at _ _ _ _ E) as [-> _]. destruct l2 as [|[b k] l2]; cbn [next].
  - pose proof (ring_order _ _ _ _ E). destruct (Z.gtb_spec bp p), (Z.ltb_spec bp base), (Z.geb_spec p base); try lia; done.
  - specialize (G b k ltac:(left)). destruct (Z.gtb_spec bp p), (Z.ltb_spec bp b); try lia; done.
Qed.

Lemma find_further fuel l1 q sq l2 bp :
  base < bp -> (base, 0) :: fl = l1 ++ (q, sq) :: l2 -> (bp <= q \/ exists b k, (b, k) ∈ l2 /\ b <= bp) -> q <> bp ->
  (forall b k, (b, k) ∈ fl -> b <> bp) ->
  find_place (S fuel) q bp s = find_place fuel (next l2 base) bp s.
Proof.
  intros Hb E O Nq Nb. cbn [find_place]. destruct (ring_at _ _ _ _ E) as [-> _].
  destruct (ring_order _ _ _ _ E) as (B1 & B2 & B3 & _). destruct l2 as [|[b k] l2]; cbn [next].
  - destruct O as [O|(b & k & X%elem_of_nil & _)]; [|done].
    destruct (Z.gtb_spec bp q), (Z.ltb_spec bp base), (Z.geb_spec q base); try lia; done.
  - pose proof (B3 b k ltac:(left)).
    assert (bp < q \/ b < bp) as O'.
    { destruct O as [O|(b' & k' & [[= -> ->]|X]%elem_of_cons & L)]; [lia| |].
      - assert (b <> bp); [|lia]. apply (Nb b k), (in_tail _ _ _ _ E). left.
      - assert ((base, 0) :: fl = (l1 ++ [(q, sq)]) ++ (b, k) :: l2) as E' by by rewrite <-app_assoc.
        destruct (ring_order _ _ _ _ E') as (_ & ? & B & _). specialize (B _ _ X). lia. }
    destruct (Z.gtb_spec bp q), (Z.ltb_spec bp b), (Z.geb_spec q b); cbn; try lia; done.
Qed.

Lemma find_forward l2 l1 q sq bp fuel :
  base < bp -> (base, 0) :: fl = l1 ++ (q, sq) :: l2 -> q < bp -> (forall b k, (b, k) ∈ fl -> b <> bp) -> (length l2 < fuel)%nat ->
  exists l1' p sp l2', find_place fuel q bp s = Some p /\ belongs bp l1' p sp l2'.
Proof.
  revert l1 q sq fuel. induction l2 as [|[b k] l2 IH]; intros l1 q sq [|fuel] Hb E L Nb F; cbn [length] in F; [lia| |lia|].
  - assert (belongs bp l1 q sq []) as B by (split_and!; [done..|by intros b k ?%elem_of_nil]).
    exists l1, q, sq, []. split; [by eapply find_here|done].
  - destruct (decide (bp < b)) as [Lb|Lb].
    + assert (belongs bp l1 q sq ((b, k) :: l2)) as B.
      { split_and!; [done..|]. intros b' k' [[= -> ->]|X]%elem_of_cons; [done|].
        assert ((base, 0) :: fl = (l1 ++ [(q, sq)]) ++ (b, k) :: l2) as E' by by rewrite <-app_assoc.
        destruct (ring_order _ _ _ _ E') as (_ & ? & G & _). specialize (G _ _ X). lia. }
      exists l1, q, sq, ((b, k) :: l2). split; [by eapply find_here|done].
    + assert (b <> bp) by (apply (Nb b k), (in_tail _ _ _ _ E); left).
      rewrite (find_further _ _ _ _ _ _ Hb E); [|right; exists b, k; split; [left|lia]|lia|done]. cbn [next].
      apply (IH (l1 ++ [(q, sq)]) b k); [done|by rewrite <-app_assoc|lia|done|lia].
Qed.

Lemma find_wrap l2 l1 q sq bp fuel :
  base < bp -> (base, 0) :: fl = l1 ++ (q, sq) :: l2 -> bp < q -> (forall b k, (b, k) ∈ fl -> b <> bp) ->
  find_place (S (length l2) + fuel) q bp s = find_place fuel base bp s.
Proof.
  revert l1 q sq. induction l2 as [|[b k] l2 IH]; intros l1 q sq Hb E L Nb; cbn [length Nat.add].
  - by rewrite (find_further _ _ _ _ _ _ Hb E); [|left; lia|lia|done].
  - rewrite (find_further _ _ _ _ _ _ Hb E); [|left; lia|lia|done]. cbn [next].
    destruct (ring_order _ _ _ _ E) as (_ & ? & G & _). specialize (G b k ltac:(left)).
    apply (IH (l1 ++ [(q, sq)]) b k); [done|by rewrite <-app_assoc|lia|done].
Qed.

Lemma ring_nodup : NoDup ((base, 0) :: fl).*1.
Proof.
  cbn. constructor.
  - intros ([b k] & Eb & Hb)%list_elem_of_fmap. cbn in Eb. subst. apply (hp_free _ _ _ _ H) in Hb. lia.
  - pose proof (hp_sorted _ _ _ _ H) as S. pose proof (fun b k => hp_free _ _ _ _ H b k) as Hf.
    clear H. induction S as [|[b k] l S IH F]; cbn; constructor; [|apply IH; set_solver].
    intros ([b' k'] & Eb & Hb)%list_elem_of_fmap. cbn in Eb. subst. rewrite Forall_forall in F. specialize (F _ Hb).
    destruct (Hf b' k ltac:(left)). unfold gap in F. cbn in F. lia.
Qed.

(** The list is no longer than the number of headers in memory. *)
Lemma ring_length : (S (length fl) <= size (cells s))%nat.
Proof.
  pose proof (hp_path _ _ _ _ H) as P. pose proof ring_nodup as N.
  assert (forall l, path (cells s) l base -> list_to_set l.*1 ⊆ dom (cells s)) as Hs.
  { clear. induction l as [|[a n] l IH]; cbn; [set_solver|]. intros [E P]. apply union_subseteq. split; [|by apply IH].
    apply singleton_subseteq_l, elem_of_dom. by eexists. }
  specialize (Hs _ P). apply subseteq_size in Hs. rewrite size_list_to_set in Hs by done.
  rewrite length_fmap in Hs. by rewrite size_dom in Hs.
Qed.

Lemma find_place_ok bp :
  base < bp -> (forall b k, (b, k) ∈ fl -> b <> bp) ->
  exists l1 p sp l2, find_place (laps s) (freep s) bp s = Some p /\ belongs bp l1 p sp l2.
Proof.
  intros Hb Nb. destruct (hp_freep _ _ _ _ H) as [n Hn]. apply list_elem_of_split in Hn as (l1 & l2 & E).
  pose proof ring_length as L. assert (S (length fl) = length l1 + S (length l2))%nat as L2.
  { apply (f_equal length) in E. rewrite length_app in E. done. }
  destruct (decide (freep s < bp)) as [F|F].
  - apply (find_forward _ _ _ _ _ _ Hb E); [done..|]. unfold laps. lia.
  - assert (bp < freep s) as F'.
    { assert (freep s <> bp); [|lia]. destruct l1 as [|x l1]; simplify_eq/=; [lia|]. apply (Nb _ n). set_solver. }
    replace (laps s) with (S (length l2) + (laps s - S (length l2)))%nat by (unfold laps; lia).
    rewrite (find_wrap _ _ _ _ _ _ Hb E F' Nb). apply (find_forward fl [] base 0); [done..|]. unfold laps. lia.
Qed.
End place.

(** * free *)

Definition units (l : list (Z * Z)) : Z := foldr (fun x n => x.2 + n) 0 l.

Lemma units_app l1 l2 : units (l1 ++ l2) = units l1 + units l2.
Proof. induction l1 as [|x l1 IH]; cbn; [done|]. unfold units in *. cbn. rewrite IH. lia. Qed.

(** Join block [x] with the first of [l] if they touch. *)
Definition join (x : Z * Z) (l : list (Z * Z)) : list (Z * Z) :=
  match l with
  | (b, k) :: l' => if x.1 + 16 * x.2 =? b then (x.1, x.2 + k) :: l' else x :: l
  | [] => [x]
  end.

Lemma units_join x l : units (join x l) = x.2 + units l.
Proof. destruct l as [|[b k] l]; cbn; [done|]. case_match; cbn; unfold units; cbn; lia. Qed.

Lemma apart_join x a n k : 1 <= x.2 -> apart x (a, n) -> apart x (a + 16 * n, k) -> apart x (a, n + k).
Proof. unfold apart. cbn. lia. Qed.

Lemma join_member x l b k :
  (b, k) ∈ join x l -> (b = x.1 /\ (k = x.2 \/ exists k', (x.1 + 16 * x.2, k') ∈ l /\ k = x.2 + k')) \/ (b, k) ∈ l.
Proof.
  destruct l as [|[c n] l]; cbn; [intros <-%list_elem_of_singleton; cbn; by auto|].
  destruct (Z.eqb_spec (x.1 + 16 * x.2) c) as [->|]; intros [E|Hb]%elem_of_cons; subst; auto.
  - simplify_eq. left. split; [done|]. right. exists n. split; [left|done].
  - right. by right.
Qed.

Lemma sorted_join x l :
  StronglySorted gap l -> (forall b k, (b, k) ∈ l -> x.1 + 16 * x.2 <= b /\ 0 <= k) -> StronglySorted gap (join x l).
Proof.
  intros S Hl. destruct l as [|[c n] l]; cbn; [by repeat constructor|]. pose proof S as S'. apply StronglySorted_inv in S' as [S1 S2].
  rewrite Forall_forall in S2. destruct (Hl c n ltac:(left)). destruct (Z.eqb_spec (x.1 + 16 * x.2) c) as [E|E].
  - constructor; [done|]. apply Forall_forall. intros y Hy. specialize (S2 _ Hy). unfold gap in *. cbn in *. lia.
  - constructor; [done|]. apply Forall_forall. intros y [->|Hy]%elem_of_cons; [unfold gap; cbn; lia|].
    specialize (S2 _ Hy). unfold gap in *. cbn in *. lia.
Qed.

Lemma join_tail x l y r :
  join x l = y :: r -> y.1 = x.1 /\ (forall z, z ∈ r -> z ∈ l) /\ (forall m e, path m l e -> path m r e).
Proof.
  destruct l as [|[c n] l]; cbn; [intros [= <- <-]; auto|]. case_match; intros [= <- <-]; [|by auto].
  split_and!; [done|by right|tauto].
Qed.

Lemma length_join x l : (length (join x l) <= S (length l))%nat.
Proof. destruct l as [|[b k] l]; cbn; [lia|]. case_match; cbn; lia. Qed.

Lemma join_next x l e : next (join x l) e = x.1.
Proof. destruct l as [|[b k] l]; cbn; [by destruct x|]. case_match; by destruct x. Qed.

Definition with_cells (m : gmap Z Header) (s : ust) : ust := Ust m (freep s) (brk s) (limit s).

(** The two steps of [free] that can join blocks: [n] units at [a], before [q]. *)
Definition join_up (bp p : Z) (s : ust) : ust :=
  if bp + sizeof_Header * size_ s bp =? ptr s p
  then
    let s := set_size bp (u32 (size_ s bp + size_ s (ptr s p))) s in
    set_ptr bp (ptr s (ptr s p)) s
  else set_ptr bp (ptr s p) s.
Definition join_down (bp p : Z) (s : ust) : ust :=
  if p + sizeof_Header * size_ s p =? bp
  then
    let s := set_size p (u32 (size_ s p + size_ s bp)) s in
    set_ptr p (ptr s bp) s
  else set_ptr p bp s.

Lemma free_steps ap s p :
  find_place (laps s) (freep s) (ap - 16) s = Some p ->
  free ap s = Some (set_freep p (join_down (ap - 16) p (join_up (ap - 16) p s))).
Proof. intros E. unfold free. change sizeof_Header with 16. by rewrite E. Qed.

Lemma at_lookup s a h : cells s !! a = Some h -> at_ s a = h.
Proof. intros E. unfold at_. by rewrite E. Qed.

Lemma join_up_ok s bp bs q0 p l2 base sp :
  cells s !! bp = Some (Hdr q0 bs) -> cells s !! p = Some (Hdr (next l2 base) sp) -> path (cells s) l2 base ->
  p <> bp -> bp + 16 * bs <> base -> (forall b k, (b, k) ∈ l2 -> b <> bp /\ 0 <= bs + k < 2 ^ 32) ->
  exists n r, join (bp, bs) l2 = (bp, n) :: r /\
    join_up bp p s = with_cells (<[bp := Hdr (next r base) n]> (cells s)) s.
Proof.
  intros Eb Ep P N Nb Hl. unfold join_up, size_, ptr. rewrite (at_lookup _ _ _ Eb), (at_lookup _ _ _ Ep). cbn [s_size s_ptr].
  change sizeof_Header with 16. destruct l2 as [|[q sq] l2]; cbn [next join fst snd].
  - exists bs, []. split; [done|]. destruct (Z.eqb_spec (bp + 16 * bs) base); [done|]. unfold set_ptr, size_. by rewrite (at_lookup _ _ _ Eb).
  - destruct (Hl q sq ltac:(left)) as [Nq Hs]. destruct P as [Pq P].
    destruct (Z.eqb_spec (bp + 16 * bs) q) as [E|E].
    + exists (bs + sq), l2. split; [done|]. rewrite (at_lookup _ _ _ Pq). cbn [s_size]. rewrite u32_small by done.
      set (s1 := set_size bp (bs + sq) s).
      assert (at_ s1 p = Hdr q sp) as -> by (apply at_lookup; cbn; by rewrite lookup_insert_ne). cbn [s_ptr].
      assert (at_ s1 q = Hdr (next l2 base) sq) as -> by (apply at_lookup; cbn; by rewrite lookup_insert_ne). cbn [s_ptr].
      unfold set_ptr, size_. assert (at_ s1 bp = Hdr (ptr s bp) (bs + sq)) as -> by (apply at_lookup, lookup_insert_eq).
      unfold with_cells. cbn. by rewrite insert_insert_eq.
    + exists bs, ((q, sq) :: l2). split; [done|]. unfold set_ptr, size_. by rewrite (at_lookup _ _ _ Eb).
Qed.

Lemma join_down_ok s bp n r p q0 sp base :
  cells s !! bp = Some (Hdr (next r base) n) -> cells s !! p = Some (Hdr q0 sp) -> p <> bp -> 0 <= sp + n < 2 ^ 32 ->
  exists k r', join (p, sp) ((bp, n) :: r) = (p, k) :: r' /\
    join_down bp p s = with_cells (<[p := Hdr (next r' base) k]> (cells s)) s.
Proof.
  intros Eb Ep N Hs. unfold join_down, size_, ptr. rewrite (at_lookup _ _ _ Eb), (at_lookup _ _ _ Ep). cbn [s_size s_ptr].
  change sizeof_Header with 16. cbn [join fst snd]. destruct (Z.eqb_spec (p + 16 * sp) bp) as [E|E].
  - exists (sp + n), r. split; [done|]. rewrite u32_small by done. set (s1 := set_size p (sp + n) s).
    assert (at_ s1 bp = Hdr (next r base) n) as -> by (apply at_lookup; cbn; by rewrite lookup_insert_ne). cbn [s_ptr].
    unfold set_ptr, size_. assert (at_ s1 p = Hdr (ptr s p) (sp + n)) as -> by (apply at_lookup, lookup_insert_eq).
    unfold with_cells. cbn. by rewrite insert_insert_eq.
  - exists sp, ((bp, n) :: r). split; [done|]. unfold set_ptr, size_. by rewrite (at_lookup _ _ _ Ep).
Qed.

(** [x] is neither [base] nor in a free block. *)
Definition outside (base : Z) (fl : list (Z * Z)) (x : Z) : Prop :=
  x <> base /\ forall b k, (b, k) ∈ fl -> ~ (b <= x < b + 16 * k).

Section freeing.
Context {base : Z} {s : ust} {fl : list (Z * Z)} {al : gmap Z Z} (H : heap base s fl al).
Context {bp bs : Z} (Ha : al !! bp = Some bs) {l1 : list (Z * Z)} {p sp : Z} {l2 : list (Z * Z)}.
Context (B : belongs (base := base) (fl := fl) bp l1 p sp l2).

Lemma ring_sorted : StronglySorted gap (l1 ++ (p, sp) :: l2).
Proof.
  destruct B as [<- _]. constructor; [apply (hp_sorted _ _ _ _ H)|]. apply Forall_forall. intros [b k] Hb.
  apply (hp_free _ _ _ _ H) in Hb. unfold gap. cbn. lia.
Qed.

Lemma ring_member b k : (b, k) ∈ l1 ++ (p, sp) :: l2 -> (b = base /\ k = 0) \/ (b, k) ∈ fl.
Proof. destruct B as [<- _]. intros [[= -> ->]|]%elem_of_cons; auto. Qed.

Lemma p_member : (p, sp) ∈ l1 ++ (p, sp) :: l2.
Proof. rewrite elem_of_app. right. left. Qed.

(** The free blocks around [bp]. *)
Lemma around : p + 16 * sp <= bp /\ 0 <= sp /\ base <= p /\ base + 16 <= bp /\ 1 <= bs /\
  (forall b k, (b, k) ∈ l2 -> bp + 16 * bs <= b /\ 1 <= k /\ b + 16 * k <= brk s /\ (16 | b)) /\
  (forall b k, (b, k) ∈ l1 -> b + 16 * k < p /\ b + 16 * k < bp).
Proof.
  pose proof B as (E & L & G). destruct (hp_al _ _ _ _ H _ _ Ha) as (? & ? & ? & _).
  destruct (ring_order H _ _ _ _ E) as (B1 & B2 & _ & B4).
  assert (p + 16 * sp <= bp) as Hp.
  { destruct (ring_member p sp) as [[-> ->]|Hp]; [apply p_member|lia|].
    pose proof (hp_apart_free _ _ _ _ H _ _ _ _ Ha Hp) as A. apply (hp_free _ _ _ _ H) in Hp. unfold apart in A. cbn in A. lia. }
  split_and!; [done..| |].
  - intros b k Hb. assert ((b, k) ∈ fl) as Hf by by eapply in_tail. pose proof (hp_apart_free _ _ _ _ H _ _ _ _ Ha Hf) as A.
    apply (hp_free _ _ _ _ H) in Hf. specialize (G _ _ Hb). unfold apart in A. cbn in A. split_and!; tauto || lia.
  - intros b k Hb. specialize (B4 _ _ Hb). lia.
Qed.

Lemma joined_up_member b k :
  (b, k) ∈ join (bp, bs) l2 -> bp <= b /\ 1 <= k /\ b + 16 * k <= brk s /\ (16 | b) /\
    (forall x, 1 <= x.2 -> apart x (bp, bs) -> (forall c n, (c, n) ∈ l2 -> apart x (c, n)) -> apart x (b, k)).
Proof.
  destruct around as (A1 & A2 & A3 & A4 & A5 & A6 & A7). destruct (hp_al _ _ _ _ H _ _ Ha) as (? & ? & ? & ?).
  intros [[-> [->|(k' & Hk & ->)]]|Hb]%join_member; cbn.
  - split_and!; [lia..|done|auto].
  - destruct (A6 _ _ Hk) as (? & ? & ? & _). cbn in *. split_and!; [lia..|done|]. intros x Hx X1 X2. apply apart_join; auto.
  - destruct (A6 _ _ Hb) as (? & ? & ? & ?). split_and!; [lia..|done|auto].
Qed.

Lemma joined_member b k :
  (b, k) ∈ join (p, sp) (join (bp, bs) l2) ->
  (b = p /\ k = sp) \/ (b = p /\ p + 16 * sp = bp /\ (exists k', (bp, k') ∈ join (bp, bs) l2 /\ k = sp + k')) \/ (b, k) ∈ join (bp, bs) l2.
Proof.
  intros [[-> [->|(k' & Hk & ->)]]|Hb]%join_member; cbn in *; [by left| |by right; right].
  right. left. assert (p + 16 * sp = bp) as E; [|rewrite E in Hk; eauto].
  apply joined_up_member in Hk. destruct around as (A1 & _). lia.
Qed.

(** The new list. *)
Lemma joined_sorted : StronglySorted gap (l1 ++ join (p, sp) (join (bp, bs) l2)).
Proof.
  destruct around as (A1 & A2 & A3 & A4 & A5 & A6 & A7).
  pose proof ring_sorted as S. apply StronglySorted_app in S as (S0 & S1 & S2). apply StronglySorted_inv in S2 as [S2 S3].
  apply StronglySorted_app. split_and!; [|done|].
  - intros [b k] [b' k'] Hb Hy. destruct (A7 _ _ Hb) as [? ?]. unfold gap. cbn.
    apply joined_member in Hy as [[-> _]|[[-> _]|Hy%joined_up_member]]; lia.
  - apply sorted_join; [apply sorted_join; [done|]|].
    + intros b k Hb. destruct (A6 _ _ Hb). cbn. lia.
    + intros b k Hb%joined_up_member. cbn. lia.
Qed.

Lemma free_run :
  find_place (laps s) (freep s) bp s = Some p ->
  exists s', free (bp + 16) s = Some s' /\ path (cells s') (l1 ++ join (p, sp) (join (bp, bs) l2)) base /\
    freep s' = p /\ brk s' = brk s /\ limit s' = limit s /\ (forall x, x <> bp -> x <> p -> cells s' !! x = cells s !! x).
Proof.
  intros F. destruct around as (A1 & A2 & A3 & A4 & A5 & A6 & A7). pose proof B as (E & L & G). pose proof (hp_base _ _ _ _ H).
  pose proof (hp_path _ _ _ _ H) as P. rewrite E in P. apply path_app in P as [P1 [Ep P2]]. cbn [next] in P1.
  destruct (hp_size _ _ _ _ H _ _ Ha) as [q0 Eb]. destruct (hp_al _ _ _ _ H _ _ Ha) as (? & ? & ? & _). destruct (hp_brk _ _ _ _ H) as [_ Hb].
  destruct (join_up_ok s bp bs q0 p l2 base sp) as (n & r & Ej & Eu); [done..|lia|lia| |].
  { intros b k Hk. destruct (A6 _ _ Hk) as (? & ? & ? & _). lia. }
  destruct (join_tail _ _ _ _ Ej) as (_ & Mr & Pr).
  assert (1 <= n /\ bp + 16 * n <= brk s) as [Hn1 Hn2].
  { destruct (joined_up_member bp n) as (_ & ? & ? & _); [rewrite Ej; left|done]. }
  set (s1 := with_cells (<[bp := Hdr (next r base) n]> (cells s)) s) in *.
  destruct (join_down_ok s1 bp n r p (next l2 base) sp base) as (k & r' & Ed & Eu').
  { apply lookup_insert_eq. }
  { cbn. rewrite lookup_insert_ne; [done|lia]. }
  { lia. }
  { lia. }
  destruct (join_tail _ _ _ _ Ed) as (_ & Mr' & Pr').
  exists (set_freep p (join_down bp p (join_up bp p s))). rewrite (free_steps _ _ p); replace (bp + 16 - 16) with bp by lia; [|done].
  rewrite Eu, Eu'. split; [done|]. split; [|split_and!; [done..|]].
  - rewrite Ej, Ed. apply path_app. cbn [next]. split; [|split].
    + eapply path_ext; [|exact P1]. intros b x Hx. destruct (A7 _ _ Hx). cbn. destruct (ring_order H _ _ _ _ E) as (_ & _ & _ & O).
      specialize (O _ _ Hx). assert (0 <= x) by (destruct (ring_member b x) as [[_ ->]|Hf%(hp_free _ _ _ _ H)]; [set_solver|lia|lia]).
      rewrite !lookup_insert_ne by lia. done.
    + apply lookup_insert_eq.
    + eapply path_ext; [|apply Pr'; split; [apply lookup_insert_eq|]].
      * intros b x Hx%Mr'. cbn. apply lookup_insert_ne. apply elem_of_cons in Hx as [[= -> ->]|Hx%Mr]; [lia|]. destruct (A6 _ _ Hx). lia.
      * eapply path_ext; [|exact (Pr _ _ P2)]. intros b x Hx%Mr. cbn. apply lookup_insert_ne. destruct (A6 _ _ Hx). lia.
  - intros x N1 N2. cbn. by rewrite !lookup_insert_ne.
Qed.

Lemma joined_first :
  exists fl', l1 ++ join (p, sp) (join (bp, bs) l2) = (base, 0) :: fl' /\
    forall b k, (b, k) ∈ fl' -> (b, k) ∈ fl \/ (b, k) ∈ join (bp, bs) l2 \/
      exists k', b = p /\ (p, sp) ∈ fl /\ p + 16 * sp = bp /\ (bp, k') ∈ join (bp, bs) l2 /\ k = sp + k'.
Proof.
  destruct around as (A1 & A2 & A3 & A4 & _). pose proof B as (E & _). pose proof joined_member as M.
  destruct l1 as [|x l1']; cbn in E.
  - injection E as <- <- ->. exists (join (bp, bs) l2). split; [|by auto]. cbn.
    destruct (join (bp, bs) l2) as [|[c n] r] eqn:Ej; [done|]. cbn.
    destruct (join_tail _ _ _ _ Ej) as (Ec & _). cbn in Ec. destruct (Z.eqb_spec (base + 16 * 0) c); [lia|done].
  - injection E as <- Ef. eexists. split; [done|]. intros b k. rewrite elem_of_app, Ef. intros [Hb|Hb]; [set_solver|].
    apply M in Hb as [[-> ->]|[(-> & Et & k' & Hk & ->)|Hb]]; [set_solver| |by auto].
    right. right. exists k'. set_solver.
Qed.

Lemma joined_units : units (l1 ++ join (p, sp) (join (bp, bs) l2)) = units fl + bs.
Proof.
  pose proof B as (E & _). rewrite units_app, !units_join. cbn [snd].
  apply (f_equal units) in E. rewrite units_app in E. unfold units in *. cbn in E. lia.
Qed.

Lemma joined_fits fl' :
  l1 ++ join (p, sp) (join (bp, bs) l2) = (base, 0) :: fl' -> exists a n, (a, n) ∈ fl' /\ bs <= n.
Proof.
  destruct around as (A1 & A2 & A3 & A4 & A5 & A6 & A7). intros E.
  assert (exists a n, (a, n) ∈ l1 ++ join (p, sp) (join (bp, bs) l2) /\ bs <= n) as (a & n & Hn & Hl).
  - destruct (join (bp, bs) l2) as [|[c n] r] eqn:Ej; [by destruct l2 as [|[]]; cbn in Ej; try case_match|].
    assert (bs <= n) as Hn.
    { destruct (join_member (bp, bs) l2 c n) as [[_ [->|(k' & Hk & ->)]]|Hb]; [rewrite Ej; left|cbn; lia|destruct (A6 _ _ Hk); cbn; lia|].
      destruct (join_tail _ _ _ _ Ej) as (Ec & _). cbn in Ec. subst. destruct (A6 _ _ Hb). lia. }
    cbn. case_match; [exists p, (sp + n)|exists c, n]; (split; [set_solver|lia]).
  - rewrite E in Hn. apply elem_of_cons in Hn as [[= -> ->]|]; [lia|eauto].
Qed.

Lemma joined_length fl' : l1 ++ join (p, sp) (join (bp, bs) l2) = (base, 0) :: fl' -> (length fl' <= S (length fl))%nat.
Proof.
  intros E'. pose proof B as (E & _). apply (f_equal length) in E, E'. rewrite length_app in E, E'. cbn in E, E'.
  pose proof (length_join (p, sp) (join (bp, bs) l2)). pose proof (length_join (bp, bs) l2). lia.
Qed.

Lemma joined_outside fl' x :
  (forall b k, (b, k) ∈ fl' -> (b, k) ∈ fl \/ (b, k) ∈ join (bp, bs) l2 \/
      exists k', b = p /\ (p, sp) ∈ fl /\ p + 16 * sp = bp /\ (bp, k') ∈ join (bp, bs) l2 /\ k = sp + k') ->
  outside base fl x -> ~ (bp <= x < bp + 16 * bs) -> outside base fl' x.
Proof.
  intros M [O1 O2] O3. split; [done|]. pose proof B as (E & _).
  assert (forall b k, (b, k) ∈ join (bp, bs) l2 -> ~ (b <= x < b + 16 * k)) as Oj.
  { intros b k [[-> [->|(k' & Hk & ->)]]|Hb]%join_member; cbn in *; [done| |apply O2; by eapply in_tail].
    assert (~ (bp + 16 * bs <= x < bp + 16 * bs + 16 * k')); [|lia]. apply O2. by eapply in_tail. }
  intros b k [Hf|[Hj|(k' & -> & Hp & Et & Hk & ->)]]%M; [by apply O2|by apply Oj|].
  apply O2 in Hp. apply Oj in Hk. lia.
Qed.

Lemma free_heap :
  find_place (laps s) (freep s) bp s = Some p ->
  exists s' fl', free (bp + 16) s = Some s' /\ heap base s' fl' (delete bp al) /\ units fl' = units fl + bs /\
    brk s' = brk s /\ limit s' = limit s /\ (exists a n, (a, n) ∈ fl' /\ bs <= n) /\ (length fl' <= S (length fl))%nat /\
    (forall x, outside base fl x -> ~ (bp <= x < bp + 16 * bs) -> outside base fl' x) /\
    (forall x, x <> bp -> x <> base -> (forall n, (x, n) ∉ fl) -> cells s' !! x = cells s !! x).
Proof.
  intros F. destruct (free_run F) as (s' & Es & P & Ef & Eb & El & Ec). destruct joined_first as (fl' & E1 & M).
  destruct around as (A1 & A2 & A3 & A4 & A5 & A6 & A7). pose proof B as (E & Lp & _).
  pose proof joined_sorted as S. pose proof joined_units as U. rewrite E1 in P, S, U.
  exists s', fl'. split_and!; [done| |unfold units in *; cbn in U; lia|done|done|by apply joined_fits|by apply joined_length|
    intros x; by apply joined_outside|].
  - split.
    + apply (hp_base _ _ _ _ H).
    + done.
    + rewrite Ef, <-E1. destruct (join (p, sp) (join (bp, bs) l2)) as [|[c n] r] eqn:Ej; [by destruct (join (bp, bs) l2) as [|[]]; cbn in Ej; try case_match|].
      destruct (join_tail _ _ _ _ Ej) as (Ec' & _). cbn in Ec'. subst. exists n. set_solver.
    + by apply StronglySorted_inv in S as [S _].
    + intros a n [Hf|[Hj|(k' & -> & Hp & Et & Hk & ->)]]%M; rewrite Eb.
      * by apply (hp_free _ _ _ _ H).
      * apply joined_up_member in Hj. split_and!; [lia..|tauto].
      * apply joined_up_member in Hk. apply (hp_free _ _ _ _ H) in Hp. split_and!; [lia..|tauto].
    + intros a n [N Hn]%lookup_delete_Some. rewrite Eb. by apply (hp_al _ _ _ _ H).
    + intros a n [N Hn]%lookup_delete_Some. destruct (hp_size _ _ _ _ H _ _ Hn) as [q Hq]. exists q. rewrite Ec; [done|done|].
      intros ->. destruct (hp_al _ _ _ _ H _ _ Hn) as (? & ? & _). destruct (ring_member p sp) as [[-> _]|Hp]; [apply p_member|lia|].
      pose proof (hp_apart_free _ _ _ _ H _ _ _ _ Hn Hp) as A. apply (hp_free _ _ _ _ H) in Hp. unfold apart in A. cbn in A. lia.
    + intros a n b k [_ Hn]%lookup_delete_Some [_ Hk]%lookup_delete_Some. by apply (hp_apart _ _ _ _ H).
    + intros a n b k [N Hn]%lookup_delete_Some Hb.
      destruct (hp_al _ _ _ _ H _ _ Hn) as (Hn1 & _).
      assert (forall b' k', (b', k') ∈ join (bp, bs) l2 -> apart (a, n) (b', k')) as Hj.
      { intros b' k' (_ & _ & _ & _ & X)%joined_up_member. apply X; [done|by apply (hp_apart _ _ _ _ H)|].
        intros c x Hx. apply (hp_apart_free _ _ _ _ H _ _ _ _ Hn). by eapply in_tail. }
      apply M in Hb as [Hf|[Hb|(k' & -> & Hp & Et & Hk & ->)]]; [by apply (hp_apart_free _ _ _ _ H)|by apply Hj|].
      apply apart_join; [done|by apply (hp_apart_free _ _ _ _ H)|]. rewrite Et. by apply Hj.
    + rewrite Eb. apply (hp_brk _ _ _ _ H).
  - intros x N1 N2 N3. apply Ec; [done|]. intros ->. destruct (ring_member p sp) as [[? _]|Hp]; [apply p_member|done|by destruct (N3 sp)].
Qed.
End freeing.

Lemma free_ok base s fl al bp bs :
  heap base s fl al -> al !! bp = Some bs ->
  exists s' fl', free (bp + 16) s = Some s' /\ heap base s' fl' (delete bp al) /\ units fl' = units fl + bs /\
    brk s' = brk s /\ limit s' = limit s /\ (exists a n, (a, n) ∈ fl' /\ bs <= n) /\ (length fl' <= S (length fl))%nat /\
    (forall x, outside base fl x -> ~ (bp <= x < bp + 16 * bs) -> outside base fl' x) /\
    (forall x, x <> bp -> outside base fl x -> cells s' !! x = cells s !! x).
Proof.
  intros H Ha. destruct (hp_al _ _ _ _ H _ _ Ha) as (H1 & H2 & _). destruct (find_place_ok H bp) as (l1 & p & sp & l2 & F & B); [lia| |].
  { intros b k Hb ->. pose proof (hp_apart_free _ _ _ _ H _ _ _ _ Ha Hb) as A. apply (hp_free _ _ _ _ H) in Hb. unfold apart in A. cbn in A. lia. }
  destruct (free_heap H Ha B F) as (s' & fl' & E & H' & U & Eb & El & Fi & Ll & Fo & Ec). exists s', fl'. split_and!; try done.
  intros x N [O1 O2]. apply Ec; [done|done|]. intros n Hn. apply (O2 _ _ Hn). apply (hp_free _ _ _ _ H) in Hn. lia.
Qed.

(** * malloc *)

Lemma morecore_ok base s fl al nunits :
  heap base s fl al -> limit s <= 2 ^ 36 -> 1 <= nunits -> 16 * nunits < 2 ^ 31 ->
  morecore nunits s = Some (0, s) \/
  exists s' fl', morecore nunits s = Some (freep s', s') /\ heap base s' fl' al /\
    16 * units fl' + brk s = 16 * units fl + brk s' /\ brk s <= brk s' /\ limit s' = limit s /\
    (exists a n, (a, n) ∈ fl' /\ nunits <= n) /\ (length fl' <= S (length fl))%nat /\
    (forall x, x < brk s -> outside base fl x -> outside base fl' x) /\
    (forall x, x < brk s -> outside base fl x -> cells s' !! x = cells s !! x).
Proof.
  intros H Hl Hn1 Hn2. unfold morecore. set (nu := if nunits <? 4096 then 4096 else nunits).
  assert (nunits <= nu /\ 0 < 16 * nu < 2 ^ 31) as [Hu1 Hu2] by (subst nu; destruct (Z.ltb_spec nunits 4096); lia).
  clearbody nu. unfold sbrk. change sizeof_Header with 16. rewrite s32_small by lia. destruct (hp_brk _ _ _ _ H) as [Hb1 Hb2].
  pose proof (hp_base _ _ _ _ H) as Hb0.
  destruct (Z.gtb_spec (nu * 16) 0); [|lia]. destruct (Z.leb_spec (brk s + nu * 16) (limit s)) as [L|L]; [right|by left].
  destruct (Z.eqb_spec (brk s) (-1)) as [?|_]; [lia|]. set (s2 := set_size (brk s) nu (set_brk (brk s + nu * 16) s)).
  assert (al !! brk s = None) as Ea.
  { destruct (al !! brk s) as [n|] eqn:E; [|done]. apply (hp_al _ _ _ _ H) in E. lia. }
  assert (forall x, x <> brk s -> cells s2 !! x = cells s !! x) as Ec by (intros x N; apply lookup_insert_ne; done).
  assert (heap base s2 fl (<[brk s := nu]> al)) as H2.
  { split; cbn [brk s2 set_size set_brk freep].
    - done.
    - eapply path_ext; [|apply (hp_path _ _ _ _ H)]. intros a n Hn. apply Ec.
      apply elem_of_cons in Hn as [[= -> ->]|Hn%(hp_free _ _ _ _ H)]; lia.
    - apply (hp_freep _ _ _ _ H).
    - apply (hp_sorted _ _ _ _ H).
    - intros a n Hn%(hp_free _ _ _ _ H). split_and!; [lia..|tauto].
    - intros a n [[<- <-]|[N Hn%(hp_al _ _ _ _ H)]]%lookup_insert_Some; [split_and!; [lia..|done]|split_and!; [lia..|tauto]].
    - intros a n [[<- <-]|[N Hn]]%lookup_insert_Some; [eexists; apply lookup_insert_eq|]. rewrite Ec by done. by apply (hp_size _ _ _ _ H).
    - intros a n b k [[<- <-]|[N Hn]]%lookup_insert_Some [[<- <-]|[N' Hk]]%lookup_insert_Some D; [done|..|by apply (hp_apart _ _ _ _ H)].
      + apply (hp_al _ _ _ _ H) in Hk. unfold apart. cbn. lia.
      + apply (hp_al _ _ _ _ H) in Hn. unfold apart. cbn. lia.
    - intros a n b k [[<- <-]|[N Hn]]%lookup_insert_Some Hb; [|by apply (hp_apart_free _ _ _ _ H)].
      apply (hp_free _ _ _ _ H) in Hb. unfold apart. cbn. lia.
    - split; [|lia]. apply Z.divide_add_r; [done|]. by exists nu. }
  destruct (free_ok _ _ _ _ (brk s) nu H2 (lookup_insert_eq _ _ _)) as (s' & fl' & E & H' & U & Eb & El & (a & n & Fi & Fn) & Ll & Fo & Ec').
  rewrite E. rewrite delete_insert_id in H' by done. cbn [brk s2 set_size set_brk limit] in Eb, El.
  exists s', fl'. cbn. split_and!; [done|done|lia|lia|done|exists a, n; split; [done|lia]|done|intros x Hx O; apply Fo; [done|lia]|].
  intros x Hx O. rewrite Ec' by (done || lia). apply Ec. lia.
Qed.

Section taking.
Context {base : Z} {s : ust} {fl : list (Z * Z)} {al : gmap Z Z} (H : heap base s fl al).
Context {f1 f2 g : list (Z * Z)} {p n pv pn nunits : Z} (E : fl = f1 ++ (p, n) :: f2) (Eg : (base, 0) :: f1 = g ++ [(pv, pn)]).
Context (Hn : 1 <= nunits <= n).

Lemma taken_in : (p, n) ∈ fl.
Proof. rewrite E, elem_of_app. right. left. Qed.

Lemma taken_before b k : (b, k) ∈ (base, 0) :: f1 -> b + 16 * k < p.
Proof.
  pose proof (hp_sorted _ _ _ _ H) as S. rewrite E in S. apply sorted_split in S as [S _].
  intros [[= -> ->]|Hb]%elem_of_cons; [|exact (S _ Hb)]. pose proof taken_in as Hp%(hp_free _ _ _ _ H). lia.
Qed.

Lemma taken_after b k : (b, k) ∈ f2 -> p + 16 * n < b.
Proof. pose proof (hp_sorted _ _ _ _ H) as S. rewrite E in S. apply sorted_split in S as [_ S]. intros Hb. exact (S _ Hb). Qed.

Lemma taken_prev : (pv, pn) ∈ (base, 0) :: f1.
Proof. rewrite Eg, elem_of_app. right. left. Qed.

Lemma taken_paths :
  path (cells s) g pv /\ cells s !! pv = Some (Hdr p pn) /\ cells s !! p = Some (Hdr (next f2 base) n) /\ path (cells s) f2 base.
Proof.
  pose proof (hp_path _ _ _ _ H) as P. rewrite E, app_comm_cons, Eg in P. rewrite <-app_assoc in P.
  apply path_app in P as [P1 P2]. cbn in P1, P2. tauto.
Qed.

(** A list with the block gone or shorter. *)
Lemma taken_sorted x : x = [] \/ (exists k, x = [(p, k)] /\ k <= n) -> StronglySorted gap (f1 ++ x ++ f2).
Proof.
  pose proof (hp_sorted _ _ _ _ H) as S. rewrite E in S. apply StronglySorted_app in S as (S0 & S1 & S2). apply StronglySorted_inv in S2 as [S2 S3].
  rewrite Forall_forall in S3.
  intros Hx. apply StronglySorted_app. split_and!; [|done|].
  - intros y z Hy [Hz|Hz]%elem_of_app; [|apply S0; [done|by right]]. destruct Hx as [->|(k & -> & _)]; [by apply elem_of_nil in Hz|].
    apply list_elem_of_singleton in Hz as ->. specialize (S0 y (p, n) Hy ltac:(left)). done.
  - destruct Hx as [->|(k & -> & Hk)]; [done|]. constructor; [done|]. apply Forall_forall. intros y Hy.
    specialize (S3 _ Hy). unfold gap in *. cbn in *. lia.
Qed.

Lemma taken_other_header a k : al !! a = Some k -> a < p \/ p + 16 * n <= a.
Proof.
  intros Ha. pose proof (hp_apart_free _ _ _ _ H _ _ _ _ Ha taken_in) as A. apply (hp_al _ _ _ _ H) in Ha. unfold apart in A. cbn in A. lia.
Qed.

(** Block [q] of [nunits] units is taken from the end of block [p]; [x] is what stays free of it. *)
Lemma taken_heap m q x fr :
  q + 16 * nunits = p + 16 * n ->
  (nunits = n /\ x = []) \/ (nunits < n /\ x = [(p, n - nunits)]) ->
  path m (((base, 0) :: f1) ++ x ++ f2) base -> (exists k, m !! q = Some (Hdr k nunits)) ->
  (exists k, (fr, k) ∈ (base, 0) :: f1) ->
  (forall a k, al !! a = Some k -> m !! a = cells s !! a) ->
  heap base (Ust m fr (brk s) (limit s)) (f1 ++ x ++ f2) (<[q := nunits]> al).
Proof.
  intros Hq Hx P Em [k0 Hfr] Ma. pose proof taken_in as Hp. pose proof Hp as Hp'. apply (hp_free _ _ _ _ H) in Hp' as (B1 & B2 & B3 & B4).
  assert (16 | q) as Dq.
  { replace q with (p + 16 * (n - nunits)) by lia. apply Z.divide_add_r; [done|]. exists (n - nunits). lia. }
  assert (forall b k, (b, k) ∈ f1 ++ x ++ f2 -> (b, k) ∈ f1 \/ (b, k) ∈ f2 \/ (b = p /\ k = n - nunits /\ nunits < n)) as M.
  { intros b k. rewrite !elem_of_app. destruct Hx as [[_ ->]|[? ->]]; [set_solver|].
    rewrite list_elem_of_singleton. intros [?|[[= -> ->]|?]]; auto. }
  assert (forall b k, (b, k) ∈ f1 \/ (b, k) ∈ f2 -> (b, k) ∈ fl) as Mf by (intros b k; rewrite E, elem_of_app, elem_of_cons; tauto).
  split; cbn [cells freep brk].
  - apply (hp_base _ _ _ _ H).
  - done.
  - exists k0. rewrite app_comm_cons, elem_of_app. by left.
  - apply taken_sorted. destruct Hx as [[_ ->]|[? ->]]; [by left|right]. eexists. split; [done|lia].
  - intros b k [Hb|[Hb|(-> & -> & ?)]]%M; [apply (hp_free _ _ _ _ H); auto..|]. split_and!; [lia..|done].
  - intros a k [[<- <-]|[N Ha]]%lookup_insert_Some; [split_and!; [lia..|done]|by apply (hp_al _ _ _ _ H)].
  - intros a k [[<- <-]|[N Ha]]%lookup_insert_Some; [done|]. rewrite (Ma _ _ Ha). by apply (hp_size _ _ _ _ H).
  - intros a k b j [[<- <-]|[N Ha]]%lookup_insert_Some [[<- <-]|[N' Hb]]%lookup_insert_Some D; [done|..|by apply (hp_apart _ _ _ _ H)].
    + pose proof (hp_apart_free _ _ _ _ H _ _ _ _ Hb Hp) as A. unfold apart in *. cbn in *. lia.
    + pose proof (hp_apart_free _ _ _ _ H _ _ _ _ Ha Hp) as A. unfold apart in *. cbn in *. lia.
  - intros a k b j [[<- <-]|[N Ha]]%lookup_insert_Some Hb.
    + unfold apart. cbn. apply M in Hb as [Hb|[Hb|(-> & -> & ?)]]; [|apply taken_after in Hb; lia|lia].
      assert ((b, j) ∈ (base, 0) :: f1) as Hb' by by right. apply taken_before in Hb'. lia.
    + apply M in Hb as [Hb|[Hb|(-> & -> & ?)]]; [apply (hp_apart_free _ _ _ _ H _ _ _ _ Ha); auto..|].
      pose proof (hp_apart_free _ _ _ _ H _ _ _ _ Ha Hp) as A. unfold apart in *. cbn in *. lia.
  - apply (hp_brk _ _ _ _ H).
Qed.

Lemma outside_ring x b k : outside base fl x -> (b, k) ∈ (base, 0) :: f1 \/ (b, k) ∈ fl -> x <> b.
Proof.
  intros [O1 O2] [[[= -> ->]|Hb]%elem_of_cons|Hb]; [done|..]; intros ->.
  - assert ((b, k) ∈ fl) as Hf by (rewrite E, elem_of_app; by left). apply (O2 _ _ Hf). apply (hp_free _ _ _ _ H) in Hf. lia.
  - apply (O2 _ _ Hb). apply (hp_free _ _ _ _ H) in Hb. lia.
Qed.

Lemma prefix_size b k : (b, k) ∈ (base, 0) :: f1 -> 0 <= k.
Proof.
  intros [[= _ ->]|Hf]%elem_of_cons; [lia|]. assert ((b, k) ∈ fl) as Hf' by (rewrite E, elem_of_app; by left).
  apply (hp_free _ _ _ _ H) in Hf'. lia.
Qed.

Lemma prefix_before b k : (b, k) ∈ g -> b < pv.
Proof.
  intros Hb. assert ((base, 0) :: fl = g ++ (pv, pn) :: (p, n) :: f2) as Er.
  { rewrite E, app_comm_cons, Eg, <-app_assoc. done. }
  destruct (ring_order H _ _ _ _ Er) as (_ & _ & _ & O). specialize (O _ _ Hb).
  assert (0 <= k); [|lia]. apply (prefix_size b). rewrite Eg, elem_of_app. by left.
Qed.

Lemma allocated_not_prev a k : al !! a = Some k -> a <> pv.
Proof.
  intros Ha ->. pose proof taken_prev as [[= Eb _]|Hf]%elem_of_cons; [apply (hp_al _ _ _ _ H) in Ha; lia|].
  assert ((pv, pn) ∈ fl) as Hf' by (rewrite E, elem_of_app; by left).
  pose proof (hp_apart_free _ _ _ _ H _ _ _ _ Ha Hf') as A. apply (hp_free _ _ _ _ H) in Hf'. apply (hp_al _ _ _ _ H) in Ha.
  unfold apart in A. cbn in A. lia.
Qed.

Definition cut : Z := p + 16 * (n - nunits).

Lemma take_exact : nunits = n ->
  take_block pv p nunits s = (cut + 16, set_freep pv (with_cells (<[pv := Hdr (next f2 base) pn]> (cells s)) s)) /\
  heap base (set_freep pv (with_cells (<[pv := Hdr (next f2 base) pn]> (cells s)) s)) (f1 ++ [] ++ f2) (<[cut := nunits]> al).
Proof.
  intros En. destruct taken_paths as (P1 & Ev & Ep & P2). pose proof (taken_before _ _ taken_prev) as Lv.
  pose proof (prefix_size _ _ taken_prev). assert (cut = p) as Ec by (unfold cut; lia). split.
  - unfold take_block, size_. rewrite (at_lookup _ _ _ Ep). cbn [s_size]. rewrite En, Z.eqb_refl, Ec.
    unfold set_ptr, ptr, size_. by rewrite (at_lookup _ _ _ Ep), (at_lookup _ _ _ Ev).
  - rewrite Ec. apply taken_heap; [lia|by left| |eexists; cbn; rewrite lookup_insert_ne by lia; rewrite En; exact Ep|exists pn; apply taken_prev|].
    + rewrite Eg, <-app_assoc. apply path_app. split; [|split; [apply lookup_insert_eq|]].
      * eapply path_ext; [|exact P1]. intros b k Hb%prefix_before. apply lookup_insert_ne. lia.
      * eapply path_ext; [|exact P2]. intros b k Hb%taken_after. apply lookup_insert_ne. lia.
    + intros a k Ha%allocated_not_prev. by apply lookup_insert_ne.
Qed.

Lemma take_part : nunits < n ->
  exists q0, let s' := set_freep pv (with_cells (<[cut := Hdr q0 nunits]> (<[p := Hdr (next f2 base) (n - nunits)]> (cells s))) s) in
  take_block pv p nunits s = (cut + 16, s') /\ heap base s' (f1 ++ [(p, n - nunits)] ++ f2) (<[cut := nunits]> al).
Proof.
  intros Nn. destruct taken_paths as (P1 & Ev & Ep & P2). pose proof (taken_before _ _ taken_prev) as Lv.
  pose proof (prefix_size _ _ taken_prev). assert (p < cut < p + 16 * n) as Lc by (unfold cut; lia).
  set (s1 := set_size p (n - nunits) s). exists (ptr s1 cut). intros s'. split.
  - unfold take_block, size_. rewrite (at_lookup _ _ _ Ep). cbn [s_size]. destruct (Z.eqb_spec n nunits); [lia|]. fold s1.
    assert (at_ s1 p = Hdr (ptr s p) (n - nunits)) as -> by (apply at_lookup, lookup_insert_eq). cbn [s_size].
    change sizeof_Header with 16. fold cut. unfold set_size at 1. unfold s', s1, set_size, with_cells, set_freep. cbn [cells freep brk limit].
    unfold ptr at 3. by rewrite (at_lookup _ _ _ Ep).
  - apply taken_heap; [unfold cut; lia|by right| |eexists; apply lookup_insert_eq|exists pn; apply taken_prev|].
    + rewrite Eg, <-app_assoc. apply path_app. split; [|split; [|split]].
      * eapply path_ext; [|exact P1]. intros b k Hb%prefix_before. cbn. rewrite !lookup_insert_ne by lia. done.
      * cbn. rewrite !lookup_insert_ne by lia. done.
      * cbn. rewrite lookup_insert_ne by lia. apply lookup_insert_eq.
      * eapply path_ext; [|exact P2]. intros b k Hb%taken_after. cbn. rewrite !lookup_insert_ne by lia. done.
    + intros a k Ha%taken_other_header. cbn. rewrite !lookup_insert_ne by lia. done.
Qed.

Lemma take_ok :
  exists s' fl', take_block pv p nunits s = (cut + 16, s') /\ heap base s' fl' (<[cut := nunits]> al) /\ al !! cut = None /\
    units fl' + nunits = units fl /\ brk s' = brk s /\ limit s' = limit s /\
    (forall x, outside base fl x -> cells s' !! x = cells s !! x).
Proof.
  assert (al !! cut = None) as Nq.
  { destruct (al !! cut) as [k|] eqn:Ek; [|done]. apply taken_other_header in Ek. unfold cut in Ek. lia. }
  destruct (decide (nunits = n)) as [En|Nn].
  - destruct (take_exact En) as [-> Hh]. eexists _, _. split_and!; [done|exact Hh|done| |done|done|].
    + rewrite E, !units_app. unfold units. cbn. lia.
    + intros x O. cbn. apply lookup_insert_ne, not_eq_sym. eapply outside_ring; [done|left; apply taken_prev].
  - destruct (take_part ltac:(lia)) as (q0 & -> & Hh). eexists _, _. split_and!; [done|exact Hh|done| |done|done|].
    + rewrite E, !units_app. unfold units. cbn. lia.
    + intros x [O1 O2]. specialize (O2 _ _ taken_in). cbn. unfold cut. rewrite !lookup_insert_ne by lia. done.
Qed.
End taking.

(** One lap of [malloc] round the list. *)
Section scanning.
Context {base : Z} {s : ust} {fl : list (Z * Z)} {al : gmap Z Z} (H : heap base s fl al).

Abbreviation ring := ((base, 0) :: fl).
Abbreviation len := (S (length fl)).

Definition block (j : nat) : Z * Z := default (0, 0) (ring !! j).
Definition succ (j : nat) : nat := if decide (S j = len) then 0%nat else S j.
Definition pred (j : nat) : nat := if decide (j = 0%nat) then length fl else (j - 1)%nat.
Definition dist (k j : nat) : nat := if decide (j <= k)%nat then (k - j)%nat else (k + len - j)%nat.

Lemma block_lookup j : (j < len)%nat -> ring !! j = Some (block j).
Proof. intros L. unfold block. by destruct (lookup_lt_is_Some_2 ring j L) as [x ->]. Qed.

Lemma block_at j : (j < len)%nat -> ptr s (block j).1 = (block (succ j)).1 /\ size_ s (block j).1 = (block j).2.
Proof.
  intros L. pose proof (block_lookup j L) as E. destruct (block j) as [a n] eqn:Eb.
  pose proof (path_at _ _ _ _ _ _ (hp_path _ _ _ _ H) E) as P. unfold ptr, size_. cbn [fst snd].
  rewrite (at_lookup _ _ _ P). cbn [s_ptr s_size].
  split; [|done]. unfold succ. case_decide as D.
  - rewrite drop_ge by (cbn; lia). done.
  - destruct (drop (S j) ring) as [|[c x] l] eqn:Ed.
    { apply (f_equal length) in Ed. rewrite length_drop in Ed. cbn in Ed. lia. }
    unfold block. rewrite <-(Nat.add_0_r (S j)), <-lookup_drop, Ed. done.
Qed.

Lemma block_inj i j : (i < len)%nat -> (j < len)%nat -> (block i).1 = (block j).1 -> i = j.
Proof.
  intros Li Lj E. apply (NoDup_lookup ring.*1 i j (block i).1).
  - apply (ring_nodup H).
  - by rewrite list_lookup_fmap, block_lookup.
  - by rewrite list_lookup_fmap, block_lookup, E.
Qed.

Lemma dist_step k j : (k < len)%nat -> (j < len)%nat -> j <> k -> dist k j = S (dist k (succ j)) /\ (succ j < len)%nat /\ pred (succ j) = j.
Proof. unfold dist, succ, pred. intros. repeat case_decide; lia. Qed.

Lemma scan k nunits d fuel j :
  1 <= nunits -> (k < len)%nat -> (block k).1 = freep s ->
  (j < len)%nat -> dist k j = d -> (d < fuel)%nat ->
  (forall i, (i < len)%nat -> (d < dist k i)%nat -> (block i).2 < nunits) ->
  (exists i, (1 <= i < len)%nat /\ nunits <= (block i).2 /\
     malloc_loop fuel (block (pred j)).1 (block j).1 nunits s = Some (take_block (block (i - 1)).1 (block i).1 nunits s)) \/
  ((forall i, (i < len)%nat -> (block i).2 < nunits) /\
     malloc_loop fuel (block (pred j)).1 (block j).1 nunits s =
       '(p, s) ← morecore nunits s; if p =? 0 then Some (0, s) else malloc_loop (fuel - S d) p (ptr s p) nunits s).
Proof.
  intros Hn Lk Ek. revert fuel j. induction d as [|d IH]; intros [|fuel] j Lj D F V; [lia| |lia|]; cbn [malloc_loop];
    destruct (block_at j Lj) as [Ep Es]; rewrite Es; destruct (Z.geb_spec (block j).2 nunits) as [G|G].
  1,3: left; exists j; assert (j <> 0%nat) by (intros ->; cbn in G; lia);
    unfold pred; rewrite decide_False by done; split_and!; [lia..|done].
  - right. assert (j = k) as -> by (unfold dist in D; repeat case_decide; lia). split.
    + intros i Li. destruct (decide (i = k)) as [->|]; [done|]. apply V; [done|]. unfold dist. repeat case_decide; lia.
    + rewrite Ek, Z.eqb_refl. by rewrite Nat.sub_succ, Nat.sub_0_r.
  - assert (j <> k) as Nj by (intros ->; unfold dist in D; case_decide; lia).
    destruct (dist_step k j Lk Lj Nj) as (D1 & L1 & P1).
    destruct (Z.eqb_spec (block j).1 (freep s)) as [E|_]; [rewrite <-Ek in E; by apply block_inj in E|].
    rewrite Ep, Nat.sub_succ. specialize (IH fuel (succ j)). rewrite P1 in IH. apply IH; [done|lia|lia|].
    intros i Li Di. destruct (decide (i = j)) as [->|Nij]; [done|]. apply V; [done|].
    assert (dist k i <> dist k j) by (unfold dist; repeat case_decide; lia). lia.
Qed.

(** The block at a place other than the first. *)
Lemma block_split i :
  (1 <= i < len)%nat ->
  fl = take (i - 1) fl ++ block i :: drop i fl /\ (base, 0) :: take (i - 1) fl = take (i - 1) ring ++ [block (i - 1)].
Proof.
  intros L. destruct i as [|i]; [lia|]. rewrite Nat.sub_succ, Nat.sub_0_r.
  assert (fl !! i = Some (block (S i))) as E by (rewrite <-(block_lookup (S i)) by lia; done).
  split; [symmetry; by apply take_drop_middle|].
  change ((base, 0) :: take i fl) with (take (S i) ring). apply take_S_r, block_lookup. lia.
Qed.
End scanning.

Lemma take_at base s fl al nunits i :
  heap base s fl al -> 1 <= nunits -> (1 <= i < S (length fl))%nat -> nunits <= (block (base := base) (fl := fl) i).2 ->
  exists q s' fl', take_block (block (base := base) (fl := fl) (i - 1)).1 (block (base := base) (fl := fl) i).1 nunits s = (q + 16, s') /\
    heap base s' fl' (<[q := nunits]> al) /\ al !! q = None /\ units fl' + nunits = units fl /\ brk s' = brk s /\ limit s' = limit s /\
    (forall x, outside base fl x -> cells s' !! x = cells s !! x).
Proof.
  intros H Hn L Hi. destruct (block_split (base := base) i L) as [E Eg]. destruct (block i) as [p n] eqn:Ei. destruct (block (i - 1)) as [pv pn].
  destruct (take_ok H E Eg (conj Hn Hi)) as (s' & fl' & G). eexists _, s', fl'. exact G.
Qed.

(** A free block that fits is found. *)
Lemma lap_ok base s fl al nunits fuel :
  heap base s fl al -> 1 <= nunits -> (length fl < fuel)%nat ->
  (exists q s' fl', malloc_loop fuel (freep s) (ptr s (freep s)) nunits s = Some (q + 16, s') /\
    heap base s' fl' (<[q := nunits]> al) /\ al !! q = None /\ units fl' + nunits = units fl /\ brk s' = brk s /\ limit s' = limit s /\
    (forall x, outside base fl x -> cells s' !! x = cells s !! x)) \/
  ((forall a n, (a, n) ∈ fl -> n < nunits) /\
   malloc_loop fuel (freep s) (ptr s (freep s)) nunits s =
     '(p, s) ← morecore nunits s; if p =? 0 then Some (0, s) else malloc_loop (fuel - S (length fl)) p (ptr s p) nunits s).
Proof.
  intros H Hn F. destruct (hp_freep _ _ _ _ H) as [n0 Hf]. apply list_elem_of_lookup in Hf as [k Ek].
  assert (k < S (length fl))%nat as Lk by (apply lookup_lt_Some in Ek; done).
  assert ((block (base := base) (fl := fl) k).1 = freep s) as Ef by (unfold block; by rewrite Ek).
  destruct (block_at H k Lk) as [Ep _]. rewrite Ef in Ep. rewrite Ep.
  assert (pred (fl := fl) (succ (fl := fl) k) = k /\ (succ (fl := fl) k < S (length fl))%nat /\ dist (fl := fl) k (succ (fl := fl) k) = length fl)
    as (P & L & D) by (unfold pred, succ, dist; repeat case_decide; lia).
  pose proof (scan H k nunits (length fl) fuel (succ (fl := fl) k) Hn Lk Ef L D F) as S. rewrite P, Ef in S.
  destruct S as [(i & Li & Hi & ->)|[V ->]].
  - intros i Li Di. unfold dist in Di. case_decide; lia.
  - left. destruct (take_at _ _ _ _ _ _ H Hn Li Hi) as (q & s' & fl' & -> & G). eauto.
  - right. split; [|done]. intros a n Ha. apply list_elem_of_lookup in Ha as [i Hi].
    specialize (V (S i)). unfold block in V. change (((base, 0) :: fl) !! S i) with (fl !! i) in V. rewrite Hi in V. apply V. apply lookup_lt_Some in Hi. lia.
Qed.

Lemma malloc_heap base s fl al nbytes :
  heap base s fl al -> limit s <= 2 ^ 36 -> 0 <= nbytes < 2 ^ 31 - 31 ->
  exists r s' fl' al', malloc base nbytes s = Some (r, s') /\ heap base s' fl' al' /\
    16 * units fl' + brk s = 16 * units fl + brk s' - (if r =? 0 then 0 else 16 * ((nbytes + 15) / 16 + 1)) /\
    brk s <= brk s' /\ limit s' = limit s /\
    (r = 0 /\ al' = al \/ r <> 0 /\ al !! (r - 16) = None /\ al' = <[r - 16 := (nbytes + 15) / 16 + 1]> al) /\
    (forall x, x < brk s -> outside base fl x -> cells s' !! x = cells s !! x).
Proof.
  intros H Hl Hb. unfold malloc. change sizeof_Header with 16. replace (nbytes + 16 - 1) with (nbytes + 15) by lia.
  set (nu := (nbytes + 15) / 16 + 1). assert (1 <= nu /\ 16 * nu < 2 ^ 31) as [Hn1 Hn2] by (subst nu; zdm). clearbody nu.
  rewrite u32_small by lia. pose proof (hp_base _ _ _ _ H) as B0. pose proof (ring_length H) as Lr.
  destruct (Z.eqb_spec (freep s) 0) as [Z0|_].
  { destruct (hp_freep _ _ _ _ H) as [n0 Hf]. rewrite Z0 in Hf. apply elem_of_cons in Hf as [[= Eb _]|Hf%(hp_free _ _ _ _ H)]; lia. }
  destruct (lap_ok _ _ _ _ nu (laps s) H Hn1) as [(q & s' & fl' & -> & H' & Nq & U & Eb & El & Ec)|[V ->]]; [unfold laps; lia|..].
  - pose proof (hp_al _ _ _ _ H' q nu (lookup_insert_eq _ _ _)) as (_ & Hq & _).
    exists (q + 16), s', fl', (<[q := nu]> al). destruct (Z.eqb_spec (q + 16) 0); [lia|]. replace (q + 16 - 16) with q by lia.
    split_and!; [done|done|lia|lia|done|by right|by auto].
  - destruct (morecore_ok _ _ _ _ nu H Hl Hn1 Hn2) as [->|(s1 & fl1 & -> & H1 & U1 & Lb & El1 & (a & n & Fi & Fn) & Ll & Fo & Ec1)]; cbn [mbind option_bind].
    + exists 0, s, fl, al. cbn. split_and!; [done|done|lia|lia|done|by left|done].
    + assert (freep s1 <> 0) as Nz.
      { destruct (hp_freep _ _ _ _ H1) as [n0 Hf]. apply elem_of_cons in Hf as [[= -> _]|Hf%(hp_free _ _ _ _ H1)]; lia. }
      destruct (Z.eqb_spec (freep s1) 0) as [|_]; [done|].
      destruct (lap_ok _ _ _ _ nu (laps s - S (length fl)) H1 Hn1) as [(q & s' & fl' & -> & H' & Nq & U & Eb & El & Ec)|[V1 _]].
      * unfold laps. lia.
      * pose proof (hp_al _ _ _ _ H' q nu (lookup_insert_eq _ _ _)) as (_ & Hq & _).
        exists (q + 16), s', fl', (<[q := nu]> al). destruct (Z.eqb_spec (q + 16) 0); [lia|]. replace (q + 16 - 16) with q by lia.
        split_and!; [done|done|lia|lia|congruence|by right|]. intros x Hx O. rewrite Ec by auto. by apply Ec1.
      * specialize (V1 _ _ Fi). lia.
Qed.

(** * Programs that use the allocator *)

(** [live]: what has been allocated and not freed, with the sizes asked for.
    [shadow]: what the program has stored there.  [got]: the bytes [malloc] has
    obtained from [sbrk]. *)
Record usys := Usys { us : ust; live : gmap Z Z; shadow : gmap Z Header; got : Z }.

Inductive uevent :=
| Malloc (n : Z)
| Free (a : Z)
| Store (a x : Z) (h : Header)           (* into the block at [a] *)
| Limit (z : Z)                          (* the memory the kernel has left changes *)
| Grow (z : Z).                          (* the program calls [sbrk] itself *)

Definition set_cells (m : gmap Z Header) (s : ust) : ust := Ust m (freep s) (brk s) (limit s).

(** [None]: the program may not do this.  [Some None]: the allocator is stuck. *)
Definition ustep (base : Z) (e : uevent) (s : usys) : option (option usys) :=
  match e with
  | Malloc n =>
      if (0 <=? n) && (n <? 2 ^ 32)                  (* [n] is a [uint] *)
      then
        Some ('(r, s') ← malloc base n (us s);
              Some (Usys s' (if r =? 0 then live s else <[r := n]> (live s)) (shadow s) (got s + (brk s' - brk (us s)))))
      else None
  | Free a =>
      n ← live s !! a;
      Some (s' ← free a (us s);
            Some (Usys s' (delete a (live s)) (filter (fun p => ~ (a <= p.1 < a + n)) (shadow s)) (got s)))
  | Store a x h =>
      n ← live s !! a;
      if (a <=? x) && (x + 16 <=? a + n) && ((x - a) mod 16 =? 0)
      then Some (Some (Usys (set_cells (<[x := h]> (cells (us s))) (us s)) (live s) (<[x := h]> (shadow s)) (got s)))
      else None
  | Limit z =>
      if z <=? 2 ^ 36
      then Some (Some (Usys (Ust (cells (us s)) (freep (us s)) (brk (us s)) z) (live s) (shadow s) (got s)))
      else None
  | Grow z =>
      if (0 <=? z) && (z mod 16 =? 0) && (brk (us s) + z <=? limit (us s))
      then Some (Some (Usys (set_brk (brk (us s) + z) (us s)) (live s) (shadow s) (got s)))
      else None
  end.

Fixpoint urun (base : Z) (evs : list uevent) (s : usys) : option (option usys) :=
  match evs with
  | [] => Some (Some s)
  | e :: evs => match ustep base e s with Some (Some s') => urun base evs s' | r => r end
  end.

(** A request whose size in bytes, header and rounding included, is an [int]. *)
Definition fits_int (e : uevent) : Prop := match e with Malloc n => n < 2 ^ 31 - 31 | _ => True end.

Definition ustart (brk0 lim : Z) : usys := Usys (Ust ∅ 0 brk0 lim) ∅ ∅ 0.

(** The units of a request, header included. *)
Definition units_for (n : Z) : Z := (n + 15) / 16 + 1.
Definition used (l : gmap Z Z) : Z := map_fold (fun _ n acc => units_for n + acc) 0 l.

Lemma used_insert a n l : l !! a = None -> used (<[a := n]> l) = units_for n + used l.
Proof. intros E. unfold used. rewrite map_fold_insert_L; [done|intros; lia|done]. Qed.

Lemma used_delete a n l : l !! a = Some n -> used l = units_for n + used (delete a l).
Proof. intros E. rewrite <-(used_insert a) by apply lookup_delete_eq. by rewrite insert_delete_id. Qed.

Record uinv (base : Z) (s : usys) (fl : list (Z * Z)) (al : gmap Z Z) : Prop := {
  ui_heap : heap base (us s) fl al;
  ui_limit : limit (us s) <= 2 ^ 36;
  ui_live a n : live s !! a = Some n -> 0 <= n /\ al !! (a - 16) = Some (units_for n);
  ui_al b u : al !! b = Some u -> exists n, live s !! (b + 16) = Some n;
  ui_shadow x h : shadow s !! x = Some h -> cells (us s) !! x = Some h /\ exists a n, live s !! a = Some n /\ a <= x < a + n;
  ui_got : 16 * (units fl + used (live s)) = got s }.

Lemma payload base s fl al b u x :
  heap base s fl al -> al !! b = Some u -> b + 16 <= x < b + 16 * u ->
  outside base fl x /\ x < brk s /\ (forall b' u', al !! b' = Some u' -> x <> b') /\
  (forall b' u', al !! b' = Some u' -> b' <> b -> ~ (b' <= x < b' + 16 * u')).
Proof.
  intros H Hb Hx. pose proof (hp_al _ _ _ _ H _ _ Hb) as (? & ? & ? & _). split_and!; [split; [lia|]|lia|..].
  - intros c k Hc. pose proof (hp_apart_free _ _ _ _ H _ _ _ _ Hb Hc) as A. unfold apart in A. cbn in A. lia.
  - intros b' u' Hb' ->. destruct (decide (b' = b)) as [->|N]; [lia|].
    pose proof (hp_apart _ _ _ _ H _ _ _ _ Hb' Hb N) as A. apply (hp_al _ _ _ _ H) in Hb'. unfold apart in A. cbn in A. lia.
  - intros b' u' Hb' N. pose proof (hp_apart _ _ _ _ H _ _ _ _ Hb' Hb N) as A. unfold apart in A. cbn in A. lia.
Qed.

Lemma units_for_bound n : 0 <= n -> 1 <= units_for n /\ n + 16 <= 16 * units_for n.
Proof. unfold units_for. intros. zdm. Qed.

Lemma shadow_outside base s fl al x h :
  uinv base s fl al -> shadow s !! x = Some h ->
  exists a n, live s !! a = Some n /\ a <= x < a + n /\ cells (us s) !! x = Some h /\ outside base fl x /\ x < brk (us s) /\
    (forall b u, al !! b = Some u -> x <> b) /\ (forall b u, al !! b = Some u -> b <> a - 16 -> ~ (b <= x < b + 16 * u)).
Proof.
  intros I Hx. destruct (ui_shadow _ _ _ _ I _ _ Hx) as (Ec & a & n & La & Rx). exists a, n. split; [done|]. split; [done|]. split; [done|].
  destruct (ui_live _ _ _ _ I _ _ La) as [Hn Ha]. pose proof (units_for_bound n Hn).
  eapply payload; [apply I|exact Ha|lia].
Qed.

Lemma umalloc_malloc base s fl al n r :
  uinv base s fl al -> n < 2 ^ 31 - 31 -> ustep base (Malloc n) s = Some r ->
  exists s' fl' al', r = Some s' /\ uinv base s' fl' al'.
Proof.
  intros I Hn. cbn [ustep]. destruct (Z.leb_spec 0 n); [|done]. destruct (Z.ltb_spec n (2 ^ 32)); [|lia]. cbn [andb].
  destruct (malloc_heap base (us s) fl al n) as (a & s' & fl' & al' & -> & H' & U & Lb & El & Ha & Ec); [apply I|apply I|lia|].
  cbn. intros [= <-]. eexists _, fl', al'. split; [done|]. split; cbn [us live shadow got].
  - done.
  - rewrite El. apply (ui_limit _ _ _ _ I).
  - destruct Ha as [[-> ->]|(Nz & Na & ->)]; [apply (ui_live _ _ _ _ I)|]. destruct (Z.eqb_spec a 0); [done|].
    intros b k [[<- <-]|[N Lb']]%lookup_insert_Some; [by rewrite lookup_insert_eq|].
    rewrite lookup_insert_ne by lia. by apply (ui_live _ _ _ _ I).
  - destruct Ha as [[-> ->]|(Nz & Na & ->)]; [apply (ui_al _ _ _ _ I)|]. destruct (Z.eqb_spec a 0); [done|].
    intros b u [[<- <-]|[N Hb]]%lookup_insert_Some; [exists n; replace (a - 16 + 16) with a by lia; apply lookup_insert_eq|].
    rewrite lookup_insert_ne by lia. by apply (ui_al _ _ _ _ I) in Hb.
  - intros x h Hx. destruct (shadow_outside _ _ _ _ _ _ I Hx) as (b & k & Lk & Rx & E & O & Lx & _). split; [by rewrite Ec|].
    exists b, k. split; [|done]. destruct Ha as [[-> ->]|(Nz & Na & ->)]; [done|]. destruct (Z.eqb_spec a 0); [done|].
    rewrite lookup_insert_ne; [done|]. intros ->. apply (ui_live _ _ _ _ I) in Lk as [_ Lk]. congruence.
  - pose proof (ui_got _ _ _ _ I) as G. destruct Ha as [[-> ->]|(Nz & Na & ->)]; [cbn in *; lia|].
    destruct (Z.eqb_spec a 0); [done|]. rewrite used_insert; [unfold units_for; lia|].
    destruct (live s !! a) as [k|] eqn:Lk; [|done]. apply (ui_live _ _ _ _ I) in Lk as [_ Lk]. congruence.
Qed.

Lemma umalloc_free base s fl al a r :
  uinv base s fl al -> ustep base (Free a) s = Some r -> exists s' fl' al', r = Some s' /\ uinv base s' fl' al'.
Proof.
  intros I. cbn [ustep]. destruct (live s !! a) as [n|] eqn:La; cbn [mbind option_bind]; [|done].
  destruct (ui_live _ _ _ _ I _ _ La) as [Hn Ha]. pose proof (units_for_bound n Hn) as Un.
  destruct (free_ok _ _ _ _ _ _ (ui_heap _ _ _ _ I) Ha) as (s' & fl' & E & H' & U & Eb & El & _ & _ & _ & Ec).
  replace (a - 16 + 16) with a in E by lia. rewrite E. cbn [mbind option_bind]. intros [= <-]. eexists _, fl', _. split; [done|].
  split; cbn [us live shadow got].
  - exact H'.
  - rewrite El. apply (ui_limit _ _ _ _ I).
  - intros b k [N Lb]%lookup_delete_Some. rewrite lookup_delete_ne by lia. by apply (ui_live _ _ _ _ I).
  - intros b u [N Hb]%lookup_delete_Some. rewrite lookup_delete_ne by lia. by apply (ui_al _ _ _ _ I) in Hb.
  - intros x h [Hx Nx]%map_lookup_filter_Some. destruct (shadow_outside _ _ _ _ _ _ I Hx) as (b & k & Lk & Rx & Ex & O & _ & Nh & _).
    split; [rewrite Ec; [done|by eapply Nh|done]|]. exists b, k. split; [|done]. rewrite lookup_delete_ne; [done|].
    intros ->. rewrite La in Lk. injection Lk as <-. by apply Nx.
  - pose proof (ui_got _ _ _ _ I) as G. rewrite (used_delete a n) in G by done. lia.
Qed.

Lemma umalloc_store base s fl al a x h r :
  uinv base s fl al -> ustep base (Store a x h) s = Some r -> exists s' fl' al', r = Some s' /\ uinv base s' fl' al'.
Proof.
  intros I. cbn [ustep]. destruct (live s !! a) as [n|] eqn:La; cbn; [|done].
  destruct (Z.leb_spec a x); [|done]. destruct (Z.leb_spec (x + 16) (a + n)); [|done]. cbn. case_match; [|done]. intros [= <-].
  destruct (ui_live _ _ _ _ I _ _ La) as [Hn Ha]. pose proof (units_for_bound n Hn) as Un. pose proof (ui_heap _ _ _ _ I) as Hh.
  destruct (payload _ _ _ _ _ _ x Hh Ha) as ([O1 O2] & _ & Nh & _); [lia|].
  eexists _, fl, al. split; [done|]. split; cbn [us live shadow got]; [|apply I..| |apply I].
  - destruct Hh as [P1 P2 P3 P4 P5 P6 P7 P8 P9 P10]. split; try done.
    + eapply path_ext; [|exact P2]. intros b k Hb. apply lookup_insert_ne. intros ->.
      apply elem_of_cons in Hb as [[= -> ->]|Hb]; [done|]. apply (O2 _ _ Hb). apply P5 in Hb. lia.
    + intros b u Hb. destruct (P7 _ _ Hb) as [q Hq]. exists q. cbn. rewrite lookup_insert_ne; [done|by eapply Nh].
  - intros y h' [[<- <-]|[N Hy]]%lookup_insert_Some; cbn.
    + split; [apply lookup_insert_eq|]. exists a, n. split; [done|lia].
    + destruct (ui_shadow _ _ _ _ I _ _ Hy) as [Ey G]. split; [by rewrite lookup_insert_ne|done].
Qed.

(** Before the first call. *)
Record fresh (base : Z) (s : usys) : Prop := {
  fr_freep : freep (us s) = 0; fr_live : live s = ∅; fr_shadow : shadow s = ∅; fr_got : got s = 0; fr_base : 0 < base;
  fr_limit : limit (us s) <= 2 ^ 36; fr_brk : (16 | brk (us s)) /\ base + 16 <= brk (us s) <= 2 ^ 36 }.

Definition primed (base : Z) (s : usys) : usys :=
  Usys (set_size base 0 (set_freep base (set_ptr base base (us s)))) (live s) (shadow s) (got s).

Lemma primed_inv base s : fresh base s -> uinv base (primed base s) [] ∅.
Proof.
  intros [F1 F2 F3 F4 F5 F6 F7]. split; cbn [us live shadow got primed].
  - split; cbn; try done.
    + split; [|done]. rewrite lookup_insert_eq. unfold ptr, at_. cbn. by rewrite lookup_insert_eq.
    + exists 0. left.
    + constructor.
    + by intros a n ?%elem_of_nil.
  - done.
  - rewrite F2. done.
  - done.
  - rewrite F3. done.
  - rewrite F2, F4. done.
Qed.

Lemma primed_malloc base s n : fresh base s -> ustep base (Malloc n) s = ustep base (Malloc n) (primed base s).
Proof.
  intros [F1 F2 F3 F4 F5 F6 F7]. cbn [ustep]. unfold malloc. rewrite F1. cbn [us primed freep set_size set_freep].
  destruct (Z.eqb_spec base 0); [lia|]. done.
Qed.

Definition usable (base : Z) (s : usys) : Prop := fresh base s \/ exists fl al, uinv base s fl al.

Lemma usable_brk base s z : usable base s -> (16 | z) -> brk (us s) <= z <= 2 ^ 36 ->
  usable base (Usys (set_brk z (us s)) (live s) (shadow s) (got s)).
Proof.
  intros [[F1 F2 F3 F4 F5 F6 F7]|(fl & al & I)] Dz Hz; [left; split; cbn; try done; split; [done|lia]|right].
  exists fl, al.
  destruct I as [[P1 P2 P3 P4 P5 P6 P7 P8 P9 P10] I2 I3 I4 I5 I6]. split; cbn [us live shadow got]; try done. split; cbn; try done.
  - intros a n Ha%P5. split_and!; [lia..|tauto].
  - intros a n Ha%P6. split_and!; [lia..|tauto].
  - split; [done|lia].
Qed.

Lemma usable_limit base s z : usable base s -> z <= 2 ^ 36 ->
  usable base (Usys (Ust (cells (us s)) (freep (us s)) (brk (us s)) z) (live s) (shadow s) (got s)).
Proof.
  intros [[F1 F2 F3 F4 F5 F6 F7]|(fl & al & I)] Hz; [by left|right]. exists fl, al.
  destruct I as [[P1 P2 P3 P4 P5 P6 P7 P8 P9 P10] I2 I3 I4 I5 I6]. by split.
Qed.

Lemma usable_limit_bound base s : usable base s -> limit (us s) <= 2 ^ 36 /\ (16 | brk (us s)).
Proof. intros [F|(fl & al & I)]; [split; apply F|]. split; [apply I|]. apply (hp_brk _ _ _ _ (ui_heap _ _ _ _ I)). Qed.

Lemma usable_step base e s r :
  usable base s -> fits_int e -> ustep base e s = Some r -> exists s', r = Some s' /\ usable base s'.
Proof.
  intros G Hf E. destruct e as [n|a|a x h|z|z].
  - assert (exists s0 fl al, uinv base s0 fl al /\ ustep base (Malloc n) s0 = Some r) as (s0 & fl & al & I & E').
    { destruct G as [F|(fl & al & I)]; [|by exists s, fl, al]. exists (primed base s), [], ∅.
      split; [by apply primed_inv|]. by rewrite <-primed_malloc. }
    destruct (umalloc_malloc _ _ _ _ _ _ I Hf E') as (s' & fl' & al' & -> & I'). exists s'. split; [done|]. right. eauto.
  - destruct G as [F|(fl & al & I)]; [cbn in E; rewrite (fr_live _ _ F) in E; done|].
    destruct (umalloc_free _ _ _ _ _ _ I E) as (s' & fl' & al' & -> & I'). exists s'. split; [done|]. right. eauto.
  - destruct G as [F|(fl & al & I)]; [cbn in E; rewrite (fr_live _ _ F) in E; done|].
    destruct (umalloc_store _ _ _ _ _ _ _ _ I E) as (s' & fl' & al' & -> & I'). exists s'. split; [done|]. right. eauto.
  - cbn in E. destruct (Z.leb_spec z (2 ^ 36)); [|done]. injection E as <-. eexists. split; [done|]. by apply usable_limit.
  - cbn in E. destruct (Z.leb_spec 0 z); [|done]. destruct (Z.eqb_spec (z mod 16) 0); [|done].
    destruct (Z.leb_spec (brk (us s) + z) (limit (us s))); [|done]. injection E as <-. eexists. split; [done|].
    destruct (usable_limit_bound _ _ G) as [? D]. apply usable_brk; [done| |lia].
    apply Z.divide_add_r; [done|]. by apply Z.mod_divide.
Qed.

(** The blocks of a program, and the list of free blocks behind them. *)
Record safe (base : Z) (s : usys) : Prop := {
  sf_bounds a n : live s !! a = Some n -> base + 32 <= a /\ a + n <= brk (us s) /\ (16 | a);
  sf_apart a n b k : live s !! a = Some n -> live s !! b = Some k -> a <> b -> a + n <= b \/ b + k <= a;
  sf_stored x h : shadow s !! x = Some h -> cells (us s) !! x = Some h;
  sf_list : exists fl, (freep (us s) <> 0 -> path (cells (us s)) ((base, 0) :: fl) base) /\ StronglySorted gap fl /\
    16 * (units fl + used (live s)) = got s }.

Lemma usable_safe base s : usable base s -> safe base s.
Proof.
  intros [[F1 F2 F3 F4 F5 F6 F7]|(fl & al & I)].
  - split; rewrite ?F2, ?F3; [done..|]. exists []. rewrite F4. split_and!; [done|constructor|done].
  - pose proof (ui_heap _ _ _ _ I) as H. split.
    + intros a n La. destruct (ui_live _ _ _ _ I _ _ La) as [Hn Ha]. pose proof (units_for_bound n Hn).
      apply (hp_al _ _ _ _ H) in Ha as (? & ? & ? & D). split_and!; [lia..|].
      replace a with (a - 16 + 16) by lia. apply Z.divide_add_r; [done|]. by exists 1.
    + intros a n b k La Lb N. destruct (ui_live _ _ _ _ I _ _ La) as [Hn Ha]. destruct (ui_live _ _ _ _ I _ _ Lb) as [Hk Hb].
      pose proof (units_for_bound n Hn). pose proof (units_for_bound k Hk).
      pose proof (hp_apart _ _ _ _ H _ _ _ _ Ha Hb ltac:(lia)) as A. unfold apart in A. cbn in A. lia.
    + intros x h Hx. apply (ui_shadow _ _ _ _ I _ _ Hx).
    + exists fl. split_and!; [intros _; apply H|apply H|apply I].
Qed.

(** C15: the user-level allocator.  In every run of a program whose requests are
    smaller than 2^31 - 31 bytes, that frees only what it holds and stores only
    into its own blocks, whatever memory up to 2^36 the kernel grants and also
    when the program itself extends the break: malloc and free return; the blocks held are aligned, inside the heap, at least as long as asked
    for and disjoint; what the program has stored in them is still there; and the
    free list is linked and sorted, with no two blocks that touch, and makes up,
    with the blocks held, exactly the memory obtained from sbrk. *)
Theorem umalloc_safe (base brk0 lim : Z) (evs : list uevent) :
  0 < base -> base + 16 <= brk0 <= 2 ^ 36 -> (16 | brk0) -> lim <= 2 ^ 36 -> Forall fits_int evs ->
  match urun base evs (ustart brk0 lim) with
  | Some (Some s) => safe base s
  | Some None => False
  | None => True
  end.
Proof.
  intros Hb Hk Hd Hl Hf. assert (usable base (ustart brk0 lim)) as G by (left; by split).
  revert G. generalize (ustart brk0 lim) as s. induction Hf as [|e evs He _ IH]; intros s G; cbn [urun]; [by apply usable_safe|].
  destruct (ustep base e s) as [r|] eqn:E; [|done]. destruct (usable_step _ _ _ _ G He E) as (s' & -> & G'). by apply IH.
Qed.

(** Three blocks are taken, the middle one is filled, its neighbours are freed,
    and a large request needs more memory. *)
Definition program : list uevent :=
  [Malloc 100; Malloc 24; Malloc 4000; Store 73568 73568 (Hdr 7 7); Free 73616; Free 69552; Malloc 200000; Limit 0; Malloc 300000].

Lemma umalloc_safe_witness :
  exists s, urun 4096 program (ustart 8192 1000000) = Some (Some s) /\ size (live s) = 2%nat /\ safe 4096 s.
Proof.
  assert ((match urun 4096 program (ustart 8192 1000000) with Some (Some s) => size (live s) | _ => 0%nat end) = 2%nat) as G
    by (vm_compute; reflexivity).
  assert (match urun 4096 program (ustart 8192 1000000) with Some (Some s) => safe 4096 s | Some None => False | None => True end) as H.
  { apply (umalloc_safe 4096 8192 1000000 program); [lia|lia|exists 512; reflexivity|lia|repeat constructor; done]. }
  destruct (urun 4096 program (ustart 8192 1000000)) as [[s|]|]; [|discriminate G|discriminate G].
  exists s. split; [reflexivity|]. split; [exact G|exact H].
Defined.

(** The bound on the requests is needed.  For a request of almost four gigabytes
    the argument of [sbrk] is an [int], the number of bytes is 2 to the 32 and
    becomes 0, and [malloc] goes on with a block past the break that was never
    obtained: the program holds memory outside its heap. *)
Lemma malloc_huge :
  exists s, urun 4096 [Malloc (2 ^ 32 - 16)] (ustart 8192 (2 ^ 36)) = Some (Some s) /\
    live s !! 8208 = Some (2 ^ 32 - 16) /\ brk (us s) = 8192 /\ got s = 0 /\ ~ safe 4096 s.
Proof.
  eexists. split; [vm_compute; reflexivity|]. split_and!; [vm_compute; reflexivity..|].
  intros [B _ _ _]. destruct (B 8208 (2 ^ 32 - 16) ltac:(vm_compute; reflexivity)) as (_ & H & _).
  cbn [us brk] in H. lia.
Qed.
