(* ===== verification/Sleeplock.v ===== *)
(** Sleep locks (kernel/sleeplock.c, kernel/sleeplock.h).

    The operations are written over any state that contains a sleep lock, so
    that the buffer cache and the inode table use the same definitions.  The
    critical sections run under the lock's spinlock.  A call of [acquiresleep]
    that finds the lock taken goes to sleep: for one process running on its own
    that is the end of its progress, which [acquiresleep] reports as the outcome
    [Panic "sleep"].  Several processes competing for one lock are the step
    relation [lstep], where [sleep] parks the process and [wakeup] makes every
    parked process look again. *)

From S2P Require Import Prelude Kern.

(** [locked] is the code's flag, [pid] the holder kept for [holdingsleep]. *)
Record sleeplock := Sleeplock { slocked : Z; spid : Z }.

#[export] Instance sleeplock_eq_dec : EqDecision sleeplock.
Proof. solve_decision. Defined.

Definition initsleeplock : sleeplock := Sleeplock 0 0.

Section ops.
Context {S : Type} (get : S -> sleeplock) (set : sleeplock -> S -> S) (lid : lockid) (mypid : S -> Z).

Definition acquiresleep : K S unit :=
  acquire lid;;
  s ← kget;
  if negb (slocked (get s) =? 0) then panic "sleep"
  else
    kmodify (fun s => set (Sleeplock 1 (mypid s)) s);;
    release lid.

Definition releasesleep : K S unit :=
  acquire lid;;
  kmodify (set (Sleeplock 0 0));;
  release lid.

Definition holdingsleep : K S bool :=
  acquire lid;;
  s ← kget;
  let r := negb (slocked (get s) =? 0) && (spid (get s) =? mypid s) in
  release lid;;
  mret r.

Lemma acquiresleep_ok h s :
  lid ∉ h -> slocked (get s) = 0 ->
  acquiresleep h s = Ok tt h (set (Sleeplock 1 (mypid s)) s).
Proof.
  intros Hh Hl. unfold acquiresleep. kstep. erewrite bind_ok by reflexivity.
  rewrite Hl. change (negb (0 =? 0)) with false. cbv iota. erewrite bind_ok by reflexivity. by kstep.
Qed.

Lemma acquiresleep_sleeps h s :
  lid ∉ h -> slocked (get s) <> 0 -> acquiresleep h s = Panic "sleep".
Proof.
  intros Hh Hl. unfold acquiresleep. kstep. erewrite bind_ok by reflexivity.
  by rewrite (proj2 (Z.eqb_neq _ _) Hl).
Qed.

Lemma releasesleep_ok h s : lid ∉ h -> releasesleep h s = Ok tt h (set (Sleeplock 0 0) s).
Proof. intros Hh. unfold releasesleep. kstep. erewrite bind_ok by reflexivity. by kstep. Qed.

Lemma holdingsleep_ok h s :
  lid ∉ h ->
  holdingsleep h s = Ok (negb (slocked (get s) =? 0) && (spid (get s) =? mypid s)) h s.
Proof. intros Hh. unfold holdingsleep. kstep. erewrite bind_ok by reflexivity. by kstep. Qed.
End ops.

(** * Processes competing for one sleep lock *)

Module Contend.

(** Where a process is: outside, parked in [sleep], at the head of the loop of
    [acquiresleep] after a wakeup, or between acquire and release. *)
Inductive point := Out | Asleep | Woken | Inside.

#[export] Instance point_eq_dec : EqDecision point.
Proof. solve_decision. Defined.

Record sys := Sys { lk : sleeplock; pcs : gmap Z point }.

Definition at_ (s : sys) (p : Z) : point := default Out (pcs s !! p).

Definition boot : sys := Sys initsleeplock ∅.

(** One evaluation of the loop condition, under the spinlock. *)
Definition acquire_try (p : Z) (s : sys) : sys :=
  if negb (slocked (lk s) =? 0) then Sys (lk s) (<[p := Asleep]> (pcs s))
  else Sys (Sleeplock 1 p) (<[p := Inside]> (pcs s)).

Definition wakeup_point (x : point) : point := match x with Asleep => Woken | x => x end.

Definition release_all (p : Z) (s : sys) : sys :=
  Sys (Sleeplock 0 0) (wakeup_point <$> <[p := Out]> (pcs s)).

Inductive lstep : sys -> sys -> Prop :=
| step_acquire p s : at_ s p = Out \/ at_ s p = Woken -> lstep s (acquire_try p s)
| step_release p s : at_ s p = Inside -> lstep s (release_all p s).

Inductive reach : sys -> Prop :=
| reach_boot : reach boot
| reach_step s s' : reach s -> lstep s s' -> reach s'.

Record inv (s : sys) : Prop := {
  inv_free : slocked (lk s) = 0 -> forall p, at_ s p <> Inside /\ at_ s p <> Asleep;
  inv_held : slocked (lk s) <> 0 -> forall p, at_ s p = Inside <-> p = spid (lk s) }.

Lemma at_insert s l p q x :
  at_ (Sys l (<[p := x]> (pcs s))) q = if decide (p = q) then x else at_ s q.
Proof.
  unfold at_. cbn [pcs]. case_decide as E; [subst; by rewrite lookup_insert_eq|by rewrite lookup_insert_ne].
Qed.

Lemma at_release s p q :
  at_ (release_all p s) q = if decide (p = q) then Out else wakeup_point (at_ s q).
Proof.
  unfold at_, release_all. cbn [pcs]. rewrite lookup_fmap. case_decide as E.
  - subst. by rewrite lookup_insert_eq.
  - rewrite lookup_insert_ne by done. by destruct (pcs s !! q).
Qed.

Lemma inv_boot : inv boot.
Proof. split; intros H p; unfold at_, boot; cbn; [done|]. by destruct H. Qed.

Lemma inv_step s s' : inv s -> lstep s s' -> inv s'.
Proof.
  intros I Hs. destruct Hs as [p s0 Hp|p s0 Hp]; destruct I as [Hf Hh].
  - unfold acquire_try. destruct (Z.eqb_spec (slocked (lk s0)) 0) as [E|E]; cbn [negb].
    + split; intros H q; [done|]. rewrite at_insert. cbn [spid lk].
      case_decide as D; [subst; tauto|]. split; [|intros ->; done].
      intros X. by destruct (Hf E q).
    + split; intros H q; [done|]. rewrite at_insert. cbn [spid lk] in *. case_decide as D.
      * subst q. split; [done|]. intros X. apply Hh in X; [|done]. destruct Hp; congruence.
      * by apply Hh.
  - split; intros H q; [|done]. rewrite at_release. case_decide as D; [done|].
    destruct (decide (slocked (lk s0) = 0)) as [E|E].
    + destruct (Hf E q). by destruct (at_ s0 q).
    + assert (at_ s0 q <> Inside).
      { intros X. apply (Hh E) in X. apply (Hh E) in Hp. congruence. }
      by destruct (at_ s0 q).
Qed.

Lemma inv_reach s : reach s -> inv s.
Proof. induction 1; [apply inv_boot|by eapply inv_step]. Qed.

(** C29: sleep locks exclude and never lose a wakeup.  In every reachable state at
    most one process is between acquiresleep and releasesleep, holdingsleep's
    test is true exactly for that process, a process is parked only while
    another one holds the lock, and when the lock is free every process that
    wants it gets it in its next step. *)
Theorem sleeplock_liveness (s : sys) (p q : Z) :
  reach s ->
  (at_ s p = Inside -> at_ s q = Inside -> p = q) /\
  (at_ s p = Inside <-> slocked (lk s) <> 0 /\ spid (lk s) = p) /\
  (at_ s p = Asleep -> exists r, r <> p /\ at_ s r = Inside /\
     forall q', at_ s q' = Asleep -> at_ (release_all r s) q' = Woken) /\
  (slocked (lk s) = 0 -> at_ s p = Woken -> at_ (acquire_try p s) p = Inside).
Proof.
  intros [Hf Hh]%inv_reach. destruct (decide (slocked (lk s) = 0)) as [E|E].
  - destruct (Hf E p), (Hf E q). split_and!; try done.
    + split; [done|]. by intros [].
    + intros _ _. unfold acquire_try. rewrite E. cbn. rewrite at_insert. by rewrite decide_True.
  - split_and!; try done.
    + intros A B. apply (Hh E) in A, B. congruence.
    + rewrite (Hh E p). naive_solver.
    + intros A. exists (spid (lk s)). assert (at_ s (spid (lk s)) = Inside) as B by by apply Hh.
      split_and!; [congruence|done|]. intros q' C. rewrite at_release.
      case_decide; [congruence|]. by rewrite C.
Qed.

Lemma sleeplock_liveness_witness :
  let s := acquire_try 8 (acquire_try 7 boot) in
  exists r, r <> 8 /\ at_ s r = Inside /\ at_ (release_all r s) 8 = Woken.
Proof.
  assert (reach (acquire_try 8 (acquire_try 7 boot))) as R.
  { eapply reach_step; [eapply reach_step; [apply reach_boot|]|]; apply step_acquire; by left. }
  destruct (sleeplock_liveness _ 8 7 R) as (_ & _ & H & _).
  destruct (H eq_refl) as (r & A & B & C). exists r. split_and!; [done..|]. by apply C.
Defined.

End Contend.
