(* ===== verification/Bio.v ===== *)
(** The buffer cache (kernel/bio.c, kernel/buf.h).

    A buffer is named by its index in [bcache.buf]; the doubly linked list
    through [prev]/[next] is the list [lru] of indices from [head.next] (most
    recently used) to [head.prev].  [virtio_disk_rw] moves one block between a
    buffer and the disk; the disk keeps the history of its contents, because a
    crash can happen between any two writes.

    [view] is the contents of the disk as the callers of [bread] see it.  The
    refinement theorem at the end runs an arbitrary client on the cache and on
    that view. *)

From S2P Require Import Prelude Kern Sleeplock.

Definition NBUF : Z := 30.
Definition BSIZE : Z := 1024.

Record buf := Buf {
  b_valid : Z; b_dev : Z; b_blockno : Z; b_lock : sleeplock; b_refcnt : Z; b_data : list Z }.

Abbreviation disk := (gmap Z (list Z)).

Definition zero_block : list Z := replicate 1024 0.
Definition dread (d : disk) (b : Z) : list Z := default zero_block (d !! b).

Record bst := Bst {
  bufs : list buf;
  lru : list nat;
  dnow : disk;
  dpast : list disk;      (* earlier contents, the latest first *)
  mypid : Z }.

Definition set_bufs (x : list buf) (s : bst) : bst := Bst x (lru s) (dnow s) (dpast s) (mypid s).
Definition set_lru (x : list nat) (s : bst) : bst := Bst (bufs s) x (dnow s) (dpast s) (mypid s).

Definition buf0 : buf := Buf 0 0 0 initsleeplock 0 zero_block.
Definition getb (s : bst) (i : nat) : buf := default buf0 (bufs s !! i).
Definition updb (i : nat) (f : buf -> buf) (s : bst) : bst := set_bufs (alter f i (bufs s)) s.

Definition set_lock (l : sleeplock) (b : buf) : buf :=
  Buf (b_valid b) (b_dev b) (b_blockno b) l (b_refcnt b) (b_data b).
Definition add_ref (k : Z) (b : buf) : buf :=
  Buf (b_valid b) (b_dev b) (b_blockno b) (b_lock b) (u32 (b_refcnt b + k)) (b_data b).
Definition set_data (d : list Z) (b : buf) : buf :=
  Buf (b_valid b) (b_dev b) (b_blockno b) (b_lock b) (b_refcnt b) d.
Definition set_valid (v : Z) (b : buf) : buf :=
  Buf v (b_dev b) (b_blockno b) (b_lock b) (b_refcnt b) (b_data b).
Definition recycle (dev blockno : Z) (b : buf) : buf :=
  Buf 0 dev blockno (b_lock b) 1 (b_data b).

(** [for(b = bcache.buf; ...)] pushes every buffer at the front of the list. *)
Definition binit (d : disk) (pid : Z) : bst :=
  Bst (replicate (Z.to_nat NBUF) buf0)
      (fold_left (fun l i => i :: l) (seq 0 (Z.to_nat NBUF)) []) d [] pid.

Definition buf_lockid (i : nat) : lockid := LSleep (Z.of_nat i).
Definition lockb (i : nat) : K bst unit :=
  acquiresleep (fun s => b_lock (getb s i)) (fun l => updb i (set_lock l)) (buf_lockid i) mypid.
Definition unlockb (i : nat) : K bst unit :=
  releasesleep (fun l => updb i (set_lock l)) (buf_lockid i).
Definition holdingb (i : nat) : K bst bool :=
  holdingsleep (fun s => b_lock (getb s i)) (buf_lockid i) mypid.

(** The two loops of [bget]: forward over the list for the block, backward for
    an unused buffer. *)
Definition is_block (dev blockno : Z) (b : buf) : bool := (b_dev b =? dev) && (b_blockno b =? blockno).
Definition scan (f : buf -> bool) (s : bst) (ids : list nat) : option nat :=
  head (filter (fun i => f (getb s i) = true) ids).

Definition bget (dev blockno : Z) : K bst nat :=
  acquire LBcache;;
  s ← kget;
  match scan (is_block dev blockno) s (lru s) with
  | Some i =>
      kmodify (updb i (add_ref 1));;
      release LBcache;;
      lockb i;;
      mret i
  | None =>
      match scan (fun b => b_refcnt b =? 0) s (reverse (lru s)) with
      | Some i =>
          kmodify (updb i (recycle dev blockno));;
          release LBcache;;
          lockb i;;
          mret i
      | None => panic "bget: no buffers"
      end
  end.

(** The disk reads into the buffer, or takes the buffer's data. *)
Definition virtio_disk_rw (i : nat) (write : bool) : K bst unit :=
  kmodify (fun s =>
    if write
    then Bst (bufs s) (lru s) (<[b_blockno (getb s i) := b_data (getb s i)]> (dnow s))
             (dnow s :: dpast s) (mypid s)
    else updb i (set_data (dread (dnow s) (b_blockno (getb s i)))) s).

Definition bread (dev blockno : Z) : K bst nat :=
  i ← bget dev blockno;
  s ← kget;
  (if b_valid (getb s i) =? 0
   then virtio_disk_rw i false;; kmodify (updb i (set_valid 1))
   else mret tt);;
  mret i.

Definition bwrite (i : nat) : K bst unit :=
  r ← holdingb i;
  if negb r then panic "bwrite" else virtio_disk_rw i true.

Definition brelse (i : nat) : K bst unit :=
  r ← holdingb i;
  if negb r then panic "brelse"
  else
    unlockb i;;
    acquire LBcache;;
    kmodify (updb i (add_ref (-1)));;
    s ← kget;
    (if b_refcnt (getb s i) =? 0
     then kput (set_lru (i :: filter (.≠ i) (lru s)) s)
     else mret tt);;
    release LBcache.

Definition bpin (i : nat) : K bst unit :=
  acquire LBcache;;
  kmodify (updb i (add_ref 1));;
  release LBcache.

Definition bunpin (i : nat) : K bst unit :=
  acquire LBcache;;
  kmodify (updb i (add_ref (-1)));;
  release LBcache.
