(* ===== verification/Block.v ===== *)
(** What the buffer cache promises to its callers, and that it keeps it.

    [Blk] is the cache seen from outside: every block has its current contents
    [view] and its contents on the disk [dsk]; [refs] counts the references to a
    block's buffer (holders and pins), [held] is the set of blocks whose buffer
    is locked by the running process.  The log and the file system are written
    against these operations.  A handle is the block number itself: the system
    has a single disk, [ROOTDEV], and a block has at most one buffer.

    [cache_refines] shows that kernel/bio.c, with its thirty buffers, recycling
    and recency list, gives every client exactly these results. *)

From S2P Require Import Prelude Kern Sleeplock Bio.

Definition ROOTDEV : Z := 1.

Module Blk.

Record bk := Bk {
  view : disk; dsk : disk; past : list disk; refs : gmap Z Z; held : gset Z }.

Definition init (d : disk) : bk := Bk d d [] ∅ ∅.

(** A count of zero is not kept. *)
Definition rref (r : gmap Z Z) (b : Z) : Z := default 0 (r !! b).
Definition rset (b n : Z) (r : gmap Z Z) : gmap Z Z := if n =? 0 then delete b r else <[b := n]> r.

Definition ref (a : bk) (b : Z) : Z := rref (refs a) b.
Definition set_ref (b n : Z) (a : bk) : bk :=
  Bk (view a) (dsk a) (past a) (rset b n (refs a)) (held a).
Definition set_held (x : gset Z) (a : bk) : bk := Bk (view a) (dsk a) (past a) (refs a) x.

(** Contents of a buffer the caller holds. *)
Definition data (b : Z) : K bk (list Z) := kgets (fun a => dread (view a) b).
Definition store (b : Z) (d : list Z) : K bk unit :=
  kmodify (fun a => Bk (<[b := d]> (view a)) (dsk a) (past a) (refs a) (held a)).

Definition bread (b : Z) : K bk (list Z) :=
  a ← kget;
  if decide (b ∈ held a) then panic "sleep"
  else if decide (refs a !! b = None /\ NBUF <= Z.of_nat (size (refs a))) then panic "bget: no buffers"
  else
    kput (set_held ({[b]} ∪ held a) (set_ref b (ref a b + 1) a));;
    mret (dread (view a) b).

Definition bwrite (b : Z) : K bk unit :=
  a ← kget;
  if decide (b ∈ held a)
  then kput (Bk (view a) (<[b := dread (view a) b]> (dsk a)) (dsk a :: past a) (refs a) (held a))
  else panic "bwrite".

Definition brelse (b : Z) : K bk unit :=
  a ← kget;
  if decide (b ∈ held a)
  then kput (set_held (held a ∖ {[b]}) (set_ref b (ref a b - 1) a))
  else panic "brelse".

Definition bpin (b : Z) : K bk unit := kmodify (fun a => set_ref b (ref a b + 1) a).
Definition bunpin (b : Z) : K bk unit := kmodify (fun a => set_ref b (ref a b - 1) a).

End Blk.

(** There is a buffer for block [b]. *)
Definition refs_room (a : Blk.bk) (b : Z) : Prop :=
  Blk.refs a !! b <> None \/ Z.of_nat (size (Blk.refs a)) < NBUF.

(** The store after [bread b]. *)
Definition after_read (b : Z) (a : Blk.bk) : Blk.bk :=
  Blk.set_held ({[b]} ∪ Blk.held a) (Blk.set_ref b (Blk.ref a b + 1) a).

Lemma lookup_rset b n r c :
  Blk.rset b n r !! c = if decide (b = c) then if n =? 0 then None else Some n else r !! c.
Proof.
  unfold Blk.rset. case_decide as E.
  - subst. destruct (n =? 0); [apply lookup_delete_eq|apply lookup_insert_eq].
  - destruct (n =? 0); [by apply lookup_delete_ne|by apply lookup_insert_ne].
Qed.

Lemma rref_rset b n r c : Blk.rref (Blk.rset b n r) c = if decide (b = c) then n else Blk.rref r c.
Proof.
  unfold Blk.rref at 1. rewrite lookup_rset. case_decide; [|done].
  destruct (Z.eqb_spec n 0); [by subst|done].
Qed.

Lemma refs_set_ref b n a c :
  Blk.refs (Blk.set_ref b n a) !! c =
  if decide (b = c) then if n =? 0 then None else Some n else Blk.refs a !! c.
Proof. apply lookup_rset. Qed.

Lemma ref_set_ref b n a c :
  Blk.ref (Blk.set_ref b n a) c = if decide (b = c) then n else Blk.ref a c.
Proof. apply rref_rset. Qed.

Lemma ref_read a b : Blk.ref (after_read b a) b = Blk.ref a b + 1.
Proof.
  change (Blk.ref (Blk.set_ref b (Blk.ref a b + 1) a) b = Blk.ref a b + 1).
  rewrite ref_set_ref. by rewrite decide_True.
Qed.

Lemma held_read a b : b ∈ Blk.held (after_read b a).
Proof. unfold after_read, Blk.set_held. cbn [Blk.held]. set_solver. Qed.

Lemma kget_bind {S A} (f : S -> K S A) h0 s : (kget ≫= f) h0 s = f s h0 s.
Proof. done. Qed.

(** * Clients *)

Inductive bop := ORead (b : Z) | OStore (b : Z) (d : list Z) | OWrite (b : Z)
               | ORelease (b : Z) | OPin (b : Z) | OUnpin (b : Z).

(** A client is well behaved when it stores to, writes, releases and pins only
    buffers it holds, unpins only pinned blocks, keeps reference counts in range,
    and drops the last reference to a block only if the block is on the disk. *)
Definition bop_ok (o : bop) (a : Blk.bk) : bool :=
  match o with
  | ORead b => bool_decide (Blk.ref a b + 1 < 2 ^ 32)
  | OStore b _ => bool_decide (b ∈ Blk.held a)
  | OWrite b => bool_decide (b ∈ Blk.held a)
  | OPin b => bool_decide (b ∈ Blk.held a) && bool_decide (Blk.ref a b + 1 < 2 ^ 32)
  | ORelease b => bool_decide (b ∈ Blk.held a) &&
      (bool_decide (Blk.ref a b <> 1) || bool_decide (dread (Blk.view a) b = dread (Blk.dsk a) b))
  | OUnpin b => bool_decide (1 < Blk.ref a b)
  end.

Definition aop (o : bop) : K Blk.bk (list Z) :=
  match o with
  | ORead b => Blk.bread b
  | OStore b d => Blk.store b d;; mret []
  | OWrite b => Blk.bwrite b;; mret []
  | ORelease b => Blk.brelse b;; mret []
  | OPin b => Blk.bpin b;; mret []
  | OUnpin b => Blk.bunpin b;; mret []
  end.

(** The same client on the cache: it remembers which buffer [bread] gave it. *)
Definition slot (s : bst) (b : Z) : nat := default 0%nat (scan (is_block ROOTDEV b) s (lru s)).

Definition on_slot (b : Z) (f : nat -> K bst unit) : K bst (list Z) :=
  i ← kgets (fun s => slot s b); f i;; mret [].

Definition cop (o : bop) : K bst (list Z) :=
  match o with
  | ORead b => i ← bread ROOTDEV b; kgets (fun s => b_data (getb s i))
  | OStore b d => on_slot b (fun i => kmodify (updb i (set_data d)))
  | OWrite b => on_slot b bwrite
  | ORelease b => on_slot b brelse
  | OPin b => on_slot b bpin
  | OUnpin b => on_slot b bunpin
  end.

Fixpoint arun (ops : list bop) : K Blk.bk (list (list Z)) :=
  match ops with
  | [] => mret []
  | o :: ops =>
      a ← kget;
      if bop_ok o a then r ← aop o; rs ← arun ops; mret (r :: rs) else panic "misuse"
  end.

Fixpoint crun (ops : list bop) : K bst (list (list Z)) :=
  match ops with
  | [] => mret []
  | o :: ops => r ← cop o; rs ← crun ops; mret (r :: rs)
  end.

(** * The simulation *)

Lemma lookup_updb i f s j :
  bufs (updb i f s) !! j = if decide (i = j) then f <$> bufs s !! j else bufs s !! j.
Proof.
  unfold updb, set_bufs. cbn [bufs]. case_decide as E.
  - subst. apply list_lookup_alter_eq.
  - by apply list_lookup_alter_ne.
Qed.

Lemma bufs_updb i f s x : bufs s !! i = Some x -> bufs (updb i f s) = <[i := f x]> (bufs s).
Proof.
  intros H. apply list_eq. intros j. rewrite lookup_updb. case_decide as E.
  - subst. rewrite H. symmetry. apply list_lookup_insert_eq. by eapply lookup_lt_Some.
  - by rewrite list_lookup_insert_ne.
Qed.

Lemma getb_Some s i x : bufs s !! i = Some x -> getb s i = x.
Proof. intros H. unfold getb. by rewrite H. Qed.

Lemma scan_Some f s ids i : scan f s ids = Some i -> i ∈ ids /\ f (getb s i) = true.
Proof. intros H%head_Some_elem_of. apply list_elem_of_filter in H. naive_solver. Qed.

Lemma scan_None f s ids : scan f s ids = None -> forall i, i ∈ ids -> f (getb s i) = false.
Proof.
  unfold scan. intros H%head_None i Hi. destruct (f (getb s i)) eqn:E; [|done].
  assert (i ∈ filter (fun i => f (getb s i) = true) ids) as X by by apply list_elem_of_filter.
  rewrite H in X. by apply elem_of_nil in X.
Qed.

Section sim.
Context (pid : Z).

(** What one buffer says about its block. *)
Record buf_rel (a : Blk.bk) (x : buf) : Prop := {
  br_other : b_dev x <> ROOTDEV -> b_refcnt x = 0 /\ slocked (b_lock x) = 0;
  br_valid : b_dev x = ROOTDEV -> b_valid x <> 0;
  br_data : b_dev x = ROOTDEV -> b_data x = dread (Blk.view a) (b_blockno x);
  br_ref : b_dev x = ROOTDEV -> b_refcnt x = Blk.ref a (b_blockno x);
  br_held : b_dev x = ROOTDEV -> b_blockno x ∈ Blk.held a -> b_lock x = Sleeplock 1 pid;
  br_free : b_dev x = ROOTDEV -> b_blockno x ∉ Blk.held a -> slocked (b_lock x) = 0 }.

Definition cached (s : bst) (i : nat) (b : Z) : Prop :=
  exists x, bufs s !! i = Some x /\ b_dev x = ROOTDEV /\ b_blockno x = b.

(** The abstract state on its own: a block is held only with a reference, and
    an unreferenced block is as on the disk. *)
Record blk_ok (a : Blk.bk) (b : Z) : Prop := {
  ok_held : b ∈ Blk.held a -> 0 < Blk.ref a b;
  ok_pos : forall n, Blk.refs a !! b = Some n -> 0 < n < 2 ^ 32;
  ok_clean : Blk.refs a !! b = None -> dread (Blk.view a) b = dread (Blk.dsk a) b }.

Record sim (s : bst) (a : Blk.bk) : Prop := {
  sim_len : length (bufs s) = Z.to_nat NBUF;
  sim_lru : forall i, i ∈ lru s <-> (i < Z.to_nat NBUF)%nat;
  sim_buf : forall i x, bufs s !! i = Some x -> buf_rel a x;
  sim_uniq : forall i j b, cached s i b -> cached s j b -> i = j;
  sim_ref : forall b, (forall i, ~ cached s i b) -> Blk.refs a !! b = None;
  sim_ok : forall b, blk_ok a b;
  sim_disk : dnow s = Blk.dsk a;
  sim_past : dpast s = Blk.past a;
  sim_pid : mypid s = pid }.

(** Two abstract states that say the same of block [c]. *)
Definition same_at (a a' : Blk.bk) (c : Z) : Prop :=
  dread (Blk.view a') c = dread (Blk.view a) c /\ Blk.refs a' !! c = Blk.refs a !! c /\
  (c ∈ Blk.held a' <-> c ∈ Blk.held a) /\ dread (Blk.dsk a') c = dread (Blk.dsk a) c.

Lemma buf_rel_same a a' x :
  (b_dev x = ROOTDEV -> same_at a a' (b_blockno x)) -> buf_rel a x -> buf_rel a' x.
Proof.
  intros H [B1 B2 B3 B4 B5 B6].
  split; [done|done|..]; intros D; destruct (H D) as (V & R & Hh & _).
  - by rewrite V, B3.
  - rewrite B4 by done. unfold Blk.ref, Blk.rref. by rewrite R.
  - rewrite Hh. auto.
  - rewrite Hh. auto.
Qed.

Lemma blk_ok_same a a' c : same_at a a' c -> blk_ok a c -> blk_ok a' c.
Proof.
  intros (V & R & Hh & D) [O1 O2 O3]. split.
  - rewrite Hh. unfold Blk.ref, Blk.rref. by rewrite R.
  - intros n. rewrite R. apply O2.
  - rewrite R, V, D. exact O3.
Qed.

Lemma sim_upd s a s' a' i x x' b :
  sim s a -> bufs s !! i = Some x ->
  (b_dev x = ROOTDEV /\ b_blockno x = b) \/ (b_refcnt x = 0 /\ forall j, ~ cached s j b) ->
  bufs s' = <[i := x']> (bufs s) -> (forall j, j ∈ lru s' <-> j ∈ lru s) ->
  b_dev x' = ROOTDEV -> b_blockno x' = b -> buf_rel a' x' ->
  (forall c, c <> b -> same_at a a' c) -> blk_ok a' b ->
  dnow s' = Blk.dsk a' -> dpast s' = Blk.past a' -> mypid s' = pid ->
  sim s' a'.
Proof.
  intros [S1 S2 S3 S4 S5 S6 S7 S8 S9] Hx Hid Hb' Hl Hd' Hn' Hr Ha Hok D1 D2 D3.
  assert (Hin : (i < length (bufs s))%nat) by by eapply lookup_lt_Some.
  assert (Hlk : forall j, bufs s' !! j = if decide (i = j) then Some x' else bufs s !! j).
  { intros j. rewrite Hb'. case_decide as E; [subst; by apply list_lookup_insert_eq|by apply list_lookup_insert_ne]. }
  assert (Hc : forall j c, cached s' j c -> (j = i /\ c = b) \/ (j <> i /\ c <> b /\ cached s j c)).
  { intros j c (y & Hy & Hyd & Hyc). rewrite Hlk in Hy. case_decide as E.
    - simplify_eq. left. done.
    - right. assert (cached s j c) as Cj by (exists y; done). split_and!; [done| |done].
      intros ->. destruct Hid as [[I1 I2]|[_ I]]; [|by apply (I j)].
      apply E. eapply S4; [by exists x|done]. }
  split; try done.
  - rewrite Hb', length_insert. done.
  - intros j. rewrite Hl. apply S2.
  - intros j y. rewrite Hlk. case_decide as E; [by intros [= <-]|]. intros Hy.
    eapply buf_rel_same; [|by eapply S3]. intros Dy. apply Ha. intros Cy.
    destruct (Hc j b) as [[? _]|(_ & ? & _)]; [|congruence|done].
    exists y. rewrite Hlk, decide_False by done. done.
  - intros j k c Hj%Hc Hk%Hc. destruct Hj as [[??]|(?&?&?)], Hk as [[??]|(?&?&?)]; subst; try done.
    by eapply S4.
  - intros c Hn. destruct (decide (c = b)) as [->|Hcb].
    + exfalso. apply (Hn i). exists x'. rewrite Hlk, decide_True by done. done.
    + destruct (Ha c Hcb) as (_ & -> & _). destruct (decide (b_dev x = ROOTDEV /\ b_blockno x = c)) as [[Dx Cx]|Ci].
      * subst c. destruct Hid as [[_ I]|[I1 I2]]; [done|].
        destruct (Blk.refs a !! b_blockno x) as [n|] eqn:En; [|done].
        pose proof (ok_pos _ _ (S6 (b_blockno x)) n En).
        pose proof (br_ref _ _ (S3 _ _ Hx) Dx) as X. unfold Blk.ref, Blk.rref in X. rewrite En in X. simpl in X. lia.
      * apply S5. intros j Cj. apply (Hn j). destruct Cj as (y & Hy & Y).
        exists y. rewrite Hlk, decide_False; [done|]. intros <-. by simplify_eq.
  - intros c. destruct (decide (c = b)) as [->|Hcb]; [done|]. eapply blk_ok_same; [by apply Ha|done].
Qed.

Lemma scan_cached s a b i :
  sim s a -> scan (is_block ROOTDEV b) s (lru s) = Some i ->
  exists x, bufs s !! i = Some x /\ b_dev x = ROOTDEV /\ b_blockno x = b.
Proof.
  intros Hs [Hi Hb]%scan_Some. apply (sim_lru _ _ Hs) in Hi. rewrite <-(sim_len _ _ Hs) in Hi.
  destruct (lookup_lt_is_Some_2 _ _ Hi) as [x Hx]. exists x. rewrite (getb_Some _ _ _ Hx) in Hb.
  unfold is_block in Hb. apply andb_true_iff in Hb as [?%Z.eqb_eq ?%Z.eqb_eq]. done.
Qed.

Lemma scan_uncached s a b :
  sim s a -> scan (is_block ROOTDEV b) s (lru s) = None -> forall i, ~ cached s i b.
Proof.
  intros Hs Hn i (x & Hx & Hd & Hb). apply (scan_None _ _ _) with (i := i) in Hn.
  - rewrite (getb_Some _ _ _ Hx) in Hn. unfold is_block in Hn. rewrite Hd, Hb, !Z.eqb_refl in Hn. done.
  - apply (sim_lru _ _ Hs). rewrite <-(sim_len _ _ Hs). by eapply lookup_lt_Some.
Qed.

Lemma slot_spec s a b :
  sim s a -> 0 < Blk.ref a b ->
  exists x, bufs s !! slot s b = Some x /\ b_dev x = ROOTDEV /\ b_blockno x = b.
Proof.
  intros Hs Hr. unfold slot. destruct (scan _ _ _) as [i|] eqn:E; [by eapply scan_cached|].
  unfold Blk.ref, Blk.rref in Hr. rewrite (sim_ref _ _ Hs b) in Hr; [simpl in Hr; lia|].
  by eapply scan_uncached.
Qed.

Lemma ref_pos s a b : sim s a -> 0 <= Blk.ref a b < 2 ^ 32.
Proof.
  intros Hs. unfold Blk.ref, Blk.rref. destruct (Blk.refs a !! b) as [n|] eqn:E; [|simpl; lia].
  pose proof (ok_pos _ _ (sim_ok _ _ Hs b) n E). simpl. lia.
Qed.

(** A change of the reference count alone. *)
Lemma same_at_set_ref b n a c : c <> b -> same_at a (Blk.set_ref b n a) c.
Proof. intros H. split_and!; [done| |done..]. rewrite refs_set_ref, decide_False; done. Qed.

Lemma blk_ok_set_ref b n a :
  0 < n < 2 ^ 32 -> blk_ok (Blk.set_ref b n a) b.
Proof.
  intros Hn. split.
  - intros _. rewrite ref_set_ref, decide_True by done. lia.
  - intros k. rewrite refs_set_ref, decide_True by done. rewrite (proj2 (Z.eqb_neq n 0)) by lia.
    by intros [= <-].
  - rewrite refs_set_ref, decide_True by done. by rewrite (proj2 (Z.eqb_neq n 0)) by lia.
Qed.

Lemma sim_addref s a b i x k :
  sim s a -> bufs s !! i = Some x -> b_dev x = ROOTDEV -> b_blockno x = b ->
  0 < Blk.ref a b + k < 2 ^ 32 ->
  sim (updb i (add_ref k) s) (Blk.set_ref b (Blk.ref a b + k) a).
Proof.
  intros Hs Hx Hd Hb Hk. pose proof (sim_buf _ _ Hs _ _ Hx) as [B1 B2 B3 B4 B5 B6].
  eapply (sim_upd s a _ _ i x (add_ref k x) b); try done; try apply Hs.
  - by left.
  - by apply bufs_updb.
  - split; cbn [b_dev b_valid b_data b_refcnt b_blockno b_lock add_ref]; try done; auto.
    intros _. rewrite ref_set_ref, decide_True by done. rewrite B4, Hb by done. apply u32_small. lia.
  - intros c Hc. by apply same_at_set_ref.
  - by apply blk_ok_set_ref.
Qed.

Section client.
Context (h : list lockid) (Hbc : LBcache ∉ h) (Hsl : forall i, buf_lockid i ∉ h).

Lemma bpin_ok i s : bpin i h s = Ok tt h (updb i (add_ref 1) s).
Proof. unfold bpin. kstep. erewrite bind_ok by reflexivity. by kstep. Qed.

Lemma bunpin_ok i s : bunpin i h s = Ok tt h (updb i (add_ref (-1)) s).
Proof. unfold bunpin. kstep. erewrite bind_ok by reflexivity. by kstep. Qed.

Lemma on_slot_ok b f s s' : f (slot s b) h s = Ok tt h s' -> on_slot b f h s = Ok [] h s'.
Proof.
  intros H. unfold on_slot. erewrite bind_ok by reflexivity.
  by rewrite (bind_ok (f (slot s b)) _ _ _ _ _ _ H).
Qed.

Lemma sim_pin s a b :
  sim s a -> b ∈ Blk.held a -> Blk.ref a b + 1 < 2 ^ 32 ->
  exists s', cop (OPin b) h s = Ok [] h s' /\ sim s' (Blk.set_ref b (Blk.ref a b + 1) a).
Proof.
  intros Hs Hh Hr. pose proof (ok_held _ _ (sim_ok _ _ Hs b) Hh) as Hp.
  destruct (slot_spec s a b Hs Hp) as (x & Hx & Hd & Hb).
  eexists. split; [apply on_slot_ok, bpin_ok|]. eapply sim_addref; try done. lia.
Qed.

Lemma sim_unpin s a b :
  sim s a -> 1 < Blk.ref a b ->
  exists s', cop (OUnpin b) h s = Ok [] h s' /\ sim s' (Blk.set_ref b (Blk.ref a b - 1) a).
Proof.
  intros Hs Hr. destruct (slot_spec s a b Hs) as (x & Hx & Hd & Hb); [lia|].
  eexists. split; [apply on_slot_ok, bunpin_ok|]. pose proof (ref_pos s a b Hs).
  eapply sim_addref; try done. lia.
Qed.

Lemma sim_store s a b d :
  sim s a -> b ∈ Blk.held a ->
  exists s', cop (OStore b d) h s = Ok [] h s' /\
    sim s' (Blk.Bk (<[b := d]> (Blk.view a)) (Blk.dsk a) (Blk.past a) (Blk.refs a) (Blk.held a)).
Proof.
  intros Hs Hh. pose proof (ok_held _ _ (sim_ok _ _ Hs b) Hh) as Hp.
  destruct (slot_spec s a b Hs Hp) as (x & Hx & Hd & Hb).
  pose proof (sim_buf _ _ Hs _ _ Hx) as [B1 B2 B3 B4 B5 B6].
  eexists. split; [by apply on_slot_ok|].
  eapply (sim_upd s a _ _ (slot s b) x (set_data d x) b); try done; try apply Hs.
  - by left.
  - by apply bufs_updb.
  - split; cbn [b_dev b_valid b_data b_refcnt b_blockno b_lock set_data Blk.view]; try done; auto.
    intros _. unfold dread. by rewrite Hb, lookup_insert_eq.
  - intros c Hc. split_and!; try done. unfold dread. cbn [Blk.view]. by rewrite lookup_insert_ne.
  - destruct (sim_ok _ _ Hs b) as [O1 O2 O3]. split; [done..|]. cbn [Blk.refs]. intros X.
    unfold Blk.ref, Blk.rref in Hp. rewrite X in Hp. simpl in Hp. lia.
Qed.

Lemma holdingb_ok s a b x :
  sim s a -> b ∈ Blk.held a -> bufs s !! slot s b = Some x -> b_dev x = ROOTDEV -> b_blockno x = b ->
  holdingb (slot s b) h s = Ok true h s.
Proof.
  intros Hs Hh Hx Hd Hb. unfold holdingb. rewrite holdingsleep_ok by done. f_equal.
  rewrite (getb_Some _ _ _ Hx). rewrite (br_held _ _ (sim_buf _ _ Hs _ _ Hx)) by (done || by rewrite Hb).
  cbn [slocked spid]. rewrite (sim_pid _ _ Hs), Z.eqb_refl. done.
Qed.

Lemma sim_write s a b :
  sim s a -> b ∈ Blk.held a ->
  exists s', cop (OWrite b) h s = Ok [] h s' /\
    sim s' (Blk.Bk (Blk.view a) (<[b := dread (Blk.view a) b]> (Blk.dsk a)) (Blk.dsk a :: Blk.past a)
                   (Blk.refs a) (Blk.held a)).
Proof.
  intros Hs Hh. pose proof (ok_held _ _ (sim_ok _ _ Hs b) Hh) as Hp.
  destruct (slot_spec s a b Hs Hp) as (x & Hx & Hd & Hb).
  pose proof (sim_buf _ _ Hs _ _ Hx) as Hr.
  eexists. split.
  { apply on_slot_ok. unfold bwrite. erewrite bind_ok by by eapply holdingb_ok.
    cbn [negb]. reflexivity. }
  rewrite (getb_Some _ _ _ Hx), Hb, (br_data _ _ Hr), Hb by done.
  eapply (sim_upd s a _ _ (slot s b) x x b); try done; try apply Hs.
  - by left.
  - cbn [bufs]. symmetry. by apply list_insert_id.
  - by destruct Hr.
  - intros c Hc. split_and!; try done. unfold dread. cbn [Blk.dsk]. by rewrite lookup_insert_ne.
  - destruct (sim_ok _ _ Hs b) as [O1 O2 O3]. split; [done..|]. cbn [Blk.refs]. intros X.
    unfold Blk.ref, Blk.rref in Hp. rewrite X in Hp. simpl in Hp. lia.
  - cbn. by rewrite (sim_disk _ _ Hs).
  - cbn. by rewrite (sim_disk _ _ Hs), (sim_past _ _ Hs).
Qed.

Lemma bufs_updb2 i f g s x :
  bufs s !! i = Some x -> bufs (updb i g (updb i f s)) = <[i := g (f x)]> (bufs s).
Proof.
  intros Hx. assert (bufs (updb i f s) !! i = Some (f x)) as H1.
  { rewrite lookup_updb, decide_True by done. by rewrite Hx. }
  rewrite (bufs_updb _ _ _ _ H1), (bufs_updb _ _ _ _ Hx). apply list_insert_insert_eq.
Qed.

Lemma brelse_ok s a b x :
  sim s a -> b ∈ Blk.held a -> bufs s !! slot s b = Some x -> b_dev x = ROOTDEV -> b_blockno x = b ->
  exists s', brelse (slot s b) h s = Ok tt h s' /\
    bufs s' = <[slot s b := add_ref (-1) (set_lock (Sleeplock 0 0) x)]> (bufs s) /\
    (forall j, j ∈ lru s' <-> j ∈ lru s) /\ dnow s' = dnow s /\ dpast s' = dpast s /\ mypid s' = mypid s.
Proof.
  intros Hs Hh Hx Hd Hb. unfold brelse. erewrite bind_ok by by eapply holdingb_ok. cbn [negb].
  unfold unlockb. erewrite bind_ok by by apply releasesleep_ok.
  kstep. erewrite bind_ok by reflexivity. rewrite kget_bind.
  pose proof (bufs_updb2 (slot s b) (set_lock (Sleeplock 0 0)) (add_ref (-1)) s x Hx) as E.
  assert (slot s b ∈ lru s).
  { apply (sim_lru _ _ Hs). rewrite <-(sim_len _ _ Hs). by eapply lookup_lt_Some. }
  destruct (_ =? 0).
  - erewrite bind_ok by reflexivity. kstep. eexists. split; [done|]. split_and!; try done.
    intros j. cbn [lru set_lru updb set_bufs]. rewrite elem_of_cons, list_elem_of_filter.
    destruct (decide (j = slot s b)); naive_solver.
  - erewrite bind_ok by reflexivity. kstep. eexists. done.
Qed.

Lemma sim_release s a b :
  sim s a -> b ∈ Blk.held a ->
  Blk.ref a b <> 1 \/ dread (Blk.view a) b = dread (Blk.dsk a) b ->
  exists s', cop (ORelease b) h s = Ok [] h s' /\
    sim s' (Blk.set_held (Blk.held a ∖ {[b]}) (Blk.set_ref b (Blk.ref a b - 1) a)).
Proof.
  intros Hs Hh Hcl. pose proof (ok_held _ _ (sim_ok _ _ Hs b) Hh) as Hp.
  destruct (slot_spec s a b Hs Hp) as (x & Hx & Hd & Hb).
  destruct (brelse_ok s a b x Hs Hh Hx Hd Hb) as (s' & E & E1 & E2 & E3 & E4 & E5).
  exists s'. split; [by apply on_slot_ok|]. pose proof (ref_pos s a b Hs).
  pose proof (sim_buf _ _ Hs _ _ Hx) as [B1 B2 B3 B4 B5 B6].
  set (a' := Blk.set_held _ _).
  assert (forall c, Blk.refs a' !! c = Blk.refs (Blk.set_ref b (Blk.ref a b - 1) a) !! c) as Hrf by done.
  eapply (sim_upd s a _ _ (slot s b) x _ b); try exact E1; try done.
  - by left.
  - split; cbn [b_dev b_valid b_data b_refcnt b_blockno b_lock add_ref set_lock]; try done; auto.
    + intros _. rewrite B4, Hb by done. change (Blk.ref a' b) with (Blk.ref (Blk.set_ref b (Blk.ref a b - 1) a) b).
      rewrite ref_set_ref, decide_True by done. rewrite u32_small by lia. lia.
    + intros _. subst a'. unfold Blk.set_held. cbn [Blk.held]. set_solver.
  - intros c Hc. split_and!; try done.
    + rewrite Hrf, refs_set_ref. by rewrite decide_False.
    + subst a'. unfold Blk.set_held. cbn [Blk.held]. set_solver.
  - split.
    + subst a'. unfold Blk.set_held. cbn [Blk.held]. set_solver.
    + intros n. rewrite Hrf, refs_set_ref, decide_True by done.
      destruct (Z.eqb_spec (Blk.ref a b - 1) 0); [done|]. intros [= <-]. lia.
    + rewrite Hrf, refs_set_ref, decide_True by done.
      destruct (Z.eqb_spec (Blk.ref a b - 1) 0); [|done]. intros _.
      destruct Hcl as [?|Hcl]; [lia|exact Hcl].
  - by rewrite E3, (sim_disk _ _ Hs).
  - by rewrite E4, (sim_past _ _ Hs).
  - by rewrite E5, (sim_pid _ _ Hs).
Qed.

Lemma same_at_read a b c : c <> b -> same_at a (after_read b a) c.
Proof.
  intros Hc. unfold after_read. split_and!; try done.
  - change (Blk.refs (Blk.set_ref b (Blk.ref a b + 1) a) !! c = Blk.refs a !! c).
    rewrite refs_set_ref. by rewrite decide_False.
  - unfold Blk.set_held. cbn [Blk.held]. set_solver.
Qed.

Lemma blk_ok_read s a b : sim s a -> Blk.ref a b + 1 < 2 ^ 32 -> blk_ok (after_read b a) b.
Proof.
  intros Hs Hr. pose proof (ref_pos s a b Hs).
  destruct (blk_ok_set_ref b (Blk.ref a b + 1) a) as [O1 O2 O3]; [lia|].
  split; [intros _; unfold after_read|exact O2|exact O3].
  change (0 < Blk.ref (Blk.set_ref b (Blk.ref a b + 1) a) b).
  rewrite ref_set_ref, decide_True by done. lia.
Qed.

Lemma bread_hit s a b i x :
  sim s a -> b ∉ Blk.held a -> Blk.ref a b + 1 < 2 ^ 32 ->
  scan (is_block ROOTDEV b) s (lru s) = Some i -> bufs s !! i = Some x ->
  b_dev x = ROOTDEV -> b_blockno x = b ->
  exists s', cop (ORead b) h s = Ok (dread (Blk.view a) b) h s' /\ sim s' (after_read b a).
Proof.
  intros Hs Hh Hr Esc Hx Hd Hb. pose proof (ref_pos s a b Hs).
  pose proof (sim_buf _ _ Hs _ _ Hx) as [B1 B2 B3 B4 B5 B6].
  set (s1 := updb i (add_ref 1) s).
  assert (bufs s1 !! i = Some (add_ref 1 x)) as H1.
  { unfold s1. rewrite lookup_updb, decide_True by done. by rewrite Hx. }
  set (s2 := updb i (set_lock (Sleeplock 1 (mypid s))) s1).
  assert (bufs s2 !! i = Some (set_lock (Sleeplock 1 (mypid s)) (add_ref 1 x))) as H2.
  { unfold s2. rewrite lookup_updb, decide_True by done. by rewrite H1. }
  exists s2. split.
  { assert (lockb i h s1 = Ok tt h s2) as HL.
    { unfold lockb. rewrite acquiresleep_ok; [done|done|]. rewrite (getb_Some _ _ _ H1). apply B6; [done|by rewrite Hb]. }
    assert (bget ROOTDEV b h s = Ok i h s2) as HG.
    { unfold bget. kstep. rewrite kget_bind, Esc. erewrite bind_ok by reflexivity.
      kstep. fold s1. by rewrite (bind_ok (lockb i) _ _ _ _ _ _ HL). }
    assert (bread ROOTDEV b h s = Ok i h s2) as HB.
    { unfold bread. erewrite bind_ok by exact HG. rewrite kget_bind, (getb_Some _ _ _ H2).
      change (b_valid (set_lock (Sleeplock 1 (mypid s)) (add_ref 1 x))) with (b_valid x).
      rewrite (proj2 (Z.eqb_neq (b_valid x) 0)) by auto.
      erewrite bind_ok by reflexivity. reflexivity. }
    unfold cop. erewrite bind_ok by exact HB. unfold kgets. rewrite (getb_Some _ _ _ H2).
    cbn [b_data set_lock add_ref]. by rewrite B3, Hb. }
  eapply (sim_upd s a _ _ i x (set_lock (Sleeplock 1 (mypid s)) (add_ref 1 x)) b); try done.
  - by left.
  - unfold s2, s1. by apply bufs_updb2.
  - split; cbn [b_dev b_valid b_data b_refcnt b_blockno b_lock add_ref set_lock]; try done; auto.
    + intros _. rewrite B4, Hb, ref_read by done. apply u32_small. lia.
    + intros _ _. by rewrite (sim_pid _ _ Hs).
    + intros _ X. destruct X. rewrite Hb. apply held_read.
  - intros c Hc. by apply same_at_read.
  - by eapply blk_ok_read.
  - exact (sim_disk _ _ Hs).
  - exact (sim_past _ _ Hs).
  - exact (sim_pid _ _ Hs).
Qed.

(** Fewer than thirty referenced blocks leave an unused buffer. *)
Lemma unused_buffer s a :
  sim s a -> Z.of_nat (size (Blk.refs a)) < NBUF ->
  exists i x, scan (fun b => b_refcnt b =? 0) s (reverse (lru s)) = Some i /\
    bufs s !! i = Some x /\ b_refcnt x = 0.
Proof.
  intros Hs Hsz. destruct (scan _ _ _) as [i|] eqn:E.
  - apply scan_Some in E as [Hi Hz]. rewrite elem_of_reverse in Hi. apply (sim_lru _ _ Hs) in Hi.
    rewrite <-(sim_len _ _ Hs) in Hi. destruct (lookup_lt_is_Some_2 _ _ Hi) as [x Hx].
    exists i, x. rewrite (getb_Some _ _ _ Hx) in Hz. split_and!; [done|done|]. by apply Z.eqb_eq.
  - exfalso. assert (forall i x, bufs s !! i = Some x -> b_refcnt x <> 0) as Hnz.
    { intros i x Hx. pose proof (scan_None _ _ _ E i) as H. rewrite (getb_Some _ _ _ Hx) in H.
      apply Z.eqb_neq, H. rewrite elem_of_reverse. apply (sim_lru _ _ Hs). rewrite <-(sim_len _ _ Hs).
      by eapply lookup_lt_Some. }
    assert (forall i x, bufs s !! i = Some x -> b_dev x = ROOTDEV) as Hdev.
    { intros i x Hx. destruct (decide (b_dev x = ROOTDEV)) as [|n]; [done|].
      destruct (br_other _ _ (sim_buf _ _ Hs _ _ Hx) n) as [? _]. by destruct (Hnz i x Hx). }
    assert (NoDup (b_blockno <$> bufs s)) as Hnd.
    { apply NoDup_alt. intros i j b Hi Hj. apply list_lookup_fmap_Some in Hi as (x & -> & Hx).
      apply list_lookup_fmap_Some in Hj as (y & Exy & Hy). eapply (sim_uniq _ _ Hs).
      - exists x. eauto.
      - exists y. split_and!; [done|by eapply Hdev|done]. }
    assert (list_to_set (b_blockno <$> bufs s) ⊆ dom (Blk.refs a)) as Hsub.
    { intros b Hb. apply elem_of_list_to_set in Hb. apply list_elem_of_fmap in Hb as (x & -> & Hx).
      apply list_elem_of_lookup in Hx as [i Hx]. apply elem_of_dom.
      pose proof (br_ref _ _ (sim_buf _ _ Hs _ _ Hx) (Hdev _ _ Hx)) as R. unfold Blk.ref, Blk.rref in R.
      destruct (Blk.refs a !! b_blockno x); [done|]. by destruct (Hnz i x Hx). }
    apply subseteq_size in Hsub. rewrite size_list_to_set, length_fmap, (sim_len _ _ Hs), size_dom in Hsub by done.
    unfold NBUF in *. lia.
Qed.

Lemma bread_miss s a b :
  sim s a -> b ∉ Blk.held a -> Blk.ref a b + 1 < 2 ^ 32 ->
  Z.of_nat (size (Blk.refs a)) < NBUF ->
  scan (is_block ROOTDEV b) s (lru s) = None ->
  exists s', cop (ORead b) h s = Ok (dread (Blk.view a) b) h s' /\ sim s' (after_read b a).
Proof.
  intros Hs Hh Hr Hsz Esc. pose proof (scan_uncached _ _ _ Hs Esc) as Hun.
  pose proof (sim_ref _ _ Hs b Hun) as Hnone.
  assert (Blk.ref a b = 0) as Hz by (unfold Blk.ref, Blk.rref; by rewrite Hnone).
  destruct (unused_buffer s a Hs Hsz) as (i & x & Esc' & Hx & Hx0).
  assert (slocked (b_lock x) = 0) as Hul.
  { pose proof (sim_buf _ _ Hs _ _ Hx) as [B1 B2 B3 B4 B5 B6].
    destruct (decide (b_dev x = ROOTDEV)) as [D|D]; [|by apply B1].
    apply B6; [done|]. intros X. pose proof (ok_held _ _ (sim_ok _ _ Hs _) X). rewrite <-B4 in * by done. lia. }
  set (x1 := recycle ROOTDEV b x). set (x2 := set_lock (Sleeplock 1 (mypid s)) x1).
  set (s1 := updb i (recycle ROOTDEV b) s).
  assert (bufs s1 !! i = Some x1) as H1.
  { unfold s1. rewrite lookup_updb, decide_True by done. by rewrite Hx. }
  set (s2 := updb i (set_lock (Sleeplock 1 (mypid s))) s1).
  assert (bufs s2 !! i = Some x2) as H2.
  { unfold s2. rewrite lookup_updb, decide_True by done. by rewrite H1. }
  set (x3 := set_valid 1 (set_data (dread (dnow s) b) x2)).
  set (s3 := updb i (set_valid 1) (updb i (set_data (dread (dnow s) b)) s2)).
  assert (bufs s3 = <[i := x3]> (bufs s)) as H3.
  { unfold s3. rewrite (bufs_updb2 _ _ _ _ _ H2). unfold s2. rewrite (bufs_updb _ _ _ _ H1).
    unfold s1. rewrite (bufs_updb _ _ _ _ Hx). by rewrite !list_insert_insert_eq. }
  assert (getb s3 i = x3) as H3'.
  { apply getb_Some. rewrite H3. apply list_lookup_insert_eq. by eapply lookup_lt_Some. }
  assert (dread (dnow s) b = dread (Blk.view a) b) as Hdat.
  { rewrite (ok_clean _ _ (sim_ok _ _ Hs b) Hnone). by rewrite (sim_disk _ _ Hs). }
  exists s3. split.
  { assert (lockb i h s1 = Ok tt h s2) as HL.
    { unfold lockb. rewrite acquiresleep_ok; [done|done|]. by rewrite (getb_Some _ _ _ H1). }
    assert (bget ROOTDEV b h s = Ok i h s2) as HG.
    { unfold bget. kstep. rewrite kget_bind, Esc, Esc'. erewrite bind_ok by reflexivity.
      kstep. fold s1. by rewrite (bind_ok (lockb i) _ _ _ _ _ _ HL). }
    assert (bread ROOTDEV b h s = Ok i h s3) as HB.
    { unfold bread. erewrite bind_ok by exact HG. rewrite kget_bind, (getb_Some _ _ _ H2).
      change (b_valid x2 =? 0) with true. cbv iota.
      erewrite bind_ok; [reflexivity|]. erewrite bind_ok by reflexivity.
      unfold kmodify. rewrite (getb_Some _ _ _ H2). reflexivity. }
    unfold cop. erewrite bind_ok by exact HB. unfold kgets. rewrite H3'.
    cbn [b_data x3 set_valid set_data]. by rewrite Hdat. }
  eapply (sim_upd s a _ _ i x x3 b); try done.
  - right. done.
  - split; cbn [b_dev b_valid b_data b_refcnt b_blockno b_lock x3 x2 x1 set_valid set_data set_lock recycle]; try done.
    + intros _. by rewrite ref_read, Hz.
    + intros _ _. by rewrite (sim_pid _ _ Hs).
    + intros _ X. destruct X. apply held_read.
  - intros c Hc. by apply same_at_read.
  - by eapply blk_ok_read.
  - exact (sim_disk _ _ Hs).
  - exact (sim_past _ _ Hs).
  - exact (sim_pid _ _ Hs).
Qed.

Lemma sim_read s a b r h' a' :
  sim s a -> Blk.ref a b + 1 < 2 ^ 32 -> Blk.bread b h a = Ok r h' a' ->
  h' = h /\ exists s', cop (ORead b) h s = Ok r h s' /\ sim s' a'.
Proof.
  intros Hs Hr. unfold Blk.bread. rewrite kget_bind. case_decide as Hh; [done|].
  case_decide as Hn; [done|]. intros [= <- <- <-]. split; [done|].
  destruct (scan (is_block ROOTDEV b) s (lru s)) as [i|] eqn:E.
  - destruct (scan_cached s a b i Hs E) as (x & Hx & Hd & Hb). by eapply bread_hit.
  - apply bread_miss; try done. pose proof (sim_ref _ _ Hs b (scan_uncached _ _ _ Hs E)).
    destruct (decide (NBUF <= Z.of_nat (size (Blk.refs a)))); [naive_solver|lia].
Qed.

Lemma sim_op o s a r h' a' :
  sim s a -> bop_ok o a = true -> aop o h a = Ok r h' a' ->
  h' = h /\ exists s', cop o h s = Ok r h s' /\ sim s' a'.
Proof.
  intros Hs Hok Ha. destruct o; cbn [bop_ok] in Hok;
    rewrite ?andb_true_iff, ?orb_true_iff, ?bool_decide_eq_true in Hok;
    [by eapply sim_read|..]; cbn [aop] in Ha.
  all: unfold Blk.store, Blk.bwrite, Blk.brelse, Blk.bpin, Blk.bunpin in Ha;
    repeat (unfold mbind, K_bind, kget, kmodify, kput, mret, K_ret in Ha).
  all: try (rewrite decide_True in Ha by naive_solver).
  all: injection Ha as <- <- <-; split; [done|].
  - by apply sim_store.
  - by apply sim_write.
  - apply sim_release; naive_solver.
  - apply sim_pin; naive_solver.
  - by apply sim_unpin.
Qed.

Lemma sim_run ops s a rs h' a' :
  sim s a -> arun ops h a = Ok rs h' a' ->
  exists s', crun ops h s = Ok rs h s' /\ sim s' a'.
Proof.
  revert s a rs. induction ops as [|o ops IH]; intros s a rs Hs Hr; cbn [arun crun] in *.
  - injection Hr as <- <- <-. by exists s.
  - rewrite kget_bind in Hr. destruct (bop_ok o a) eqn:Hok; [|done].
    apply bind_inv in Hr as (r & h1 & a1 & Hop & Hr).
    apply bind_inv in Hr as (rs' & h2 & a2 & Hrun & Hret).
    destruct (sim_op o s a r h1 a1 Hs Hok Hop) as (-> & s1 & Hc & Hs1).
    injection Hret as <- <- <-.
    destruct (IH s1 a1 rs' Hs1 Hrun) as (s2 & Hc2 & Hs2).
    exists s2. split; [|done]. erewrite bind_ok by exact Hc. by erewrite bind_ok by exact Hc2.
Qed.
End client.
End sim.

Lemma sim_init pid d : sim pid (binit d pid) (Blk.init d).
Proof.
  assert (forall i x, bufs (binit d pid) !! i = Some x -> x = buf0) as H0.
  { intros i x Hx. cbn [bufs binit] in Hx. by apply lookup_replicate in Hx as [? _]. }
  split.
  - apply length_replicate.
  - intros i. cbn [lru binit]. unfold NBUF.
    change (fold_left _ _ _) with (reverse (seq 0 (Z.to_nat 30))).
    rewrite elem_of_reverse, elem_of_seq. lia.
  - intros i x ->%H0. by split.
  - intros i j b (x & ->%H0 & Hd & _). done.
  - done.
  - intros b. split; [set_solver|done|done].
  - done.
  - done.
  - done.
Qed.

(** * Running the block store *)

Lemma blk_bread_ok b h a :
  b ∉ Blk.held a -> refs_room a b -> Blk.bread b h a = Ok (dread (Blk.view a) b) h (after_read b a).
Proof.
  intros Hh Hr. unfold Blk.bread. rewrite kget_bind. rewrite decide_False by done.
  rewrite decide_False; [done|]. unfold refs_room in Hr. intros [? ?]. destruct Hr; [congruence|lia].
Qed.

Lemma blk_bwrite_ok b h a :
  b ∈ Blk.held a ->
  Blk.bwrite b h a = Ok tt h (Blk.Bk (Blk.view a) (<[b := dread (Blk.view a) b]> (Blk.dsk a))
                                (Blk.dsk a :: Blk.past a) (Blk.refs a) (Blk.held a)).
Proof. intros Hh. unfold Blk.bwrite. rewrite kget_bind. by rewrite decide_True. Qed.

Lemma blk_brelse_ok b h a :
  b ∈ Blk.held a ->
  Blk.brelse b h a = Ok tt h (Blk.set_held (Blk.held a ∖ {[b]}) (Blk.set_ref b (Blk.ref a b - 1) a)).
Proof. intros Hh. unfold Blk.brelse. rewrite kget_bind. by rewrite decide_True. Qed.

(** C14: the buffer cache refines the block store.  Any sequence of bread, stores
    to held buffers, bwrite, brelse, bpin and bunpin that the abstract block
    store accepts from a well-behaved client runs on the thirty-buffer cache
    without panic or sleep, reads the same contents at every bread and leaves
    the same disk with the same history of writes. *)
Theorem cache_refines (ops : list bop) (d : disk) (pid : Z) (h h' : list lockid)
    (rs : list (list Z)) (a : Blk.bk) :
  LBcache ∉ h -> (forall i, buf_lockid i ∉ h) ->
  arun ops h (Blk.init d) = Ok rs h' a ->
  exists s, crun ops h (binit d pid) = Ok rs h s /\ dnow s = Blk.dsk a /\ dpast s = Blk.past a /\
    sim pid s a.
Proof.
  intros Hb Hl Hr.
  destruct (sim_run pid h Hb Hl ops _ _ _ _ _ (sim_init pid d) Hr) as (s & Hc & Hs).
  exists s. split_and!; [done|apply Hs|apply Hs|done].
Qed.

Definition sample_ops : list bop :=
  [ORead 5; OStore 5 [1; 2; 3]; OPin 5; ORelease 5; ORead 6; ORelease 6; ORead 5; OWrite 5; OUnpin 5; ORelease 5].

Lemma cache_refines_witness :
  exists s, crun sample_ops [] (binit ∅ 1) =
    Ok [zero_block; []; []; []; zero_block; []; [1; 2; 3]; []; []; []] [] s /\
    dread (dnow s) 5 = [1; 2; 3].
Proof.
  destruct (cache_refines sample_ops ∅ 1 [] []
    [zero_block; []; []; []; zero_block; []; [1; 2; 3]; []; []; []]
    (res_state (Blk.init ∅) (arun sample_ops [] (Blk.init ∅)))) as (s & E & D & _).
  - by intros ?%elem_of_nil.
  - by intros i ?%elem_of_nil.
  - vm_compute. reflexivity.
  - exists s. split; [exact E|]. rewrite D. vm_compute. reflexivity.
Defined.
