(* ===== verification/Log.v ===== *)
(** The redo log (kernel/log.c).

    The log is written against the block store of Block.v.  [lh] is the array
    [log.lh.block] cut at [log.lh.n].  [sleep] in [begin_op] is the outcome
    [Panic "sleep"], and [wakeup] touches only the process table.  The disk keeps
    its history, so a crash during an operation leaves any of the disks of that
    history, and what the system then sees is the result of [recover_from_log]
    with an empty cache. *)

From S2P Require Import Prelude Kern Sleeplock Bio Block.

Definition MAXOPBLOCKS : Z := 10.
Definition LOGSIZE : Z := MAXOPBLOCKS * 3.

Record lst := Lst {
  start : Z; lsize : Z; outstanding : Z; committing : Z; ldev : Z;
  lh : list Z;
  blk : Blk.bk }.

Definition set_lh (x : list Z) (s : lst) : lst :=
  Lst (start s) (lsize s) (outstanding s) (committing s) (ldev s) x (blk s).
Definition set_blk (x : Blk.bk) (s : lst) : lst :=
  Lst (start s) (lsize s) (outstanding s) (committing s) (ldev s) (lh s) x.
Definition set_outstanding (x : Z) (s : lst) : lst :=
  Lst (start s) (lsize s) x (committing s) (ldev s) (lh s) (blk s).
Definition set_committing (x : Z) (s : lst) : lst :=
  Lst (start s) (lsize s) (outstanding s) x (ldev s) (lh s) (blk s).

Definition on_blk {A} (m : K Blk.bk A) : K lst A := zoom blk set_blk m.
Definition lh_n (s : lst) : Z := Z.of_nat (length (lh s)).

(** The bytes of a [struct logheader] with [n] entries in use. *)
Definition head_bytes (l : list Z) : list Z :=
  le_bytes 4 (Z.of_nat (length l)) ++ mjoin (le_bytes 4 <$> l).
Definition int_at (d : list Z) (k : nat) : Z := s32 (le_val (take 4 (drop (4 * k) d))).

Fixpoint install_loop (blocks : list Z) (tail : Z) (recovering : bool) : K lst unit :=
  match blocks with
  | [] => mret tt
  | b :: blocks =>
      s ← kget;
      let l := start s + tail + 1 in
      on_blk (ldata ← Blk.bread l;
              Blk.bread b;;
              Blk.store b ldata;;
              Blk.bwrite b;;
              (if recovering then mret tt else Blk.bunpin b);;
              Blk.brelse l;;
              Blk.brelse b);;
      install_loop blocks (tail + 1) recovering
  end.

Definition install_trans (recovering : bool) : K lst unit :=
  s ← kget; install_loop (lh s) 0 recovering.

(** An [n] that does not fit the array would make the loop write past it. *)
Definition read_head : K lst unit :=
  s ← kget;
  on_blk (d ← Blk.bread (start s); Blk.brelse (start s);; mret d) ≫= fun d =>
  let n := int_at d 0 in
  if n >? LOGSIZE then panic "undefined: log.lh.block out of range"
  else kmodify (set_lh ((fun i => int_at d (S i)) <$> seq 0 (Z.to_nat n))).

Definition write_head : K lst unit :=
  s ← kget;
  on_blk (d ← Blk.bread (start s);
          Blk.store (start s) (head_bytes (lh s) ++ drop (length (head_bytes (lh s))) d);;
          Blk.bwrite (start s);;
          Blk.brelse (start s)).

Definition recover_from_log : K lst unit :=
  read_head;;
  install_trans true;;
  kmodify (set_lh []);;
  write_head.

(** [sizeof(struct logheader)] is a constant below [BSIZE]. *)
Definition initlog (dev logstart nlog : Z) : K lst unit :=
  if 4 + 4 * LOGSIZE >=? BSIZE then panic "initlog: too big logheader"
  else
    kmodify (fun s => Lst logstart nlog (outstanding s) (committing s) dev (lh s) (blk s));;
    recover_from_log.

Definition begin_op : K lst unit :=
  acquire LLog;;
  s ← kget;
  if negb (committing s =? 0) then panic "sleep"
  else if lh_n s + (outstanding s + 1) * MAXOPBLOCKS >? LOGSIZE then panic "sleep"
  else
    kmodify (set_outstanding (outstanding s + 1));;
    release LLog.

Fixpoint write_log_loop (blocks : list Z) (tail : Z) : K lst unit :=
  match blocks with
  | [] => mret tt
  | b :: blocks =>
      s ← kget;
      let l := start s + tail + 1 in
      on_blk (Blk.bread l;;
              from ← Blk.bread b;
              Blk.store l from;;
              Blk.bwrite l;;
              Blk.brelse b;;
              Blk.brelse l);;
      write_log_loop blocks (tail + 1)
  end.

Definition write_log : K lst unit :=
  s ← kget; write_log_loop (lh s) 0.

Definition commit : K lst unit :=
  s ← kget;
  if lh_n s >? 0
  then
    write_log;;
    write_head;;
    install_trans false;;
    kmodify (set_lh []);;
    write_head
  else mret tt.

Definition end_op : K lst unit :=
  acquire LLog;;
  kmodify (fun s => set_outstanding (outstanding s - 1) s);;
  s ← kget;
  if negb (committing s =? 0) then panic "log.committing"
  else
    let do_commit := outstanding s =? 0 in
    (if do_commit then kmodify (set_committing 1) else mret tt);;
    release LLog;;
    if do_commit
    then
      commit;;
      acquire LLog;;
      kmodify (set_committing 0);;
      release LLog
    else mret tt.

Definition log_write (b : Z) : K lst unit :=
  acquire LLog;;
  s ← kget;
  if (lh_n s >=? LOGSIZE) || (lh_n s >=? lsize s - 1) then panic "too big a transaction"
  else if outstanding s <? 1 then panic "log_write outside of trans"
  else
    (if decide (b ∈ lh s) then mret tt       (* log absorption *)
     else on_blk (Blk.bpin b);; kmodify (fun s => set_lh (lh s ++ [b]) s));;
    release LLog.
