(* ===== verification/LogCrash.v ===== *)
(** Crash safety of the log (kernel/log.c).

    Runs of the log's operations on the block store, first one buffer pair at a
    time, then the two copying loops, then [recover_from_log] and [commit] as
    wholes with every disk they pass through.  [stands_for r d] says that the
    blocks outside the log, after replaying the log found on [d], have contents
    [r]; recovery and commit keep it at every write. *)

From S2P Require Import Prelude Kern Bio Block Log.

(** * Runs of the log's operations *)

Lemma bk_eq a a' :
  Blk.view a = Blk.view a' -> Blk.dsk a = Blk.dsk a' -> Blk.past a = Blk.past a' ->
  (forall c, Blk.refs a !! c = Blk.refs a' !! c) -> (forall c, c ∈ Blk.held a <-> c ∈ Blk.held a') ->
  a = a'.
Proof.
  destruct a, a'. cbn. intros -> -> -> Hr Hh. f_equal; [by apply map_eq|by apply set_eq].
Qed.

Lemma on_blk_ok {A} (m : K Blk.bk A) h s x a' :
  m h (blk s) = Ok x h a' -> on_blk m h s = Ok x h (set_blk a' s).
Proof. intros H. unfold on_blk, zoom. by rewrite H. Qed.

(** The store after the contents of [b] became [d], in memory and on the disk. *)
Definition wrote (b : Z) (d : list Z) (a : Blk.bk) : Blk.bk :=
  Blk.Bk (<[b := d]> (Blk.view a)) (<[b := d]> (Blk.dsk a)) (Blk.dsk a :: Blk.past a) (Blk.refs a) (Blk.held a).
Definition unref (b : Z) (a : Blk.bk) : Blk.bk :=
  Blk.Bk (Blk.view a) (Blk.dsk a) (Blk.past a) (delete b (Blk.refs a)) (Blk.held a).

Lemma dread_insert (d : disk) b x c : dread (<[b := x]> d) c = if decide (b = c) then x else dread d c.
Proof.
  unfold dread. case_decide as E; [subst; by rewrite lookup_insert_eq|by rewrite lookup_insert_ne].
Qed.

(** One call, with the new state described field by field. *)
Definition upd_refs (r : gmap Z Z) (b k : Z) (r' : gmap Z Z) : Prop :=
  Blk.rref r' b = Blk.rref r b + k /\ r' = Blk.rset b (Blk.rref r b + k) r.

Lemma bread_ex b h a :
  b ∉ Blk.held a -> refs_room a b ->
  exists a', Blk.bread b h a = Ok (dread (Blk.view a) b) h a' /\
    Blk.view a' = Blk.view a /\ Blk.dsk a' = Blk.dsk a /\ Blk.past a' = Blk.past a /\
    upd_refs (Blk.refs a) b 1 (Blk.refs a') /\ Blk.held a' = {[b]} ∪ Blk.held a.
Proof.
  intros Hh Hr. eexists. split; [by apply blk_bread_ok|]. split_and!; try done. split; [|done].
  apply ref_read.
Qed.

Lemma brelse_ex b h a :
  b ∈ Blk.held a ->
  exists a', Blk.brelse b h a = Ok tt h a' /\
    Blk.view a' = Blk.view a /\ Blk.dsk a' = Blk.dsk a /\ Blk.past a' = Blk.past a /\
    upd_refs (Blk.refs a) b (-1) (Blk.refs a') /\ Blk.held a' = Blk.held a ∖ {[b]}.
Proof.
  intros Hh. eexists. split; [by apply blk_brelse_ok|]. split_and!; try done. split; [|done].
  cbn [Blk.refs Blk.set_held Blk.set_ref]. rewrite rref_rset. by rewrite decide_True.
Qed.

Lemma bunpin_ex b h a :
  exists a', Blk.bunpin b h a = Ok tt h a' /\
    Blk.view a' = Blk.view a /\ Blk.dsk a' = Blk.dsk a /\ Blk.past a' = Blk.past a /\
    upd_refs (Blk.refs a) b (-1) (Blk.refs a') /\ Blk.held a' = Blk.held a.
Proof.
  eexists. split; [done|]. split_and!; try done. split; [|done].
  cbn [Blk.refs Blk.set_ref]. rewrite rref_rset. by rewrite decide_True.
Qed.

(** Store and write back. *)
Lemma store_write_ex b d h a :
  b ∈ Blk.held a ->
  exists a', (Blk.store b d;; Blk.bwrite b) h a = Ok tt h a' /\
    Blk.view a' = <[b := d]> (Blk.view a) /\ Blk.dsk a' = <[b := d]> (Blk.dsk a) /\
    Blk.past a' = Blk.dsk a :: Blk.past a /\ Blk.refs a' = Blk.refs a /\ Blk.held a' = Blk.held a.
Proof.
  intros Hh. eexists. split.
  { erewrite bind_ok by reflexivity. by apply blk_bwrite_ok. }
  cbn. split_and!; try done. rewrite dread_insert. by rewrite decide_True.
Qed.

Lemma rset_back b k r : (forall n, r !! b = Some n -> n <> 0) ->
  Blk.rset b (Blk.rref r b) (Blk.rset b k r) = r.
Proof.
  intros Hn. apply map_eq. intros c. rewrite !lookup_rset. case_decide as E; [|done].
  subst. unfold Blk.rref. destruct (r !! c) as [n|] eqn:Er; [|done]. cbn.
  by rewrite (proj2 (Z.eqb_neq n 0) (Hn n eq_refl)).
Qed.

Lemma upd_num r b k r' v :
  upd_refs r b k r' -> Blk.rref r b + k = v ->
  r' = Blk.rset b v r /\ Blk.rref r' b = v /\ forall c, c <> b -> Blk.rref r' c = Blk.rref r c.
Proof.
  intros [H1 H2] <-. split_and!; [done|done|]. intros c Hc. rewrite H2, rref_rset. by rewrite decide_False.
Qed.

Lemma store_write_bind {A} b d (k : K Blk.bk A) h a a' :
  (Blk.store b d;; Blk.bwrite b) h a = Ok tt h a' ->
  (Blk.store b d;; Blk.bwrite b;; k) h a = k h a'.
Proof.
  unfold mbind, K_bind. destruct (Blk.store b d h a) as [[] h1 a1|]; [|done].
  by intros ->.
Qed.

(** Two buffers read, and released. *)
Lemma read_two {A} x y (k : list Z -> list Z -> K Blk.bk A) h a :
  x <> y -> Blk.held a = ∅ -> refs_room a x ->
  Blk.refs a !! y <> None \/ Z.of_nat (size (Blk.refs a)) < NBUF - 1 ->
  exists a', (dx ← Blk.bread x; dy ← Blk.bread y; k dx dy) h a =
      k (dread (Blk.view a) x) (dread (Blk.view a) y) h a' /\
    Blk.view a' = Blk.view a /\ Blk.dsk a' = Blk.dsk a /\ Blk.past a' = Blk.past a /\
    Blk.refs a' = Blk.rset y (Blk.rref (Blk.refs a) y + 1) (Blk.rset x (Blk.rref (Blk.refs a) x + 1) (Blk.refs a)) /\
    Blk.held a' = {[y; x]}.
Proof.
  intros Hxy Hh Hx Hy.
  destruct (bread_ex x h a) as (a1 & E1 & V1 & D1 & P1 & R1 & H1); [rewrite Hh; set_solver|done|].
  rewrite (bind_ok _ _ _ _ _ _ _ E1). eapply upd_num in R1 as (R1 & L1 & F1); [|done].
  destruct (bread_ex y h a1) as (a2 & E2 & V2 & D2 & P2 & R2 & H2).
  { rewrite H1, Hh. set_solver. }
  { unfold refs_room. rewrite R1, lookup_rset, decide_False by done. destruct Hy as [Hy|Hy]; [by left|right].
    enough (size (Blk.rset x (Blk.rref (Blk.refs a) x + 1) (Blk.refs a)) <= S (size (Blk.refs a)))%nat by lia.
    unfold Blk.rset. case_match.
    - rewrite map_size_delete. destruct (_ !! x); unfold id; lia.
    - rewrite map_size_insert. destruct (_ !! x); unfold id; lia. }
  exists a2. rewrite (bind_ok _ _ _ _ _ _ _ E2), V1. eapply upd_num in R2 as (R2 & L2 & F2); [|done].
  rewrite F1 in R2 by done. split_and!; [done|congruence..| |].
  - by rewrite R2, R1.
  - rewrite H2, H1, Hh. set_solver.
Qed.

Lemma release_two x y h a :
  x <> y -> x ∈ Blk.held a -> y ∈ Blk.held a ->
  exists a', (Blk.brelse x;; Blk.brelse y) h a = Ok tt h a' /\
    Blk.view a' = Blk.view a /\ Blk.dsk a' = Blk.dsk a /\ Blk.past a' = Blk.past a /\
    Blk.refs a' = Blk.rset y (Blk.rref (Blk.refs a) y - 1) (Blk.rset x (Blk.rref (Blk.refs a) x - 1) (Blk.refs a)) /\
    Blk.held a' = Blk.held a ∖ {[x]} ∖ {[y]}.
Proof.
  intros Hxy Hx Hy. destruct (brelse_ex x h a) as (a1 & E1 & V1 & D1 & P1 & R1 & H1); [done|].
  rewrite (bind_ok _ _ _ _ _ _ _ E1). eapply upd_num in R1 as (R1 & L1 & F1); [|done].
  destruct (brelse_ex y h a1) as (a2 & E2 & V2 & D2 & P2 & R2 & H2); [rewrite H1; set_solver|].
  eapply upd_num in R2 as (R2 & _ & _); [|done]. rewrite F1 in R2 by done.
  exists a2. split_and!; [done|congruence..| |].
  - by rewrite R2, R1.
  - by rewrite H2, H1.
Qed.

(** Taking and dropping the two references leaves the counts as they were. *)
Lemma refs_two x y r :
  x <> y -> (forall b n, r !! b = Some n -> n <> 0) ->
  let r2 := Blk.rset y (Blk.rref r y + 1) (Blk.rset x (Blk.rref r x + 1) r) in
  Blk.rset y (Blk.rref r2 y - 1) (Blk.rset x (Blk.rref r2 x - 1) r2) = r /\
  Blk.rset x (Blk.rref r2 x - 1) (Blk.rset y (Blk.rref r2 y - 1) r2) = r.
Proof.
  intros Hxy Hr r2. subst r2.
  assert (forall b c, (if decide (b = c) then if Blk.rref r b =? 0 then None else Some (Blk.rref r b) else r !! c)
            = r !! c) as Hb.
  { intros b c. case_decide as E; [|done]. subst. unfold Blk.rref. destruct (r !! c) as [n|] eqn:En; [|done].
    cbn. by rewrite (proj2 (Z.eqb_neq n 0) (Hr c n En)). }
  rewrite !rref_rset, !decide_True, (decide_False (P := y = x)) by done.
  replace (Blk.rref r x + 1 - 1) with (Blk.rref r x) by lia.
  replace (Blk.rref r y + 1 - 1) with (Blk.rref r y) by lia.
  split; apply map_eq; intros c; rewrite !lookup_rset; pose proof (Hb c c) as Hc;
    rewrite decide_True in Hc by done; repeat case_decide; subst; rewrite ?Z.add_simpl_r; first [done|exact Hc].
Qed.

(** Copying block [l] over block [b] through the cache and to the disk. *)
Lemma copy_step l b h a :
  l <> b -> Blk.held a = ∅ -> refs_room a l ->
  Blk.refs a !! b <> None \/ Z.of_nat (size (Blk.refs a)) < NBUF - 1 ->
  (forall c n, Blk.refs a !! c = Some n -> n <> 0) ->
  (ldata ← Blk.bread l; Blk.bread b;; Blk.store b ldata;; Blk.bwrite b;; mret tt;;
   Blk.brelse l;; Blk.brelse b) h a = Ok tt h (wrote b (dread (Blk.view a) l) a).
Proof.
  intros Hlb Hh Hl Hb Hn.
  destruct (read_two l b (fun d _ => Blk.store b d;; Blk.bwrite b;; mret tt;; Blk.brelse l;; Blk.brelse b) h a)
    as (a2 & E2 & V2 & D2 & P2 & R2 & H2); try done.
  rewrite E2. clear E2.
  destruct (store_write_ex b (dread (Blk.view a) l) h a2) as (a3 & E3 & V3 & D3 & P3 & R3 & H3); [set_solver|].
  rewrite (store_write_bind _ _ _ _ _ _ E3), (bind_ok (mret tt) _ h a3 tt h a3) by done.
  destruct (release_two l b h a3) as (a4 & E4 & V4 & D4 & P4 & R4 & H4); [done|set_solver..|].
  rewrite E4. f_equal. apply bk_eq; cbn [wrote Blk.view Blk.dsk Blk.past Blk.refs Blk.held].
  - congruence.
  - congruence.
  - congruence.
  - intros c. rewrite R4, R3, R2. f_equiv. by apply refs_two.
  - intros c. rewrite H4, H3, H2, Hh. set_solver.
Qed.

Lemma write_log_step l b h a :
  l <> b -> Blk.held a = ∅ -> refs_room a l ->
  Blk.refs a !! b <> None \/ Z.of_nat (size (Blk.refs a)) < NBUF - 1 ->
  (forall c n, Blk.refs a !! c = Some n -> n <> 0) ->
  (Blk.bread l;; from ← Blk.bread b; Blk.store l from;; Blk.bwrite l;;
   Blk.brelse b;; Blk.brelse l) h a = Ok tt h (wrote l (dread (Blk.view a) b) a).
Proof.
  intros Hlb Hh Hl Hb Hn.
  destruct (read_two l b (fun _ d => Blk.store l d;; Blk.bwrite l;; Blk.brelse b;; Blk.brelse l) h a)
    as (a2 & E2 & V2 & D2 & P2 & R2 & H2); try done.
  rewrite E2. clear E2.
  destruct (store_write_ex l (dread (Blk.view a) b) h a2) as (a3 & E3 & V3 & D3 & P3 & R3 & H3); [set_solver|].
  rewrite (store_write_bind _ _ _ _ _ _ E3).
  destruct (release_two b l h a3) as (a4 & E4 & V4 & D4 & P4 & R4 & H4); [done|set_solver..|].
  rewrite E4. f_equal. apply bk_eq; cbn [wrote Blk.view Blk.dsk Blk.past Blk.refs Blk.held].
  - congruence.
  - congruence.
  - congruence.
  - intros c. rewrite R4, R3, R2. f_equiv. by apply refs_two.
  - intros c. rewrite H4, H3, H2, Hh. set_solver.
Qed.

(** The same with [b]'s pin dropped. *)
Lemma install_step l b h a :
  l <> b -> Blk.held a = ∅ -> Blk.refs a !! l = None -> Blk.refs a !! b = Some 1 ->
  Z.of_nat (size (Blk.refs a)) < NBUF ->
  (ldata ← Blk.bread l; Blk.bread b;; Blk.store b ldata;; Blk.bwrite b;; Blk.bunpin b;;
   Blk.brelse l;; Blk.brelse b) h a = Ok tt h (unref b (wrote b (dread (Blk.view a) l) a)).
Proof.
  intros Hlb Hh Hl Hb Hsz.
  assert (Blk.rref (Blk.refs a) l = 0) as Nl by (unfold Blk.rref; by rewrite Hl).
  assert (Blk.rref (Blk.refs a) b = 1) as Nb by (unfold Blk.rref; by rewrite Hb).
  destruct (read_two l b (fun d _ => Blk.store b d;; Blk.bwrite b;; Blk.bunpin b;; Blk.brelse l;; Blk.brelse b) h a)
    as (a2 & E2 & V2 & D2 & P2 & R2 & H2); [done|done|by right|left; congruence|].
  rewrite E2. clear E2. rewrite Nl, Nb in R2.
  destruct (store_write_ex b (dread (Blk.view a) l) h a2) as (a3 & E3 & V3 & D3 & P3 & R3 & H3); [set_solver|].
  rewrite (store_write_bind _ _ _ _ _ _ E3).
  destruct (bunpin_ex b h a3) as (a4 & E4 & V4 & D4 & P4 & R4 & H4).
  rewrite (bind_ok _ _ _ _ _ _ _ E4). eapply (upd_num _ _ _ _ 1) in R4 as (R4 & _ & _).
  2:{ rewrite R3, R2, rref_rset. by rewrite decide_True. }
  destruct (release_two l b h a4) as (a5 & E5 & V5 & D5 & P5 & R5 & H5); [done|set_solver..|].
  rewrite E5. f_equal. apply bk_eq; cbn [unref wrote Blk.view Blk.dsk Blk.past Blk.refs Blk.held].
  - congruence.
  - congruence.
  - congruence.
  - intros c. rewrite R5, R4, R3, R2, !rref_rset.
    rewrite !(decide_True (P := b = b)), !(decide_True (P := l = l)), !(decide_False (P := b = l)) by done.
    rewrite !lookup_rset. cbn. destruct (decide (b = c)) as [->|]; [symmetry; apply lookup_delete_eq|].
    rewrite lookup_delete_ne by done. destruct (decide (l = c)); by subst.
  - intros c. rewrite H5, H4, H3, H2, Hh. set_solver.
Qed.

(** ** Sequences of block writes *)

Definition inst (ps : list (Z * list Z)) (d : disk) : disk := foldl (fun d p => <[p.1 := p.2]> d) d ps.

Lemma dread_inst_notin ps d b : b ∉ ps.*1 -> dread (inst ps d) b = dread d b.
Proof.
  revert d. induction ps as [|[c v] ps IH]; intros d Hb; [done|]. cbn in *.
  apply not_elem_of_cons in Hb as [Hc Hb]. change (dread (inst ps (<[c := v]> d)) b = dread d b).
  rewrite IH by done. rewrite dread_insert. by rewrite decide_False.
Qed.

Lemma dread_inst_in ps d b v : NoDup ps.*1 -> (b, v) ∈ ps -> dread (inst ps d) b = v.
Proof.
  revert d. induction ps as [|[c w] ps IH]; intros d Hn Hb; [by apply elem_of_nil in Hb|].
  cbn in Hn. apply NoDup_cons in Hn as [Hc Hn]. change (dread (inst ps (<[c := w]> d)) b = v).
  apply elem_of_cons in Hb as [[= -> ->]|Hb]; [|by apply IH].
  rewrite dread_inst_notin by done. rewrite dread_insert. by rewrite decide_True.
Qed.

(** [a'] is [a] after the writes [ps], each of which went to the disk. *)
Record wrote_all (ps : list (Z * list Z)) (a a' : Blk.bk) : Prop := {
  wa_view : Blk.view a' = inst ps (Blk.view a);
  wa_dsk : Blk.dsk a' = inst ps (Blk.dsk a);
  wa_held : Blk.held a' = ∅;
  wa_past : exists new, Blk.past a' = new ++ Blk.past a /\
    forall d, d ∈ new -> exists k, d = inst (take k ps) (Blk.dsk a) }.

Lemma wrote_all_nil a : Blk.held a = ∅ -> wrote_all [] a a.
Proof. intros H. split; try done. exists []. split; [done|]. by intros d ?%elem_of_nil. Qed.

Lemma wrote_all_cons b v ps a a1 a' :
  Blk.view a1 = <[b := v]> (Blk.view a) -> Blk.dsk a1 = <[b := v]> (Blk.dsk a) ->
  Blk.past a1 = Blk.dsk a :: Blk.past a -> wrote_all ps a1 a' -> wrote_all ((b, v) :: ps) a a'.
Proof.
  intros Hv Hd Hp [W1 W2 W3 (new & W4 & W5)]. split; [by rewrite W1, Hv|by rewrite W2, Hd|done|].
  exists (new ++ [Blk.dsk a]). split; [rewrite W4, Hp; by rewrite <-app_assoc|].
  intros d [Hd'|Hd']%elem_of_app.
  - destruct (W5 d Hd') as [k ->]. exists (S k). by rewrite Hd.
  - apply list_elem_of_singleton in Hd' as ->. by exists 0%nat.
Qed.

(** The log blocks from [l] on, paired with the blocks they stand for. *)
Fixpoint log_pairs (l : Z) (blocks : list Z) (v : Z -> list Z) : list (Z * list Z) :=
  match blocks with
  | [] => []
  | b :: blocks => (l, v b) :: log_pairs (l + 1) blocks v
  end.
Fixpoint home_pairs (l : Z) (blocks : list Z) (v : Z -> list Z) : list (Z * list Z) :=
  match blocks with
  | [] => []
  | b :: blocks => (b, v l) :: home_pairs (l + 1) blocks v
  end.

Lemma log_pairs_ext l blocks v v' :
  (forall b, b ∈ blocks -> v b = v' b) -> log_pairs l blocks v = log_pairs l blocks v'.
Proof.
  revert l. induction blocks as [|b blocks IH]; intros l H; cbn; [done|].
  rewrite (H b) by apply elem_of_cons, or_introl, eq_refl. f_equal. apply IH. intros. apply H. by right.
Qed.

Lemma home_pairs_ext l blocks v v' :
  (forall c, l <= c < l + Z.of_nat (length blocks) -> v c = v' c) -> home_pairs l blocks v = home_pairs l blocks v'.
Proof.
  revert l. induction blocks as [|b blocks IH]; intros l H; cbn; [done|]. cbn in H.
  rewrite (H l) by lia. f_equal. apply IH. intros. apply H. lia.
Qed.

Lemma log_pairs_keys l blocks v c : c ∈ (log_pairs l blocks v).*1 -> l <= c < l + Z.of_nat (length blocks).
Proof.
  revert l. induction blocks as [|b blocks IH]; intros l; cbn; [by intros ?%elem_of_nil|].
  intros [->|H%IH]%elem_of_cons; lia.
Qed.

Lemma home_pairs_keys l blocks v : (home_pairs l blocks v).*1 = blocks.
Proof. revert l. induction blocks as [|b blocks IH]; intros l; cbn; [done|]. by rewrite IH. Qed.

Lemma log_pairs_NoDup l blocks v : NoDup (log_pairs l blocks v).*1.
Proof.
  revert l. induction blocks as [|b blocks IH]; intros l; cbn; [constructor|].
  constructor; [|apply IH]. intros ?%log_pairs_keys. lia.
Qed.

Lemma log_pairs_elem l blocks v k b :
  blocks !! k = Some b -> (l + Z.of_nat k, v b) ∈ log_pairs l blocks v.
Proof.
  revert l k. induction blocks as [|c blocks IH]; intros l k; [done|]. destruct k as [|k]; cbn.
  - intros [= ->]. rewrite Z.add_0_r. by left.
  - intros H. right. replace (l + Z.of_nat (S k)) with (l + 1 + Z.of_nat k) by lia. by apply IH.
Qed.

Lemma home_pairs_elem l blocks v k b :
  blocks !! k = Some b -> (b, v (l + Z.of_nat k)) ∈ home_pairs l blocks v.
Proof.
  revert l k. induction blocks as [|c blocks IH]; intros l k; [done|]. destruct k as [|k]; cbn.
  - intros [= ->]. rewrite Z.add_0_r. by left.
  - intros H. right. replace (l + Z.of_nat (S k)) with (l + 1 + Z.of_nat k) by lia. by apply IH.
Qed.

(** ** The two copying loops *)

Lemma write_log_loop_ok blocks tail h s :
  Blk.held (blk s) = ∅ ->
  (forall b, b ∈ blocks -> Blk.refs (blk s) !! b <> None /\
     ~ (start s + tail < b <= start s + tail + Z.of_nat (length blocks))) ->
  (forall c n, Blk.refs (blk s) !! c = Some n -> n <> 0) ->
  Z.of_nat (size (Blk.refs (blk s))) < NBUF ->
  exists a', write_log_loop blocks tail h s = Ok tt h (set_blk a' s) /\
    wrote_all (log_pairs (start s + tail + 1) blocks (dread (Blk.view (blk s)))) (blk s) a' /\
    Blk.refs a' = Blk.refs (blk s).
Proof.
  revert tail s. induction blocks as [|b blocks IH]; intros tail s Hh Hb Hn Hsz.
  - exists (blk s). split_and!; [by destruct s|by apply wrote_all_nil|done].
  - cbn [write_log_loop log_pairs length] in *. set (l := start s + tail + 1).
    destruct (Hb b) as [Hb1 Hb2]; [by left|].
    set (a1 := wrote l (dread (Blk.view (blk s)) b) (blk s)).
    destruct (IH (tail + 1) (set_blk a1 s)) as (a' & E & W & R); try done.
    { intros c Hc. destruct (Hb c) as [Hc1 Hc2]; [by right|]. split; [done|]. cbn [start set_blk]. lia. }
    exists a'. split_and!.
    + rewrite kget_bind. erewrite bind_ok.
      2:{ apply on_blk_ok, write_log_step; try done; [lia|by right|by left]. }
      exact E.
    + eapply (wrote_all_cons _ _ _ _ a1); [done..|]. cbn [start blk set_blk] in W.
      replace (start s + (tail + 1) + 1) with (l + 1) in W by lia.
      erewrite log_pairs_ext; [exact W|]. intros c Hc. cbn [a1 wrote Blk.view]. rewrite dread_insert.
      rewrite decide_False; [done|]. destruct (Hb c) as [_ Hc2]; [by right|]. lia.
    + exact R.
Qed.

Lemma install_loop_ok blocks tail h s :
  Blk.held (blk s) = ∅ -> NoDup blocks ->
  (forall b, b ∈ blocks -> Blk.refs (blk s) !! b = Some 1 /\
     ~ (start s + tail < b <= start s + tail + Z.of_nat (length blocks))) ->
  (forall l, start s + tail < l <= start s + tail + Z.of_nat (length blocks) -> Blk.refs (blk s) !! l = None) ->
  Z.of_nat (size (Blk.refs (blk s))) < NBUF ->
  exists a', install_loop blocks tail false h s = Ok tt h (set_blk a' s) /\
    wrote_all (home_pairs (start s + tail + 1) blocks (dread (Blk.view (blk s)))) (blk s) a' /\
    forall c, Blk.refs a' !! c = if decide (c ∈ blocks) then None else Blk.refs (blk s) !! c.
Proof.
  revert tail s. induction blocks as [|b blocks IH]; intros tail s Hh Hnd Hb Hl Hsz.
  - exists (blk s). split_and!; [by destruct s|by apply wrote_all_nil|].
    intros c. rewrite decide_False; [done|]. by intros ?%elem_of_nil.
  - cbn [install_loop home_pairs length] in *. set (l := start s + tail + 1).
    apply NoDup_cons in Hnd as [Hnb Hnd].
    destruct (Hb b) as [Hb1 Hb2]; [by left|].
    set (a1 := unref b (wrote b (dread (Blk.view (blk s)) l) (blk s))).
    destruct (IH (tail + 1) (set_blk a1 s)) as (a' & E & W & R); try done.
    { intros c Hc. destruct (Hb c) as [Hc1 Hc2]; [by right|]. cbn [start set_blk blk a1 unref wrote Blk.refs].
      split; [|lia]. rewrite lookup_delete_ne; [done|]. intros <-. done. }
    { intros c Hc. cbn [start set_blk blk a1 unref wrote Blk.refs] in *. rewrite lookup_delete_None. right.
      apply Hl. lia. }
    { cbn [blk set_blk a1 unref wrote Blk.refs]. rewrite map_size_delete, Hb1. lia. }
    exists a'. split_and!.
    + rewrite kget_bind. erewrite bind_ok.
      2:{ apply on_blk_ok, install_step; try done; [lia|apply Hl; lia]. }
      exact E.
    + eapply (wrote_all_cons _ _ _ _ a1); [done..|]. cbn [start blk set_blk] in W.
      replace (start s + (tail + 1) + 1) with (l + 1) in W by lia.
      erewrite home_pairs_ext; [exact W|]. intros c Hc. cbn [a1 unref wrote Blk.view]. rewrite dread_insert.
      rewrite decide_False; [done|]. lia.
    + intros c. rewrite R. cbn [blk set_blk a1 unref wrote Blk.refs]. destruct (decide (b = c)) as [->|Hbc].
      * rewrite lookup_delete_eq. rewrite (decide_True (P := c ∈ c :: blocks)) by by left. by case_decide.
      * rewrite lookup_delete_ne by done. repeat case_decide; try done; set_solver.
Qed.

Lemma recover_loop_ok blocks tail h s :
  Blk.held (blk s) = ∅ -> Blk.refs (blk s) = ∅ ->
  (forall b, b ∈ blocks -> ~ (start s + tail < b <= start s + tail + Z.of_nat (length blocks))) ->
  exists a', install_loop blocks tail true h s = Ok tt h (set_blk a' s) /\
    wrote_all (home_pairs (start s + tail + 1) blocks (dread (Blk.view (blk s)))) (blk s) a' /\
    Blk.refs a' = ∅.
Proof.
  revert tail s. induction blocks as [|b blocks IH]; intros tail s Hh Hr Hb.
  - exists (blk s). split_and!; [by destruct s|by apply wrote_all_nil|done].
  - cbn [install_loop home_pairs length] in *. set (l := start s + tail + 1).
    pose proof (Hb b ltac:(by left)) as Hb2.
    set (a1 := wrote b (dread (Blk.view (blk s)) l) (blk s)).
    destruct (IH (tail + 1) (set_blk a1 s)) as (a' & E & W & R); try done.
    { intros c Hc. pose proof (Hb c ltac:(by right)). cbn [start set_blk]. lia. }
    exists a'. split_and!; [|..|done].
    + rewrite kget_bind. erewrite bind_ok.
      2:{ apply on_blk_ok, copy_step; try done; unfold refs_room; rewrite ?Hr; [lia|by right|by right|done]. }
      exact E.
    + eapply (wrote_all_cons _ _ _ _ a1); [done..|]. cbn [start blk set_blk] in W.
      replace (start s + (tail + 1) + 1) with (l + 1) in W by lia.
      erewrite home_pairs_ext; [exact W|]. intros c Hc. cbn [a1 wrote Blk.view]. rewrite dread_insert.
      rewrite decide_False; [done|]. lia.
Qed.

(** ** The header block *)

Definition decode_head (d : list Z) : list Z := (fun i => int_at d (S i)) <$> seq 0 (Z.to_nat (int_at d 0)).
Definition hdr (l : list Z) (d : list Z) : list Z := head_bytes l ++ drop (length (head_bytes l)) d.

Lemma take_ints (l x : list Z) i b :
  l !! i = Some b -> take 4 (drop (4 * i) (mjoin (le_bytes 4 <$> l) ++ x)) = le_bytes 4 b.
Proof.
  revert i. induction l as [|c l IH]; intros i; [done|]. cbn [fmap list_fmap mjoin list_join].
  rewrite <-app_assoc. destruct i as [|i].
  - intros [= ->]. change (4 * 0)%nat with 0%nat. rewrite drop_0. by rewrite take_app_length'.
  - intros H. replace (4 * S i)%nat with (4 + 4 * i)%nat by lia. rewrite <-drop_drop, drop_app_length' by done.
    by apply IH.
Qed.

Lemma int_at_hdr (l x : list Z) i b :
  (Z.of_nat (length l) :: l) !! i = Some b -> 0 <= b < 2 ^ 31 -> int_at (head_bytes l ++ x) i = b.
Proof.
  intros Hi Hb. unfold int_at, head_bytes.
  change (le_bytes 4 (Z.of_nat (length l)) ++ mjoin (le_bytes 4 <$> l))
    with (mjoin (le_bytes 4 <$> (Z.of_nat (length l) :: l))).
  rewrite (take_ints _ _ _ _ Hi), s32_le_val_bytes. apply s32_small. lia.
Qed.

Lemma decode_hdr (l x : list Z) :
  Z.of_nat (length l) < 2 ^ 31 -> Forall (fun b => 0 <= b < 2 ^ 31) l ->
  decode_head (head_bytes l ++ x) = l /\ int_at (head_bytes l ++ x) 0 = Z.of_nat (length l).
Proof.
  intros Hn Hl. assert (int_at (head_bytes l ++ x) 0 = Z.of_nat (length l)) as H0 by (apply int_at_hdr; [done|lia]).
  split; [|done]. unfold decode_head. rewrite H0, Nat2Z.id. apply list_eq. intros i.
  rewrite list_lookup_fmap. destruct (l !! i) as [b|] eqn:Hi.
  - rewrite lookup_seq_lt by by eapply lookup_lt_Some. cbn [fmap option_fmap option_map]. f_equal.
    apply int_at_hdr; [done|]. by eapply Forall_lookup_1 in Hl.
  - apply lookup_ge_None in Hi. by rewrite lookup_seq_ge.
Qed.

Lemma rset_one b r :
  (forall n, r !! b = Some n -> n <> 0) ->
  Blk.rset b (Blk.rref (Blk.rset b (Blk.rref r b + 1) r) b - 1) (Blk.rset b (Blk.rref r b + 1) r) = r.
Proof.
  intros H. rewrite rref_rset, decide_True, Z.add_simpl_r by done. by apply rset_back.
Qed.

Lemma write_head_ok h s :
  Blk.held (blk s) = ∅ -> refs_room (blk s) (start s) ->
  (forall c n, Blk.refs (blk s) !! c = Some n -> n <> 0) ->
  write_head h s =
  Ok tt h (set_blk (wrote (start s) (hdr (lh s) (dread (Blk.view (blk s)) (start s))) (blk s)) s).
Proof.
  intros Hh Hr Hn. unfold write_head. rewrite kget_bind. apply on_blk_ok.
  destruct (bread_ex (start s) h (blk s)) as (a1 & E1 & V1 & D1 & P1 & [_ R1] & H1); [rewrite Hh; set_solver|done|].
  rewrite (bind_ok _ _ _ _ _ _ _ E1).
  destruct (store_write_ex (start s) (hdr (lh s) (dread (Blk.view (blk s)) (start s))) h a1)
    as (a2 & E2 & V2 & D2 & P2 & R2 & H2); [set_solver|].
  rewrite (store_write_bind _ _ _ _ _ _ E2).
  destruct (brelse_ex (start s) h a2) as (a3 & E3 & V3 & D3 & P3 & [_ R3] & H3); [set_solver|].
  rewrite E3. f_equal. apply bk_eq; cbn [wrote Blk.view Blk.dsk Blk.past Blk.refs Blk.held].
  - congruence.
  - congruence.
  - congruence.
  - intros c. rewrite R3, R2, R1. f_equiv. apply rset_one. intros n. apply Hn.
  - intros c. rewrite H3, H2, H1, Hh. set_solver.
Qed.

Lemma read_head_ok h s :
  Blk.held (blk s) = ∅ -> Blk.refs (blk s) = ∅ ->
  int_at (dread (Blk.view (blk s)) (start s)) 0 <= LOGSIZE ->
  read_head h s = Ok tt h (set_lh (decode_head (dread (Blk.view (blk s)) (start s))) s).
Proof.
  intros Hh Hr Hn. unfold read_head. rewrite kget_bind.
  assert (on_blk (d ← Blk.bread (start s); Blk.brelse (start s);; mret d) h s =
          Ok (dread (Blk.view (blk s)) (start s)) h s) as E.
  { destruct (bread_ex (start s) h (blk s)) as (a1 & E1 & V1 & D1 & P1 & [_ R1] & H1).
    { rewrite Hh. set_solver. }
    { right. by rewrite Hr. }
    destruct (brelse_ex (start s) h a1) as (a3 & E3 & V3 & D3 & P3 & [_ R3] & H3); [set_solver|].
    assert (a3 = blk s) as ->.
    { apply bk_eq; try congruence.
      - intros c. rewrite R3, R1. f_equiv. apply rset_one. intros n. by rewrite Hr.
      - intros c. rewrite H3, H1, Hh. set_solver. }
    erewrite on_blk_ok.
    2:{ rewrite (bind_ok _ _ _ _ _ _ _ E1), (bind_ok _ _ _ _ _ _ _ E3). reflexivity. }
    by destruct s. }
  rewrite (bind_ok _ _ _ _ _ _ _ E). destruct (Z.gtb_spec (int_at (dread (Blk.view (blk s)) (start s)) 0) LOGSIZE); [lia|done].
Qed.

(** * Crashes *)

Section crash.
Context (L n : Z).

(** A block outside the log. *)
Definition home (b : Z) : Prop := ~ (L <= b < L + LOGSIZE).

Definition valid_log (l : list Z) : Prop :=
  Z.of_nat (length l) < LOGSIZE /\ NoDup l /\ forall b, b ∈ l -> home b /\ 0 <= b < 2 ^ 31.

(** The system as it starts on a disk. *)
Definition boot (d : disk) : lst := Lst L n 0 0 ROOTDEV [] (Blk.init d).

(** The disk the log of [d] stands for. *)
Definition logged (d : disk) : list Z := decode_head (dread d L).
Definition pairs_of (d : disk) : list (Z * list Z) := home_pairs (L + 1) (logged d) (dread d).

Definition stands_for (r : Z -> list Z) (d : disk) : Prop :=
  valid_log (logged d) /\ forall b, home b -> dread (inst (pairs_of d) d) b = r b.

Lemma length_decode d : int_at d 0 <= Z.of_nat (length (decode_head d)).
Proof. unfold decode_head. rewrite length_fmap, length_seq. lia. Qed.

Lemma keys_home (d : disk) k b :
  valid_log (logged d) -> b ∈ (take k (pairs_of d)).*1 -> home b.
Proof.
  intros (_ & _ & Hv) Hb. apply Hv. rewrite fmap_take in Hb. unfold pairs_of in Hb. rewrite home_pairs_keys in Hb.
  rewrite <-(take_drop k (logged d)). apply elem_of_app. by left.
Qed.

Lemma log_unchanged (d : disk) k b :
  valid_log (logged d) -> ~ home b -> dread (inst (take k (pairs_of d)) d) b = dread d b.
Proof. intros Hv Hb. apply dread_inst_notin. intros X. by apply (keys_home d k b Hv) in X. Qed.

(** Installing again after a crash in the middle changes nothing more. *)
Lemma stands_for_partial r d k :
  stands_for r d -> stands_for r (inst (take k (pairs_of d)) d).
Proof.
  intros [Hv Hr]. set (d' := inst (take k (pairs_of d)) d).
  assert (forall b, ~ home b -> dread d' b = dread d b) as Hlog by (intros; by apply log_unchanged).
  assert (logged d' = logged d) as Hl.
  { unfold logged. f_equal. apply Hlog. unfold home, LOGSIZE, MAXOPBLOCKS. lia. }
  assert (pairs_of d' = pairs_of d) as Hp.
  { unfold pairs_of. rewrite Hl. apply home_pairs_ext. intros c Hc. apply Hlog.
    destruct Hv as (Hlen & _). unfold home. lia. }
  split; [by rewrite Hl|]. intros b Hb. rewrite <-Hr, Hp by done.
  destruct (decide (b ∈ (pairs_of d).*1)) as [Hin|Hin].
  - apply list_elem_of_fmap in Hin as ([b' v] & -> & Hin). cbn.
    assert (NoDup (pairs_of d).*1) by (unfold pairs_of; rewrite home_pairs_keys; apply Hv).
    by rewrite !(dread_inst_in _ _ b' v).
  - rewrite !(dread_inst_notin (pairs_of d)) by done. apply dread_inst_notin.
    intros X. apply Hin. rewrite <-(take_drop k (pairs_of d)), fmap_app. apply elem_of_app. by left.
Qed.

Lemma stands_for_done r d x :
  stands_for r d -> stands_for r (<[L := hdr [] x]> (inst (pairs_of d) d)) /\
  logged (<[L := hdr [] x]> (inst (pairs_of d) d)) = [] /\
  forall b, home b -> dread (<[L := hdr [] x]> (inst (pairs_of d) d)) b = r b.
Proof.
  intros [Hv Hr]. set (d' := <[L := _]> _).
  assert (logged d' = []) as Hl.
  { unfold logged, d', hdr. rewrite dread_insert, decide_True by done. by apply (decode_hdr []). }
  assert (forall b, home b -> dread d' b = r b) as Hd.
  { intros b Hb. unfold d'. rewrite dread_insert, decide_False; [by apply Hr|].
    unfold home, LOGSIZE, MAXOPBLOCKS in Hb. lia. }
  split_and!; [|done|done]. split.
  - rewrite Hl. split_and!; [done|constructor|]. by intros b ?%elem_of_nil.
  - intros b Hb. unfold pairs_of. rewrite Hl. by apply Hd.
Qed.

Lemma recover_ok r d h :
  stands_for r d ->
  exists s, recover_from_log h (boot d) = Ok tt h s /\
    lh s = [] /\ logged (Blk.dsk (blk s)) = [] /\ (forall b, home b -> dread (Blk.dsk (blk s)) b = r b) /\
    forall d', d' ∈ Blk.dsk (blk s) :: Blk.past (blk s) -> stands_for r d'.
Proof.
  intros Hsf. pose proof Hsf as [Hv Hr].
  set (s1 := set_lh (logged d) (boot d)).
  destruct (recover_loop_ok (logged d) 0 h s1) as (a2 & E2 & [W1 W2 W3 (new & W4 & W5)] & R2); try done.
  { intros b Hb. destruct Hv as (Hlen & _ & Hh). destruct (Hh b Hb) as [Hb' _].
    unfold home in Hb'. cbn [s1 boot start set_lh]. lia. }
  set (s3 := set_lh [] (set_blk a2 s1)).
  assert (home_pairs (start s1 + 0 + 1) (logged d) (dread (Blk.view (blk s1))) = pairs_of d) as Hp.
  { unfold pairs_of. cbn. by rewrite Z.add_0_r. }
  rewrite Hp in W1, W2, W5. cbn [blk s1 set_lh boot Blk.init Blk.view Blk.dsk Blk.past] in W1, W2, W4, W5.
  eexists. split.
  { unfold recover_from_log. erewrite bind_ok.
    2:{ apply read_head_ok; [done|done|]. destruct Hv as (Hlen & _). cbn.
        pose proof (length_decode (dread d L)). unfold logged in Hlen. lia. }
    fold s1. erewrite bind_ok; [|unfold install_trans; rewrite kget_bind; exact E2].
    erewrite bind_ok by reflexivity. fold s3. apply write_head_ok; [done| |].
    - right. cbn. by rewrite R2.
    - cbn. by rewrite R2. }
  cbn [blk set_blk wrote Blk.dsk Blk.past s3 set_lh start s1 boot lh]. rewrite W1, W2, W4.
  destruct (stands_for_done r d (dread (inst (pairs_of d) d) L) Hsf) as (D1 & D2 & D3).
  split_and!; [done|done|done|]. intros d' Hd'. rewrite app_nil_r in Hd'.
  apply elem_of_cons in Hd' as [->|Hd']; [done|]. apply elem_of_cons in Hd' as [->|Hd'].
  - rewrite <-(take_ge (pairs_of d) (length (pairs_of d))) at 1 by done. by apply stands_for_partial.
  - destruct (W5 d' Hd') as [k ->]. by apply stands_for_partial.
Qed.

(** The state in which [end_op] commits: nobody holds a buffer, exactly the
    logged blocks are pinned, the log on the disk is empty and every block that
    is not logged is as on the disk. *)
Record quiet (s : lst) : Prop := {
  q_start : start s = L;
  q_held : Blk.held (blk s) = ∅;
  q_valid : valid_log (lh s);
  q_refs : forall c, Blk.refs (blk s) !! c = if decide (c ∈ lh s) then Some 1 else None;
  q_head : logged (Blk.dsk (blk s)) = [];
  q_clean : forall b, home b -> b ∉ lh s -> dread (Blk.view (blk s)) b = dread (Blk.dsk (blk s)) b }.

Lemma quiet_size s : quiet s -> Z.of_nat (size (Blk.refs (blk s))) < NBUF.
Proof.
  intros [_ _ (Hlen & Hnd & _) Hr _ _].
  assert (dom (Blk.refs (blk s)) ⊆ list_to_set (lh s)) as Hsub.
  { intros c Hc. apply elem_of_dom in Hc as [x Hx]. rewrite Hr in Hx. apply elem_of_list_to_set.
    by case_decide. }
  apply subseteq_size in Hsub. rewrite size_dom, size_list_to_set in Hsub by done.
  unfold NBUF, LOGSIZE, MAXOPBLOCKS in *. lia.
Qed.

Lemma quiet_nonzero s : quiet s -> forall c x, Blk.refs (blk s) !! c = Some x -> x <> 0.
Proof. intros Q c x. rewrite (q_refs _ Q). case_decide; [by intros [= <-]|done]. Qed.

(** Writing log blocks keeps an empty log empty. *)
Lemma log_writes_old d l v k :
  logged d = [] -> valid_log l -> stands_for (dread d) (inst (take k (log_pairs (L + 1) l v)) d).
Proof.
  intros Hd (Hlen & _ & _). set (d' := inst _ _).
  assert (forall b, ~ (L < b < L + LOGSIZE) -> dread d' b = dread d b) as Hu.
  { intros b Hb. apply dread_inst_notin. intros X. apply Hb.
    assert (b ∈ (log_pairs (L + 1) l v).*1) as X'.
    { rewrite <-(take_drop k (log_pairs (L + 1) l v)), fmap_app. apply elem_of_app. by left. }
    apply log_pairs_keys in X'. lia. }
  assert (logged d' = []) as Hl by (unfold logged; rewrite Hu by lia; exact Hd).
  split.
  - rewrite Hl. split_and!; [done|constructor|]. by intros b ?%elem_of_nil.
  - intros b Hb. unfold pairs_of. rewrite Hl. apply Hu. unfold home in Hb. lia.
Qed.

Lemma log_block_value d l v c k b :
  l !! k = Some b -> c = L + 1 + Z.of_nat k -> dread (inst (log_pairs (L + 1) l v) d) c = v b.
Proof. intros Hk ->. apply dread_inst_in; [apply log_pairs_NoDup|by apply log_pairs_elem]. Qed.

(** The header write commits: from then on the log stands for the new contents. *)
Lemma header_commits d l v x :
  valid_log l -> (forall b, home b -> b ∉ l -> v b = dread d b) ->
  let d2 := <[L := hdr l x]> (inst (log_pairs (L + 1) l v) d) in
  stands_for v d2 /\ logged d2 = l /\
  forall c, L < c <= L + Z.of_nat (length l) -> dread d2 c = dread (inst (log_pairs (L + 1) l v) d) c.
Proof.
  intros Hv Hc d2. pose proof Hv as (Hlen & Hnd & Hl).
  assert (forall c, c <> L -> dread d2 c = dread (inst (log_pairs (L + 1) l v) d) c) as Hne.
  { intros c Hcl. unfold d2. rewrite dread_insert. by rewrite decide_False. }
  assert (logged d2 = l) as Hlg.
  { unfold logged, d2, hdr. rewrite dread_insert, decide_True by done. apply decode_hdr.
    - unfold LOGSIZE, MAXOPBLOCKS in Hlen. lia.
    - apply Forall_forall. intros b Hb. by apply Hl. }
  split_and!; [|done|intros c Hcc; apply Hne; lia]. split; [by rewrite Hlg|]. intros b Hb. unfold pairs_of. rewrite Hlg.
  destruct (decide (b ∈ l)) as [Hin|Hin].
  - pose proof Hin as [k Hk]%list_elem_of_lookup. apply dread_inst_in; [by rewrite home_pairs_keys|].
    replace (v b) with (dread d2 (L + 1 + Z.of_nat k)); [by apply home_pairs_elem|].
    rewrite Hne by lia. by eapply log_block_value.
  - rewrite dread_inst_notin by by rewrite home_pairs_keys. rewrite Hc by done.
    rewrite Hne.
    + apply dread_inst_notin. intros ?%log_pairs_keys. unfold home in Hb. lia.
    + unfold home, LOGSIZE, MAXOPBLOCKS in Hb. lia.
Qed.

Lemma commit_phases h s :
  quiet s -> lh s <> [] ->
  exists a1 a3 x y, let l := lh s in
    let d := Blk.dsk (blk s) in
    let v := dread (Blk.view (blk s)) in
    let d2 := <[L := hdr l x]> (inst (log_pairs (L + 1) l v) d) in
    commit h s = Ok tt h (set_blk (wrote L (hdr [] y) a3) (set_lh [] s)) /\
    wrote_all (log_pairs (L + 1) l v) (blk s) a1 /\
    wrote_all (home_pairs (L + 1) l (dread d2)) (wrote L (hdr l x) a1) a3 /\
    (forall c, Blk.refs a3 !! c = None).
Proof.
  intros Q Hne. pose proof Q as [Q1 Q2 Q3 Q4 Q5 Q6]. pose proof (quiet_size s Q) as Hsz.
  pose proof (quiet_nonzero s Q) as Hnz. pose proof Q3 as (Hlen & Hnd & Hl).
  destruct (write_log_loop_ok (lh s) 0 h s) as (a1 & E1 & W1 & R1); try done.
  { intros b Hb. rewrite Q4, decide_True by done. split; [done|]. destruct (Hl b Hb) as [Hb' _]. unfold home in Hb'. lia. }
  rewrite Q1, Z.add_0_r in W1.
  set (x := dread (Blk.view a1) L). set (a2 := wrote L (hdr (lh s) x) a1).
  destruct (install_loop_ok (lh s) 0 h (set_blk a2 s)) as (a3 & E3 & W3 & R3); cbn [blk set_blk start a2 wrote Blk.held Blk.refs]; try done.
  { apply W1. }
  { intros b Hb. rewrite R1, Q4, decide_True by done. split; [done|]. destruct (Hl b Hb) as [Hb' _]. unfold home in Hb'. lia. }
  { intros c Hc. rewrite R1, Q4. case_decide as D; [|done]. destruct (Hl c D) as [Hb' _]. unfold home in Hb'. lia. }
  { by rewrite R1. }
  exists a1, a3, x, (dread (Blk.view a3) L). cbn zeta. split_and!.
  - unfold commit. rewrite kget_bind. destruct (Z.gtb_spec (lh_n s) 0) as [_|X].
    2:{ unfold lh_n in X. destruct (lh s); [done|cbn in X; lia]. }
    erewrite bind_ok; [|unfold write_log; rewrite kget_bind; exact E1].
    erewrite bind_ok.
    2:{ apply write_head_ok; cbn [blk set_blk]; [apply W1|right; by rewrite R1|by rewrite R1]. }
    cbn [start lh blk set_blk]. rewrite Q1. fold x a2.
    erewrite bind_ok; [|unfold install_trans; rewrite kget_bind; exact E3].
    erewrite bind_ok by reflexivity.
    assert (forall c, Blk.refs a3 !! c = None) as Hr3.
    { intros c. rewrite R3. case_decide as D; [done|]. cbn. rewrite R1, Q4. by rewrite decide_False. }
    erewrite write_head_ok; [cbn [start lh blk set_blk set_lh]; by rewrite Q1|..]; cbn [blk set_blk set_lh].
    + apply W3.
    + right. apply map_empty in Hr3. rewrite Hr3. done.
    + intros c y. by rewrite Hr3.
  - exact W1.
  - cbn [blk set_blk start] in W3. rewrite Q1, Z.add_0_r in W3. erewrite home_pairs_ext; [exact W3|].
    intros c Hc. cbn [a2 wrote Blk.view]. rewrite (wa_view _ _ _ W1), !dread_insert.
    rewrite !decide_False by lia. destruct (lookup_lt_is_Some_2 (lh s) (Z.to_nat (c - (L + 1)))) as [b Hb]; [lia|].
    rewrite !(log_block_value _ _ _ c _ b Hb) by lia. done.
  - intros c. rewrite R3. case_decide as D; [done|]. cbn. rewrite R1, Q4. by rewrite decide_False.
Qed.

Lemma commit_ok h s :
  quiet s ->
  exists s', commit h s = Ok tt h s' /\ quiet s' /\ lh s' = [] /\
    (forall b, home b -> dread (Blk.dsk (blk s')) b = dread (Blk.view (blk s)) b /\
                         dread (Blk.view (blk s')) b = dread (Blk.view (blk s)) b) /\
    exists new, Blk.past (blk s') = new ++ Blk.past (blk s) /\
    forall d, d ∈ Blk.dsk (blk s') :: new ->
      stands_for (dread (Blk.dsk (blk s))) d \/ stands_for (dread (Blk.view (blk s))) d.
Proof.
  intros Q. destruct (decide (lh s = [])) as [He|Hne].
  { exists s. split_and!; try done.
    - unfold commit. rewrite kget_bind. unfold lh_n. by rewrite He.
    - intros b Hb. split; [|done]. symmetry. apply (q_clean _ Q); [done|]. rewrite He. by intros ?%elem_of_nil.
    - exists []. split; [done|]. intros d Hd. apply list_elem_of_singleton in Hd as ->. left.
      apply (log_writes_old (Blk.dsk (blk s)) [] (dread ∅) 0); [apply Q|].
      split_and!; [done|constructor|]. by intros b ?%elem_of_nil. }
  destruct (commit_phases h s Q Hne) as (a1 & a3 & x & y & E & W1 & W3 & R3).
  pose proof Q as [Q1 Q2 Q3 Q4 Q5 Q6].
  destruct (header_commits (Blk.dsk (blk s)) (lh s) (dread (Blk.view (blk s))) x Q3) as (C1 & C2 & C3); [auto|].
  set (d2 := <[L := hdr (lh s) x]> _) in *.
  assert (Blk.dsk (wrote L (hdr (lh s) x) a1) = d2) as Hd2 by (cbn; by rewrite (wa_dsk _ _ _ W1)).
  assert (home_pairs (L + 1) (lh s) (dread d2) = pairs_of d2) as Hp by (unfold pairs_of; by rewrite C2).
  rewrite Hp in W3. destruct W3 as [V3 D3 H3 (new3 & P3 & N3)]. rewrite Hd2 in D3, N3.
  destruct W1 as [V1 D1 H1 (new1 & P1 & N1)].
  destruct (stands_for_done (dread (Blk.view (blk s))) d2 y C1) as (F1 & F2 & F3).
  assert (forall b, home b -> dread (Blk.view a3) b = dread (Blk.view (blk s)) b) as Hview.
  { intros b Hb. rewrite V3. pose proof (proj2 C1 b Hb) as X.
    destruct (decide (b ∈ (pairs_of d2).*1)) as [Hin|Hin].
    - apply list_elem_of_fmap in Hin as ([b' w] & -> & Hin). cbn [fst] in X |- *.
      assert (NoDup (pairs_of d2).*1) by (unfold pairs_of; rewrite home_pairs_keys, C2; apply Q3).
      rewrite (dread_inst_in _ _ b' w) in X by done. by rewrite (dread_inst_in _ _ b' w).
    - rewrite dread_inst_notin by done. cbn [wrote Blk.view]. rewrite dread_insert, decide_False by (unfold home, LOGSIZE, MAXOPBLOCKS in Hb; lia).
      rewrite V1. apply dread_inst_notin. intros ?%log_pairs_keys. destruct Q3 as (? & _). unfold home in Hb. lia. }
  eexists. split; [exact E|]. cbn [blk set_blk wrote Blk.dsk Blk.view Blk.past set_lh lh]. rewrite D3.
  split_and!; [|done| |].
  - split; cbn [blk set_blk wrote Blk.dsk Blk.view Blk.past Blk.held Blk.refs set_lh lh start].
    + done.
    + done.
    + split_and!; [done|constructor|]. by intros b ?%elem_of_nil.
    + intros c. rewrite R3, decide_False; [done|]. by intros ?%elem_of_nil.
    + by rewrite D3.
    + intros b Hb _. rewrite D3, (F3 b Hb), dread_insert, decide_False; [by apply Hview|].
      unfold home, LOGSIZE, MAXOPBLOCKS in Hb. lia.
  - intros b Hb. split; [by apply F3|]. rewrite dread_insert, decide_False; [by apply Hview|].
    unfold home, LOGSIZE, MAXOPBLOCKS in Hb. lia.
  - exists (inst (pairs_of d2) d2 :: new3 ++ Blk.dsk a1 :: new1). split.
    { rewrite P3. cbn [wrote Blk.past]. rewrite P1. cbn. by rewrite <-app_assoc. }
    intros d Hd. apply elem_of_cons in Hd as [->|Hd]; [by right|]. apply elem_of_cons in Hd as [->|Hd].
    { right. rewrite <-(take_ge (pairs_of d2) (length (pairs_of d2))) at 1 by done. by apply stands_for_partial. }
    apply elem_of_app in Hd as [Hd|Hd]; [right|left].
    + destruct (N3 d Hd) as [k ->]. by apply stands_for_partial.
    + apply elem_of_cons in Hd as [->|Hd].
      * rewrite D1. rewrite <-(take_ge (log_pairs _ _ _) (length (log_pairs (L + 1) (lh s) (dread (Blk.view (blk s)))))) by done.
        by apply log_writes_old.
      * destruct (N1 d Hd) as [k ->]. by apply log_writes_old.
Qed.
End crash.

(** A crash, any number of times: in the middle of a recovery the disk is one of
    those the recovery went through. *)
Inductive crashed (L n : Z) : disk -> disk -> Prop :=
| crashed_once d : crashed L n d d
| crashed_again d s d' d'' :
    recover_from_log [] (boot L n d) = Ok tt [] s ->
    d' ∈ Blk.dsk (blk s) :: Blk.past (blk s) -> crashed L n d' d'' -> crashed L n d d''.

Lemma crashed_stands L n r d d' : stands_for L r d -> crashed L n d d' -> stands_for L r d'.
Proof.
  intros Hs Hc. induction Hc as [|d s d' d'' E Hin Hc IH]; [done|]. apply IH.
  destruct (recover_ok L n r d [] Hs) as (s' & E' & _ & _ & _ & H). rewrite E in E'. injection E' as <-.
  by apply H.
Qed.

(** C5: transactions are atomic under crashes.  The end_op that closes the last
    open operation always completes and leaves the new contents of every block
    on the disk with an empty log; and if the machine stops at any point of it,
    and again at any point of any recovery, the next complete recovery yields
    either all of the old contents or all of the new ones. *)
Theorem log_crash_atomic (L n : Z) (h : list lockid) (s : lst) :
  quiet L s -> LLog ∉ h -> committing s = 0 -> outstanding s = 1 ->
  exists s', end_op h s = Ok tt h s' /\
    lh s' = [] /\ outstanding s' = 0 /\ committing s' = 0 /\
    (forall b, home L b -> dread (Blk.dsk (blk s')) b = dread (Blk.view (blk s)) b) /\
    exists new, Blk.past (blk s') = new ++ Blk.past (blk s) /\
    forall d, d ∈ Blk.dsk (blk s') :: new ->
    exists r, (r = dread (Blk.dsk (blk s)) \/ r = dread (Blk.view (blk s))) /\
    forall d', crashed L n d d' ->
    exists s1, recover_from_log [] (boot L n d') = Ok tt [] s1 /\ lh s1 = [] /\
      forall b, home L b -> dread (Blk.dsk (blk s1)) b = r b.
Proof.
  intros Q Hh Hc Ho. set (s0 := set_committing 1 (set_outstanding 0 s)).
  destruct (commit_ok L h s0) as (s1 & E1 & Q1 & L1 & V1 & new & P1 & N1).
  { destruct Q. by split. }
  assert (exists a, s1 = set_blk a (set_lh [] s0)) as [a Hs1].
  { destruct (decide (lh s0 = [])) as [He|Hne].
    - exists (blk s). unfold commit in E1. rewrite kget_bind in E1. unfold lh_n in E1. rewrite He in E1.
      injection E1 as <-. rewrite <-He. by destruct s.
    - destruct (commit_phases L h s0) as (a1 & a3 & x & y & E & _); [by destruct Q; split|done|].
      rewrite E in E1. injection E1 as <-. eauto. }
  exists (set_committing 0 s1). split_and!.
  - unfold end_op. kstep. erewrite bind_ok by reflexivity. rewrite kget_bind.
    cbn [committing outstanding set_outstanding]. rewrite Hc, Ho. change (1 - 1 =? 0) with true.
    change (negb (0 =? 0)) with false. cbv iota zeta. erewrite bind_ok by reflexivity. kstep.
    change (set_committing 1 (set_outstanding (1 - 1) s)) with s0.
    rewrite (bind_ok commit _ h s0 tt h s1 E1). kstep. erewrite bind_ok by reflexivity. by kstep.
  - by rewrite Hs1.
  - by rewrite Hs1.
  - done.
  - intros b Hb. by apply V1.
  - exists new. split; [done|]. intros d Hd.
    assert (exists r, (r = dread (Blk.dsk (blk s)) \/ r = dread (Blk.view (blk s))) /\ stands_for L r d) as (r & Hr & S).
    { destruct (N1 d Hd); eauto. }
    exists r. split; [done|]. intros d' Hcr. pose proof (crashed_stands L n _ _ _ S Hcr) as S'.
    destruct (recover_ok L n _ _ [] S') as (s2 & E2 & G2 & _ & D2 & _). by exists s2.
Qed.

(** A transaction of two blocks on a disk whose log starts at block 2. *)
Definition sample_txn : lst :=
  res_state (boot 2 30 ∅)
    ((begin_op;;
      on_blk (Blk.bread 40);; on_blk (Blk.store 40 [7]);; log_write 40;; on_blk (Blk.brelse 40);;
      on_blk (Blk.bread 41);; on_blk (Blk.store 41 [8]);; log_write 41;; on_blk (Blk.brelse 41)) [] (boot 2 30 ∅)).

Lemma sample_quiet : quiet 2 sample_txn.
Proof.
  assert (lh sample_txn = [40; 41]) as El by reflexivity.
  assert (Blk.refs (blk sample_txn) = <[40 := 1]> (<[41 := 1]> ∅)) as Er by (vm_compute; reflexivity).
  assert (Blk.view (blk sample_txn) = <[40 := [7]]> (<[41 := [8]]> ∅)) as Ev by (vm_compute; reflexivity).
  assert (Blk.dsk (blk sample_txn) = ∅) as Ed by (vm_compute; reflexivity).
  split.
  - reflexivity.
  - vm_compute. reflexivity.
  - rewrite El. split_and!; [done|by apply (bool_decide_unpack _)|].
    intros b Hb. repeat (apply elem_of_cons in Hb as [->|Hb]; [unfold home, LOGSIZE, MAXOPBLOCKS; lia|]).
    by apply elem_of_nil in Hb.
  - intros c. rewrite Er, El. case_decide as D.
    + repeat (apply elem_of_cons in D as [->|D]; [reflexivity|]). by apply elem_of_nil in D.
    + rewrite !lookup_insert_ne; [by rewrite lookup_empty|set_solver..].
  - rewrite Ed. vm_compute. reflexivity.
  - intros b _ Hb. rewrite Ev, Ed, El in *. unfold dread. rewrite !lookup_insert_ne; [done|set_solver..].
Qed.

Lemma log_crash_atomic_witness :
  exists s', end_op [] sample_txn = Ok tt [] s' /\ dread (Blk.dsk (blk s')) 41 = [8].
Proof.
  destruct (log_crash_atomic 2 30 [] sample_txn) as (s' & E & _ & _ & _ & V & _).
  - exact sample_quiet.
  - by intros ?%elem_of_nil.
  - reflexivity.
  - reflexivity.
  - exists s'. split; [exact E|]. rewrite V; [vm_compute; reflexivity|]. unfold home, LOGSIZE, MAXOPBLOCKS. lia.
Defined.

(** * The room [begin_op] reserves *)

Fixpoint log_writes (blocks : list Z) : K lst unit :=
  match blocks with
  | [] => mret tt
  | b :: blocks => log_write b;; log_writes blocks
  end.

Lemma log_write_l b h l :
  LLog ∉ h -> 1 <= outstanding l -> lh_n l < LOGSIZE -> lh_n l < lsize l - 1 ->
  log_write b h l =
  Ok tt h (if decide (b ∈ lh l) then l
           else set_lh (lh l ++ [b]) (set_blk (Blk.set_ref b (Blk.ref (blk l) b + 1) (blk l)) l)).
Proof.
  intros Hh H1 H2 H3. unfold log_write. kstep. rewrite kget_bind.
  destruct (Z.geb_spec (lh_n l) LOGSIZE); [lia|]. destruct (Z.geb_spec (lh_n l) (lsize l - 1)); [lia|]. cbn [orb].
  destruct (Z.ltb_spec (outstanding l) 1); [lia|]. case_decide.
  - erewrite bind_ok by reflexivity. by kstep.
  - rewrite (bind_ok _ _ _ _ tt (LLog :: h)
      (set_lh (lh l ++ [b]) (set_blk (Blk.set_ref b (Blk.ref (blk l) b + 1) (blk l)) l))) by reflexivity. by kstep.
Qed.

Lemma log_write_full b h s :
  LLog ∉ h -> lsize s - 1 <= lh_n s -> log_write b h s = Panic "too big a transaction".
Proof.
  intros Hh H. unfold log_write. kstep. rewrite kget_bind.
  by rewrite (Z.geb_leb (lh_n s) (lsize s - 1)), (proj2 (Z.leb_le _ _) H), orb_true_r.
Qed.

Lemma log_writes_new blocks h s :
  LLog ∉ h -> lsize s <= LOGSIZE -> lh_n s + Z.of_nat (length blocks) <= lsize s - 1 -> 1 <= outstanding s ->
  NoDup (lh s ++ blocks) ->
  exists s', log_writes blocks h s = Ok tt h s' /\ lh s' = lh s ++ blocks /\
    lsize s' = lsize s /\ outstanding s' = outstanding s.
Proof.
  intros Hh Hz. revert s Hz. induction blocks as [|b blocks IH]; intros s Hz Hl Ho ND.
  { exists s. by rewrite app_nil_r. }
  cbn [length log_writes] in *. pose proof ND as (_ & Hb & _)%NoDup_app.
  rewrite (bind_ok _ _ _ _ _ _ _ (log_write_l b h s Hh Ho ltac:(lia) ltac:(lia))), decide_False by set_solver.
  rewrite cons_middle, app_assoc in ND. set (s1 := set_lh (lh s ++ [b]) _).
  destruct (IH s1 Hz) as (s' & E & L & Z1 & O1).
  - unfold lh_n in *. cbn [s1 set_lh set_blk lh lsize]. rewrite length_app. cbn [length]. lia.
  - done.
  - exact ND.
  - exists s'. split_and!; [done| |done..]. rewrite L. cbn [s1 set_lh lh]. by rewrite <-app_assoc.
Qed.

Lemma log_writes_app l1 l2 h s h' s' :
  log_writes l1 h s = Ok tt h' s' -> log_writes (l1 ++ l2) h s = log_writes l2 h' s'.
Proof.
  revert h s. induction l1 as [|b l1 IH]; intros h s; cbn [log_writes app]; [by intros [= <- <-]|].
  intros ([] & h1 & s1 & E & E')%bind_inv. rewrite (bind_ok _ _ _ _ _ _ _ E). by apply IH.
Qed.

Lemma begin_op_admits h s :
  LLog ∉ h -> committing s = 0 -> lh_n s + (outstanding s + 1) * MAXOPBLOCKS <= LOGSIZE ->
  begin_op h s = Ok tt h (set_outstanding (outstanding s + 1) s).
Proof.
  intros Hh Hc Hl. unfold begin_op. kstep. rewrite kget_bind, Hc. cbn [Z.eqb negb].
  rewrite Z.gtb_ltb, (proj2 (Z.ltb_ge _ _)) by done. erewrite bind_ok by reflexivity. by kstep.
Qed.

(** C35: the log's two size checks disagree.  On any system with a log of LOGSIZE
    blocks, as mkfs makes it, that is empty and idle, begin_op admits three
    operations.  Let each write the ten blocks it reserved, all different, in any
    interleaving: the first twenty-nine are logged and the thirtieth log_write
    panics, because the header takes one of the log's blocks and log_write
    allows only log.size - 1. *)
Theorem log_reservation_overflow (h : list lockid) (s : lst) (b1 b2 b3 blocks : list Z) :
  LLog ∉ h -> lsize s = LOGSIZE -> committing s = 0 -> outstanding s = 0 -> lh s = [] ->
  Z.of_nat (length b1) = MAXOPBLOCKS -> Z.of_nat (length b2) = MAXOPBLOCKS -> Z.of_nat (length b3) = MAXOPBLOCKS ->
  NoDup (b1 ++ b2 ++ b3) -> blocks ≡ₚ b1 ++ b2 ++ b3 ->
  (exists s', (begin_op;; begin_op;; begin_op;; log_writes (take 29 blocks)) h s = Ok tt h s' /\
     outstanding s' = 3 /\ lh s' = take 29 blocks) /\
  (begin_op;; begin_op;; begin_op;; log_writes blocks) h s = Panic "too big a transaction".
Proof.
  intros Hh Hz Hc Ho Hl L1 L2 L3 ND HP.
  assert (length blocks = 30%nat) as Hlen by (rewrite HP, !length_app; unfold MAXOPBLOCKS in *; lia).
  set (s3 := set_outstanding (outstanding s + 1 + 1 + 1) s).
  assert (forall k : K lst unit, (begin_op;; begin_op;; begin_op;; k) h s = k h s3) as Hb.
  { assert (lh_n s = 0) as Hn by (unfold lh_n; by rewrite Hl). intros k.
    rewrite (bind_ok _ _ _ _ _ _ _ (begin_op_admits h s Hh Hc ltac:(rewrite Hn, Ho; done))).
    rewrite (bind_ok _ _ _ _ _ _ _ (begin_op_admits h (set_outstanding (outstanding s + 1) s) Hh Hc
      ltac:(change (lh_n s + (outstanding s + 1 + 1) * MAXOPBLOCKS <= LOGSIZE); rewrite Hn, Ho; done))).
    by rewrite (bind_ok _ _ _ _ _ _ _ (begin_op_admits h (set_outstanding (outstanding s + 1 + 1) s) Hh Hc
      ltac:(change (lh_n s + (outstanding s + 1 + 1 + 1) * MAXOPBLOCKS <= LOGSIZE); rewrite Hn, Ho; done))). }
  rewrite !Hb. assert (NoDup blocks) as ND' by by rewrite HP.
  destruct (log_writes_new (take 29 blocks) h s3) as (s' & E & El & Ez & Eo).
  - done.
  - cbn. lia.
  - unfold lh_n. cbn [s3 set_outstanding lh lsize]. rewrite Hl, Hz, length_take. unfold LOGSIZE, MAXOPBLOCKS. cbn [length]. lia.
  - cbn. lia.
  - cbn [s3 set_outstanding lh]. rewrite Hl. cbn [app]. rewrite <-(take_drop 29 blocks) in ND'. by apply NoDup_app in ND' as [? _].
  - cbn [s3 set_outstanding lh lsize outstanding] in El, Ez, Eo. rewrite Hl in El. cbn [app] in El.
    split; [exists s'; split_and!; [done|lia|done]|].
    rewrite <-(take_drop 29 blocks), (log_writes_app _ _ _ _ _ _ E).
    destruct (drop 29 blocks) as [|b l] eqn:Ed; [apply (f_equal length) in Ed; rewrite length_drop in Ed; cbn in Ed; lia|].
    cbn [log_writes]. apply bind_panic, log_write_full; [done|].
    unfold lh_n. rewrite El, Ez, Hz, length_take. unfold LOGSIZE, MAXOPBLOCKS. lia.
Qed.

(** The blocks 100 to 129 on a fresh disk. *)
Lemma log_reservation_overflow_witness :
  (begin_op;; begin_op;; begin_op;; log_writes (seqZ 100 30)) [] (boot 2 LOGSIZE ∅) = Panic "too big a transaction".
Proof.
  apply (log_reservation_overflow [] (boot 2 LOGSIZE ∅) (seqZ 100 10) (seqZ 110 10) (seqZ 120 10) (seqZ 100 30)).
  - apply not_elem_of_nil.
  - reflexivity.
  - reflexivity.
  - reflexivity.
  - reflexivity.
  - reflexivity.
  - reflexivity.
  - reflexivity.
  - apply (NoDup_seqZ 100 30).
  - reflexivity.
Defined.
