(* ===== verification/Pipe.v ===== *)
(** Pipes (kernel/pipe.c).

    The counters [nread] and [nwrite] are [uint]s that wrap, and index the ring
    modulo [PIPESIZE].  A reader or writer that has to wait sleeps inside its
    loop and, when it runs again, continues with the loop; [pipewrite] and
    [piperead] are the code from one wakeup to the next sleep or to the return,
    all of it under the pipe's lock.  [kill()] does not take that lock, so it can
    land between any two iterations of a writer: [kill] is the first iteration
    of the run that sees it.  The bytes of the user buffer a writer copies in are
    a list whose end is the first address that faults, and [room] is how many
    bytes the reader's buffer takes before it faults.
    [pipealloc] and [pipeclose], which deal with files and pages, are in FileOps.v. *)

From S2P Require Import Prelude Kern.

Definition PIPESIZE : Z := 512.

Record pipe := Pipe { data : list Z; nread : Z; nwrite : Z; readopen : Z; writeopen : Z }.

(** A pipe as [pipealloc] makes it in a fresh page of junk. *)
Definition pipe_new : pipe := Pipe (replicate 512 5) 0 0 1 1.

(** Where a call stops: asleep with the loop variable, or returned. *)
Inductive stop := Slept (i : Z) | Done (r : Z).

(** [pi->data[pi->nwrite++ % PIPESIZE] = ch] *)
Definition put_byte (ch : Z) (pi : pipe) : pipe :=
  Pipe (<[Z.to_nat (nwrite pi mod PIPESIZE) := ch]> (data pi)) (nread pi) (u32 (nwrite pi + 1))
       (readopen pi) (writeopen pi).

(** [ch = pi->data[pi->nread++ % PIPESIZE]] *)
Definition get_byte (pi : pipe) : Z * pipe :=
  (default 0 (data pi !! Z.to_nat (nread pi mod PIPESIZE)),
   Pipe (data pi) (u32 (nread pi + 1)) (nwrite pi) (readopen pi) (writeopen pi)).

Definition pipe_full (pi : pipe) : bool := nwrite pi =? u32 (nread pi + PIPESIZE).
Definition pipe_empty (pi : pipe) : bool := nread pi =? nwrite pi.

(** What [killed(pr)] returns in the iteration with loop variable [i]. *)
Definition killed_at (kill : option Z) (i : Z) : bool :=
  match kill with Some k => k <=? i | None => false end.

(** The writer from loop variable [i]; [src] is what is left of its buffer.  The
    result has the loop variable with which the run stopped. *)
Fixpoint pipewrite_run (fuel : nat) (kill : option Z) (src : list Z) (i n : Z) (pi : pipe) : stop * Z * pipe :=
  match fuel with
  | O => (Slept i, i, pi)
  | S fuel =>
      if i <? n
      then
        if (readopen pi =? 0) || killed_at kill i then (Done (-1), i, pi)
        else if pipe_full pi then (Slept i, i, pi)
        else
          match src with
          | [] => (Done i, i, pi)
          | ch :: src => pipewrite_run fuel kill src (i + 1) n (put_byte ch pi)
          end
      else (Done i, i, pi)
  end.

(** At most [PIPESIZE] bytes fit before the writer sleeps. *)
Definition pipewrite (kill : option Z) (src : list Z) (i n : Z) (pi : pipe) : stop * Z * pipe :=
  pipewrite_run (Z.to_nat PIPESIZE + 2) kill (drop (Z.to_nat i) src) i n pi.

(** The copying loop of the reader: the bytes taken from the pipe, and [i]. *)
Fixpoint piperead_copy (fuel : nat) (room i n : Z) (pi : pipe) : list Z * Z * pipe :=
  match fuel with
  | O => ([], i, pi)
  | S fuel =>
      if i <? n
      then
        if pipe_empty pi then ([], i, pi)
        else
          let '(ch, pi) := get_byte pi in
          if i <? room
          then let '(l, j, pi) := piperead_copy fuel room (i + 1) n pi in (ch :: l, j, pi)
          else ([ch], i, pi)
      else ([], i, pi)
  end.

Definition piperead (killed : bool) (room n : Z) (pi : pipe) : stop * list Z * pipe :=
  if pipe_empty pi && negb (writeopen pi =? 0)
  then if killed then (Done (-1), [], pi) else (Slept 0, [], pi)
  else
    let '(l, i, pi) := piperead_copy (Z.to_nat PIPESIZE + 1) room 0 n pi in
    (Done i, l, pi).

Definition pipe_close (writable : bool) (pi : pipe) : pipe :=
  if writable then Pipe (data pi) (nread pi) (nwrite pi) (readopen pi) 0
  else Pipe (data pi) (nread pi) (nwrite pi) 0 (writeopen pi).

(** * Invariant and contents *)

Record pipe_wf (pi : pipe) : Prop := {
  wf_data : length (data pi) = Z.to_nat PIPESIZE;
  wf_nread : 0 <= nread pi < 2 ^ 32;
  wf_nwrite : 0 <= nwrite pi < 2 ^ 32;
  wf_count : u32 (nwrite pi - nread pi) <= PIPESIZE }.

(** The bytes in the pipe, oldest first. *)
Definition contents (pi : pipe) : list Z :=
  (fun k => default 0 (data pi !! Z.to_nat ((nread pi + k) mod PIPESIZE))) <$> seqZ 0 (u32 (nwrite pi - nread pi)).

Lemma length_contents pi : length (contents pi) = Z.to_nat (u32 (nwrite pi - nread pi)).
Proof. unfold contents. by rewrite length_fmap, length_seqZ. Qed.

Lemma empty_spec pi : pipe_wf pi -> (pipe_empty pi = true <-> contents pi = []).
Proof.
  intros [_ H1 H2 _]. unfold pipe_empty. rewrite Z.eqb_eq. split.
  - intros E. apply nil_length_inv. rewrite length_contents, E, Z.sub_diag. done.
  - intros E. apply (f_equal length) in E. rewrite length_contents in E. cbn in E.
    unfold u32 in *. zdm.
Qed.

Lemma full_spec pi : pipe_wf pi -> (pipe_full pi = true <-> length (contents pi) = Z.to_nat PIPESIZE).
Proof.
  intros [_ H1 H2 _]. unfold pipe_full. rewrite Z.eqb_eq, length_contents. unfold u32, PIPESIZE in *. zdm.
Qed.

Lemma mod_inj r i j : 0 <= i < PIPESIZE -> 0 <= j < PIPESIZE -> (r + i) mod PIPESIZE = (r + j) mod PIPESIZE -> i = j.
Proof. unfold PIPESIZE. zdm. Qed.

Lemma put_byte_ok ch pi :
  pipe_wf pi -> pipe_full pi = false ->
  pipe_wf (put_byte ch pi) /\ contents (put_byte ch pi) = contents pi ++ [ch].
Proof.
  intros Hwf Hf. pose proof Hwf as [H1 H2 H3 H4].
  set (c := u32 (nwrite pi - nread pi)) in *.
  assert (c < PIPESIZE) as Hc.
  { destruct (full_spec pi Hwf) as [_ F]. rewrite Hf, length_contents in F. fold c in F.
    destruct (Z.lt_ge_cases c PIPESIZE); [done|]. pose proof (u32_range (nwrite pi - nread pi)). fold c in H0.
    discriminate F. lia. }
  pose proof (u32_range (nwrite pi - nread pi)) as Hr. fold c in Hr.
  assert (u32 (u32 (nwrite pi + 1) - nread pi) = c + 1) as Hcount.
  { unfold c, u32, PIPESIZE in *. zdm. }
  assert ((nread pi + c) mod PIPESIZE = nwrite pi mod PIPESIZE) as Hix.
  { unfold c, u32, PIPESIZE in *. zdm. }
  split.
  - split; cbn [put_byte data nread nwrite]; [by rewrite length_insert|done|apply u32_range|lia].
  - unfold contents. cbn [put_byte data nread nwrite]. rewrite Hcount. fold c.
    rewrite seqZ_app by lia. rewrite fmap_app. f_equal.
    + apply list_fmap_ext. intros k x Hk. apply lookup_seqZ in Hk as [-> Hk]. cbn. f_equal.
      apply list_lookup_insert_ne. intros E. rewrite <-Hix in E.
      assert ((nread pi + c) mod PIPESIZE = (nread pi + (0 + Z.of_nat k)) mod PIPESIZE) as E'.
      { apply Z2Nat.inj; [apply Z.mod_pos_bound; unfold PIPESIZE; lia..|done]. }
      apply mod_inj in E'; lia.
    + assert (seqZ (0 + c) 1 = [c]) as -> by (unfold seqZ; cbn; f_equal; lia).
      cbn [fmap list_fmap]. rewrite Hix, list_lookup_insert_eq; [done|].
      rewrite H1. pose proof (Z.mod_pos_bound (nwrite pi) PIPESIZE). unfold PIPESIZE in *. lia.
Qed.

Lemma get_byte_ok pi :
  pipe_wf pi -> pipe_empty pi = false ->
  pipe_wf (get_byte pi).2 /\ contents pi = (get_byte pi).1 :: contents (get_byte pi).2.
Proof.
  intros Hwf He. pose proof Hwf as [H1 H2 H3 H4]. set (c := u32 (nwrite pi - nread pi)) in *.
  assert (0 < c) as Hc.
  { pose proof (u32_range (nwrite pi - nread pi)) as Hr. fold c in Hr. destruct (Z.eq_dec c 0) as [E|]; [|lia].
    assert (pipe_empty pi = true) as X; [|congruence]. apply empty_spec; [done|].
    apply nil_length_inv. rewrite length_contents. fold c. by rewrite E. }
  assert (u32 (nwrite pi - u32 (nread pi + 1)) = c - 1) as Hcount.
  { unfold c, u32, PIPESIZE in *. zdm. }
  split.
  - split; cbn [get_byte snd data nread nwrite]; [done|apply u32_range|done|lia].
  - unfold contents. cbn [get_byte fst snd data nread nwrite]. fold c. rewrite Hcount.
    rewrite seqZ_cons by lia. cbn [fmap list_fmap]. rewrite Z.add_0_r. f_equal.
    change (Z.succ 0) with 1. rewrite <-Z.sub_1_r. apply list_eq. intros k. rewrite !list_lookup_fmap.
    destruct (decide (Z.of_nat k < c - 1)).
    + rewrite !(fun m => proj2 (lookup_seqZ m (c - 1) k (m + Z.of_nat k))) by (split; [reflexivity|lia]).
      cbn. do 3 f_equal. unfold u32, PIPESIZE. zdm.
    + rewrite !lookup_seqZ_ge by lia. done.
Qed.

(** One run of the writer appends the bytes its loop variable went over; it
    sleeps only on a full pipe whose read end is open. *)
Lemma pipewrite_run_ok fuel kill src i n pi st j pi' :
  pipe_wf pi -> (Z.to_nat PIPESIZE < fuel + length (contents pi))%nat ->
  pipewrite_run fuel kill src i n pi = (st, j, pi') ->
  pipe_wf pi' /\ readopen pi' = readopen pi /\ writeopen pi' = writeopen pi /\
  i <= j /\ contents pi' = contents pi ++ take (Z.to_nat (j - i)) src /\
  match st with
  | Slept k => k = j /\ pipe_full pi' = true /\ readopen pi <> 0
  | Done r => r = j \/ (r = -1 /\ (readopen pi =? 0) || killed_at kill j = true)
  end.
Proof.
  revert src i pi. induction fuel as [|fuel IH]; intros src i pi Hwf Hf.
  { pose proof (wf_count _ Hwf). rewrite length_contents in Hf. lia. }
  assert (contents pi = contents pi ++ take (Z.to_nat (i - i)) src) as H0 by (by rewrite Z.sub_diag, app_nil_r).
  cbn [pipewrite_run]. destruct (Z.ltb_spec i n).
  2:{ intros [= <- <- <-]. split_and!; try done. by left. }
  destruct ((readopen pi =? 0) || killed_at kill i) eqn:Hk.
  { intros [= <- <- <-]. split_and!; try done. by right. }
  pose proof Hk as [Hro%Z.eqb_neq _]%orb_false_iff.
  destruct (pipe_full pi) eqn:Hfull.
  { intros [= <- <- <-]. by split_and!. }
  destruct src as [|ch src].
  { intros [= <- <- <-]. split_and!; try done. by left. }
  destruct (put_byte_ok ch pi Hwf Hfull) as [Hwf' Hc]. intros E.
  apply IH in E as (W & R1 & R2 & Hj & E & Hst); [|done|rewrite Hc, length_app; cbn; lia].
  split_and!; [done..|lia| |exact Hst].
  rewrite E, Hc, <-app_assoc. f_equal. by replace (Z.to_nat (j - i)) with (S (Z.to_nat (j - (i + 1)))) by lia.
Qed.

Lemma piperead_copy_ok fuel room i n pi l j pi' :
  pipe_wf pi -> (length (contents pi) < fuel)%nat ->
  piperead_copy fuel room i n pi = (l, j, pi') ->
  pipe_wf pi' /\ readopen pi' = readopen pi /\ writeopen pi' = writeopen pi /\
  contents pi = l ++ contents pi' /\ i <= j.
Proof.
  revert i pi l. induction fuel as [|fuel IH]; intros i pi l Hwf Hf; [lia|].
  cbn [piperead_copy]. destruct (Z.ltb_spec i n).
  2:{ intros [= <- <- <-]. split_and!; try done; lia. }
  destruct (pipe_empty pi) eqn:He.
  { intros [= <- <- <-]. split_and!; try done; lia. }
  destruct (get_byte_ok pi Hwf He) as [Hwf' Hc]. destruct (get_byte pi) as [ch pi1] eqn:Eg. cbn [fst snd] in *.
  assert (readopen pi1 = readopen pi /\ writeopen pi1 = writeopen pi) as [R1 R2].
  { unfold get_byte in Eg. by injection Eg as _ <-. }
  destruct (i <? room).
  - destruct (piperead_copy fuel room (i + 1) n pi1) as [[l1 j1] pi2] eqn:E. intros [= <- <- <-].
    apply IH in E as (W & Q1 & Q2 & E & B); [|done|rewrite Hc in Hf; cbn in Hf; lia].
    split_and!; [done|congruence..| |lia]. by rewrite Hc, E.
  - intros [= <- <- <-]. split_and!; try done; lia.
Qed.

(** * Readers and writers of one pipe *)

Inductive wpoint := WRun (src : list Z) (i n : Z) | WSleep (src : list Z) (i n : Z).
Inductive rpoint := RRun (n : Z) | RSleep (n : Z).

(** The pipe, the calls in progress by process, the bytes that went in and came
    out since the pipe was made, and the bytes stored by writers that were killed
    in mid-loop since the readers were last woken. *)
Record psys := Psys {
  pp : pipe; writers : gmap Z wpoint; readers : gmap Z rpoint; sent : list Z; got : list Z; cut : list Z }.

Definition psys0 : psys := Psys pipe_new ∅ ∅ [] [] [].

(** [wakeup(&pi->nread)] and [wakeup(&pi->nwrite)]. *)
Definition wake_r (x : rpoint) : rpoint := match x with RSleep n => RRun n | x => x end.
Definition wake_w (x : wpoint) : wpoint := match x with WSleep src i n => WRun src i n | x => x end.

(** One run of a writer: a sleeping or returning writer has woken the readers,
    one that fails has not, whatever it stored before. *)
Definition run_writer (p : Z) (kill : option Z) (src : list Z) (i n : Z) (s : psys) : psys :=
  let '(st, j, pi) := pipewrite kill src i n (pp s) in
  let stored := take (Z.to_nat (j - i)) (drop (Z.to_nat i) src) in
  Psys pi
    (match st with Slept j => <[p := WSleep src j n]> (writers s) | Done _ => delete p (writers s) end)
    (match st with Done (-1) => readers s | _ => wake_r <$> readers s end)
    (sent s ++ stored) (got s)
    (match st with Done (-1) => cut s ++ stored | _ => [] end).

Definition run_reader (p : Z) (killed : bool) (room n : Z) (s : psys) : psys :=
  let '(st, l, pi) := piperead killed room n (pp s) in
  Psys pi
    (match st with Done r => if r =? -1 then writers s else wake_w <$> writers s | Slept _ => writers s end)
    (match st with Slept _ => <[p := RSleep n]> (readers s) | Done _ => delete p (readers s) end)
    (sent s) (got s ++ l) (cut s).

Inductive pstep : psys -> psys -> Prop :=
| ps_write p src n s : writers s !! p = None ->
    pstep s (Psys (pp s) (<[p := WRun src 0 n]> (writers s)) (readers s) (sent s) (got s) (cut s))
| ps_read p n s : readers s !! p = None ->
    pstep s (Psys (pp s) (writers s) (<[p := RRun n]> (readers s)) (sent s) (got s) (cut s))
| ps_run_w p kill src i n s : writers s !! p = Some (WRun src i n) ->
    pstep s (run_writer p kill src i n s)
| ps_run_r p killed room n s : readers s !! p = Some (RRun n) ->
    pstep s (run_reader p killed room n s)
| ps_close_w s :
    pstep s (Psys (pipe_close true (pp s)) (writers s) (wake_r <$> readers s) (sent s) (got s) [])
| ps_close_r s :
    pstep s (Psys (pipe_close false (pp s)) (wake_w <$> writers s) (readers s) (sent s) (got s) (cut s))
| ps_kill_w p x s : writers s !! p = Some x ->
    pstep s (Psys (pp s) (<[p := wake_w x]> (writers s)) (readers s) (sent s) (got s) (cut s))
| ps_kill_r p x s : readers s !! p = Some x ->
    pstep s (Psys (pp s) (writers s) (<[p := wake_r x]> (readers s)) (sent s) (got s) (cut s)).

Inductive preach : psys -> Prop :=
| preach_init : preach psys0
| preach_step s s' : preach s -> pstep s s' -> preach s'.

Record pinv (s : psys) : Prop := {
  pi_wf : pipe_wf (pp s);
  pi_fifo : sent s = got s ++ contents (pp s);
  pi_i : forall p x, writers s !! p = Some x -> match x with WRun _ i _ | WSleep _ i _ => 0 <= i end;
  pi_w : forall p src i n, writers s !! p = Some (WSleep src i n) ->
    length (contents (pp s)) = 512%nat /\ readopen (pp s) <> 0;
  pi_r : forall p n, readers s !! p = Some (RSleep n) ->
    contents (pp s) `suffix_of` cut s /\ writeopen (pp s) <> 0;
  pi_x : forall p src i n q m, writers s !! p = Some (WSleep src i n) -> readers s !! q <> Some (RSleep m) }.

Lemma no_rsleep (m : gmap Z rpoint) p n : (wake_r <$> m) !! p = Some (RSleep n) -> False.
Proof. rewrite lookup_fmap. destruct (m !! p) as [[]|]; done. Qed.
Lemma no_wsleep (m : gmap Z wpoint) p src i n : (wake_w <$> m) !! p = Some (WSleep src i n) -> False.
Proof. rewrite lookup_fmap. destruct (m !! p) as [[]|]; done. Qed.

Lemma insert_awake_w (m : gmap Z wpoint) p x q src i n :
  <[p := x]> m !! q = Some (WSleep src i n) -> x <> WSleep src i n -> m !! q = Some (WSleep src i n).
Proof. by intros [[_ ?]|[_ ?]]%lookup_insert_Some. Qed.
Lemma insert_awake_r (m : gmap Z rpoint) p x q n :
  <[p := x]> m !! q = Some (RSleep n) -> x <> RSleep n -> m !! q = Some (RSleep n).
Proof. by intros [[_ ?]|[_ ?]]%lookup_insert_Some. Qed.

Lemma wake_w_i (s : psys) : pinv s ->
  forall p x, (wake_w <$> writers s) !! p = Some x -> match x with WRun _ i _ | WSleep _ i _ => 0 <= i end.
Proof.
  intros I p x. rewrite lookup_fmap. destruct (writers s !! p) as [y|] eqn:E; [|done].
  intros [= <-]. pose proof (pi_i _ I p y E). by destruct y.
Qed.

Lemma delete_sub {A} (m : gmap Z A) p q x : delete p m !! q = Some x -> m !! q = Some x.
Proof. intros H%lookup_delete_Some. apply H. Qed.

Lemma contents_bound pi : pipe_wf pi -> (length (contents pi) <= 512)%nat.
Proof. intros W. rewrite length_contents. pose proof (wf_count _ W). unfold PIPESIZE in *. lia. Qed.

(** A writer that stops, having added [l] to the pipe. *)
Lemma pinv_stored s pi l ws rs x :
  pinv s -> pipe_wf pi -> readopen pi = readopen (pp s) -> writeopen pi = writeopen (pp s) ->
  contents pi = contents (pp s) ++ l ->
  (forall p y, ws !! p = Some y -> match y with WRun _ i _ | WSleep _ i _ => 0 <= i end) ->
  (forall p src i n, ws !! p = Some (WSleep src i n) -> length (contents pi) = 512%nat /\ readopen pi <> 0) ->
  (forall p src i n q m, ws !! p = Some (WSleep src i n) -> rs !! q <> Some (RSleep m)) ->
  (forall q m, rs !! q = Some (RSleep m) -> readers s !! q = Some (RSleep m) /\ x = cut s ++ l) ->
  pinv (Psys pi ws rs (sent s ++ l) (got s) x).
Proof.
  intros I W R1 R2 E Hi Hw Hx Hr. split; cbn [pp writers readers sent got cut]; try done.
  - rewrite (pi_fifo _ I), E. by rewrite app_assoc.
  - intros q m H. destruct (Hr q m H) as [H' ->]. destruct (pi_r _ I _ _ H') as [[k Hk] Ho].
    split; [|congruence]. exists k. rewrite Hk, E. by rewrite app_assoc.
Qed.

Lemma pinv_writer p kill src i n s :
  pinv s -> writers s !! p = Some (WRun src i n) -> pinv (run_writer p kill src i n s).
Proof.
  intros I Hp. pose proof I as [W F Pi Pw Pr Px]. pose proof (Pi p _ Hp) as Hi. cbn in Hi.
  unfold run_writer. destruct (pipewrite kill src i n (pp s)) as [[st j] pi] eqn:E.
  apply pipewrite_run_ok in E as (W' & R1 & R2 & Hj & E & Hst); [|done|unfold PIPESIZE; lia].
  set (l := take (Z.to_nat (j - i)) (drop (Z.to_nat i) src)) in *.
  assert (forall q src' i' n', writers s !! q = Some (WSleep src' i' n') ->
            length (contents pi) = 512%nat /\ readopen pi <> 0) as Hfull.
  { intros q src' i' n' Hq. destruct (Pw _ _ _ _ Hq) as [Hl Hro]. split; [|congruence].
    pose proof (contents_bound _ W') as B. rewrite E, length_app in *. lia. }
  destruct st as [k|r].
  - destruct Hst as (-> & Hf & Hro). apply pinv_stored; try done.
    + intros q x. destruct (decide (q = p)) as [->|Hq].
      * rewrite lookup_insert_eq. intros [= <-]. lia.
      * rewrite lookup_insert_ne by done. apply Pi.
    + intros q src' i' n' _. split; [by apply full_spec in Hf|congruence].
    + intros q src' i' n' q' m _ X. by apply no_rsleep in X.
    + intros q m X. by apply no_rsleep in X.
  - assert (forall q x, delete p (writers s) !! q = Some x -> match x with WRun _ i _ | WSleep _ i _ => 0 <= i end)
      as Hi' by (intros q x Hq; by eapply Pi, delete_sub).
    assert (pinv (Psys pi (delete p (writers s)) (wake_r <$> readers s) (sent s ++ l) (got s) [])) as Hwoke.
    { apply pinv_stored; try done.
      - intros q src' i' n' Hq%delete_sub. by eapply Hfull.
      - intros q src' i' n' q' m _ X. by apply no_rsleep in X.
      - intros q m X. by apply no_rsleep in X. }
    assert (pinv (Psys pi (delete p (writers s)) (readers s) (sent s ++ l) (got s) (cut s ++ l))) as Hcut.
    { apply pinv_stored; try done.
      - intros q src' i' n' Hq%delete_sub. by eapply Hfull.
      - intros q src' i' n' q' m Hq%delete_sub. by eapply Px. }
    destruct r as [|r|[r|r|]]; assumption.
Qed.

Lemma pinv_reader p killed room n s :
  pinv s -> readers s !! p = Some (RRun n) -> pinv (run_reader p killed room n s).
Proof.
  intros I Hp. pose proof I as [W F Pi Pw Pr Px]. unfold run_reader, piperead.
  destruct (pipe_empty (pp s) && negb (writeopen (pp s) =? 0)) eqn:He.
  - apply andb_true_iff in He as [He Ho]. apply negb_true_iff, Z.eqb_neq in Ho. apply empty_spec in He; [|done].
    destruct killed; cbn [Z.eqb]; (split; cbn [pp writers readers sent got cut]; rewrite ?app_nil_r; try done).
    + intros q m Hq%delete_sub. by eapply Pr.
    + intros q src i m q' k Hw Hq%delete_sub. by eapply Px.
    + intros q m _. rewrite He. split; [apply suffix_nil|done].
    + intros q src i m q' k Hw. destruct (Pw _ _ _ _ Hw) as [Hl _]. by rewrite He in Hl.
  - destruct (piperead_copy _ room 0 n (pp s)) as [[l j] pi] eqn:E.
    apply piperead_copy_ok in E as (W' & R1 & R2 & E & B); [|done|].
    2:{ pose proof (contents_bound _ W). unfold PIPESIZE. lia. }
    destruct (Z.eqb_spec j (-1)) as [->|_]; [lia|]. split; cbn [pp writers readers sent got cut].
    + done.
    + rewrite F, E. by rewrite app_assoc.
    + by apply wake_w_i.
    + intros q src i m X. by apply no_wsleep in X.
    + intros q m Hq%delete_sub. destruct (Pr _ _ Hq) as [[k Hk] Hwo]. split; [|congruence].
      exists (k ++ l). rewrite Hk, E. by rewrite app_assoc.
    + intros q src i m q' k X. by apply no_wsleep in X.
Qed.

Lemma pinv_init : pinv psys0.
Proof.
  by split.
Qed.

Lemma pinv_step s s' : pinv s -> pstep s s' -> pinv s'.
Proof.
  intros I Hs. destruct Hs as [p src n s Hp|p n s Hp|p k src i n s Hp|p k room n s Hp|s|s|p x s Hp|p x s Hp];
    [| |by apply pinv_writer|by apply pinv_reader|..]; pose proof I as [W F Pi Pw Pr Px];
    split; cbn [pp writers readers sent got cut]; try done.
  all: try (by apply wake_w_i).
  all: try (by destruct W).
  all: try (intros q m X; by apply no_rsleep in X).
  all: try (intros q src i m X; by apply no_wsleep in X).
  all: try (intros q src i m q' k X; by apply no_wsleep in X).
  all: try (intros q src i m q' k Hw X; by apply no_rsleep in X).
  - intros q x [[-> <-]|[_ H]]%lookup_insert_Some; [done|by eapply Pi].
  - intros q src' i' n' H%insert_awake_w; [by eapply Pw|done].
  - intros q src' i' n' q' m H%insert_awake_w; [by eapply Px|done].
  - intros q m H%insert_awake_r; [by eapply Pr|done].
  - intros q src' i' n' q' m H H'%insert_awake_r; [by eapply Px|done].
  - intros q y [[-> <-]|[_ H]]%lookup_insert_Some; [|by eapply Pi].
    pose proof (Pi q x Hp). by destruct x.
  - intros q src' i' n' H%insert_awake_w; [by eapply Pw|by destruct x].
  - intros q src' i' n' q' m H%insert_awake_w; [by eapply Px|by destruct x].
  - intros q m H%insert_awake_r; [by eapply Pr|by destruct x].
  - intros q src' i' n' q' m H H'%insert_awake_r; [by eapply Px|by destruct x].
Qed.

Lemma pinv_reach s : preach s -> pinv s.
Proof. induction 1; [apply pinv_init|by eapply pinv_step]. Qed.

(** C16: a pipe is a bounded queue.  For any number of readers and writers in any
    interleaving, with faults, kills in mid-loop, closes and wrapping counters: the
    bytes read so far followed by the bytes in the pipe are exactly the bytes
    written so far, and at most PIPESIZE are in the pipe.  A writer sleeps only
    while the pipe is full with its read end open.  A reader sleeps only while the
    write end is open and every byte in the pipe was stored by a writer that was
    killed since the readers were last woken; without such a writer the pipe is
    empty.  The two sides never sleep at the same time. *)
Theorem pipe_fifo (s : psys) (p q : Z) (src : list Z) (i n m : Z) :
  preach s ->
  sent s = got s ++ contents (pp s) /\ (length (contents (pp s)) <= 512)%nat /\
  (writers s !! p = Some (WSleep src i n) ->
     length (contents (pp s)) = 512%nat /\ readopen (pp s) <> 0 /\ readers s !! q <> Some (RSleep m)) /\
  (readers s !! q = Some (RSleep m) ->
     contents (pp s) `suffix_of` cut s /\ (cut s = [] -> contents (pp s) = []) /\
     writeopen (pp s) <> 0 /\ writers s !! p <> Some (WSleep src i n)).
Proof.
  intros I%pinv_reach. pose proof I as [W F Pi Pw Pr Px].
  split_and!; [done|by apply contents_bound| |].
  - intros Hw. destruct (Pw _ _ _ _ Hw) as [Hl Hro]. split_and!; [done..|by eapply Px].
  - intros Hr. destruct (Pr _ _ Hr) as [Hs Hwo]. split_and!; [done| |done|].
    + intros Hc. rewrite Hc in Hs. by apply suffix_nil_inv in Hs.
    + intros Hw. by eapply Px.
Qed.

(** A writer that fills the pipe and sleeps, and a reader that drains it. *)
Definition sample_full : psys :=
  run_writer 1 None (replicate 600 7) 0 600 (Psys pipe_new {[1 := WRun (replicate 600 7) 0 600]} ∅ [] [] []).

Lemma pipe_fifo_witness :
  writers sample_full !! 1 = Some (WSleep (replicate 600 7) 512 600) /\
  length (contents (pp sample_full)) = 512%nat /\ readers sample_full !! 2 <> Some (RSleep 4).
Proof.
  assert (preach sample_full) as R.
  { eapply preach_step; [eapply preach_step; [apply preach_init|]|].
    - apply (ps_write 1 (replicate 600 7) 600). reflexivity.
    - apply (ps_run_w 1 None (replicate 600 7) 0 600). reflexivity. }
  assert (writers sample_full !! 1 = Some (WSleep (replicate 600 7) 512 600)) as E by (vm_compute; reflexivity).
  destruct (pipe_fifo sample_full 1 2 (replicate 600 7) 512 600 4 R) as (_ & _ & H & _).
  destruct (H E) as (A & _ & B). split_and!; [exact E|exact A|exact B].
Defined.

(** * A lost wakeup *)

(** A writer killed at [k], with room for the bytes before it. *)
Lemma pipewrite_run_killed fuel k src i n pi :
  pipe_wf pi -> readopen pi <> 0 -> i <= k < n -> k - i <= Z.of_nat (length src) ->
  Z.of_nat (length (contents pi)) + (k - i) <= PIPESIZE -> (Z.to_nat (k - i) < fuel)%nat ->
  exists pi', pipewrite_run fuel (Some k) src i n pi = (Done (-1), k, pi').
Proof.
  revert src i pi. induction fuel as [|fuel IH]; intros src i pi W Hro Hk Hs Hc Hf; [lia|].
  cbn [pipewrite_run killed_at]. destruct (Z.ltb_spec i n); [|lia].
  apply Z.eqb_neq in Hro as Hro'. rewrite Hro'. cbn [orb]. destruct (Z.leb_spec k i).
  { exists pi. repeat f_equal. lia. }
  destruct (pipe_full pi) eqn:Hfull; [apply full_spec in Hfull; [unfold PIPESIZE in *; lia|done]|].
  destruct src as [|ch src]; [cbn in Hs; lia|]. destruct (put_byte_ok ch pi W Hfull) as [W' E].
  apply IH; [done|done|lia|cbn in Hs; lia|rewrite E, length_app; cbn; lia|lia].
Qed.

(** A writer killed after it has stored bytes returns -1 without
    [wakeup(&pi->nread)]: a reader can sleep with bytes in the pipe, no writer in
    progress and the write end open. *)
Theorem pipe_lost_wakeup (src : list Z) (k n m : Z) :
  0 < k <= PIPESIZE -> k < n -> k <= Z.of_nat (length src) ->
  exists s, preach s /\ readers s !! 2 = Some (RSleep m) /\ writers s = ∅ /\ writeopen (pp s) <> 0 /\
    contents (pp s) = take (Z.to_nat k) src /\ cut s = take (Z.to_nat k) src.
Proof.
  intros Hk Hn Hl.
  set (s1 := run_reader 2 false m m (Psys pipe_new ∅ {[2 := RRun m]} [] [] [])).
  set (s2 := Psys (pp s1) (<[1 := WRun src 0 n]> (writers s1)) (readers s1) (sent s1) (got s1) (cut s1)).
  assert (preach s2) as R.
  { eapply preach_step; [eapply preach_step; [eapply preach_step; [apply preach_init|]|]|].
    - by apply (ps_read 2 m).
    - by apply (ps_run_r 2 false m m).
    - by apply (ps_write 1 src n). }
  assert (preach (run_writer 1 (Some k) src 0 n s2)) as R' by (eapply preach_step; [exact R|by apply ps_run_w]).
  destruct (pipewrite_run_killed (Z.to_nat PIPESIZE + 2) k src 0 n pipe_new) as [pi E];
    [by split|done|lia|lia|replace (contents pipe_new) with (@nil Z) by reflexivity; cbn [length]; lia|unfold PIPESIZE in *; lia|].
  assert (pipewrite (Some k) src 0 n (pp s2) = (Done (-1), k, pi)) as E2 by exact E.
  apply pipewrite_run_ok in E as (_ & _ & Ho & _ & Ec & _); [|apply pinv_init|unfold PIPESIZE; lia].
  exists (run_writer 1 (Some k) src 0 n s2). split; [exact R'|]. unfold run_writer. rewrite E2.
  rewrite Z.sub_0_r in *. split_and!; [reflexivity|reflexivity|cbn [pp]; by rewrite Ho|exact Ec|reflexivity].
Qed.
