(* ===== verification/Console.v ===== *)
(** kernel/console.c: the line discipline of the console.

    The input buffer is a ring with three [uint] indices that wrap: [r] where
    readers take, [w] the end of the complete lines, [e] the end of the line
    being edited.  [consoleintr] is the whole handler for one typed character
    under the console's lock, with the characters it echoes and whether it wakes
    readers.  [consoleread_run] is a read from one wakeup to the next sleep or to
    its return; [room] is how many bytes its buffer takes before it faults.

    [Editor] is what the component promises: a queue of complete input and a line
    being edited, as lists. *)

From S2P Require Import Prelude Pipe.

Definition INPUT_BUF_SIZE : Z := 128.
Definition BACKSPACE : Z := 0x100.
Definition Ctrl (x : Z) : Z := x - 64.                      (* C(x) *)

Record cons := Cons { cbuf : list Z; cr : Z; cw : Z; ce : Z }.

Definition cons0 : cons := Cons (replicate 128 0) 0 0 0.

Definition set_r (x : Z) (s : cons) : cons := Cons (cbuf s) (u32 x) (cw s) (ce s).
Definition set_w (x : Z) (s : cons) : cons := Cons (cbuf s) (cr s) (u32 x) (ce s).
Definition set_e (x : Z) (s : cons) : cons := Cons (cbuf s) (cr s) (cw s) (u32 x).

(** [cons.buf[i % INPUT_BUF_SIZE]] *)
Definition cell (s : cons) (i : Z) : Z := default 0 (cbuf s !! Z.to_nat (i mod INPUT_BUF_SIZE)).

(** The characters sent to the uart. *)
Definition consputc (c : Z) : list Z := if c =? BACKSPACE then [8; 32; 8] else [c].

(** [while(cons.e != cons.w && cons.buf[(cons.e-1) % INPUT_BUF_SIZE] != '\n')] *)
Fixpoint kill_line (fuel : nat) (s : cons) : list Z * cons :=
  match fuel with
  | O => ([], s)
  | S fuel =>
      if negb (ce s =? cw s) && negb (cell s (u32 (ce s - 1)) =? 10)
      then let '(out, s) := kill_line fuel (set_e (ce s - 1) s) in (consputc BACKSPACE ++ out, s)
      else ([], s)
  end.

(** What is echoed, whether [consoleread] is woken, and the new state.  The list
    of processes that control-P prints does not touch the console's buffer. *)
Definition consoleintr (c : Z) (s : cons) : list Z * bool * cons :=
  if c =? Ctrl 80 then ([], false, s)
  else if c =? Ctrl 85 then let '(out, s) := kill_line (S (Z.to_nat INPUT_BUF_SIZE)) s in (out, false, s)
  else if (c =? Ctrl 72) || (c =? 127)
  then if negb (ce s =? cw s) then (consputc BACKSPACE, false, set_e (ce s - 1) s) else ([], false, s)
  else if negb (c =? 0) && (u32 (ce s - cr s) <? INPUT_BUF_SIZE)
  then
    let c := if c =? 13 then 10 else c in
    let out := consputc c in
    let s := Cons (<[Z.to_nat (ce s mod INPUT_BUF_SIZE) := u8 c]> (cbuf s)) (cr s) (cw s) (u32 (ce s + 1)) in
    if (c =? 10) || (c =? Ctrl 68) || (u32 (ce s - cr s) =? INPUT_BUF_SIZE)
    then (out, true, set_w (ce s) s)
    else (out, false, s)
  else ([], false, s).

(** The loop of [consoleread]; a read that has to wait stops with its [n]. *)
Fixpoint consoleread_run (fuel : nat) (killed : bool) (room : nat) (n target : Z) (s : cons) : stop * list Z * cons :=
  match fuel with
  | O => (Slept n, [], s)
  | S fuel =>
      if n >? 0
      then
        if cr s =? cw s then if killed then (Done (-1), [], s) else (Slept n, [], s)
        else
          let c := cell s (cr s) in
          let s := set_r (cr s + 1) s in
          if c =? Ctrl 68
          then (Done (target - n), [], if n <? target then set_r (cr s - 1) s else s)
          else
            match room with
            | O => (Done (target - n), [], s)
            | S room =>
                if c =? 10 then (Done (target - (n - 1)), [c], s)
                else let '(st, l, s) := consoleread_run fuel killed room (n - 1) target s in (st, c :: l, s)
            end
      else (Done (target - n), [], s)
  end.

(** The ring holds at most [INPUT_BUF_SIZE] bytes. *)
Definition consoleread (killed : bool) (room : nat) (n target : Z) (s : cons) : stop * list Z * cons :=
  consoleread_run (S (Z.to_nat INPUT_BUF_SIZE)) killed room n target s.

(** [src] ends at the first address that faults. *)
Fixpoint consolewrite (n : nat) (src : list Z) : Z * list Z :=
  match n, src with
  | S n, c :: src => let '(i, out) := consolewrite n src in (i + 1, c :: out)
  | _, _ => (0, [])
  end.

(** * What the console promises *)

Module Editor.

Record line := Line { ready : list Z; editing : list Z }.

Definition typed (c : Z) (a : line) : list Z * bool * line :=
  if c =? Ctrl 80 then ([], false, a)
  else if c =? Ctrl 85 then (mjoin (replicate (length (editing a)) [8; 32; 8]), false, Line (ready a) [])
  else if (c =? Ctrl 72) || (c =? 127)
  then if decide (editing a = []) then ([], false, a)
       else ([8; 32; 8], false, Line (ready a) (take (length (editing a) - 1) (editing a)))
  else if decide (c = 0) then ([], false, a)
  else if decide (length (ready a ++ editing a) < 128)%nat
  then
    let c := if c =? 13 then 10 else c in
    if (c =? 10) || (c =? Ctrl 68) || bool_decide (length (ready a ++ editing a) = 127%nat)
    then ([c], true, Line (ready a ++ editing a ++ [c]) [])
    else ([c], false, Line (ready a) (editing a ++ [c]))
  else ([], false, a).

(** Take input up to a newline, an end-of-file mark, or [n] bytes. *)
Fixpoint read (killed : bool) (room : nat) (n target : Z) (q : list Z) {struct q} : stop * list Z * list Z :=
  if n >? 0
  then
    match q with
    | [] => if killed then (Done (-1), [], []) else (Slept n, [], [])
    | c :: q =>
        if c =? Ctrl 68 then (Done (target - n), [], if n <? target then c :: q else q)
        else
          match room with
          | O => (Done (target - n), [], q)
          | S room =>
              if c =? 10 then (Done (target - (n - 1)), [c], q)
              else let '(st, l, q) := read killed room (n - 1) target q in (st, c :: l, q)
          end
    end
  else (Done (target - n), [], q).

End Editor.

(** An interrupt with a typed character, or a run of a read. *)
Inductive event := Typed (c : Z) | Read (killed : bool) (room : nat) (n target : Z).

Definition cevent (ev : event) (s : cons) : (list Z * bool + stop * list Z) * cons :=
  match ev with
  | Typed c => let '(out, wake, s) := consoleintr c s in (inl (out, wake), s)
  | Read killed room n target => let '(st, l, s) := consoleread killed room n target s in (inr (st, l), s)
  end.

Definition aevent (ev : event) (a : Editor.line) : (list Z * bool + stop * list Z) * Editor.line :=
  match ev with
  | Typed c => let '(out, wake, a) := Editor.typed c a in (inl (out, wake), a)
  | Read killed room n target =>
      let '(st, l, q) := Editor.read killed room n target (Editor.ready a) in
      (inr (st, l), Editor.Line q (Editor.editing a))
  end.

Fixpoint crun (evs : list event) (s : cons) : list (list Z * bool + stop * list Z) * cons :=
  match evs with
  | [] => ([], s)
  | ev :: evs => let '(o, s) := cevent ev s in let '(os, s) := crun evs s in (o :: os, s)
  end.

Fixpoint arun (evs : list event) (a : Editor.line) : list (list Z * bool + stop * list Z) * Editor.line :=
  match evs with
  | [] => ([], a)
  | ev :: evs => let '(o, a) := aevent ev a in let '(os, a) := arun evs a in (o :: os, a)
  end.

(** * The ring *)

Definition seg (s : cons) (i k : Z) : list Z := (fun j => cell s (i + j)) <$> seqZ 0 k.

Lemma cell_u32 s i : cell s (u32 i) = cell s i.
Proof. unfold cell, u32, INPUT_BUF_SIZE. do 3 f_equal. zdm. Qed.

Lemma length_seg s i k : length (seg s i k) = Z.to_nat k.
Proof. unfold seg. by rewrite length_fmap, length_seqZ. Qed.

Lemma seg_snoc s i k : 0 <= k -> seg s i (k + 1) = seg s i k ++ [cell s (i + k)].
Proof. intros. unfold seg. rewrite seqZ_app by lia. rewrite fmap_app. cbn. by rewrite Z.add_0_l. Qed.

Lemma seg_cons s i k : 0 <= k -> seg s i (k + 1) = cell s i :: seg s (i + 1) k.
Proof.
  intros. unfold seg. rewrite seqZ_cons by lia. cbn [fmap list_fmap]. rewrite Z.add_0_r. f_equal.
  replace (Z.pred (k + 1)) with k by lia. apply list_eq. intros j. rewrite !list_lookup_fmap.
  destruct (decide (Z.of_nat j < k)).
  - rewrite !(fun m => proj2 (lookup_seqZ m k j (m + Z.of_nat j))) by (split; [reflexivity|lia]). cbn. do 2 f_equal. lia.
  - by rewrite !lookup_seqZ_ge by lia.
Qed.

Lemma seg_app s i k k' : 0 <= k -> 0 <= k' -> seg s i (k + k') = seg s i k ++ seg s (i + k) k'.
Proof.
  intros Hk. revert k'. apply natlike_ind.
  - rewrite Z.add_0_r. unfold seg at 3. cbn. by rewrite app_nil_r.
  - intros k' Hk' IH. rewrite <-Z.add_1_r, Z.add_assoc, !seg_snoc, IH by lia. rewrite <-app_assoc. do 4 f_equal. lia.
Qed.

Lemma seg_ext s s' i k : (forall j, 0 <= j < k -> cell s (i + j) = cell s' (i + j)) -> seg s i k = seg s' i k.
Proof. intros H. apply list_fmap_ext. intros j x [-> Hx]%lookup_seqZ. apply H. lia. Qed.

(** The ring as lists. *)
Record sim (s : cons) (a : Editor.line) : Prop := {
  si_len : length (cbuf s) = 128%nat;
  si_r : 0 <= cr s < 2 ^ 32;
  si_w : cw s = u32 (cr s + Z.of_nat (length (Editor.ready a)));
  si_e : ce s = u32 (cr s + Z.of_nat (length (Editor.ready a) + length (Editor.editing a)));
  si_fit : (length (Editor.ready a) + length (Editor.editing a) <= 128)%nat;
  si_seg : seg s (cr s) (Z.of_nat (length (Editor.ready a) + length (Editor.editing a))) = Editor.ready a ++ Editor.editing a;
  si_line : 10 ∉ Editor.editing a }.

Lemma sim_pop s c q l :
  sim s (Editor.Line (c :: q) l) ->
  (cr s =? cw s) = false /\ cell s (cr s) = c /\ sim (set_r (cr s + 1) s) (Editor.Line q l).
Proof.
  intros [L R W E F S N]. cbn [Editor.ready Editor.editing length] in *. unfold u32 in *. split_and!.
  - apply Z.eqb_neq. rewrite W. zdm.
  - replace (Z.of_nat _) with (Z.of_nat (length q + length l) + 1) in S by lia.
    rewrite seg_cons in S by lia. by injection S.
  - split; cbn [set_r cbuf cr cw ce Editor.ready Editor.editing]; [done|apply u32_range|..|lia| |done].
    + rewrite W. unfold u32. zdm.
    + rewrite E. unfold u32. zdm.
    + replace (Z.of_nat _) with (Z.of_nat (length q + length l) + 1) in S by lia.
      rewrite seg_cons in S by lia. injection S as _ S. rewrite <-S. apply list_fmap_ext. intros j x _.
      unfold cell. cbn [cbuf]. do 3 f_equal. unfold u32, INPUT_BUF_SIZE. zdm.
Qed.

Lemma sim_empty s l : sim s (Editor.Line [] l) -> (cr s =? cw s) = true.
Proof. intros [L R W E F S N]. cbn in W. apply Z.eqb_eq. rewrite W. rewrite u32_small; lia. Qed.

Lemma set_r_back s : 0 <= cr s < 2 ^ 32 -> set_r (cr (set_r (cr s + 1) s) - 1) (set_r (cr s + 1) s) = s.
Proof. intros H. destruct s as [b r w e]. unfold set_r. cbn in *. f_equal. unfold u32. zdm. Qed.

Lemma read_ok fuel killed room n target s q l :
  sim s (Editor.Line q l) -> (length q < fuel)%nat ->
  exists st out q' s', consoleread_run fuel killed room n target s = (st, out, s') /\
    Editor.read killed room n target q = (st, out, q') /\ sim s' (Editor.Line q' l).
Proof.
  revert room n s q. induction fuel as [|fuel IH]; intros room n s q S Hf; [lia|].
  cbn [consoleread_run]. destruct q as [|c q]; cbn [Editor.read]; (destruct (n >? 0); [|do 4 eexists; split_and!; first [reflexivity|assumption]]).
  { rewrite (sim_empty _ _ S). destruct killed; do 4 eexists; split_and!; first [reflexivity|assumption]. }
  destruct (sim_pop _ _ _ _ S) as (-> & -> & S'). destruct (c =? Ctrl 68).
  { do 4 eexists. split; [done|]. split; [done|]. case_match; [|done]. rewrite set_r_back by apply S. done. }
  destruct room as [|room]; [do 4 eexists; split_and!; first [reflexivity|assumption]|]. destruct (c =? 10); [do 4 eexists; split_and!; first [reflexivity|assumption]|].
  destruct (IH room (n - 1) _ _ S') as (st & out & q' & s' & -> & -> & S''); [cbn in Hf; lia|]. do 4 eexists; split_and!; first [reflexivity|assumption].
Qed.

Lemma sim_last s q l x :
  sim s (Editor.Line q (l ++ [x])) ->
  (ce s =? cw s) = false /\ cell s (u32 (ce s - 1)) = x /\ sim (set_e (ce s - 1) s) (Editor.Line q l).
Proof.
  intros [L R W E F S N]. cbn [Editor.ready Editor.editing] in *. rewrite length_app in *. cbn [length] in *.
  replace (Z.of_nat _) with (Z.of_nat (length q + length l) + 1) in S by lia.
  rewrite seg_snoc, app_assoc in S by lia. apply app_inj_tail in S as [S Sx]. split_and!.
  - apply Z.eqb_neq. rewrite W, E. unfold u32. zdm.
  - rewrite cell_u32, <-Sx, E. unfold cell, u32, INPUT_BUF_SIZE. do 3 f_equal. zdm.
  - split; cbn [set_e cbuf cr cw ce Editor.ready Editor.editing]; [done..| |lia|done|set_solver].
    rewrite E. unfold u32. zdm.
Qed.

Lemma sim_no_line s q : sim s (Editor.Line q []) -> (ce s =? cw s) = true.
Proof. intros [L R W E F S N]. cbn [Editor.ready Editor.editing length] in *. apply Z.eqb_eq. rewrite W, E. do 2 f_equal. lia. Qed.

Lemma kill_line_ok fuel s q l :
  sim s (Editor.Line q l) -> (length l < fuel)%nat ->
  exists s', kill_line fuel s = (mjoin (replicate (length l) [8; 32; 8]), s') /\ sim s' (Editor.Line q []).
Proof.
  revert s l. induction fuel as [|fuel IH]; intros s l S Hf; [lia|]. cbn [kill_line].
  destruct l as [|x l _] using rev_ind; [rewrite (sim_no_line _ _ S); by eauto|].
  destruct (sim_last _ _ _ _ S) as (-> & -> & S'). rewrite length_app in *. cbn [length] in *.
  assert ((x =? 10) = false) as -> by (apply Z.eqb_neq; intros ->; apply (si_line _ _ S); set_solver).
  cbn [negb andb]. destruct (IH _ _ S') as (s' & -> & S''); [lia|]. exists s'. split; [|done].
  by rewrite Nat.add_comm.
Qed.

(** Storing a character at [e]. *)
Lemma sim_put s q l c :
  sim s (Editor.Line q l) -> (length (q ++ l) < 128)%nat -> 0 <= c < 256 ->
  let s' := Cons (<[Z.to_nat (ce s mod INPUT_BUF_SIZE) := u8 c]> (cbuf s)) (cr s) (cw s) (u32 (ce s + 1)) in
  u32 (ce s' - cr s') = Z.of_nat (length (q ++ l)) + 1 /\
  (c <> 10 -> sim s' (Editor.Line q (l ++ [c]))) /\
  sim (set_w (ce s') s') (Editor.Line (q ++ l ++ [c]) []).
Proof.
  intros [L R W E F S N] Hl Hc s'. cbn [Editor.ready Editor.editing] in *. rewrite length_app in Hl.
  set (k := (length q + length l)%nat) in *.
  assert (ce s' = u32 (cr s + Z.of_nat (k + 1))) as E' by (cbn; rewrite E; unfold u32; zdm).
  assert (seg s' (cr s) (Z.of_nat k + 1) = q ++ l ++ [c]) as S'.
  { rewrite seg_snoc, app_assoc, <-S by lia. f_equal; [apply seg_ext; intros j Hj|f_equal]; unfold cell; cbn [cbuf s'].
    - rewrite list_lookup_insert_ne; [done|]. rewrite E. unfold u32, INPUT_BUF_SIZE. zdm.
    - replace ((cr s + Z.of_nat k) mod INPUT_BUF_SIZE) with (ce s mod INPUT_BUF_SIZE) by (rewrite E; unfold u32, INPUT_BUF_SIZE; zdm).
      rewrite list_lookup_insert_eq; [by apply u8_small|]. rewrite L. unfold INPUT_BUF_SIZE. zdm. }
  split_and!.
  - rewrite E'. change (cr s') with (cr s). rewrite length_app. fold k. unfold u32. zdm.
  - intros Hc'. split; cbn [Editor.ready Editor.editing]; rewrite ?length_app; cbn [length].
    + cbn. by rewrite length_insert.
    + done.
    + done.
    + rewrite E'. do 3 f_equal. lia.
    + lia.
    + replace (Z.of_nat _) with (Z.of_nat k + 1) by lia. done.
    + set_solver.
  - split; cbn [Editor.ready Editor.editing]; rewrite ?length_app; cbn [length].
    + cbn. by rewrite length_insert.
    + done.
    + cbn [set_w cw]. rewrite E'. change (cr (set_w _ _)) with (cr s). unfold u32. zdm.
    + cbn [set_w ce]. rewrite E'. do 3 f_equal. cbn. lia.
    + lia.
    + replace (Z.of_nat _) with (Z.of_nat k + 1) by lia. rewrite app_nil_r. done.
    + set_solver.
Qed.

(** A typed character is a byte. *)
Definition ok_event (ev : event) : Prop := match ev with Typed c => 0 <= c < 256 | Read _ _ _ _ => True end.

Lemma sim_count s q l : sim s (Editor.Line q l) -> u32 (ce s - cr s) = Z.of_nat (length (q ++ l)).
Proof.
  intros [L R W E F S N]. cbn [Editor.ready Editor.editing] in *. rewrite E, length_app. unfold u32 in *. zdm.
Qed.

Lemma typed_ok c s a :
  sim s a -> 0 <= c < 256 ->
  exists out wake s' a', consoleintr c s = (out, wake, s') /\ Editor.typed c a = (out, wake, a') /\ sim s' a'.
Proof.
  destruct a as [q l]. intros S Hc. unfold consoleintr, Editor.typed. cbn [Editor.ready Editor.editing].
  destruct (c =? Ctrl 80); [do 4 eexists; split_and!; first [reflexivity|assumption]|].
  destruct (c =? Ctrl 85).
  { destruct (kill_line_ok (Datatypes.S (Z.to_nat INPUT_BUF_SIZE)) s q l S) as (s' & -> & S').
    - pose proof (si_fit _ _ S). cbn [Editor.ready Editor.editing] in *. unfold INPUT_BUF_SIZE. lia.
    - do 4 eexists; split_and!; first [reflexivity|assumption]. }
  destruct (_ || _).
  { destruct l as [|x l _] using rev_ind.
    - rewrite (sim_no_line _ _ S). do 4 eexists; split_and!; first [reflexivity|assumption].
    - destruct (sim_last _ _ _ _ S) as (-> & _ & S'). rewrite decide_False by (by destruct l).
      rewrite length_app. cbn [length]. replace (length l + 1 - 1)%nat with (length l) by lia. rewrite take_app_length.
      do 4 eexists; split_and!; first [reflexivity|assumption]. }
  rewrite (sim_count _ _ _ S). case_decide as D0; [subst; do 4 eexists; split_and!; first [reflexivity|assumption]|].
  apply Z.eqb_neq in D0. rewrite D0. cbn [negb andb]. unfold INPUT_BUF_SIZE at 1. destruct (Z.ltb_spec (Z.of_nat (length (q ++ l))) 128).
  2:{ rewrite decide_False by lia. do 4 eexists; split_and!; first [reflexivity|assumption]. }
  rewrite decide_True by lia. cbv zeta. set (d := if c =? 13 then 10 else c).
  assert (0 <= d < 256) as Hd by (unfold d; case_match; lia).
  destruct (sim_put s q l d S ltac:(lia) Hd) as (-> & S1 & S2).
  assert (consputc d = [d]) as ->.
  { unfold consputc, BACKSPACE. destruct (Z.eqb_spec d 0x100); [lia|done]. }
  assert ((Z.of_nat (length (q ++ l)) + 1 =? INPUT_BUF_SIZE) = bool_decide (length (q ++ l) = 127%nat)) as ->.
  { unfold INPUT_BUF_SIZE. destruct (Z.eqb_spec (Z.of_nat (length (q ++ l)) + 1) 128); symmetry; [apply bool_decide_eq_true|apply bool_decide_eq_false]; lia. }
  destruct ((d =? 10) || (d =? Ctrl 68) || _) eqn:Ec.
  - do 4 eexists; split_and!; first [reflexivity|exact S2].
  - apply orb_false_iff in Ec as [[Ec _]%orb_false_iff _]. apply Z.eqb_neq in Ec.
    do 4 eexists; split_and!; first [reflexivity|exact (S1 Ec)].
Qed.

Lemma crun_ok evs s a :
  sim s a -> Forall ok_event evs ->
  exists os s' a', crun evs s = (os, s') /\ arun evs a = (os, a') /\ sim s' a'.
Proof.
  intros S H. revert s a S. induction H as [|ev evs Hev _ IH]; intros s a S.
  { do 3 eexists; split_and!; first [reflexivity|exact S]. }
  cbn [crun arun]. destruct ev as [c|killed room n target]; cbn [cevent aevent].
  - destruct (typed_ok c s a S Hev) as (out & wake & s' & a' & -> & -> & S').
    destruct (IH _ _ S') as (os & s2 & a2 & -> & -> & S2). do 3 eexists; split_and!; first [reflexivity|exact S2].
  - destruct a as [q l]. cbn [Editor.ready Editor.editing].
    destruct (read_ok (Datatypes.S (Z.to_nat INPUT_BUF_SIZE)) killed room n target s q l S) as (st & out & q' & s' & E & -> & S').
    { pose proof (si_fit _ _ S). cbn [Editor.ready Editor.editing] in *. unfold INPUT_BUF_SIZE. lia. }
    unfold consoleread. rewrite E.
    destruct (IH _ _ S') as (os & s2 & a2 & -> & -> & S2). do 3 eexists; split_and!; first [reflexivity|exact S2].
Qed.

Lemma sim_boot : sim cons0 (Editor.Line [] []).
Proof. split; try done; cbn; [lia|set_solver]. Qed.

(** C20: the console is a line editor.  For any sequence of typed bytes and reads,
    with kills and faulting buffers and indices that wrap, the ring buffer echoes,
    wakes, returns and delivers exactly what a queue of complete input and a line
    being edited, kept as lists, would; and at most 128 bytes are held. *)
Theorem console_refines (evs : list event) :
  Forall ok_event evs ->
  exists os s a, crun evs cons0 = (os, s) /\ arun evs (Editor.Line [] []) = (os, a) /\ sim s a /\
    (length (Editor.ready a) + length (Editor.editing a) <= 128)%nat.
Proof.
  intros H. destruct (crun_ok evs _ _ sim_boot H) as (os & s & a & E1 & E2 & S).
  exists os, s, a. split_and!; [done..|apply S].
Qed.

(** "ax", backspace, "b" and a carriage return, then a read of ten bytes. *)
Lemma console_refines_witness : exists s,
  crun [Typed 97; Typed 120; Typed 8; Typed 98; Typed 13; Read false 10 10 10] cons0 =
    ([inl ([97], false); inl ([120], false); inl ([8; 32; 8], false); inl ([98], false);
      inl ([10], true); inr (Done 3, [97; 98; 10])], s).
Proof.
  destruct (console_refines [Typed 97; Typed 120; Typed 8; Typed 98; Typed 13; Read false 10 10 10])
    as (os & s & a & E1 & E2 & _ & _).
  - repeat constructor; cbn; discriminate.
  - exists s. rewrite E1. f_equal. vm_compute in E2. congruence.
Defined.
