(* ===== verification/Virtio.v ===== *)
(** kernel/virtio_disk.c: the disk driver and its queues.

    The driver and the device share the descriptors and the two rings.  A call of
    [virtio_disk_rw] is split where the lock is given up or where the device can
    first see what was written: [rw_prepare] ends with the store into the
    available ring, [rw_publish] increments its index, [rw_return] is a turn of
    the wait on [b->disk] with the clean-up that follows it.  [virtio_disk_intr]
    is split into the turns of its loop.  The rings' indices are 16 bits wide and
    wrap.

    The device is not code of the kernel.  It is a second party that moves at any
    time, also while the driver holds its lock, and does what section 5.2 of the
    virtio specification says: it takes heads from the available ring, finishes
    them in any order, and reports each in the used ring.  A request it cannot
    make sense of stops the system.

    [Atomic] is what the driver promises to the buffer cache: a transfer of one
    block, at one moment between call and return. *)

From S2P Require Import Prelude Mem Kern.

Definition NUM : nat := 8.
Definition VRING_DESC_F_NEXT : Z := 1.
Definition VRING_DESC_F_WRITE : Z := 2.
Definition VIRTIO_BLK_T_IN : Z := 0.
Definition VIRTIO_BLK_T_OUT : Z := 1.

(** The addresses a descriptor can hold: null, [&disk.ops[i]], [b->data] and
    [&disk.info[i].status]. *)
Inductive ptr := PNull | POps (i : nat) | PData (b : nat) | PStatus (i : nat).

Record virtq_desc := Desc { d_addr : ptr; d_len : Z; d_flags : Z; d_next : nat }.
Record virtio_blk_req := Req { r_type : Z; r_reserved : Z; r_sector : Z }.

(** Where a process can sleep. *)
Inductive chan := CFree | CBuf (b : nat).

#[export] Instance chan_eq_dec : EqDecision chan.
Proof. solve_decision. Defined.

(** [struct disk], with the queues it points to; the [disk] flag and the data of
    the buffers; the processes asleep in the driver; the bytes on the disk. *)
Record vst := Vst {
  desc : list virtq_desc;
  avail_ring : list nat; avail_idx : Z;
  used_ring : list nat; used_end : Z;            (* disk.used->idx *)
  free : list bool; used_idx : Z;
  info_b : list (option nat); info_status : list Z;
  ops : list virtio_blk_req;
  b_disk : gmap nat Z; b_data : gmap nat (list Z);
  asleep : gmap nat chan;
  store : mem }.

Definition desc0 : virtq_desc := Desc PNull 0 0 0.
Definition req0 : virtio_blk_req := Req 0 0 0.

Definition set_desc x s := Vst x (avail_ring s) (avail_idx s) (used_ring s) (used_end s) (free s) (used_idx s) (info_b s) (info_status s) (ops s) (b_disk s) (b_data s) (asleep s) (store s).
Definition set_avail r i s := Vst (desc s) r i (used_ring s) (used_end s) (free s) (used_idx s) (info_b s) (info_status s) (ops s) (b_disk s) (b_data s) (asleep s) (store s).
Definition set_used r i s := Vst (desc s) (avail_ring s) (avail_idx s) r i (free s) (used_idx s) (info_b s) (info_status s) (ops s) (b_disk s) (b_data s) (asleep s) (store s).
Definition set_free x s := Vst (desc s) (avail_ring s) (avail_idx s) (used_ring s) (used_end s) x (used_idx s) (info_b s) (info_status s) (ops s) (b_disk s) (b_data s) (asleep s) (store s).
Definition set_used_idx x s := Vst (desc s) (avail_ring s) (avail_idx s) (used_ring s) (used_end s) (free s) x (info_b s) (info_status s) (ops s) (b_disk s) (b_data s) (asleep s) (store s).
Definition set_info_b x s := Vst (desc s) (avail_ring s) (avail_idx s) (used_ring s) (used_end s) (free s) (used_idx s) x (info_status s) (ops s) (b_disk s) (b_data s) (asleep s) (store s).
Definition set_status x s := Vst (desc s) (avail_ring s) (avail_idx s) (used_ring s) (used_end s) (free s) (used_idx s) (info_b s) x (ops s) (b_disk s) (b_data s) (asleep s) (store s).
Definition set_ops x s := Vst (desc s) (avail_ring s) (avail_idx s) (used_ring s) (used_end s) (free s) (used_idx s) (info_b s) (info_status s) x (b_disk s) (b_data s) (asleep s) (store s).
Definition set_disk x s := Vst (desc s) (avail_ring s) (avail_idx s) (used_ring s) (used_end s) (free s) (used_idx s) (info_b s) (info_status s) (ops s) x (b_data s) (asleep s) (store s).
Definition set_data x s := Vst (desc s) (avail_ring s) (avail_idx s) (used_ring s) (used_end s) (free s) (used_idx s) (info_b s) (info_status s) (ops s) (b_disk s) x (asleep s) (store s).
Definition set_asleep x s := Vst (desc s) (avail_ring s) (avail_idx s) (used_ring s) (used_end s) (free s) (used_idx s) (info_b s) (info_status s) (ops s) (b_disk s) (b_data s) x (store s).
Definition set_store x s := Vst (desc s) (avail_ring s) (avail_idx s) (used_ring s) (used_end s) (free s) (used_idx s) (info_b s) (info_status s) (ops s) (b_disk s) (b_data s) (asleep s) x.

(** After [virtio_disk_init]: queues of zeros, every descriptor free. *)
Definition vinit (data : gmap nat (list Z)) (d : mem) : vst :=
  Vst (replicate NUM desc0) (replicate NUM 0%nat) 0 (replicate NUM 0%nat) 0 (replicate NUM true) 0
    (replicate NUM None) (replicate NUM 0) (replicate NUM req0) ∅ data ∅ d.

Definition slot (i : Z) : nat := Z.to_nat (i mod Z.of_nat NUM).

(** * The driver *)

(** [sleep(chan, &disk.vdisk_lock)] of process [t], and [wakeup(chan)]. *)
Definition vsleep (t : nat) (c : chan) : K vst unit :=
  kmodify (fun s => set_asleep (<[t := c]> (asleep s)) s).
Definition vwakeup (c : chan) : K vst unit :=
  kmodify (fun s => set_asleep (filter (fun p => p.2 <> c) (asleep s)) s).

Fixpoint alloc_from (l : list bool) (i : nat) : option nat :=
  match l with
  | [] => None
  | f :: l => if f : bool then Some i else alloc_from l (S i)
  end.

Definition alloc_desc : K vst (option nat) :=
  s ← kget;
  match alloc_from (free s) 0 with
  | Some i => kput (set_free (<[i := false]> (free s)) s);; mret (Some i)
  | None => mret None
  end.

Definition free_desc (i : nat) : K vst unit :=
  if decide (NUM <= i)%nat then panic "free_desc 1"
  else
    s ← kget;
    if default false (free s !! i) then panic "free_desc 2"
    else
      kput (set_free (<[i := true]> (free s)) (set_desc (<[i := desc0]> (desc s)) s));;
      vwakeup CFree.

(** A chain has at most [NUM] descriptors: after that the next one is free. *)
Fixpoint free_chain (fuel : nat) (i : nat) : K vst unit :=
  match fuel with
  | O => panic "free_chain: fuel"
  | S fuel =>
      s ← kget;
      match desc s !! i with
      | None => panic "undefined: descriptor"
      | Some d =>
          free_desc i;;
          if negb (Z.land (d_flags d) VRING_DESC_F_NEXT =? 0) then free_chain fuel (d_next d) else mret tt
      end
  end.

Fixpoint free_all (l : list nat) : K vst unit :=
  match l with [] => mret tt | i :: l => free_desc i;; free_all l end.

(** [n] more descriptors after those in [idx]. *)
Fixpoint alloc_loop (n : nat) (idx : list nat) : K vst (option (list nat)) :=
  match n with
  | O => mret (Some idx)
  | S n =>
      i ← alloc_desc;
      match i with
      | Some i => alloc_loop n (idx ++ [i])
      | None => free_all idx;; mret None
      end
  end.
Definition alloc3_desc : K vst (option (list nat)) := alloc_loop 3 [].

(** The formatting of the three descriptors, and what follows up to the store
    into the available ring. *)
Definition format (b : nat) (sector : Z) (write : bool) (i0 i1 i2 : nat) (s : vst) : vst :=
  let s := set_ops (<[i0 := Req (if write then VIRTIO_BLK_T_OUT else VIRTIO_BLK_T_IN) 0 sector]> (ops s)) s in
  let s := set_desc (<[i0 := Desc (POps i0) 16 VRING_DESC_F_NEXT i1]> (desc s)) s in
  let s := set_desc (<[i1 := Desc (PData b) 1024
             (Z.lor (if write then 0 else VRING_DESC_F_WRITE) VRING_DESC_F_NEXT) i2]> (desc s)) s in
  let s := set_status (<[i0 := 0xff]> (info_status s)) s in
  let s := set_desc (<[i2 := Desc (PStatus i0) 1 VRING_DESC_F_WRITE 0]> (desc s)) s in
  let s := set_disk (<[b := 1]> (b_disk s)) s in
  let s := set_info_b (<[i0 := Some b]> (info_b s)) s in
  set_avail (<[slot (avail_idx s) := i0]> (avail_ring s)) (avail_idx s) s.

(** [None]: no three descriptors are free, and the process sleeps. *)
Definition rw_prepare (t b : nat) (blockno : Z) (write : bool) : K vst (option (nat * nat * nat)) :=
  let sector := u32 (blockno * 2) in
  idx ← alloc3_desc;
  match idx with
  | Some [i0; i1; i2] => kmodify (format b sector write i0 i1 i2);; mret (Some (i0, i1, i2))
  | _ => vsleep t CFree;; mret None
  end.

(** The test [b->disk == 1]; the process goes to sleep if it holds. *)
Definition rw_wait (t b : nat) : K vst bool :=
  s ← kget;
  if default 0 (b_disk s !! b) =? 1 then vsleep t (CBuf b);; mret false else mret true.

Definition rw_publish : K vst unit :=
  kmodify (fun s => set_avail (avail_ring s) (u16 (avail_idx s + 1)) s).

Definition rw_finish (i0 : nat) : K vst unit :=
  kmodify (fun s => set_info_b (<[i0 := None]> (info_b s)) s);;
  free_chain (S NUM) i0.

(** One turn of the loop of [virtio_disk_intr]; [false] when there is no more. *)
Definition intr_turn : K vst bool :=
  s ← kget;
  if used_idx s =? used_end s then mret false
  else
    match used_ring s !! slot (used_idx s) with
    | None => panic "undefined: used ring"
    | Some id =>
        if negb (default 0 (info_status s !! id) =? 0) then panic "virtio_disk_intr status"
        else
          match info_b s !! id with
          | Some (Some b) =>
              kput (set_disk (<[b := 0]> (b_disk s)) s);;
              vwakeup (CBuf b);;
              kmodify (fun s => set_used_idx (u16 (used_idx s + 1)) s);;
              mret true
          | _ => panic "undefined: null buf"
          end
    end.

(** * The device *)

(** Finish the request at head [h] with [status]; a transfer happens on success. *)
Definition dev_finish (h : nat) (status : Z) : K vst unit :=
  s ← kget;
  match desc s !! h with
  | Some (Desc (POps i) 16 f0 n1) =>
      match ops s !! i, desc s !! n1 with
      | Some (Req ty _ sector), Some (Desc (PData b) len f1 n2) =>
          match desc s !! n2 with
          | Some (Desc (PStatus j) 1 f2 _) =>
              if Z.testbit f0 0 && Z.testbit f1 0 && negb (Z.testbit f2 0) && Z.testbit f2 1
                 && Bool.eqb (Z.testbit f1 1) (ty =? VIRTIO_BLK_T_IN)
              then
                let s1 :=
                  if negb (status =? 0) then s
                  else if ty =? VIRTIO_BLK_T_IN
                  then set_data (<[b := ldbytes (store s) (sector * 512) (Z.to_nat len)]> (b_data s)) s
                  else set_store (stbytes (store s) (sector * 512) (take (Z.to_nat len) (default [] (b_data s !! b)))) s in
                kput (set_used (<[slot (used_end s) := h]> (used_ring s)) (u16 (used_end s + 1))
                        (set_status (<[j := status]> (info_status s)) s1))
              else panic "device: request"
          | _ => panic "device: request"
          end
      | _, _ => panic "device: request"
      end
  | _ => panic "device: request"
  end.

(** * The system *)

(** Where a call of [virtio_disk_rw] is: looking for descriptors; holding the
    lock with the request prepared; or waiting for the transfer. *)
Record call := Call { c_buf : nat; c_block : Z; c_write : bool }.
Inductive phase := Want (c : call) | Ready (c : call) (idx : nat * nat * nat) | Wait (c : call) (idx : nat * nat * nat).
Inductive owner := Nobody | Proc (t : nat) | Intr.

#[export] Instance owner_eq_dec : EqDecision owner.
Proof. solve_decision. Defined.

Definition call_of (p : phase) : call := match p with Want c | Ready c _ | Wait c _ => c end.

(** [seen] and [taken] are the device's: how far it has read the available ring,
    and the heads it is working on. *)
Record sys := Sys { vd : vst; lock : owner; calls : gmap nat phase; seen : Z; taken : list nat }.

Inductive event :=
| ECall (t : nat) (c : call)                 (* a process calls virtio_disk_rw *)
| ETry (t : nat)                             (* and looks for descriptors *)
| EPublish (t : nat)
| EReturn (t : nat)                          (* it finds b->disk cleared, or sleeps again *)
| EIntr                                      (* the interrupt handler takes the lock *)
| ETurn                                      (* a turn of its loop, or its end *)
| ETake                                      (* the device takes a head *)
| EFinish (h : nat) (status : Z)
| EEdit (b : nat) (d : list Z).              (* the holder of a buffer changes it *)

Definition busy (m : gmap nat phase) (b : nat) : bool :=
  bool_decide (map_Exists (fun _ p => c_buf (call_of p) = b) m).
Definition awake (s : sys) (t : nat) : bool := bool_decide (asleep (vd s) !! t = None).

(** Continue with the result of a driver or device operation. *)
Definition andthen {A} (r : res A vst) (f : A -> vst -> sys) : option (string + sys) :=
  match r with Ok a _ v => Some (inr (f a v)) | Panic e => Some (inl e) end.

(** A step: [None] when the event cannot happen, [inl] when the system stops. *)
Definition vstep (e : event) (s : sys) : option (string + sys) :=
  match e with
  | ECall t c =>
      if decide (calls s !! t = None) then
        if negb (busy (calls s) (c_buf c)) && (0 <=? c_block c) && (c_block c <? 2 ^ 31)
        then Some (inr (Sys (vd s) (lock s) (<[t := Want c]> (calls s)) (seen s) (taken s)))
        else None
      else None
  | ETry t =>
      match calls s !! t with
      | Some (Want c) =>
          if decide (lock s = Nobody) then
            if awake s t then
              andthen (rw_prepare t (c_buf c) (c_block c) (c_write c) [] (vd s)) (fun r v =>
                match r with
                | Some idx => Sys v (Proc t) (<[t := Ready c idx]> (calls s)) (seen s) (taken s)
                | None => Sys v Nobody (calls s) (seen s) (taken s)
                end)
            else None
          else None
      | _ => None
      end
  | EPublish t =>
      match calls s !! t with
      | Some (Ready c idx) =>
          if decide (lock s = Proc t)
          then andthen ((rw_publish;; rw_wait t (c_buf c)) [] (vd s)) (fun _ v =>
                 Sys v Nobody (<[t := Wait c idx]> (calls s)) (seen s) (taken s))
          else None
      | _ => None
      end
  | EReturn t =>
      match calls s !! t with
      | Some (Wait c idx) =>
          if decide (lock s = Nobody) then
            if awake s t then
              andthen ((r ← rw_wait t (c_buf c);
                        if r : bool then rw_finish idx.1.1;; mret true else mret false) [] (vd s))
                (fun (r : bool) v =>
                   Sys v Nobody (if r then delete t (calls s) else calls s) (seen s) (taken s))
            else None
          else None
      | _ => None
      end
  | EIntr =>
      if decide (lock s = Nobody) then Some (inr (Sys (vd s) Intr (calls s) (seen s) (taken s))) else None
  | ETurn =>
      if decide (lock s = Intr)
      then andthen (intr_turn [] (vd s)) (fun (r : bool) v =>
             Sys v (if r then Intr else Nobody) (calls s) (seen s) (taken s))
      else None
  | ETake =>
      if seen s =? avail_idx (vd s) then None
      else Some (inr (Sys (vd s) (lock s) (calls s) (u16 (seen s + 1))
                        (taken s ++ [default 0%nat (avail_ring (vd s) !! slot (seen s))])))
  | EFinish h status =>
      if decide (h ∈ taken s)
      then andthen (dev_finish h status [] (vd s)) (fun _ v =>
             Sys v (lock s) (calls s) (seen s) (filter (.≠ h) (taken s)))
      else None
  | EEdit b d =>
      if negb (busy (calls s) b) && bool_decide (length d = 1024%nat)
      then Some (inr (Sys (set_data (<[b := d]> (b_data (vd s))) (vd s)) (lock s) (calls s) (seen s) (taken s)))
      else None
  end.

Fixpoint vrun (evs : list event) (s : sys) : option (string + sys) :=
  match evs with
  | [] => Some (inr s)
  | e :: evs => match vstep e s with Some (inr s') => vrun evs s' | r => r end
  end.

(** A disk and the buffers that have been filled, before any call. *)
Definition boot (data : gmap nat (list Z)) (d : mem) : sys := Sys (vinit data d) Nobody ∅ 0 [].

(** * What the driver promises *)

Module Atomic.

Record ast := Ast { data : gmap nat (list Z); disk : mem; pending : gmap nat (call * bool) }.

Inductive aevent := ACall (t : nat) (c : call) | ATransfer (t : nat) | AReturn (t : nat) | AEdit (b : nat) (d : list Z).

(** A transfer moves one block between the buffer and its place on the disk. *)
Definition transfer (c : call) (a : ast) : ast :=
  if c_write c
  then Ast (data a) (stbytes (disk a) (c_block c * 1024) (default [] (data a !! c_buf c))) (pending a)
  else Ast (<[c_buf c := ldbytes (disk a) (c_block c * 1024) 1024]> (data a)) (disk a) (pending a).

Definition step (e : aevent) (a : ast) : option ast :=
  match e with
  | ACall t c =>
      if decide (pending a !! t = None)
      then Some (Ast (data a) (disk a) (<[t := (c, false)]> (pending a))) else None
  | ATransfer t =>
      match pending a !! t with
      | Some (c, false) =>
          let a := transfer c a in Some (Ast (data a) (disk a) (<[t := (c, true)]> (pending a)))
      | _ => None
      end
  | AReturn t =>
      match pending a !! t with
      | Some (_, true) => Some (Ast (data a) (disk a) (delete t (pending a)))
      | _ => None
      end
  | AEdit b d =>
      Some (Ast (<[b := d]> (data a)) (disk a) (pending a))
  end.

Fixpoint run (evs : list aevent) (a : ast) : option ast :=
  match evs with
  | [] => Some a
  | e :: evs => a ← step e a; run evs a
  end.

Definition visible (e : aevent) : bool := match e with ATransfer _ => false | _ => true end.

End Atomic.

(** * Rings *)

(** The entries of a ring between two indices. *)
Definition seg (ring : list nat) (from to : Z) : list nat :=
  (fun j => default 0%nat (ring !! slot (from + Z.of_nat j))) <$> seq 0 (Z.to_nat (u16 (to - from))).

Definition idx16 (i : Z) : Prop := 0 <= i < 2 ^ 16.

Lemma idx16_u16 i : idx16 (u16 i).
Proof. apply Z.mod_pos_bound. lia. Qed.

Lemma slot_lt i : (slot i < 8)%nat.
Proof. unfold slot, NUM. pose proof (Z.mod_pos_bound i 8). lia. Qed.

Lemma slot_eq i j : slot i = slot j -> i mod 8 = j mod 8.
Proof. unfold slot, NUM. pose proof (Z.mod_pos_bound i 8). pose proof (Z.mod_pos_bound j 8). lia. Qed.

Lemma slot_mod i j : i mod 8 = j mod 8 -> slot i = slot j.
Proof. unfold slot. change (Z.of_nat NUM) with 8. by intros ->. Qed.

Lemma length_ring_seg ring from to : length (seg ring from to) = Z.to_nat (u16 (to - from)).
Proof. unfold seg. by rewrite length_fmap, length_seq. Qed.

Lemma seg_same ring i : seg ring i i = [].
Proof. unfold seg. by rewrite Z.sub_diag. Qed.

(** A store just after the entries does not change them. *)
Lemma seg_store ring from to x :
  (length (seg ring from to) < 8)%nat -> seg (<[slot to := x]> ring) from to = seg ring from to.
Proof.
  rewrite length_ring_seg. intros H. unfold seg. apply list_fmap_ext. intros k j Hj.
  apply lookup_seq in Hj as [-> Hk]. f_equal. apply list_lookup_insert_ne. intros E%slot_eq.
  unfold u16 in *. cbn in *. zdm.
Qed.

Lemma seg_push ring from to :
  length ring = 8%nat -> idx16 from -> idx16 to -> (length (seg ring from to) < 8)%nat ->
  seg ring from (u16 (to + 1)) = seg ring from to ++ [default 0%nat (ring !! slot to)].
Proof.
  rewrite length_ring_seg. unfold idx16. intros Hl Hf Ht H. unfold seg.
  replace (Z.to_nat (u16 (u16 (to + 1) - from))) with (Z.to_nat (u16 (to - from)) + 1)%nat by (unfold u16 in *; zdm).
  rewrite seq_app, fmap_app. cbn. do 3 f_equal. f_equal. apply slot_mod. unfold u16 in *. zdm.
Qed.

Lemma seg_pop ring from to :
  idx16 from -> idx16 to -> from <> to ->
  seg ring from to = default 0%nat (ring !! slot from) :: seg ring (u16 (from + 1)) to.
Proof.
  unfold idx16. intros Hf Ht H. unfold seg.
  replace (Z.to_nat (u16 (to - from))) with (S (Z.to_nat (u16 (to - u16 (from + 1))))) by (unfold u16 in *; zdm).
  cbn [seq fmap list_fmap]. f_equal; [by rewrite Z.add_0_r|].
  rewrite <-fmap_S_seq, <-list_fmap_compose. apply list_fmap_ext. intros k j _. cbn. do 2 f_equal.
  apply slot_mod. unfold u16. zdm.
Qed.

(** At most eight different heads are smaller than eight. *)
Lemma heads_bound (l : list nat) : NoDup l -> Forall (fun h => h < 8)%nat l -> (length l <= 8)%nat.
Proof.
  intros N H. change 8%nat with (length (seq 0 8)). apply submseteq_length, NoDup_submseteq; [done|].
  intros h Hh. apply elem_of_seq. rewrite Forall_forall in H. specialize (H _ Hh). lia.
Qed.

(** * The driver's operations *)

Lemma alloc_from_Some l i j : alloc_from l i = Some j -> (i <= j)%nat /\ l !! (j - i)%nat = Some true.
Proof.
  revert i. induction l as [|[] l IH]; intros i; [done| |]; cbn.
  - intros [= ->]. by rewrite Nat.sub_diag.
  - intros [H1 H2]%IH. split; [lia|]. by replace (j - i)%nat with (S (j - S i)) by lia.
Qed.

Lemma alloc_from_None l i k : alloc_from l i = None -> l !! k <> Some true.
Proof.
  revert i k. induction l as [|[] l IH]; intros i [|k]; cbn; [done..|]. apply IH.
Qed.

Lemma alloc_desc_ok h v :
  match alloc_from (free v) 0 with
  | Some i => free v !! i = Some true /\ alloc_desc h v = Ok (Some i) h (set_free (<[i := false]> (free v)) v)
  | None => (forall i, free v !! i <> Some true) /\ alloc_desc h v = Ok None h v
  end.
Proof.
  unfold alloc_desc. rewrite (bind_ok kget _ h v v h v) by done.
  destruct (alloc_from (free v) 0) as [i|] eqn:E; (split; [|done]).
  - apply alloc_from_Some in E as [_ E]. by rewrite Nat.sub_0_r in E.
  - intros i. by eapply alloc_from_None.
Qed.

Definition woken (c : chan) (m : gmap nat chan) : gmap nat chan := filter (fun p => p.2 <> c) m.

Lemma lookup_woken c m t x : woken c m !! t = Some x <-> m !! t = Some x /\ x <> c.
Proof. unfold woken. by rewrite map_lookup_filter_Some. Qed.

Definition freed_desc (i : nat) (v : vst) : vst :=
  set_asleep (woken CFree (asleep v)) (set_free (<[i := true]> (free v)) (set_desc (<[i := desc0]> (desc v)) v)).

Lemma free_desc_ok i h v :
  (i < 8)%nat -> free v !! i = Some false -> free_desc i h v = Ok tt h (freed_desc i v).
Proof.
  intros Hi Hf. unfold free_desc. rewrite decide_False by (unfold NUM; lia).
  rewrite (bind_ok kget _ h v v h v) by done. by rewrite Hf.
Qed.

(** A failed attempt for three descriptors leaves the descriptors in use alone,
    and there is one in use. *)
Record tried (v v' : vst) : Prop := {
  tr_shape : exists A D, v' = set_asleep A (set_desc D v);
  tr_desc : forall i, free v !! i <> Some true -> desc v' !! i = desc v !! i;
  tr_length : length (desc v') = length (desc v);
  tr_asleep : forall t c, asleep v' !! t = Some c -> asleep v !! t = Some c;
  tr_used : exists i, free v !! i = Some false }.

Lemma retake (l : list bool) i : l !! i = Some true -> <[i := true]> (<[i := false]> l) = l.
Proof. intros H. rewrite list_insert_insert_eq. by apply list_insert_id. Qed.

Lemma retake2 (l : list bool) i j :
  i <> j -> l !! i = Some true -> l !! j = Some true ->
  <[j := true]> (<[i := true]> (<[j := false]> (<[i := false]> l))) = l.
Proof.
  intros N Hi Hj. by rewrite (list_insert_insert_ne _ i j), (retake l i Hi), (retake l j Hj).
Qed.

Lemma third (i j : nat) : exists k, (k < 3)%nat /\ k <> i /\ k <> j.
Proof.
  destruct (decide (i <> 0 /\ j <> 0)%nat); [exists 0%nat; lia|].
  destruct (decide (i <> 1 /\ j <> 1)%nat); [exists 1%nat; lia|exists 2%nat; lia].
Qed.

Lemma tried_all v : length (free v) = 8%nat -> (forall i, free v !! i <> Some true) -> tried v v.
Proof.
  intros L H. split; [by exists (asleep v), (desc v); destruct v|done|done|done|].
  destruct (lookup_lt_is_Some_2 (free v) 0) as [[] E]; [lia|by destruct (H 0%nat)|eauto].
Qed.

Lemma tried_one v i :
  length (free v) = 8%nat -> free v !! i = Some true ->
  (forall k, <[i := false]> (free v) !! k <> Some true) ->
  tried v (freed_desc i (set_free (<[i := false]> (free v)) v)).
Proof.
  intros L Hi H. split.
  - eexists _, _. unfold freed_desc. cbn. rewrite retake by done. by destruct v.
  - intros k Hk. cbn. apply list_lookup_insert_ne. by intros ->.
  - cbn. apply length_insert.
  - intros t c. cbn. by intros [? _]%lookup_woken.
  - destruct (third i i) as (k & K & K1 & _). destruct (lookup_lt_is_Some_2 (free v) k) as [[] E]; [lia| |eauto].
    destruct (H k). by rewrite list_lookup_insert_ne.
Qed.

Lemma tried_two v i j :
  length (free v) = 8%nat -> i <> j -> free v !! i = Some true -> free v !! j = Some true ->
  (forall k, <[j := false]> (<[i := false]> (free v)) !! k <> Some true) ->
  tried v (freed_desc j (freed_desc i (set_free (<[j := false]> (<[i := false]> (free v))) v))).
Proof.
  intros L N Hi Hj H. split.
  - eexists _, _. unfold freed_desc. cbn. rewrite (retake2 (free v) i j) by done. by destruct v.
  - intros k Hk. cbn. rewrite !list_lookup_insert_ne; [done|by intros ->..].
  - cbn. by rewrite !length_insert.
  - intros t c. cbn. intros [[? _]%lookup_woken _]%lookup_woken. done.
  - destruct (third i j) as (k & K & K1 & K2). destruct (lookup_lt_is_Some_2 (free v) k) as [[] E]; [lia| |eauto].
    destruct (H k). by rewrite !list_lookup_insert_ne.
Qed.

Definition took3 (i0 i1 i2 : nat) (v : vst) : vst :=
  set_free (<[i2 := false]> (<[i1 := false]> (<[i0 := false]> (free v)))) v.

Lemma free_all_cons i l h v :
  length (free v) = 8%nat -> free v !! i = Some false -> free_all (i :: l) h v = free_all l h (freed_desc i v).
Proof.
  intros L F. cbn [free_all]. rewrite (bind_ok _ _ _ _ tt h (freed_desc i v)); [done|].
  apply free_desc_ok; [|done]. apply lookup_lt_Some in F. lia.
Qed.

Lemma alloc_fail h v idx v' :
  (forall i, free v !! i <> Some true) -> alloc_desc h v = Ok None h v -> free_all idx h v = Ok tt h v' ->
  forall n, alloc_loop (S n) idx h v = Ok None h v'.
Proof. intros F E G n. cbn [alloc_loop]. rewrite (bind_ok _ _ _ _ _ _ _ E). by rewrite (bind_ok _ _ _ _ _ _ _ G). Qed.

Lemma alloc_more h v i v' n idx :
  alloc_desc h v = Ok (Some i) h v' -> alloc_loop (S n) idx h v = alloc_loop n (idx ++ [i]) h v'.
Proof. intros E. cbn [alloc_loop]. by rewrite (bind_ok _ _ _ _ _ _ _ E). Qed.

Lemma alloc3_ok h v :
  length (free v) = 8%nat ->
  (exists i0 i1 i2, alloc3_desc h v = Ok (Some [i0; i1; i2]) h (took3 i0 i1 i2 v) /\ NoDup [i0; i1; i2] /\
     Forall (fun i => free v !! i = Some true) [i0; i1; i2]) \/
  (exists v', alloc3_desc h v = Ok None h v' /\ tried v v').
Proof.
  intros L. unfold alloc3_desc.
  pose proof (alloc_desc_ok h v) as H0. destruct (alloc_from (free v) 0) as [i0|]; destruct H0 as [F0 E0].
  2:{ right. exists v. split; [by apply alloc_fail|by apply tried_all]. }
  pose proof (lookup_lt_Some _ _ _ F0) as I0. rewrite (alloc_more _ _ _ _ _ _ E0). cbn [app].
  set (v1 := set_free _ v). pose proof (alloc_desc_ok h v1) as H1.
  destruct (alloc_from (free v1) 0) as [i1|]; destruct H1 as [F1 E1].
  2:{ right. eexists. split; [|by apply (tried_one v i0)]. apply alloc_fail; [done..|].
      apply free_all_cons; [by cbn; rewrite length_insert|by apply list_lookup_insert_eq]. }
  assert (i0 <> i1) as N01 by (intros <-; cbn in F1; by rewrite list_lookup_insert_eq in F1).
  pose proof (lookup_lt_Some _ _ _ F1) as I1. cbn in F1, I1. rewrite list_lookup_insert_ne in F1 by done. rewrite length_insert in I1.
  rewrite (alloc_more _ _ _ _ _ _ E1). cbn [app].
  set (v2 := set_free _ v1). pose proof (alloc_desc_ok h v2) as H2.
  destruct (alloc_from (free v2) 0) as [i2|]; destruct H2 as [F2 E2].
  2:{ right. eexists. split; [|by apply (tried_two v i0 i1)]. apply alloc_fail; [done..|].
      rewrite free_all_cons; [|by cbn; rewrite !length_insert|].
      - apply free_all_cons; [by cbn; rewrite !length_insert|]. cbn. rewrite list_lookup_insert_ne by done.
        apply list_lookup_insert_eq. by rewrite length_insert.
      - cbn. rewrite list_lookup_insert_ne by done. by apply list_lookup_insert_eq. }
  left. exists i0, i1, i2. rewrite (alloc_more _ _ _ _ _ _ E2). cbn in F2.
  assert (i1 <> i2) as N12 by (intros <-; rewrite list_lookup_insert_eq in F2; [done|by rewrite length_insert]).
  rewrite list_lookup_insert_ne in F2 by done.
  assert (i0 <> i2) as N02 by (intros <-; by rewrite list_lookup_insert_eq in F2).
  rewrite list_lookup_insert_ne in F2 by done. split; [done|]. split; [|by repeat constructor].
  repeat constructor; set_solver.
Qed.

Definition head_of (idx : nat * nat * nat) : nat := idx.1.1.
Definition ids (idx : nat * nat * nat) : list nat := [idx.1.1; idx.1.2; idx.2].

(** The three descriptors of a request say what the call asked for. *)
Record chain (v : vst) (c : call) (idx : nat * nat * nat) : Prop := {
  ch_nodup : NoDup (ids idx);
  ch_lt : Forall (fun i => i < 8)%nat (ids idx);
  ch_d0 : desc v !! idx.1.1 = Some (Desc (POps idx.1.1) 16 1 idx.1.2);
  ch_d1 : desc v !! idx.1.2 = Some (Desc (PData (c_buf c)) 1024 (if c_write c then 1 else 3) idx.2);
  ch_d2 : desc v !! idx.2 = Some (Desc (PStatus idx.1.1) 1 2 0);
  ch_ops : ops v !! idx.1.1 = Some (Req (if c_write c then 1 else 0) 0 (c_block c * 2));
  ch_info : info_b v !! idx.1.1 = Some (Some (c_buf c)) }.

Definition finished (idx : nat * nat * nat) (v : vst) : vst :=
  freed_desc idx.2 (freed_desc idx.1.2 (freed_desc idx.1.1 (set_info_b (<[idx.1.1 := None]> (info_b v)) v))).

Lemma free_chain_more fuel i d h v :
  length (free v) = 8%nat -> free v !! i = Some false -> desc v !! i = Some d ->
  free_chain (S fuel) i h v =
  if negb (Z.land (d_flags d) VRING_DESC_F_NEXT =? 0) then free_chain fuel (d_next d) h (freed_desc i v)
  else Ok tt h (freed_desc i v).
Proof.
  intros L F D. cbn [free_chain]. rewrite (bind_ok kget _ h v v h v) by done. rewrite D.
  rewrite (bind_ok _ _ _ _ tt h (freed_desc i v)) by (apply free_desc_ok; [apply lookup_lt_Some in F; lia|done]).
  by case_match.
Qed.

Lemma rw_finish_ok v c idx h :
  chain v c idx -> length (free v) = 8%nat -> Forall (fun i => free v !! i = Some false) (ids idx) ->
  rw_finish idx.1.1 h v = Ok tt h (finished idx v).
Proof.
  destruct idx as [[i0 i1] i2]. intros [N _ D0 D1 D2 _ _] L F. unfold ids in N, F. cbn in N, D0, D1, D2, F |- *. unfold rw_finish.
  rewrite !Forall_cons in F. destruct F as (F0 & F1 & F2 & _).
  rewrite !NoDup_cons, !not_elem_of_cons in N. destruct N as ((N01 & N02 & _) & (N12 & _) & _).
  rewrite (bind_ok _ _ _ _ tt h (set_info_b (<[i0 := None]> (info_b v)) v)) by done.
  unfold NUM. erewrite free_chain_more; [|exact L|exact F0|exact D0]. cbv [d_flags VRING_DESC_F_NEXT d_next].
  change (negb (Z.land 1 1 =? 0)) with true. cbv iota.
  erewrite free_chain_more; [|cbn; by rewrite length_insert|cbn; by rewrite list_lookup_insert_ne|cbn; by rewrite list_lookup_insert_ne].
  cbv [d_flags d_next VRING_DESC_F_NEXT].
  replace (negb (Z.land (if c_write c then 1 else 3) 1 =? 0)) with true by by destruct (c_write c).
  erewrite free_chain_more; [|cbn; by rewrite !length_insert|cbn; by rewrite !list_lookup_insert_ne|cbn; by rewrite !list_lookup_insert_ne].
  done.
Qed.

(** What the device does to the buffer or the disk, and a request it has finished. *)
Definition moved (c : call) (v : vst) : vst :=
  if c_write c
  then set_store (stbytes (store v) (c_block c * 1024) (take 1024 (default [] (b_data v !! c_buf c)))) v
  else set_data (<[c_buf c := ldbytes (store v) (c_block c * 1024) 1024]> (b_data v)) v.

Definition reported (h : nat) (status : Z) (c : call) (v : vst) : vst :=
  set_used (<[slot (used_end v) := h]> (used_ring v)) (u16 (used_end v + 1))
    (set_status (<[h := status]> (info_status v)) (if status =? 0 then moved c v else v)).

Lemma dev_finish_ok v c idx status h :
  chain v c idx -> dev_finish idx.1.1 status h v = Ok tt h (reported idx.1.1 status c v).
Proof.
  intros [_ _ D0 D1 D2 O _]. unfold dev_finish. rewrite (bind_ok kget _ h v v h v) by done.
  rewrite D0, O, D1, D2. unfold reported, moved. replace (c_block c * 2 * 512) with (c_block c * 1024) by lia.
  by destruct (c_write c), (status =? 0).
Qed.
