(* ===== verification/VirtioInv.v ===== *)
(** The disk driver keeps its promise.

    [inv] says who owns which descriptor, that the heads of the requests under
    way are in the rings or with the device exactly once, and that a process
    sleeps only while the event it waits for is still to come.  From it follow
    in VirtioSpec.v that the driver's calls are transfers of one block each and
    that none of them is stuck. *)

From S2P Require Import Prelude Mem Kern Virtio.

Definition issued (m : gmap nat phase) (t : nat) (c : call) (idx : nat * nat * nat) : Prop :=
  m !! t = Some (Ready c idx) \/ m !! t = Some (Wait c idx).

(** The heads under way: not yet seen by the device, with it, and reported. *)
Definition unseen (s : sys) : list nat := seg (avail_ring (vd s)) (seen s) (avail_idx (vd s)).
Definition reports (s : sys) : list nat := seg (used_ring (vd s)) (used_idx (vd s)) (used_end (vd s)).
Definition queued (s : sys) : list nat := unseen s ++ taken s ++ reports s.

Record lens (v : vst) : Prop := {
  ln_desc : length (desc v) = 8%nat; ln_avail : length (avail_ring v) = 8%nat;
  ln_used : length (used_ring v) = 8%nat; ln_free : length (free v) = 8%nat;
  ln_info : length (info_b v) = 8%nat; ln_status : length (info_status v) = 8%nat;
  ln_ops : length (ops v) = 8%nat;
  ln_ai : idx16 (avail_idx v); ln_ue : idx16 (used_end v); ln_ui : idx16 (used_idx v) }.

(** [bad]: the device has reported a failure. *)
Record inv (bad : Prop) (s : sys) : Prop := {
  iv_lens : lens (vd s);
  iv_seen : idx16 (seen s);
  iv_data b d : b_data (vd s) !! b = Some d -> (length d <= 1024)%nat;
  iv_buf t t' p p' : calls s !! t = Some p -> calls s !! t' = Some p' ->
    c_buf (call_of p) = c_buf (call_of p') -> t = t';
  iv_block t p : calls s !! t = Some p -> 0 <= c_block (call_of p) < 2 ^ 31;
  iv_chain t c idx : issued (calls s) t c idx -> chain (vd s) c idx;
  iv_disj t t' c c' idx idx' i : issued (calls s) t c idx -> issued (calls s) t' c' idx' ->
    i ∈ ids idx -> i ∈ ids idx' -> t = t';
  iv_free i : free (vd s) !! i = Some false <-> exists t c idx, issued (calls s) t c idx /\ i ∈ ids idx;
  iv_lock t : lock s = Proc t <-> exists c idx, calls s !! t = Some (Ready c idx);
  iv_ready t c idx : calls s !! t = Some (Ready c idx) ->
    b_disk (vd s) !! c_buf c = Some 1 /\ avail_ring (vd s) !! slot (avail_idx (vd s)) = Some (head_of idx);
  iv_nodup : NoDup (queued s);
  iv_queue h : h ∈ queued s -> exists t c idx,
    calls s !! t = Some (Wait c idx) /\ h = head_of idx /\ b_disk (vd s) !! c_buf c = Some 1;
  iv_wait t c idx : calls s !! t = Some (Wait c idx) ->
    (b_disk (vd s) !! c_buf c = Some 1 /\ head_of idx ∈ queued s) \/
    (b_disk (vd s) !! c_buf c = Some 0 /\ info_status (vd s) !! head_of idx = Some 0);
  iv_status h : h ∈ reports s -> info_status (vd s) !! h = Some 0 \/ bad;
  iv_sleep t x : asleep (vd s) !! t = Some x ->
    match x with
    | CBuf b => exists c idx, calls s !! t = Some (Wait c idx) /\ c_buf c = b /\ b_disk (vd s) !! b = Some 1
    | CFree => (exists c, calls s !! t = Some (Want c)) /\ exists t' c' idx', issued (calls s) t' c' idx'
    end }.

Lemma head_in idx : head_of idx ∈ ids idx.
Proof. unfold ids, head_of. set_solver. Qed.

Lemma issued_call m t c idx : issued m t c idx -> exists p, m !! t = Some p /\ call_of p = c.
Proof. intros [H|H]; eauto. Qed.

Lemma issued_insert_want m t x t' c idx :
  (forall c' idx', ~ issued m t c' idx') -> issued (<[t := Want x]> m) t' c idx <-> issued m t' c idx.
Proof.
  intros H. unfold issued. destruct (decide (t = t')) as [<-|N].
  - rewrite lookup_insert_eq. split; [by intros [[=]|[=]]|]. intros G. by destruct (H c idx).
  - by rewrite lookup_insert_ne.
Qed.

Lemma issued_insert m t p x idx0 t' c idx :
  p = Ready x idx0 \/ p = Wait x idx0 ->
  issued (<[t := p]> m) t' c idx <-> (t' = t /\ c = x /\ idx = idx0) \/ (t' <> t /\ issued m t' c idx).
Proof.
  intros H. unfold issued. destruct (decide (t = t')) as [<-|N].
  - rewrite lookup_insert_eq. destruct H as [-> | ->]; naive_solver.
  - rewrite lookup_insert_ne by done. naive_solver.
Qed.

Lemma issued_delete m t t' c idx : issued (delete t m) t' c idx <-> t' <> t /\ issued m t' c idx.
Proof.
  unfold issued. destruct (decide (t = t')) as [<-|N].
  - rewrite lookup_delete_eq. naive_solver.
  - rewrite lookup_delete_ne by done. naive_solver.
Qed.

Lemma busy_false m b : busy m b = false -> forall t p, m !! t = Some p -> c_buf (call_of p) <> b.
Proof. unfold busy. intros H%bool_decide_eq_false t p Hp E. apply H. exists t, p. done. Qed.

Section inv_facts.
Context {bad : Prop} {s : sys} (I : inv bad s).

Lemma queued_lt : Forall (fun h => h < 8)%nat (queued s).
Proof.
  apply Forall_forall. intros h Hh. destruct (iv_queue _ _ I _ Hh) as (t & c & idx & E & -> & _).
  destruct (iv_chain _ _ I t c idx (or_intror E)) as [_ H _ _ _ _ _]. rewrite Forall_forall in H. apply H, head_in.
Qed.

(** While some head is not queued, there is room in both rings. *)
Lemma room h : (h < 8)%nat -> h ∉ queued s -> (length (unseen s) + length (taken s) + length (reports s) < 8)%nat.
Proof.
  intros Hl Hh. pose proof (heads_bound (h :: queued s)) as B. unfold queued in B at 3. cbn [length] in B.
  rewrite !length_app in B.
  assert (S (length (unseen s) + (length (taken s) + length (reports s))) <= 8)%nat; [|lia]. apply B.
  - constructor; [done|]. apply (iv_nodup _ _ I).
  - constructor; [done|apply queued_lt].
Qed.

Lemma queued_issued t c idx :
  issued (calls s) t c idx -> head_of idx ∈ queued s -> calls s !! t = Some (Wait c idx) /\ b_disk (vd s) !! c_buf c = Some 1.
Proof.
  intros Hi Hq. destruct (iv_queue _ _ I _ Hq) as (t' & c' & idx' & E & Eh & D).
  assert (t = t') as <-.
  { eapply (iv_disj _ _ I); [done|by right|apply head_in|]. rewrite Eh. apply head_in. }
  destruct Hi as [Hi|Hi]; [congruence|]. rewrite E in Hi. by simplify_eq.
Qed.

Lemma ready_unqueued t c idx : calls s !! t = Some (Ready c idx) -> head_of idx ∉ queued s.
Proof. intros E H. destruct (queued_issued t c idx) as [? _]; [by left|done|congruence]. Qed.

Lemma owned_lt t c idx i : issued (calls s) t c idx -> i ∈ ids idx -> (i < 8)%nat.
Proof. intros H Hi. destruct (iv_chain _ _ I _ _ _ H) as [_ F _ _ _ _ _]. rewrite Forall_forall in F. by apply F. Qed.
End inv_facts.

Lemma inv_start data d : (forall b x, data !! b = Some x -> length x = 1024%nat) -> inv False (boot data d).
Proof.
  intros Hd. assert (forall t c idx, ~ issued (∅ : gmap nat phase) t c idx) as N by (intros t c idx [[=]|[=]]).
  split; cbn.
  - by split; cbn; unfold idx16.
  - by unfold idx16.
  - intros b x H. by rewrite (Hd _ _ H).
  - done.
  - done.
  - intros t c idx H. by destruct (N t c idx).
  - intros t t' c c' idx idx' i H. by destruct (N t c idx).
  - intros i. split; [intros H; by do 8 (destruct i as [|i]; [done|])|]. intros (t & c & idx & H & _). by destruct (N t c idx).
  - intros t. split; [done|]. by intros (c & idx & H).
  - done.
  - constructor.
  - by intros h H%elem_of_nil.
  - done.
  - by intros h H%elem_of_nil.
  - done.
Qed.

Lemma inv_call bad s t c r :
  inv bad s -> vstep (ECall t c) s = Some r -> exists s', r = inr s' /\ inv bad s'.
Proof.
  intros I. cbn [vstep]. destruct (decide _) as [E|]; [|done]. destruct (busy _ _) eqn:B; [done|]. cbn [negb andb].
  destruct (Z.leb_spec 0 (c_block c)); [|done]. destruct (Z.ltb_spec (c_block c) (2 ^ 31)); [|done]. cbn [andb].
  intros [= <-]. eexists. split; [done|].
  pose proof (busy_false _ _ B) as Bf.
  assert (forall t' c' idx, issued (<[t := Want c]> (calls s)) t' c' idx <-> issued (calls s) t' c' idx) as Hi.
  { intros. apply issued_insert_want. intros c0 idx0 [X|X]; congruence. }
  assert (forall t' c' idx, <[t := Want c]> (calls s) !! t' = Some (Ready c' idx) <-> calls s !! t' = Some (Ready c' idx)) as Hr.
  { intros. rewrite lookup_insert_Some. naive_solver. }
  assert (forall t' c' idx, <[t := Want c]> (calls s) !! t' = Some (Wait c' idx) <-> calls s !! t' = Some (Wait c' idx)) as Hw.
  { intros. rewrite lookup_insert_Some. naive_solver. }
  destruct I as [I1 I2 I3 I4 I5 I6 I7 I8 I9 I10 I11 I12 I13 I14 I15]. split; unfold queued, unseen, reports; cbn [vd calls lock seen taken].
  - done.
  - done.
  - done.
  - intros t1 t2 p1 p2 [[<- <-]|[N1 H1]]%lookup_insert_Some [[<- <-]|[N2 H2]]%lookup_insert_Some E12; [done|..|by eapply I4].
    + by destruct (Bf _ _ H2).
    + by destruct (Bf _ _ H1).
  - intros t1 p [[<- <-]|[N1 H1]]%lookup_insert_Some; [done|by eapply I5].
  - intros t1 c1 idx. rewrite Hi. apply I6.
  - intros t1 t2 c1 c2 x1 x2 i. rewrite !Hi. apply I7.
  - intros i. rewrite I8. by setoid_rewrite Hi.
  - intros t1. rewrite I9. by setoid_rewrite Hr.
  - intros t1 c1 idx. rewrite Hr. apply I10.
  - done.
  - intros h Hh. setoid_rewrite Hw. by apply I12.
  - intros t1 c1 idx. rewrite Hw. apply I13.
  - done.
  - intros t1 [|b] Hx; specialize (I15 _ _ Hx); cbn in I15.
    + setoid_rewrite Hi. destruct I15 as [[c' Hc] G]. split; [|done]. exists c'. rewrite lookup_insert_ne; [done|congruence].
    + by setoid_rewrite Hw.
Qed.

Lemma rw_prepare_ok t b bn w v :
  length (free v) = 8%nat ->
  (exists i0 i1 i2, NoDup [i0; i1; i2] /\ Forall (fun i => free v !! i = Some true) [i0; i1; i2] /\
     rw_prepare t b bn w [] v = Ok (Some (i0, i1, i2)) [] (format b (u32 (bn * 2)) w i0 i1 i2 (took3 i0 i1 i2 v))) \/
  (exists v', tried v v' /\ rw_prepare t b bn w [] v = Ok None [] (set_asleep (<[t := CFree]> (asleep v')) v')).
Proof.
  intros L. unfold rw_prepare. destruct (alloc3_ok [] v L) as [(i0 & i1 & i2 & E & N & F)|(v' & E & T)].
  - left. exists i0, i1, i2. split; [done|]. split; [done|]. by rewrite (bind_ok _ _ _ _ _ _ _ E).
  - right. exists v'. split; [done|]. by rewrite (bind_ok _ _ _ _ _ _ _ E).
Qed.

(** A chain depends on its own descriptors only. *)
Lemma chain_ext v v' c idx :
  chain v c idx ->
  (forall i, i ∈ ids idx -> desc v' !! i = desc v !! i) ->
  (forall i, i ∈ ids idx -> ops v' !! i = ops v !! i) ->
  (forall i, i ∈ ids idx -> info_b v' !! i = info_b v !! i) -> chain v' c idx.
Proof.
  intros [N L D0 D1 D2 O B] Hd Ho Hb. unfold ids in *. split; unfold ids; [done|done|..].
  - rewrite Hd; [done|set_solver].
  - rewrite Hd; [done|set_solver].
  - rewrite Hd; [done|set_solver].
  - rewrite Ho; [done|set_solver].
  - rewrite Hb; [done|set_solver].
Qed.

Lemma inv_tried bad s t c v' :
  inv bad s -> calls s !! t = Some (Want c) -> tried (vd s) v' ->
  inv bad (Sys (set_asleep (<[t := CFree]> (asleep v')) v') (lock s) (calls s) (seen s) (taken s)).
Proof.
  intros I Ht [(A & D & ->) Td Tl Ta [i Ti]]. cbn in Td, Tl, Ta.
  assert (exists t' c' idx', issued (calls s) t' c' idx') as Hex.
  { apply (iv_free _ _ I) in Ti as (t' & c' & idx' & ? & _). eauto. }
  destruct I as [I1 I2 I3 I4 I5 I6 I7 I8 I9 I10 I11 I12 I13 I14 I15].
  split; unfold queued, unseen, reports; cbn; try assumption.
  - destruct I1. by split; cbn; rewrite ?Tl.
  - intros t1 c1 idx H1. apply (chain_ext (vd s)); [by eapply I6| |done|done].
    intros k Hk. cbn. apply Td. intros E. assert (free (vd s) !! k = Some false) by (apply I8; eauto). congruence.
  - intros t1 x [[<- <-]|[N1 H1]]%lookup_insert_Some; [eauto|]. by apply I15, Ta.
Qed.

(** A request that gets its descriptors. *)
Section prepare.
Context {bad : Prop} {s : sys} (I : inv bad s) {t : nat} {c : call} {i0 i1 i2 : nat}.
Context (Ht : calls s !! t = Some (Want c)) (Hl : lock s = Nobody) (Ha : asleep (vd s) !! t = None).
Context (N : NoDup [i0; i1; i2]) (F : Forall (fun i => free (vd s) !! i = Some true) [i0; i1; i2]).

Lemma others_own t' c' idx i : issued (calls s) t' c' idx -> i ∈ ids idx -> i <> i0 /\ i <> i1 /\ i <> i2.
Proof.
  intros H Hi. assert (free (vd s) !! i = Some false) as Ff by (apply (iv_free _ _ I); eauto).
  rewrite !Forall_cons in F. destruct F as (F0 & F1 & F2 & _). repeat split; intros ->; congruence.
Qed.

Lemma queued_other h : h ∈ queued s -> h <> i0.
Proof.
  intros Hh. destruct (iv_queue _ _ I _ Hh) as (t' & c' & idx & E & -> & _).
  by eapply others_own; [right|apply head_in].
Qed.

Lemma new_lt : (i0 < 8 /\ i1 < 8 /\ i2 < 8)%nat.
Proof.
  rewrite !Forall_cons in F. destruct F as (F0 & F1 & F2 & _). pose proof (ln_free _ (iv_lens _ _ I)) as Lf.
  apply lookup_lt_Some in F0, F1, F2. lia.
Qed.

Lemma unseen_room : (length (unseen s) < 8)%nat.
Proof.
  pose proof new_lt. enough (i0 ∉ queued s) as H0 by (pose proof (room I i0 ltac:(lia) H0); lia).
  intros Hq. by apply queued_other in Hq.
Qed.

Lemma none_ready t' c' idx : calls s !! t' <> Some (Ready c' idx).
Proof. intros E. assert (lock s = Proc t') by (apply (iv_lock _ _ I); eauto). congruence. Qed.

Lemma other_buf t' c' idx : calls s !! t' = Some (Wait c' idx) -> c_buf c <> c_buf c'.
Proof. intros E Eb. assert (t = t') as <- by (eapply (iv_buf _ _ I); [done..|]; done). congruence. Qed.

Definition prepared : sys :=
  Sys (format (c_buf c) (u32 (c_block c * 2)) (c_write c) i0 i1 i2 (took3 i0 i1 i2 (vd s)))
    (Proc t) (<[t := Ready c (i0, i1, i2)]> (calls s)) (seen s) (taken s).

Lemma prepared_unseen : unseen prepared = unseen s.
Proof. unfold unseen. cbn. apply seg_store, unseen_room. Qed.

Lemma prepared_queued : queued prepared = queued s.
Proof. unfold queued at 1. by rewrite prepared_unseen. Qed.

Lemma prepared_lens : lens (vd prepared).
Proof. destruct (iv_lens _ _ I). split; cbn; by rewrite ?length_insert. Qed.

Lemma prepared_issued t' c' idx :
  issued (calls prepared) t' c' idx <-> (t' = t /\ c' = c /\ idx = (i0, i1, i2)) \/ (t' <> t /\ issued (calls s) t' c' idx).
Proof. apply issued_insert. by left. Qed.

Lemma prepared_wait t' c' idx : calls prepared !! t' = Some (Wait c' idx) <-> calls s !! t' = Some (Wait c' idx).
Proof. cbn. rewrite lookup_insert_Some. naive_solver. Qed.

Lemma prepared_chain t' c' idx : issued (calls prepared) t' c' idx -> chain (vd prepared) c' idx.
Proof.
  pose proof new_lt as (L0 & L1 & L2). destruct (iv_lens _ _ I). pose proof N as N'.
  rewrite !NoDup_cons, !not_elem_of_cons in N.
  destruct N as ((N01 & N02 & _) & (N12 & _) & _).
  rewrite prepared_issued. intros [(-> & -> & ->)|[Nt H]].
  - pose proof (iv_block _ _ I _ _ Ht) as Hb. cbn in Hb. split; cbn.
    + exact N'.
    + by apply Forall_cons_2, Forall_cons_2, Forall_singleton.
    + rewrite !list_lookup_insert_ne by done. apply list_lookup_insert_eq. lia.
    + rewrite list_lookup_insert_ne by done. rewrite list_lookup_insert_eq by (rewrite ?length_insert; lia). by destruct (c_write c).
    + apply list_lookup_insert_eq. rewrite !length_insert. lia.
    + rewrite list_lookup_insert_eq by lia. rewrite u32_small by lia. by destruct (c_write c).
    + apply list_lookup_insert_eq. lia.
  - apply (chain_ext (vd s)); [by eapply (iv_chain _ _ I)|..]; intros i Hk; destruct (others_own _ _ _ _ H Hk) as (X0 & X1 & X2); cbn;
      by rewrite !list_lookup_insert_ne by done.
Qed.

Lemma prepared_free i :
  free (vd prepared) !! i = Some false <-> exists t' c' idx, issued (calls prepared) t' c' idx /\ i ∈ ids idx.
Proof.
  pose proof new_lt as (L0 & L1 & L2). pose proof (ln_free _ (iv_lens _ _ I)) as Lf.
  setoid_rewrite prepared_issued. cbn. split.
  - intros H. destruct (decide (i ∈ [i0; i1; i2])) as [Hi|Hi]; [exists t, c, (i0, i1, i2); naive_solver|].
    rewrite !list_lookup_insert_ne in H by set_solver. apply (iv_free _ _ I) in H as (t' & c' & idx & H & Hk).
    exists t', c', idx. split; [|done]. right. split; [|done]. intros ->. destruct H; congruence.
  - intros (t' & c' & idx & [(-> & -> & ->)|[Nt H]] & Hk).
    + destruct (decide (i = i2)) as [->|]; [apply list_lookup_insert_eq; rewrite !length_insert; lia|].
      rewrite list_lookup_insert_ne by done.
      destruct (decide (i = i1)) as [->|]; [apply list_lookup_insert_eq; rewrite !length_insert; lia|].
      rewrite list_lookup_insert_ne by done. unfold ids in Hk. cbn in Hk.
      replace i with i0 by set_solver. apply list_lookup_insert_eq. lia.
    + destruct (others_own _ _ _ _ H Hk) as (X0 & X1 & X2). rewrite !list_lookup_insert_ne by done. apply (iv_free _ _ I). eauto.
Qed.

Lemma inv_prepared : inv bad prepared.
Proof.
  pose proof new_lt as (L0 & L1 & L2). pose proof (iv_lens _ _ I) as Ln.
  assert (forall t' p, calls prepared !! t' = Some p -> exists p', calls s !! t' = Some p' /\ call_of p' = call_of p) as Hc.
  { intros t' p. cbn. intros [[<- <-]|[Nt H]]%lookup_insert_Some; eauto. }
  split; rewrite ?prepared_queued.
  - apply prepared_lens.
  - apply (iv_seen _ _ I).
  - apply (iv_data _ _ I).
  - intros t1 t2 p1 p2 (q1 & H1 & <-)%Hc (q2 & H2 & <-)%Hc. by eapply (iv_buf _ _ I).
  - intros t1 p1 (q1 & H1 & <-)%Hc. by eapply (iv_block _ _ I).
  - apply prepared_chain.
  - intros t1 t2 c1 c2 x1 x2 i. rewrite !prepared_issued. intros [(-> & -> & ->)|[N1 H1]] [(-> & -> & ->)|[N2 H2]] K1 K2; [done|..].
    + destruct (others_own _ _ _ _ H2 K2) as (X0 & X1 & X2). unfold ids in K1. cbn in K1. set_solver.
    + destruct (others_own _ _ _ _ H1 K1) as (X0 & X1 & X2). unfold ids in K2. cbn in K2. set_solver.
    + by eapply (iv_disj _ _ I).
  - apply prepared_free.
  - intros t1. cbn. split; [intros [= <-]; exists c, (i0, i1, i2); apply lookup_insert_eq|].
    intros (c1 & x1 & [[<- _]|[N1 H1]]%lookup_insert_Some); [done|]. by apply none_ready in H1.
  - intros t1 c1 x1. cbn. intros [[<- [= -> <-]]|[N1 H1]]%lookup_insert_Some; [|by apply none_ready in H1].
    rewrite lookup_insert_eq. split; [done|]. apply list_lookup_insert_eq. rewrite (ln_avail _ Ln). apply slot_lt.
  - apply (iv_nodup _ _ I).
  - intros h Hh. setoid_rewrite prepared_wait. destruct (iv_queue _ _ I _ Hh) as (t' & c' & x & E & -> & D).
    exists t', c', x. split_and!; [done|done|]. cbn. rewrite lookup_insert_ne; [done|by eapply other_buf].
  - intros t1 c1 x1 H1%prepared_wait. cbn. rewrite lookup_insert_ne by by eapply other_buf.
    rewrite list_lookup_insert_ne; [by apply (iv_wait _ _ I) in H1|].
    apply not_eq_sym. by eapply others_own; [right|apply head_in].
  - intros h Hh. cbn. rewrite list_lookup_insert_ne; [by apply (iv_status _ _ I)|]. apply not_eq_sym, queued_other.
    unfold queued. rewrite !elem_of_app. by do 2 right.
  - intros t1 x Hx. change (asleep (vd s) !! t1 = Some x) in Hx. pose proof (iv_sleep _ _ I _ _ Hx) as Hs. destruct x as [|b].
    + destruct Hs as [[c' Hc'] (t' & c'' & x & Hi)]. split; [exists c'; cbn; rewrite lookup_insert_ne; [done|congruence]|].
      exists t', c'', x. apply prepared_issued. right. split; [|done]. intros ->. destruct Hi; congruence.
    + destruct Hs as (c' & x & E & Eb & D). exists c', x. rewrite prepared_wait. split_and!; [done..|]. cbn.
      rewrite lookup_insert_ne; [done|]. rewrite <-Eb. by eapply other_buf.
Qed.
End prepare.

Lemma inv_try bad s t r :
  inv bad s -> vstep (ETry t) s = Some r -> exists s', r = inr s' /\ inv bad s'.
Proof.
  intros I. cbn [vstep]. destruct (calls s !! t) as [[c|c x|c x]|] eqn:E; [|done..].
  destruct (decide (lock s = Nobody)) as [L|]; [|done]. unfold awake. destruct (bool_decide _) eqn:A; [|done].
  apply bool_decide_eq_true in A.
  destruct (rw_prepare_ok t (c_buf c) (c_block c) (c_write c) (vd s) (ln_free _ (iv_lens _ _ I)))
    as [(i0 & i1 & i2 & N & F & ->)|(v' & T & ->)]; cbn; intros [= <-]; eexists; (split; [done|]).
  - by apply (inv_prepared I E).
  - rewrite <-L. by eapply inv_tried.
Qed.

Lemma rw_wait_busy t b h v : b_disk v !! b = Some 1 -> rw_wait t b h v = Ok false h (set_asleep (<[t := CBuf b]> (asleep v)) v).
Proof. intros E. unfold rw_wait. rewrite (bind_ok kget _ h v v h v) by done. by rewrite E. Qed.

Lemma rw_wait_done t b h v : b_disk v !! b = Some 0 -> rw_wait t b h v = Ok true h v.
Proof. intros E. unfold rw_wait. rewrite (bind_ok kget _ h v v h v) by done. by rewrite E. Qed.

(** Publishing a prepared request. *)
Section publish.
Context {bad : Prop} {s : sys} (I : inv bad s) {t : nat} {c : call} {idx : nat * nat * nat}.
Context (Ht : calls s !! t = Some (Ready c idx)).

Definition published : sys :=
  Sys (set_asleep (<[t := CBuf (c_buf c)]> (asleep (vd s))) (set_avail (avail_ring (vd s)) (u16 (avail_idx (vd s) + 1)) (vd s)))
    Nobody (<[t := Wait c idx]> (calls s)) (seen s) (taken s).

Lemma published_unseen : unseen published = unseen s ++ [head_of idx].
Proof.
  destruct (iv_lens _ _ I). unfold unseen. cbn. rewrite seg_push; [|done|apply (iv_seen _ _ I)|done|].
  - by rewrite (proj2 (iv_ready _ _ I _ _ _ Ht)).
  - assert (head_of idx < 8)%nat as Hh by (eapply (owned_lt I); [left; exact Ht|apply head_in]).
    pose proof (room I _ Hh (ready_unqueued I _ _ _ Ht)) as R. unfold unseen in R. lia.
Qed.

Lemma published_queued : queued published ≡ₚ head_of idx :: queued s.
Proof. unfold queued. rewrite published_unseen, <-app_assoc. symmetry. apply Permutation_middle. Qed.

Lemma published_issued t' c' idx' : issued (calls published) t' c' idx' <-> issued (calls s) t' c' idx'.
Proof.
  cbn. rewrite (issued_insert _ _ _ c idx) by by right. split.
  - intros [(-> & -> & ->)|[N H]]; [by left|done].
  - intros H. destruct (decide (t' = t)) as [->|]; [left|by right]. destruct H as [H|H]; rewrite Ht in H; by simplify_eq.
Qed.

Lemma published_ready t' c' idx' : calls published !! t' <> Some (Ready c' idx').
Proof.
  cbn. intros [[<- [=]]|[N H]]%lookup_insert_Some.
  assert (lock s = Proc t') by (apply (iv_lock _ _ I); eauto). assert (lock s = Proc t) by (apply (iv_lock _ _ I); eauto). congruence.
Qed.

Lemma inv_published : inv bad published.
Proof.
  assert (forall t' p, calls published !! t' = Some p -> exists p', calls s !! t' = Some p' /\ call_of p' = call_of p) as Hc.
  { intros t' p. cbn. intros [[<- <-]|[Nt H]]%lookup_insert_Some; eauto. }
  assert (forall t' c' x, calls s !! t' = Some (Wait c' x) -> calls published !! t' = Some (Wait c' x)) as Hw.
  { intros t' c' x H. cbn. rewrite lookup_insert_ne; [done|congruence]. }
  pose proof (iv_ready _ _ I _ _ _ Ht) as [Hd Hr].
  split; try setoid_rewrite published_issued; try setoid_rewrite published_queued.
  - destruct (iv_lens _ _ I). split; cbn; try done. apply idx16_u16.
  - apply (iv_seen _ _ I).
  - apply (iv_data _ _ I).
  - intros t1 t2 p1 p2 (q1 & H1 & <-)%Hc (q2 & H2 & <-)%Hc. by eapply (iv_buf _ _ I).
  - intros t1 p1 (q1 & H1 & <-)%Hc. by eapply (iv_block _ _ I).
  - intros t1 c1 x1 H1. by apply (chain_ext (vd s)); [apply (iv_chain _ _ I) in H1|..].
  - apply (iv_disj _ _ I).
  - apply (iv_free _ _ I).
  - intros t1. split; [done|]. intros (c1 & x1 & H1). by apply published_ready in H1.
  - intros t1 c1 x1 H1. by apply published_ready in H1.
  - constructor; [by eapply (ready_unqueued I)|apply (iv_nodup _ _ I)].
  - intros h [->|Hh]%elem_of_cons; [exists t, c, idx; split_and!; [apply lookup_insert_eq|done..]|].
    destruct (iv_queue _ _ I _ Hh) as (t' & c' & x & E & -> & D). exists t', c', x. auto.
  - intros t1 c1 x1. cbn. intros [[<- [= -> ->]]|[N1 H1]]%lookup_insert_Some; [left; split; [done|left]|].
    apply (iv_wait _ _ I) in H1 as [[D Q]|]; [left; split; [done|by right]|by right].
  - apply (iv_status _ _ I).
  - intros t1 x. cbn. intros [[<- <-]|[N1 Hx]]%lookup_insert_Some.
    + exists c, idx. rewrite lookup_insert_eq. by split_and!.
    + pose proof (iv_sleep _ _ I _ _ Hx) as Hs. destruct x as [|b].
      * destruct Hs as [[c' Hc'] (t' & c'' & x & Hi)]. split; [exists c'; rewrite lookup_insert_ne; [done|congruence]|].
        exists t', c'', x. by apply published_issued.
      * destruct Hs as (c' & x & E & Eb & D). exists c', x. split; [by apply Hw|done].
Qed.
End publish.

Lemma inv_publish bad s t r :
  inv bad s -> vstep (EPublish t) s = Some r -> exists s', r = inr s' /\ inv bad s'.
Proof.
  intros I. cbn [vstep]. destruct (calls s !! t) as [[c|c x|c x]|] eqn:E; [done| |done..].
  destruct (decide _); [|done]. rewrite (bind_ok rw_publish _ [] (vd s) tt [] (set_avail (avail_ring (vd s)) (u16 (avail_idx (vd s) + 1)) (vd s))) by done.
  rewrite rw_wait_busy by apply (iv_ready _ _ I _ _ _ E). cbn. intros [= <-]. eexists. split; [done|]. apply (inv_published I E).
Qed.

(** Clean-up after a transfer. *)
Section return_.
Context {bad : Prop} {s : sys} (I : inv bad s) {t : nat} {c : call} {idx : nat * nat * nat}.
Context (Ht : calls s !! t = Some (Wait c idx)) (Hd : b_disk (vd s) !! c_buf c = Some 0).

Definition returned : sys := Sys (finished idx (vd s)) (lock s) (delete t (calls s)) (seen s) (taken s).

Lemma done_unqueued : head_of idx ∉ queued s.
Proof. intros H. destruct (queued_issued I t c idx) as [_ D]; [by right|done|congruence]. Qed.

Lemma returned_issued t' c' x : issued (calls returned) t' c' x <-> t' <> t /\ issued (calls s) t' c' x.
Proof. apply issued_delete. Qed.

Lemma returned_wait t' c' x : calls s !! t' = Some (Wait c' x) -> t' <> t -> calls returned !! t' = Some (Wait c' x).
Proof. intros. cbn. by rewrite lookup_delete_ne. Qed.

Lemma returned_other t' c' x i : t' <> t -> issued (calls s) t' c' x -> i ∈ ids x -> i <> idx.1.1 /\ i <> idx.1.2 /\ i <> idx.2.
Proof.
  intros N H Hi. enough (i ∉ ids idx) as Hn by (unfold ids in Hn; set_solver).
  intros Hi'. apply N. by eapply (iv_disj _ _ I); [|right; exact Ht|..].
Qed.

Lemma returned_free i :
  free (vd returned) !! i = Some false <-> exists t' c' x, issued (calls returned) t' c' x /\ i ∈ ids x.
Proof.
  setoid_rewrite returned_issued. cbn. split.
  - intros H. assert (i ∉ ids idx) as Hi.
    { intros Hi. unfold ids in Hi.
      assert (i < 8)%nat as Hl by (by eapply (owned_lt I); [right|]). pose proof (ln_free _ (iv_lens _ _ I)) as Lf.
      destruct (decide (i = idx.2)) as [->|]; [rewrite list_lookup_insert_eq in H by (rewrite !length_insert; lia); done|].
      rewrite list_lookup_insert_ne in H by done.
      destruct (decide (i = idx.1.2)) as [->|]; [rewrite list_lookup_insert_eq in H by (rewrite !length_insert; lia); done|].
      rewrite list_lookup_insert_ne in H by done. replace i with idx.1.1 in H by set_solver.
      rewrite list_lookup_insert_eq in H; [done|]. replace idx.1.1 with i by set_solver. lia. }
    rewrite !list_lookup_insert_ne in H by (unfold ids in Hi; set_solver).
    apply (iv_free _ _ I) in H as (t' & c' & x & H & Hx). exists t', c', x. split; [|done]. split; [|done].
    intros ->. destruct H; simplify_eq. by apply Hi.
  - intros (t' & c' & x & [N H] & Hi). destruct (returned_other _ _ _ _ N H Hi) as (X0 & X1 & X2).
    rewrite !list_lookup_insert_ne by done. apply (iv_free _ _ I). eauto.
Qed.

Lemma inv_returned : inv bad returned.
Proof.
  assert (forall t' p, calls returned !! t' = Some p -> t' <> t /\ calls s !! t' = Some p) as Hc.
  { intros t' p. cbn. intros [? ?]%lookup_delete_Some. done. }
  split.
  - destruct (iv_lens _ _ I). split; cbn; by rewrite ?length_insert.
  - apply (iv_seen _ _ I).
  - apply (iv_data _ _ I).
  - intros t1 t2 p1 p2 [_ H1]%Hc [_ H2]%Hc. by eapply (iv_buf _ _ I).
  - intros t1 p1 [_ H1]%Hc. by eapply (iv_block _ _ I).
  - intros t1 c1 x1 [N1 H1]%returned_issued. apply (chain_ext (vd s)); [by eapply (iv_chain _ _ I)|..]; intros i Hk;
      destruct (returned_other _ _ _ _ N1 H1 Hk) as (X0 & X1 & X2); cbn; by rewrite ?list_lookup_insert_ne by done.
  - intros t1 t2 c1 c2 x1 x2 i [_ H1]%returned_issued [_ H2]%returned_issued. by eapply (iv_disj _ _ I).
  - apply returned_free.
  - intros t1. cbn. rewrite (iv_lock _ _ I). split; intros (c1 & x1 & H1); exists c1, x1.
    + rewrite lookup_delete_ne; [done|congruence].
    + by apply lookup_delete_Some in H1 as [_ ?].
  - intros t1 c1 x1 [_ H1]%Hc. by apply (iv_ready _ _ I) in H1.
  - apply (iv_nodup _ _ I).
  - intros h Hh. destruct (iv_queue _ _ I _ Hh) as (t' & c' & x & E & -> & D). exists t', c', x. split; [|done].
    apply returned_wait; [done|]. intros ->. rewrite Ht in E. simplify_eq.
  - intros t1 c1 x1 [N1 H1]%Hc. by apply (iv_wait _ _ I) in H1.
  - apply (iv_status _ _ I).
  - intros t1 x. cbn. intros [[[Hx _]%lookup_woken _]%lookup_woken Nx]%lookup_woken.
    pose proof (iv_sleep _ _ I _ _ Hx) as Hs. destruct x as [|b]; [done|].
    destruct Hs as (c' & x & E & Eb & D). exists c', x. split; [|done]. rewrite lookup_delete_ne; [done|].
    intros ->. rewrite Ht in E. simplify_eq.
Qed.
End return_.

Lemma inv_resleep bad s t c idx :
  inv bad s -> calls s !! t = Some (Wait c idx) -> b_disk (vd s) !! c_buf c = Some 1 ->
  inv bad (Sys (set_asleep (<[t := CBuf (c_buf c)]> (asleep (vd s))) (vd s)) (lock s) (calls s) (seen s) (taken s)).
Proof.
  intros [I1 I2 I3 I4 I5 I6 I7 I8 I9 I10 I11 I12 I13 I14 I15] Ht Hd. split; try assumption.
  - by destruct I1.
  - intros t1 c1 x1 H1. by apply (chain_ext (vd s)); [apply I6 in H1|..].
  - intros t1 x. cbn. intros [[<- <-]|[N1 Hx]]%lookup_insert_Some; [eauto|by apply I15].
Qed.

Lemma inv_return bad s t r :
  inv bad s -> vstep (EReturn t) s = Some r -> exists s', r = inr s' /\ inv bad s'.
Proof.
  intros I. cbn [vstep]. destruct (calls s !! t) as [[c|c x|c x]|] eqn:E; [done|done| |done].
  destruct (decide (lock s = Nobody)) as [L|]; [|done]. destruct (awake s t); [|done].
  destruct (iv_wait _ _ I _ _ _ E) as [[D _]|[D _]].
  - rewrite (bind_ok _ _ _ _ _ _ _ (rw_wait_busy t _ [] _ D)). cbn. intros [= <-]. eexists. split; [done|].
    rewrite <-L. by eapply inv_resleep.
  - rewrite (bind_ok _ _ _ _ _ _ _ (rw_wait_done t _ [] _ D)). cbv iota.
    assert (chain (vd s) c x) as Hc by (eapply (iv_chain _ _ I); by right).
    rewrite (bind_ok _ _ _ _ _ _ _ (rw_finish_ok _ _ _ [] Hc (ln_free _ (iv_lens _ _ I))
      ltac:(apply Forall_forall; intros i Hi; apply (iv_free _ _ I); exists t, c, x; split; [by right|done]))).
    cbn. intros [= <-]. eexists. split; [done|]. rewrite <-L. by apply (inv_returned I E).
Qed.

Lemma inv_lock_swap bad s o :
  inv bad s -> (forall t, lock s <> Proc t) -> (forall t, o <> Proc t) ->
  inv bad (Sys (vd s) o (calls s) (seen s) (taken s)).
Proof.
  intros [I1 I2 I3 I4 I5 I6 I7 I8 I9 I10 I11 I12 I13 I14 I15] L O. split; try assumption.
  intros t. cbn. split; [intros H; by destruct (O t)|]. intros H%I9. by destruct (L t).
Qed.

Lemma inv_intr bad s r : inv bad s -> vstep EIntr s = Some r -> exists s', r = inr s' /\ inv bad s'.
Proof.
  intros I. cbn [vstep]. destruct (decide _) as [L|]; [|done]. intros [= <-]. eexists. split; [done|].
  apply inv_lock_swap; [done|congruence|done].
Qed.

(** A report taken from the used ring. *)
Section turn.
Context {bad : Prop} {s : sys} (I : inv bad s) {t : nat} {c : call} {idx : nat * nat * nat}.
Context (Ht : calls s !! t = Some (Wait c idx)) (Hne : used_idx (vd s) <> used_end (vd s)).
Context (Hr : used_ring (vd s) !! slot (used_idx (vd s)) = Some (head_of idx)).
Context (Hs : info_status (vd s) !! head_of idx = Some 0).

Definition turned : sys :=
  Sys (set_used_idx (u16 (used_idx (vd s) + 1))
         (set_asleep (woken (CBuf (c_buf c)) (asleep (vd s))) (set_disk (<[c_buf c := 0]> (b_disk (vd s))) (vd s))))
    (lock s) (calls s) (seen s) (taken s).

Lemma turned_reports : reports s = head_of idx :: reports turned.
Proof. destruct (iv_lens _ _ I). unfold reports at 1. rewrite seg_pop by done. by rewrite Hr. Qed.

Lemma turned_queued : queued s ≡ₚ head_of idx :: queued turned.
Proof.
  unfold queued at 1. rewrite turned_reports, !app_assoc. rewrite <-Permutation_middle. by rewrite <-app_assoc.
Qed.

Lemma turned_unqueued : head_of idx ∉ queued turned.
Proof. pose proof (iv_nodup _ _ I) as N. rewrite turned_queued in N. by apply NoDup_cons in N as [? _]. Qed.

Lemma turned_buf t' p : calls s !! t' = Some p -> t' <> t -> c_buf c <> c_buf (call_of p).
Proof. intros H N E. apply N. by apply (iv_buf _ _ I _ _ _ _ H Ht). Qed.

Lemma inv_turned : inv bad turned.
Proof.
  split.
  - destruct (iv_lens _ _ I). split; cbn; try done. apply idx16_u16.
  - apply (iv_seen _ _ I).
  - apply (iv_data _ _ I).
  - apply (iv_buf _ _ I).
  - apply (iv_block _ _ I).
  - intros t1 c1 x1 H1. by apply (chain_ext (vd s)); [apply (iv_chain _ _ I) in H1|..].
  - apply (iv_disj _ _ I).
  - apply (iv_free _ _ I).
  - apply (iv_lock _ _ I).
  - intros t1 c1 x1 H1. cbn. rewrite lookup_insert_ne; [by apply (iv_ready _ _ I) in H1|].
    apply (turned_buf _ _ H1). intros ->. cbn in H1. congruence.
  - pose proof (iv_nodup _ _ I) as N. rewrite turned_queued in N. by apply NoDup_cons in N as [_ ?].
  - intros h Hh. destruct (iv_queue _ _ I h) as (t' & c' & x & E & -> & D); [rewrite turned_queued; by right|].
    exists t', c', x. split_and!; [done..|]. cbn. rewrite lookup_insert_ne; [done|]. apply (turned_buf _ _ E).
    intros ->. rewrite Ht in E. injection E as <- <-. by apply turned_unqueued.
  - intros t1 c1 x1 H1. cbn. destruct (decide (t1 = t)) as [->|N1].
    + right. cbn in H1. rewrite Ht in H1. injection H1 as <- <-. by rewrite lookup_insert_eq.
    + rewrite lookup_insert_ne by by apply (turned_buf _ _ H1). apply (iv_wait _ _ I) in H1 as Hw. destruct Hw as [[D Q]|]; [|by right].
      left. split; [done|]. rewrite turned_queued in Q. apply elem_of_cons in Q as [E|]; [|done].
      destruct N1. eapply (iv_disj _ _ I); [right; exact H1|right; exact Ht|apply head_in|]. rewrite E. apply head_in.
  - intros h Hh. apply (iv_status _ _ I). rewrite turned_reports. by right.
  - intros t1 x. cbn. intros [Hx Nx]%lookup_woken. pose proof (iv_sleep _ _ I _ _ Hx) as G. destruct x as [|b]; [done|].
    destruct G as (c' & x & E & Eb & D). exists c', x. split_and!; [done..|]. rewrite lookup_insert_ne; [done|congruence].
Qed.
End turn.

Lemma reports_head bad s :
  inv bad s -> used_idx (vd s) <> used_end (vd s) ->
  exists t c idx, calls s !! t = Some (Wait c idx) /\ b_disk (vd s) !! c_buf c = Some 1 /\
    used_ring (vd s) !! slot (used_idx (vd s)) = Some (head_of idx) /\ head_of idx ∈ reports s.
Proof.
  intros I Hne. pose proof (iv_lens _ _ I) as Ln.
  pose proof (seg_pop (used_ring (vd s)) _ _ (ln_ui _ Ln) (ln_ue _ Ln) Hne) as P.
  destruct (lookup_lt_is_Some_2 (used_ring (vd s)) (slot (used_idx (vd s)))) as [h Eh].
  { rewrite (ln_used _ Ln). apply slot_lt. }
  rewrite Eh in P. cbn in P. assert (h ∈ reports s) as Hr by (unfold reports; rewrite P; left).
  destruct (iv_queue _ _ I h) as (t & c & idx & E & -> & D); [unfold queued; rewrite !elem_of_app; by do 2 right|].
  by exists t, c, idx.
Qed.

Lemma intr_turn_ok bad s :
  inv bad s -> used_idx (vd s) <> used_end (vd s) ->
  (exists t c idx, calls s !! t = Some (Wait c idx) /\ used_ring (vd s) !! slot (used_idx (vd s)) = Some (head_of idx) /\
     info_status (vd s) !! head_of idx = Some 0 /\ intr_turn [] (vd s) = Ok true [] (vd (turned (s := s) (c := c)))) \/
  (intr_turn [] (vd s) = Panic "virtio_disk_intr status" /\ bad).
Proof.
  intros I Hne. destruct (reports_head _ _ I Hne) as (t & c & idx & E & D & R & Hr).
  pose proof (iv_chain _ _ I t c idx (or_intror E)) as Hc. unfold intr_turn.
  rewrite (bind_ok kget _ [] (vd s) (vd s) [] (vd s)) by done. apply Z.eqb_neq in Hne. rewrite Hne, R.
  destruct (decide (info_status (vd s) !! head_of idx = Some 0)) as [S0|S0].
  - left. exists t, c, idx. split_and!; [done..|]. unfold head_of in *. rewrite S0. cbn. by rewrite (ch_info _ _ _ Hc).
  - right. destruct (iv_status _ _ I _ Hr) as [?|B]; [done|]. split; [|done].
    destruct (lookup_lt_is_Some_2 (info_status (vd s)) (head_of idx)) as [st Est].
    { rewrite (ln_status _ (iv_lens _ _ I)). eapply (owned_lt I); [right; exact E|apply head_in]. }
    rewrite Est. cbn. destruct (Z.eqb_spec st 0); [congruence|done].
Qed.

Lemma inv_turn bad s r :
  inv bad s -> vstep ETurn s = Some r ->
  (exists s', r = inr s' /\ inv bad s') \/ (r = inl "virtio_disk_intr status"%string /\ bad).
Proof.
  intros I. cbn [vstep]. destruct (decide _) as [L|]; [|done].
  destruct (decide (used_idx (vd s) = used_end (vd s))) as [E|N].
  - unfold intr_turn. rewrite (bind_ok kget _ [] (vd s) (vd s) [] (vd s)) by done. rewrite E, Z.eqb_refl. cbn.
    intros [= <-]. left. eexists. split; [done|]. apply inv_lock_swap; [done|congruence|done].
  - destruct (intr_turn_ok _ _ I N) as [(t & c & idx & Ht & R & S0 & ->)|[-> B]]; cbn; intros [= <-]; [left|by right].
    eexists. split; [done|]. rewrite <-L. by apply (inv_turned I Ht).
Qed.

(** The order of the heads under way does not matter. *)
Lemma inv_requeue bad s sn tk :
  inv bad s -> idx16 sn ->
  (let s' := Sys (vd s) (lock s) (calls s) sn tk in queued s' ≡ₚ queued s -> inv bad s').
Proof.
  intros [I1 I2 I3 I4 I5 I6 I7 I8 I9 I10 I11 I12 I13 I14 I15] Hs s' P.
  split; try setoid_rewrite P; done.
Qed.

Lemma take_unseen bad s :
  inv bad s -> seen s <> avail_idx (vd s) ->
  unseen s = default 0%nat (avail_ring (vd s) !! slot (seen s)) :: seg (avail_ring (vd s)) (u16 (seen s + 1)) (avail_idx (vd s)).
Proof. intros I N. apply seg_pop; [apply (iv_seen _ _ I)|apply (iv_lens _ _ I)|done]. Qed.

Lemma inv_take bad s r : inv bad s -> vstep ETake s = Some r -> exists s', r = inr s' /\ inv bad s'.
Proof.
  intros I. cbn [vstep]. destruct (Z.eqb_spec (seen s) (avail_idx (vd s))) as [|N]; [done|].
  intros [= <-]. eexists. split; [done|]. apply inv_requeue; [done|apply idx16_u16|].
  unfold queued at 2. rewrite (take_unseen _ _ I N). unfold queued, unseen, reports. cbn [vd seen taken].
  rewrite <-!app_assoc. cbn [app]. rewrite !app_assoc. symmetry. apply Permutation_middle.
Qed.

Lemma filter_ne_perm (h : nat) l : NoDup l -> h ∈ l -> l ≡ₚ h :: filter (.≠ h) l.
Proof.
  induction l as [|x l IH]; [by intros _ ?%elem_of_nil|]. intros [Hx N]%NoDup_cons Hh.
  destruct (decide (x = h)) as [->|Nx].
  - rewrite filter_cons_False by (intros X; done). by rewrite filter_ne_notin.
  - rewrite filter_cons_True by done. rewrite Permutation_swap. f_equiv. apply IH; [done|]. set_solver.
Qed.

Lemma inv_weaken (bad bad' : Prop) s : inv bad s -> (bad -> bad') -> inv bad' s.
Proof.
  intros [I1 I2 I3 I4 I5 I6 I7 I8 I9 I10 I11 I12 I13 I14 I15] H. split; try assumption.
  intros h Hh. destruct (I14 _ Hh); auto.
Qed.

(** A request the device finishes. *)
Section finish.
Context {bad : Prop} {s : sys} (I : inv bad s) {t : nat} {c : call} {idx : nat * nat * nat} {status : Z}.
Context (Ht : calls s !! t = Some (Wait c idx)) (Hd : b_disk (vd s) !! c_buf c = Some 1) (Hk : head_of idx ∈ taken s).

Definition completed : sys :=
  Sys (reported (head_of idx) status c (vd s)) (lock s) (calls s) (seen s) (filter (.≠ head_of idx) (taken s)).

Lemma completed_same :
  desc (vd completed) = desc (vd s) /\ avail_ring (vd completed) = avail_ring (vd s) /\ avail_idx (vd completed) = avail_idx (vd s) /\
  free (vd completed) = free (vd s) /\ used_idx (vd completed) = used_idx (vd s) /\ info_b (vd completed) = info_b (vd s) /\
  ops (vd completed) = ops (vd s) /\ b_disk (vd completed) = b_disk (vd s) /\ asleep (vd completed) = asleep (vd s).
Proof. unfold completed, reported, moved. by destruct (status =? 0), (c_write c). Qed.

Lemma taken_perm : taken s ≡ₚ head_of idx :: taken completed.
Proof.
  apply filter_ne_perm; [|done]. pose proof (iv_nodup _ _ I) as N. unfold queued in N.
  apply NoDup_app in N as (_ & _ & N). by apply NoDup_app in N as (N & _ & _).
Qed.

Lemma reports_room : (length (reports s) < 8)%nat.
Proof.
  pose proof (heads_bound (queued s) (iv_nodup _ _ I) (queued_lt I)) as B. unfold queued in B.
  rewrite !length_app, taken_perm in B. cbn in B. lia.
Qed.

Lemma completed_reports : reports completed = reports s ++ [head_of idx].
Proof.
  destruct (iv_lens _ _ I) as [? ? Lu ? ? ? ? ? ? ?]. destruct completed_same as (_ & _ & _ & _ & Eu & _).
  unfold reports at 1. rewrite Eu. cbn. rewrite seg_push; [|by rewrite length_insert|done|done|].
  - rewrite seg_store by apply reports_room. rewrite list_lookup_insert_eq; [done|]. rewrite Lu. apply slot_lt.
  - rewrite seg_store by apply reports_room. apply reports_room.
Qed.

Lemma completed_queued : queued completed ≡ₚ queued s.
Proof.
  destruct completed_same as (_ & E1 & E2 & _). unfold queued. rewrite completed_reports, taken_perm.
  unfold unseen. rewrite E1, E2. cbn [seen completed taken]. f_equiv. cbn [app]. rewrite app_assoc. by rewrite Permutation_app_comm.
Qed.

Lemma completed_status h : h <> head_of idx -> info_status (vd completed) !! h = info_status (vd s) !! h.
Proof.
  intros N. unfold completed, reported, moved. destruct (status =? 0), (c_write c); cbn; by apply list_lookup_insert_ne.
Qed.

Lemma completed_data b d : b_data (vd completed) !! b = Some d -> (length d <= 1024)%nat.
Proof.
  pose proof (iv_data _ _ I b d) as H. unfold completed, reported, moved. destruct (status =? 0), (c_write c); cbn -[ldbytes]; [done| |done..].
  intros [[<- <-]|[_ ?]]%lookup_insert_Some; [by rewrite length_ldbytes|auto].
Qed.

Lemma completed_lens : lens (vd completed).
Proof.
  destruct completed_same as (E1 & E2 & E3 & E4 & E5 & E6 & E7 & E8 & E9). destruct (iv_lens _ _ I).
  split; rewrite ?E1, ?E2, ?E3, ?E4, ?E5, ?E6, ?E7; try done.
  - cbn. by rewrite length_insert.
  - unfold completed, reported, moved. destruct (status =? 0), (c_write c); cbn; by rewrite length_insert.
  - apply idx16_u16.
Qed.

Lemma completed_own : info_status (vd completed) !! head_of idx = Some status.
Proof.
  assert (head_of idx < length (info_status (vd s)))%nat as Hl.
  { rewrite (ln_status _ (iv_lens _ _ I)). eapply (owned_lt I); [right; exact Ht|apply head_in]. }
  unfold completed, reported, moved. destruct (status =? 0), (c_write c); cbn; by apply list_lookup_insert_eq.
Qed.

Lemma inv_completed : inv (bad \/ status <> 0) completed.
Proof.
  destruct completed_same as (E1 & E2 & E3 & E4 & E5 & E6 & E7 & E8 & E9).
  split; try setoid_rewrite completed_queued; rewrite ?E4, ?E8, ?E9.
  - apply completed_lens.
  - apply (iv_seen _ _ I).
  - apply completed_data.
  - apply (iv_buf _ _ I).
  - apply (iv_block _ _ I).
  - intros t1 c1 x1 H1. apply (chain_ext (vd s)); [by apply (iv_chain _ _ I) in H1|..]; intros i _; by rewrite ?E1, ?E6, ?E7.
  - apply (iv_disj _ _ I).
  - apply (iv_free _ _ I).
  - apply (iv_lock _ _ I).
  - rewrite E2, E3. apply (iv_ready _ _ I).
  - apply (iv_nodup _ _ I).
  - apply (iv_queue _ _ I).
  - intros t1 c1 x1 H1. destruct (iv_wait _ _ I _ _ _ H1) as [G|[D S0]]; [by left|right]. split; [done|].
    rewrite completed_status; [done|]. intros Eh. assert (t1 = t) as ->.
    { eapply (iv_disj _ _ I); [right; exact H1|right; exact Ht|apply head_in|]. rewrite Eh. apply head_in. }
    cbn in H1. rewrite Ht in H1. injection H1 as <- <-. congruence.
  - intros h. rewrite completed_reports, elem_of_app, list_elem_of_singleton.
    destruct (decide (h = head_of idx)) as [->|N].
    + intros _. rewrite completed_own. destruct (decide (status = 0)) as [->|]; auto.
    + intros [Hh|]; [|done]. rewrite completed_status by done. destruct (iv_status _ _ I _ Hh); auto.
  - apply (iv_sleep _ _ I).
Qed.
End finish.

Lemma inv_finish bad s h status r :
  inv bad s -> vstep (EFinish h status) s = Some r -> exists s', r = inr s' /\ inv (bad \/ status <> 0) s'.
Proof.
  intros I. cbn [vstep]. destruct (decide _) as [Hk|]; [|done].
  destruct (iv_queue _ _ I h) as (t & c & idx & Ht & -> & D); [unfold queued; rewrite !elem_of_app; by right; left|].
  pose proof (iv_chain _ _ I t c idx (or_intror Ht)) as Hc. unfold head_of. rewrite (dev_finish_ok _ _ _ _ _ Hc). cbn.
  intros [= <-]. eexists. split; [done|]. by apply (inv_completed I Ht D).
Qed.

Lemma inv_edit bad s b d r : inv bad s -> vstep (EEdit b d) s = Some r -> exists s', r = inr s' /\ inv bad s'.
Proof.
  intros [I1 I2 I3 I4 I5 I6 I7 I8 I9 I10 I11 I12 I13 I14 I15]. cbn [vstep]. destruct (busy _ _); [done|]. cbn [negb andb].
  destruct (bool_decide _) eqn:L; [|done]. apply bool_decide_eq_true in L. intros [= <-]. eexists. split; [done|].
  split; try assumption.
  - by destruct I1.
  - intros b' d'. cbn. intros [[<- <-]|[_ H]]%lookup_insert_Some; [lia|by eapply I3].
  - intros t1 c1 x1 H1. by apply (chain_ext (vd s)); [apply I6 in H1|..].
Qed.

(** A reported failure is the only way to stop. *)
Definition fails (e : event) : Prop := match e with EFinish _ status => status <> 0 | _ => False end.

Lemma inv_event bad e s r :
  inv bad s -> vstep e s = Some r ->
  (exists s', r = inr s' /\ inv (bad \/ fails e) s') \/ (r = inl "virtio_disk_intr status"%string /\ bad).
Proof.
  intros I H.
  assert (forall bad', (bad -> bad') -> (exists s', r = inr s' /\ inv bad s') -> exists s', r = inr s' /\ inv bad' s') as W.
  { intros bad' Hb (s' & -> & I'). exists s'. split; [done|]. by eapply inv_weaken. }
  destruct e as [t c|t|t|t| | | |h st|b d]; cbn [fails].
  - left. apply W; [by left|]. by eapply inv_call.
  - left. apply W; [by left|]. by eapply inv_try.
  - left. apply W; [by left|]. by eapply inv_publish.
  - left. apply W; [by left|]. by eapply inv_return.
  - left. apply W; [by left|]. by eapply inv_intr.
  - destruct (inv_turn _ _ _ I H) as [G|G]; [left; apply W; [by left|done]|by right].
  - left. apply W; [by left|]. by eapply inv_take.
  - left. by eapply inv_finish.
  - left. apply W; [by left|]. by eapply inv_edit.
Qed.
