(* ===== verification/VirtioSpec.v ===== *)
(** What callers of the disk driver can rely on: every call is one transfer of
    one block, made at one moment between call and return, and every call can
    return. *)

From S2P Require Import Prelude Mem Kern Virtio VirtioInv.

(** * Refinement *)

(** The transfer of a call has been made: its head has left the device, with
    success. *)
Definition transferred (s : sys) (p : phase) : bool :=
  match p with
  | Wait _ idx => bool_decide ((head_of idx ∉ unseen s ++ taken s) /\ info_status (vd s) !! head_of idx = Some 0)
  | _ => false
  end.

Definition abstracted (s : sys) (p : phase) : call * bool := (call_of p, transferred s p).

Record sim (s : sys) (a : Atomic.ast) : Prop := {
  sm_data : Atomic.data a = b_data (vd s);
  sm_disk : Atomic.disk a = store (vd s);
  sm_pending : forall t, Atomic.pending a !! t = abstracted s <$> calls s !! t }.

(** The calls, returns and changes of buffers in a run. *)
Definition shown (e : event) (s' : sys) : list Atomic.aevent :=
  match e with
  | ECall t c => [Atomic.ACall t c]
  | EReturn t => if decide (calls s' !! t = None) then [Atomic.AReturn t] else []
  | EEdit b d => [Atomic.AEdit b d]
  | _ => []
  end.

Fixpoint vtrace (evs : list event) (s : sys) : list Atomic.aevent :=
  match evs with
  | [] => []
  | e :: evs => match vstep e s with Some (inr s') => shown e s' ++ vtrace evs s' | _ => [] end
  end.

Definition matches (e : event) (s' : sys) (a : Atomic.ast) : Prop :=
  exists aevs a', filter Atomic.visible aevs = shown e s' /\ Atomic.run aevs a = Some a' /\ sim s' a'.

(** A step that nobody outside sees. *)
Lemma silent s s' a :
  sim s a -> b_data (vd s') = b_data (vd s) -> store (vd s') = store (vd s) ->
  (forall t, abstracted s' <$> calls s' !! t = abstracted s <$> calls s !! t) -> sim s' a.
Proof. intros [S1 S2 S3] E1 E2 E3. split; [congruence..|]. intros t. by rewrite E3. Qed.

Lemma matches_silent e s' a : shown e s' = [] -> sim s' a -> matches e s' a.
Proof. intros E S. exists [], a. by rewrite E. Qed.

Lemma transferred_ext s s' p :
  (forall c idx, p = Wait c idx -> (head_of idx ∈ unseen s' ++ taken s' <-> head_of idx ∈ unseen s ++ taken s) /\
     info_status (vd s') !! head_of idx = info_status (vd s) !! head_of idx) ->
  abstracted s' p = abstracted s p.
Proof.
  intros H. unfold abstracted. f_equal. destruct p as [c|c x|c x]; [done..|]. cbn. destruct (H c x eq_refl) as [H1 ->].
  apply bool_decide_ext. by rewrite H1.
Qed.

Lemma heads_differ bad s t t' c c' x x' :
  inv bad s -> issued (calls s) t c x -> issued (calls s) t' c' x' -> t' <> t -> head_of x' <> head_of x.
Proof.
  intros I H H' N E. apply N. eapply (iv_disj _ _ I); [exact H'|exact H|apply head_in|]. rewrite E. apply head_in.
Qed.

Lemma sim_call s a t c r : sim s a -> vstep (ECall t c) s = Some (inr r) -> matches (ECall t c) r a.
Proof.
  intros [S1 S2 S3]. cbn [vstep]. destruct (decide _) as [E|]; [|done]. case_match; [|done]. intros [= <-].
  eexists [Atomic.ACall t c], _. split; [done|]. cbn. rewrite decide_True by (by rewrite S3, E). split; [done|].
  split; cbn; [done..|]. intros t'. destruct (decide (t' = t)) as [->|N]; [by rewrite !lookup_insert_eq|].
  rewrite !lookup_insert_ne by done. by rewrite S3.
Qed.

Lemma sim_try bad s a t r : inv bad s -> sim s a -> vstep (ETry t) s = Some (inr r) -> matches (ETry t) r a.
Proof.
  intros I S. cbn [vstep]. destruct (calls s !! t) as [[c|c x|c x]|] eqn:E; [|done..].
  destruct (decide _); [|done]. destruct (awake s t); [|done].
  destruct (rw_prepare_ok t (c_buf c) (c_block c) (c_write c) (vd s) (ln_free _ (iv_lens _ _ I)))
    as [(i0 & i1 & i2 & N & F & ->)|(v' & [(A & D & ->) _ _ _ _] & ->)]; cbn; intros [= <-]; (apply matches_silent; [done|]).
  - apply (silent s); [done..|]. intros t'. cbn. destruct (decide (t' = t)) as [->|Nt].
    { by rewrite lookup_insert_eq, E. }
    rewrite lookup_insert_ne by done. destruct (calls s !! t') as [p|] eqn:Ep; [|done]. cbn. f_equal.
    apply transferred_ext. intros c' x' ->. cbn [vd]. unfold unseen. cbn [vd seen]. cbn.
    rewrite seg_store by apply (unseen_room I F). split; [done|]. apply list_lookup_insert_ne, not_eq_sym.
    by eapply (others_own I F); [right|apply head_in].
  - by apply (silent s).
Qed.

Lemma sim_publish bad s a t r : inv bad s -> sim s a -> vstep (EPublish t) s = Some (inr r) -> matches (EPublish t) r a.
Proof.
  intros I S. cbn [vstep]. destruct (calls s !! t) as [[c|c x|c x]|] eqn:E; [done| |done..].
  destruct (decide _); [|done]. rewrite (bind_ok rw_publish _ [] (vd s) tt [] (set_avail (avail_ring (vd s)) (u16 (avail_idx (vd s) + 1)) (vd s))) by done.
  rewrite rw_wait_busy by apply (iv_ready _ _ I _ _ _ E). cbn. intros [= <-]. apply matches_silent; [done|].
  fold (published (s := s) (t := t) (c := c) (idx := x)). apply (silent s); [done..|]. intros t'. cbn [calls published].
  destruct (decide (t' = t)) as [->|Nt].
  - rewrite lookup_insert_eq, E. cbn. unfold abstracted. cbn. do 2 f_equal. apply bool_decide_eq_false. intros [H _]. apply H.
    rewrite (published_unseen I E). set_solver.
  - rewrite lookup_insert_ne by done. destruct (calls s !! t') as [p|] eqn:Ep; [|done]. cbn. f_equal. apply transferred_ext.
    intros c' x' ->. split; [|done]. rewrite (published_unseen I E).
    assert (head_of x' <> head_of x) by (eapply heads_differ; [done|by left|by right|done]). set_solver.
Qed.

Lemma sim_return bad s a t r : inv bad s -> sim s a -> vstep (EReturn t) s = Some (inr r) -> matches (EReturn t) r a.
Proof.
  intros I S. cbn [vstep]. destruct (calls s !! t) as [[c|c x|c x]|] eqn:E; [done|done| |done].
  destruct (decide (lock s = Nobody)) as [L|]; [|done]. destruct (awake s t); [|done].
  destruct (iv_wait _ _ I _ _ _ E) as [[D _]|[D S0]].
  - rewrite (bind_ok _ _ _ _ _ _ _ (rw_wait_busy t _ [] _ D)). cbn. intros [= <-].
    apply matches_silent; [cbn; by rewrite decide_False by by rewrite E|]. by apply (silent s).
  - rewrite (bind_ok _ _ _ _ _ _ _ (rw_wait_done t _ [] _ D)). cbv iota.
    assert (chain (vd s) c x) as Hc by (eapply (iv_chain _ _ I); by right).
    rewrite (bind_ok _ _ _ _ _ _ _ (rw_finish_ok _ _ _ [] Hc (ln_free _ (iv_lens _ _ I))
      ltac:(apply Forall_forall; intros i Hi; apply (iv_free _ _ I); exists t, c, x; split; [by right|done]))).
    cbn. intros [= <-]. destruct S as [S1 S2 S3].
    assert (Atomic.pending a !! t = Some (c, true)) as Ep.
    { rewrite S3, E. cbn. unfold abstracted. cbn. do 2 f_equal. apply bool_decide_eq_true. split; [|done].
      pose proof (done_unqueued I E D) as Q. unfold queued in Q. set_solver. }
    eexists [Atomic.AReturn t], _. split; [unfold shown; rewrite decide_True; [done|apply lookup_delete_eq]|].
    cbn. rewrite Ep. split; [done|]. split; cbn; [done..|]. intros t'. destruct (decide (t' = t)) as [->|N]; [by rewrite !lookup_delete_eq|].
    by rewrite !lookup_delete_ne, S3 by done.
Qed.

Lemma sim_turn bad s a r : inv bad s -> sim s a -> vstep ETurn s = Some (inr r) -> matches ETurn r a.
Proof.
  intros I S. cbn [vstep]. destruct (decide _) as [L|]; [|done].
  destruct (decide (used_idx (vd s) = used_end (vd s))) as [E|N].
  - unfold intr_turn. rewrite (bind_ok kget _ [] (vd s) (vd s) [] (vd s)) by done. rewrite E, Z.eqb_refl. cbn.
    intros [= <-]. apply matches_silent; [done|]. by apply (silent s).
  - destruct (intr_turn_ok _ _ I N) as [(t & c & idx & Ht & R & S0 & ->)|[-> B]]; cbn; [|done]. intros [= <-].
    apply matches_silent; [done|]. by apply (silent s).
Qed.

Lemma sim_take bad s a r : inv bad s -> sim s a -> vstep ETake s = Some (inr r) -> matches ETake r a.
Proof.
  intros I S. cbn [vstep]. destruct (Z.eqb_spec (seen s) (avail_idx (vd s))) as [|N]; [done|].
  intros [= <-]. apply matches_silent; [done|]. apply (silent s); [done..|]. intros t. cbn [calls].
  destruct (calls s !! t) as [p|]; [|done]. cbn. f_equal. apply transferred_ext. intros c x ->. split; [|done].
  rewrite (take_unseen _ _ I N). unfold unseen. cbn [vd seen taken]. set_solver.
Qed.

(** The transfer. *)
Section transfer.
Context {bad : Prop} {s : sys} {a : Atomic.ast} (I : inv bad s) (S : sim s a) {t : nat} {c : call} {x : nat * nat * nat}.
Context (E : calls s !! t = Some (Wait c x)) (Hk : head_of x ∈ taken s) (status : Z).

Abbreviation s' := (completed (s := s) (c := c) (idx := x) (status := status)).

Lemma taken_queued : head_of x ∈ queued s.
Proof. unfold queued. set_solver. Qed.

Lemma left_device h : h ∈ unseen s' ++ taken s' <-> (h ∈ unseen s ++ taken s) /\ h <> head_of x.
Proof.
  destruct (@completed_same s c x status) as (_ & E1 & E2 & _). pose proof (iv_nodup _ _ I) as Nd.
  unfold queued in Nd. apply NoDup_app in Nd as (_ & Nd & _). specialize (Nd (head_of x)).
  unfold unseen at 1. rewrite E1, E2. cbn [taken completed seen]. fold (unseen s).
  rewrite !elem_of_app, list_elem_of_filter. set_solver.
Qed.

Lemma transfer_others t' : t' <> t -> abstracted s' <$> calls s' !! t' = abstracted s <$> calls s !! t'.
Proof.
  intros Nt. change (calls s') with (calls s). destruct (calls s !! t') as [p|] eqn:Ep; [|done]. cbn [fmap option_fmap option_map]. f_equal.
  apply transferred_ext. intros c' x' ->.
  assert (head_of x' <> head_of x) by (eapply heads_differ; [done|by right|by right|done]).
  split; [rewrite left_device; naive_solver|]. by apply completed_status.
Qed.

Lemma transfer_own : abstracted s' <$> calls s' !! t = Some (c, bool_decide (status = 0)).
Proof.
  change (calls s') with (calls s). rewrite E. cbn [fmap option_fmap option_map]. unfold abstracted. do 2 f_equal.
  cbn [transferred]. apply bool_decide_ext. rewrite left_device, (completed_own I E). naive_solver.
Qed.

Lemma transfer_before : Atomic.pending a !! t = Some (c, false).
Proof.
  rewrite (sm_pending _ _ S), E. cbn. unfold abstracted. cbn. do 2 f_equal. apply bool_decide_eq_false. set_solver.
Qed.

Lemma sim_finished : matches (EFinish (head_of x) status) s' a.
Proof.
  pose proof transfer_own as Eo. destruct S as [S1 S2 S3]. destruct (decide (status = 0)) as [Z0|Z0].
  - eexists [Atomic.ATransfer t], _. split; [done|]. cbn [Atomic.run Atomic.step]. rewrite transfer_before. split; [done|]. split.
    + unfold Atomic.transfer, completed, reported, moved. rewrite Z0. destruct (c_write c); cbn -[ldbytes]; by rewrite ?S1, ?S2.
    + unfold Atomic.transfer, completed, reported, moved. rewrite Z0, S1, S2. destruct (c_write c); cbn -[ldbytes take]; [|done].
      rewrite take_ge; [done|]. destruct (b_data (vd s) !! c_buf c) as [d|] eqn:Ed; cbn; [by eapply (iv_data _ _ I)|lia].
    + intros t'. replace (Atomic.pending _) with (<[t := (c, true)]> (Atomic.pending a)) by by cbn; unfold Atomic.transfer; destruct (c_write c).
      destruct (decide (t' = t)) as [->|Nt]; [rewrite lookup_insert_eq, Eo; by rewrite bool_decide_eq_true_2|].
      rewrite lookup_insert_ne by done. by rewrite transfer_others, S3.
  - apply matches_silent; [done|]. apply (silent s); [done| | |].
    + unfold completed, reported. cbn. by destruct (Z.eqb_spec status 0).
    + unfold completed, reported. cbn. by destruct (Z.eqb_spec status 0).
    + intros t'. destruct (decide (t' = t)) as [->|Nt]; [|by apply transfer_others].
      rewrite Eo, <-S3, transfer_before. by rewrite bool_decide_eq_false_2.
Qed.
End transfer.

Lemma sim_finish bad s a h status r :
  inv bad s -> sim s a -> vstep (EFinish h status) s = Some (inr r) -> matches (EFinish h status) r a.
Proof.
  intros I S. cbn [vstep]. destruct (decide _) as [Hk|]; [|done].
  destruct (iv_queue _ _ I h) as (t & c & idx & Ht & -> & D); [unfold queued; rewrite !elem_of_app; by right; left|].
  pose proof (iv_chain _ _ I t c idx (or_intror Ht)) as Hc. unfold head_of at 1. rewrite (dev_finish_ok _ _ _ _ _ Hc). cbn [andthen].
  intros [= <-]. by apply (sim_finished I S Ht Hk).
Qed.

Lemma sim_edit s a b d r : sim s a -> vstep (EEdit b d) s = Some (inr r) -> matches (EEdit b d) r a.
Proof.
  intros [S1 S2 S3]. cbn [vstep]. case_match; [|done]. intros [= <-]. eexists [Atomic.AEdit b d], _. split; [done|]. split; [done|].
  split; cbn; [by rewrite S1|done|]. apply S3.
Qed.

Lemma sim_step bad e s a r : inv bad s -> sim s a -> vstep e s = Some (inr r) -> matches e r a.
Proof.
  intros I S H. destruct e as [t c|t|t|t| | | |h st|b d].
  - by eapply sim_call.
  - by eapply sim_try.
  - by eapply sim_publish.
  - by eapply sim_return.
  - cbn in H. case_decide; [|done]. injection H as <-. apply matches_silent; [done|]. by apply (silent s).
  - by eapply sim_turn.
  - by eapply sim_take.
  - by eapply sim_finish.
  - by eapply sim_edit.
Qed.

Lemma run_app l1 l2 a a1 : Atomic.run l1 a = Some a1 -> Atomic.run (l1 ++ l2) a = Atomic.run l2 a1.
Proof.
  revert a. induction l1 as [|e l1 IH]; intros a; cbn; [by intros [= ->]|].
  destruct (Atomic.step e a); cbn; [apply IH|done].
Qed.

Lemma run_sim evs bad s a :
  inv bad s -> sim s a ->
  match vrun evs s with
  | Some (inr s') => inv (bad \/ Exists fails evs) s' /\
      exists aevs a', filter Atomic.visible aevs = vtrace evs s /\ Atomic.run aevs a = Some a' /\ sim s' a'
  | Some (inl msg) => msg = "virtio_disk_intr status"%string /\ (bad \/ Exists fails evs)
  | None => True
  end.
Proof.
  revert bad s a. induction evs as [|e evs IH]; intros bad s a I S; cbn [vrun vtrace].
  { split; [eapply inv_weaken; [done|by left]|]. by exists [], a. }
  destruct (vstep e s) as [r|] eqn:E; [|done]. destruct (inv_event _ _ _ _ I E) as [(s1 & -> & I1)|[-> B]]; [|by auto].
  destruct (sim_step _ _ _ _ _ I S E) as (l1 & a1 & F1 & R1 & S1). specialize (IH _ _ _ I1 S1).
  assert (forall P : Prop, (P \/ fails e) \/ Exists fails evs -> P \/ Exists fails (e :: evs)) as Hb.
  { intros P. rewrite Exists_cons. tauto. }
  destruct (vrun evs s1) as [[msg|s2]|]; [|..|done].
  - destruct IH as [-> B]. auto.
  - destruct IH as (I2 & l2 & a2 & F2 & R2 & S2). split; [eapply inv_weaken; [done|apply Hb]|].
    exists (l1 ++ l2), a2. rewrite filter_app, F1, F2. split; [done|]. split; [|done]. by rewrite (run_app _ _ _ _ R1).
Qed.

Lemma sim_boot_disk data d : sim (boot data d) (Atomic.Ast data d ∅).
Proof. by split. Qed.

(** C8: the disk driver.  In every run of any number of processes calling
    [virtio_disk_rw] on different buffers for block numbers below 2^31, the
    interrupt handler, and a device
    that finishes requests in any order, the rings with their wrapping indices,
    the sharing of eight descriptors and the sleeping are invisible: calls,
    returns and the contents of buffers and disk are those of calls that each
    transfer one block at one moment between call and return.  The driver never
    panics in [free_desc] and never hands the device a malformed request; it
    stops only after the device has reported a failure. *)
Theorem virtio_refines (data : gmap nat (list Z)) (d : mem) (evs : list event) :
  (forall b x, data !! b = Some x -> length x = 1024%nat) ->
  match vrun evs (boot data d) with
  | Some (inr s) => exists aevs a, filter Atomic.visible aevs = vtrace evs (boot data d) /\
      Atomic.run aevs (Atomic.Ast data d ∅) = Some a /\
      Atomic.data a = b_data (vd s) /\ Atomic.disk a = store (vd s) /\
      (forall t, fst <$> Atomic.pending a !! t = call_of <$> calls s !! t)
  | Some (inl msg) => msg = "virtio_disk_intr status"%string /\ Exists fails evs
  | None => True
  end.
Proof.
  intros Hd. pose proof (run_sim evs _ _ _ (inv_start data d Hd) (sim_boot_disk data d)) as H.
  destruct (vrun evs (boot data d)) as [[msg|s]|]; [|..|done].
  - destruct H as [-> [[]|B]]. done.
  - destruct H as (_ & aevs & a & F & R & [S1 S2 S3]). exists aevs, a. split_and!; [done..|].
    intros t. rewrite S3. by destruct (calls s !! t).
Qed.

(** Two processes write blocks 5 and 6 at the same time and a third waits for
    descriptors; the device finishes the second request first, and one interrupt
    handles both. *)
Definition two_writes : list event :=
  [ECall 1 (Call 10 5 true); ETry 1; EPublish 1; ECall 2 (Call 11 6 true); ETry 2; EPublish 2;
   ECall 3 (Call 12 5 false); ETry 3; ETake; ETake; EFinish 3 0; EFinish 0 0; EIntr; ETurn; ETurn; ETurn;
   EReturn 2; EReturn 1; ETry 3; EPublish 3; ETake; EFinish 0 0; EIntr; ETurn; ETurn; EReturn 3].

Definition two_bufs : gmap nat (list Z) := <[10%nat := replicate 1024 7]> (<[11%nat := replicate 1024 8]> ∅).

Lemma two_bufs_length b x : two_bufs !! b = Some x -> length x = 1024%nat.
Proof.
  unfold two_bufs. intros [[_ <-]|[_ [[_ <-]|[_ H]]%lookup_insert_Some]]%lookup_insert_Some; [apply length_replicate..|done].
Qed.

Lemma virtio_refines_witness :
  exists s, vrun two_writes (boot two_bufs ∅) = Some (inr s) /\ b_data (vd s) !! 12%nat = Some (replicate 1024 7) /\
    exists aevs a, filter Atomic.visible aevs = vtrace two_writes (boot two_bufs ∅) /\
      Atomic.run aevs (Atomic.Ast two_bufs ∅ ∅) = Some a /\
      Atomic.data a = b_data (vd s) /\ Atomic.disk a = store (vd s) /\
      (forall t, fst <$> Atomic.pending a !! t = call_of <$> calls s !! t).
Proof.
  assert ((match vrun two_writes (boot two_bufs ∅) with Some (inr s) => b_data (vd s) !! 12%nat | _ => None end)
          = Some (replicate 1024 7)) as G by (vm_compute; reflexivity).
  pose proof (virtio_refines two_bufs ∅ two_writes two_bufs_length) as H.
  destruct (vrun two_writes (boot two_bufs ∅)) as [[msg|s]|] eqn:E; [discriminate G| |discriminate G].
  exists s. split; [reflexivity|]. split; [exact G|exact H].
Defined.

(** * Progress *)

(** Events of the driver and of a device that succeeds. *)
Definition own (e : event) : Prop :=
  match e with ECall _ _ | EEdit _ _ => False | EFinish _ status => status = 0 | _ => True end.

Definition wanting (p : phase) : bool := match p with Want _ => true | _ => false end.
Definition wants (m : gmap nat phase) : gmap nat phase := filter (fun p => wanting p.2) m.

(** What is left to do. *)
Definition work (l : owner) (w u t r n : nat) : nat :=
  (12 * w + match l with Proc _ => 10 | Intr => 1 | Nobody => 0 end + 8 * u + 6 * t + 4 * r + n)%nat.
Definition todo (s : sys) : nat :=
  work (lock s) (size (wants (calls s))) (length (unseen s)) (length (taken s)) (length (reports s)) (size (calls s)).

Definition advances (s : sys) : Prop :=
  exists evs s', Forall own evs /\ vrun evs s = Some (inr s') /\ (todo s' < todo s)%nat.

Lemma advance1 e s s' : own e -> vstep e s = Some (inr s') -> (todo s' < todo s)%nat -> advances s.
Proof. intros O E T. exists [e], s'. cbn. rewrite E. by split; [apply Forall_singleton|]. Qed.

Lemma wants_insert m t p : (forall c, p <> Want c) -> wants (<[t := p]> m) = delete t (wants m).
Proof.
  intros H. unfold wants. rewrite map_filter_insert_False, map_filter_delete; [done|].
  cbn. destruct p as [c|c x|c x]; [by destruct (H c)|tauto..].
Qed.

Lemma wants_not m t : (forall c, m !! t <> Some (Want c)) -> wants m !! t = None.
Proof.
  intros H. unfold wants. apply map_lookup_filter_None. right. intros [c|c x|c x] E; cbn; [by destruct (H c)|tauto..].
Qed.

Lemma wants_delete m t : (forall c, m !! t <> Some (Want c)) -> wants (delete t m) = wants m.
Proof.
  intros H. unfold wants. rewrite map_filter_delete. apply delete_id. by apply wants_not.
Qed.

Section progress.
Context {s : sys} (I : inv False s).

Lemma publish_advances t c x : lock s = Proc t -> calls s !! t = Some (Ready c x) -> advances s.
Proof.
  intros L E. apply (advance1 (EPublish t) s (published (s := s) (t := t) (c := c) (idx := x))); [done| |].
  - cbn [vstep]. rewrite E, decide_True by done.
    rewrite (bind_ok rw_publish _ [] (vd s) tt [] (set_avail (avail_ring (vd s)) (u16 (avail_idx (vd s) + 1)) (vd s))) by done.
    by rewrite rw_wait_busy by apply (iv_ready _ _ I _ _ _ E).
  - unfold todo. rewrite (published_unseen I E), length_app, L. change (reports published) with (reports s).
    cbn [published lock calls taken length].
    rewrite wants_insert, delete_id by (done || (apply wants_not; congruence)).
    rewrite map_size_insert_Some by done. unfold work. lia.
Qed.

Lemma turn_goes t c x :
  used_idx (vd s) <> used_end (vd s) -> lock s = Intr -> calls s !! t = Some (Wait c x) ->
  used_ring (vd s) !! slot (used_idx (vd s)) = Some (head_of x) ->
  intr_turn [] (vd s) = Ok true [] (vd (turned (s := s) (c := c))) ->
  vstep ETurn s = Some (inr (turned (s := s) (c := c))) /\ (todo (turned (s := s) (c := c)) + 4 = todo s)%nat.
Proof.
  intros N L E R G. split; [cbn [vstep]; rewrite decide_True by done; rewrite G; unfold turned; by rewrite L|].
  pose proof (turned_reports I (c := c) (idx := x) N R) as P. unfold todo. rewrite P. cbn [length].
  change (unseen turned) with (unseen s). cbn [turned lock calls taken]. unfold work. lia.
Qed.
End progress.

Lemma intr_advances s : inv False s -> (forall t, lock s <> Proc t) -> used_idx (vd s) <> used_end (vd s) -> advances s.
Proof.
  intros I L N. set (s1 := Sys (vd s) Intr (calls s) (seen s) (taken s)).
  assert (inv False s1) as I1 by by apply inv_lock_swap.
  destruct (intr_turn_ok _ _ I1 N) as [(t & c & x & E & R & _ & G)|[_ []]].
  destruct (turn_goes I1 t c x N eq_refl E R G) as [V T].
  assert (todo s1 <= todo s + 1)%nat as T1 by
    (unfold todo; change (unseen s1) with (unseen s); change (reports s1) with (reports s); cbn [lock calls taken s1];
     unfold work; destruct (lock s); lia).
  destruct (lock s) as [|t0|] eqn:El.
  - exists [EIntr; ETurn]. eexists. split; [by repeat constructor|]. cbn [vrun]. cbn [vstep] in V |- *. rewrite decide_True by done.
    fold s1. cbn [vstep]. rewrite V. split; [done|]. lia.
  - by destruct (L t0).
  - assert (s = s1) as Es by (subst s1; destruct s; cbn in *; congruence). rewrite Es. eapply advance1; [|exact V|lia]. done.
Qed.

Lemma finish_advances s h : inv False s -> h ∈ taken s -> advances s.
Proof.
  intros I Hk. destruct (iv_queue _ _ I h) as (t & c & x & E & -> & D); [unfold queued; rewrite !elem_of_app; by right; left|].
  pose proof (iv_chain _ _ I t c x (or_intror E)) as Hc.
  apply (advance1 (EFinish (head_of x) 0) s (completed (s := s) (c := c) (idx := x) (status := 0))); [done| |].
  - cbn [vstep]. rewrite decide_True by done. unfold head_of at 1. by rewrite (dev_finish_ok _ _ _ _ _ Hc).
  - destruct (@completed_same s c x 0) as (_ & E1 & E2 & _). pose proof (taken_perm I (c := c) (status := 0) Hk) as P.
    apply Permutation_length in P. unfold todo. rewrite (completed_reports I Hk), length_app.
    unfold unseen at 1. rewrite E1, E2. change (seen completed) with (seen s). fold (unseen s). cbn [length] in P |- *.
    rewrite P. cbn [lock calls completed taken]. unfold work. lia.
Qed.

Lemma take_advances s : inv False s -> seen s <> avail_idx (vd s) -> advances s.
Proof.
  intros I N. eapply (advance1 ETake); [done| |].
  - cbn [vstep]. by destruct (Z.eqb_spec (seen s) (avail_idx (vd s))).
  - unfold todo. rewrite (take_unseen _ _ I N). unfold unseen, reports. cbn [vd lock calls seen taken length].
    rewrite length_app. unfold work. cbn [length]. lia.
Qed.

Lemma return_advances s t c x :
  inv False s -> lock s = Nobody -> calls s !! t = Some (Wait c x) -> b_disk (vd s) !! c_buf c = Some 0 -> advances s.
Proof.
  intros I L E D. assert (awake s t = true) as A.
  { apply bool_decide_eq_true. destruct (asleep (vd s) !! t) as [ch|] eqn:Ea; [|done].
    pose proof (iv_sleep _ _ I _ _ Ea) as Hs. destruct ch; [destruct Hs as [[? ?] _]; congruence|].
    destruct Hs as (c' & x' & E' & <- & D'). rewrite E in E'. simplify_eq. }
  assert (chain (vd s) c x) as Hc by (eapply (iv_chain _ _ I); by right).
  apply (advance1 (EReturn t) s (returned (s := s) (t := t) (idx := x))); [done| |].
  - cbn [vstep]. rewrite E, decide_True, A by done.
    rewrite (bind_ok _ _ _ _ _ _ _ (rw_wait_done t _ [] _ D)). cbv iota.
    rewrite (bind_ok _ _ _ _ _ _ _ (rw_finish_ok _ _ _ [] Hc (ln_free _ (iv_lens _ _ I))
      ltac:(apply Forall_forall; intros i Hi; apply (iv_free _ _ I); exists t, c, x; split; [by right|done]))).
    unfold returned. by rewrite L.
  - assert (todo (returned (s := s) (t := t) (idx := x)) =
      work (lock s) (size (wants (delete t (calls s)))) (length (unseen s)) (length (taken s)) (length (reports s))
        (size (delete t (calls s)))) as -> by reflexivity.
    rewrite wants_delete by congruence. unfold todo.
    assert (size (calls s) <> 0)%nat by (intros Z0%map_size_empty_inv; rewrite Z0 in E; done).
    rewrite map_size_delete_Some by done. unfold work. lia.
Qed.

Lemma try_advances s t c :
  inv False s -> lock s = Nobody -> (forall t' c' x, ~ issued (calls s) t' c' x) -> calls s !! t = Some (Want c) -> advances s.
Proof.
  intros I L Hn E. assert (awake s t = true) as A.
  { apply bool_decide_eq_true. destruct (asleep (vd s) !! t) as [ch|] eqn:Ea; [|done].
    pose proof (iv_sleep _ _ I _ _ Ea) as Hs. destruct ch.
    - destruct Hs as [_ (t' & c' & x' & H)]. by destruct (Hn t' c' x').
    - destruct Hs as (c' & x' & E' & _). congruence. }
  destruct (rw_prepare_ok t (c_buf c) (c_block c) (c_write c) (vd s) (ln_free _ (iv_lens _ _ I)))
    as [(i0 & i1 & i2 & N & F & G)|(v' & [_ _ _ _ [i U]] & _)].
  2:{ apply (iv_free _ _ I) in U as (t' & c' & x' & H & _). by destruct (Hn t' c' x'). }
  apply (advance1 (ETry t) s (prepared (s := s) (t := t) (c := c) (i0 := i0) (i1 := i1) (i2 := i2))); [done| |].
  - cbn [vstep]. rewrite E, decide_True, A by done. by rewrite G.
  - assert (todo (prepared (s := s) (t := t) (c := c) (i0 := i0) (i1 := i1) (i2 := i2)) =
      work (Proc t) (size (wants (<[t := Ready c (i0, i1, i2)]> (calls s)))) (length (unseen s)) (length (taken s)) (length (reports s))
        (size (<[t := Ready c (i0, i1, i2)]> (calls s)))) as ->.
    { unfold todo. by rewrite (prepared_unseen I F). }
    rewrite wants_insert by done. rewrite map_size_insert_Some by done. unfold todo. rewrite L.
    assert (wants (calls s) !! t = Some (Want c)) as W by (by apply map_lookup_filter_Some).
    assert (size (wants (calls s)) <> 0)%nat by (intros Z0%map_size_empty_inv; rewrite Z0 in W; done).
    rewrite map_size_delete_Some by done. unfold work. lia.
Qed.

Lemma progress s : inv False s -> calls s <> ∅ -> advances s.
Proof.
  intros I Hc. destruct (lock s) as [|t|] eqn:L.
  - destruct (decide (used_idx (vd s) = used_end (vd s))) as [Eu|]; [|by apply intr_advances; [..|congruence|]].
    destruct (taken s) as [|h l] eqn:Et; [|apply (finish_advances s h I); rewrite Et; left].
    destruct (decide (seen s = avail_idx (vd s))) as [Ea|]; [|by apply take_advances].
    assert (queued s = []) as Q by (unfold queued, unseen, reports; by rewrite Eu, Ea, Et, !seg_same).
    destruct (decide (map_Exists (fun _ p => wanting p = false) (calls s))) as [(t & p & E & W)|Hn].
    + destruct p as [c|c x|c x]; [done|exfalso|].
      * assert (lock s = Proc t) by (apply (iv_lock _ _ I); eauto). congruence.
      * destruct (iv_wait _ _ I _ _ _ E) as [[_ H]|[D _]]; [rewrite Q in H; by apply elem_of_nil in H|by eapply return_advances].
    + apply map_choose in Hc as (t & p & E).
      assert (forall t' c' x, ~ issued (calls s) t' c' x) as Hi.
      { intros t' c' x [H|H]; apply Hn; eexists t', _; (split; [exact H|done]). }
      destruct p as [c|c x|c x]; [by eapply try_advances|by destruct (Hi t c x); left|by destruct (Hi t c x); right].
  - destruct (proj1 (iv_lock _ _ I t) L) as (c & x & E). by eapply (publish_advances I).
  - destruct (decide (used_idx (vd s) = used_end (vd s))) as [Eu|]; [|by apply intr_advances; [..|congruence|]].
    eapply (advance1 ETurn); [done|cbn [vstep]; rewrite decide_True by done|].
    + unfold intr_turn. rewrite (bind_ok kget _ [] (vd s) (vd s) [] (vd s)) by done. by rewrite Eu, Z.eqb_refl.
    + unfold todo, unseen, reports. cbn [vd lock calls seen taken]. rewrite L. unfold work. lia.
Qed.

Lemma vrun_app l1 l2 s s1 : vrun l1 s = Some (inr s1) -> vrun (l1 ++ l2) s = vrun l2 s1.
Proof.
  revert s. induction l1 as [|e l1 IH]; intros s; cbn; [by intros [= ->]|].
  destruct (vstep e s) as [[msg|s']|]; [done|apply IH|done].
Qed.

Lemma own_inv evs s s' : inv False s -> Forall own evs -> vrun evs s = Some (inr s') -> inv False s'.
Proof.
  intros I F. revert s I. induction F as [|e evs He F IH]; intros s I; cbn [vrun]; [by intros [= <-]|].
  destruct (vstep e s) as [r|] eqn:E; [|done]. destruct (inv_event _ _ _ _ I E) as [(s1 & -> & I1)|[_ []]]. apply IH.
  eapply inv_weaken; [exact I1|]. intros [[]|Hf]. by destruct e.
Qed.

Lemma completes s : inv False s -> exists evs s', Forall own evs /\ vrun evs s = Some (inr s') /\ calls s' = ∅.
Proof.
  induction s as [s IH] using (induction_ltof1 _ todo). unfold ltof in IH. intros I.
  destruct (decide (calls s = ∅)) as [E|N]; [by exists [], s|].
  destruct (progress s I N) as (l1 & s1 & O1 & R1 & T). destruct (IH s1 T) as (l2 & s2 & O2 & R2 & E2); [by eapply own_inv|].
  exists (l1 ++ l2), s2. split; [by apply Forall_app|]. by rewrite (vrun_app _ _ _ _ R1).
Qed.

(** C9: no call of the disk driver is stuck.  From every state that the system
    can reach with calls on different buffers for block numbers below 2^31 and
    while the device reports no failure, every outstanding call can
    return, without new calls: there is no lost wakeup, no leaked descriptor and no
    forgotten request. *)
Theorem virtio_completes (data : gmap nat (list Z)) (d : mem) (evs : list event) (s : sys) :
  (forall b x, data !! b = Some x -> length x = 1024%nat) -> ~ Exists fails evs ->
  vrun evs (boot data d) = Some (inr s) ->
  exists evs' s', Forall own evs' /\ vrun evs' s = Some (inr s') /\ calls s' = ∅.
Proof.
  intros Hd Hf R. apply completes. pose proof (run_sim evs _ _ _ (inv_start data d Hd) (sim_boot_disk data d)) as H.
  rewrite R in H. destruct H as [I _]. eapply inv_weaken; [exact I|]. by intros [[]|].
Qed.

(** Three processes have called; two wait for the device, the third for
    descriptors. *)
Lemma virtio_completes_witness :
  exists s, vrun (take 8 two_writes) (boot two_bufs ∅) = Some (inr s) /\ size (asleep (vd s)) = 3%nat /\
    exists evs' s', Forall own evs' /\ vrun evs' s = Some (inr s') /\ calls s' = ∅.
Proof.
  assert ((match vrun (take 8 two_writes) (boot two_bufs ∅) with Some (inr s) => size (asleep (vd s)) | _ => 0%nat end)
          = 3%nat) as G by (vm_compute; reflexivity).
  pose proof (virtio_completes two_bufs ∅ (take 8 two_writes)) as H.
  destruct (vrun (take 8 two_writes) (boot two_bufs ∅)) as [[msg|s]|] eqn:E; [discriminate G| |discriminate G].
  exists s. split; [reflexivity|]. split; [exact G|]. apply H; [exact two_bufs_length| |reflexivity].
  intros F. repeat (apply Exists_cons in F as [F|F]; [exact F|]). by apply Exists_nil in F.
Defined.
