(* ===== verification/State.v ===== *)
(** The data of the kernel above the memory and block layers, and the one state
    its operations run on (kernel/file.h, kernel/proc.h, kernel/procinfo.h,
    kernel/param.h, and the tables declared in kernel/fs.c, kernel/file.c and
    kernel/proc.c).

    Tables are lists and a pointer into a table is an index; a pointer that may be
    null is an [option].  Pages from [kalloc], page tables, trapframes and the
    kernel stack are in the byte memory of [mm], so [copyin], [copyout], [walk] and
    the rest of Vm.v act on them directly.  [me] is the process whose system call
    is running, the code's [myproc()]. *)

From S2P Require Import Prelude Mem CString Kern Riscv Kalloc Vm Sleeplock Bio Block Log Huffman Pipe.

Definition NOFILE : Z := 16.
Definition NFILE : Z := 100.
Definition NINODE : Z := 50.
Definition NDEV : Z := 10.
Definition NDIRECT : Z := 12.

(** * File system *)

Record superblock := Superblock {
  sb_magic : Z; sb_size : Z; sb_nblocks : Z; sb_ninodes : Z;
  sb_nlog : Z; sb_logstart : Z; sb_inodestart : Z; sb_bmapstart : Z }.

Record inode := Inode {
  i_dev : Z; i_inum : Z; i_ref : Z; i_lock : sleeplock; i_valid : Z;
  i_type : Z; i_major : Z; i_minor : Z; i_nlink : Z; i_size : Z; i_addrs : list Z }.

(** The static variables of [readi]; the buffer is a page address or 0. *)
Record dcache := Dcache { cached_decomp_buf : Z; cached_inum : Z; cached_length : Z }.

(** * Open files *)

Inductive ftype := FD_NONE | FD_PIPE | FD_INODE | FD_DEVICE.

#[export] Instance ftype_eq_dec : EqDecision ftype.
Proof. solve_decision. Defined.

Record file := File {
  f_type : ftype; f_ref : Z; f_readable : Z; f_writable : Z;
  f_pipe : Z; f_ip : nat; f_off : Z; f_major : Z }.

(** * Processes *)

Inductive procstate := UNUSED | USED | SLEEPING | RUNNABLE | RUNNING | ZOMBIE.

#[export] Instance procstate_eq_dec : EqDecision procstate.
Proof. solve_decision. Defined.

(** The number the enumeration gives a state. *)
Definition state_num (x : procstate) : Z :=
  match x with UNUSED => 0 | USED => 1 | SLEEPING => 2 | RUNNABLE => 3 | RUNNING => 4 | ZOMBIE => 5 end.

(** The registers [swtch] saves: return address, stack pointer and s0-s11. *)
Record context := Context_ { c_ra : Z; c_sp : Z; c_s : list Z }.

Record proc := Proc {
  p_state : procstate; p_chan : Z; p_killed : Z; p_xstate : Z; p_pid : Z;
  p_parent : option nat;
  p_kstack : Z; p_sz : Z; p_pagetable : Z; p_trapframe : Z; p_context : context;
  p_ofile : list (option nat); p_cwd : option nat; p_name : list Z }.

(** Offsets in a [struct trapframe]. *)
Definition tf_kernel_satp : Z := 0.
Definition tf_kernel_sp : Z := 8.
Definition tf_kernel_trap : Z := 16.
Definition tf_epc : Z := 24.
Definition tf_kernel_hartid : Z := 32.
Definition tf_sp : Z := 48.
Definition tf_a (n : Z) : Z := 112 + 8 * n.     (* a0-a7 *)
Definition sizeof_trapframe : Z := 288.

(** * The state *)

Record ks := Ks {
  sb : superblock; flog : lst; itable : list inode; rdc : dcache; huff : hst;
  mm : kst;
  ftable : list file; pipes : gmap Z pipe;
  procs : list proc; me : nat; nextpid : Z; initproc : option nat; ticks : Z }.

Definition set_sb x s := Ks x (flog s) (itable s) (rdc s) (huff s) (mm s) (ftable s) (pipes s) (procs s) (me s) (nextpid s) (initproc s) (ticks s).
Definition set_flog x s := Ks (sb s) x (itable s) (rdc s) (huff s) (mm s) (ftable s) (pipes s) (procs s) (me s) (nextpid s) (initproc s) (ticks s).
Definition set_itable x s := Ks (sb s) (flog s) x (rdc s) (huff s) (mm s) (ftable s) (pipes s) (procs s) (me s) (nextpid s) (initproc s) (ticks s).
Definition set_rdc x s := Ks (sb s) (flog s) (itable s) x (huff s) (mm s) (ftable s) (pipes s) (procs s) (me s) (nextpid s) (initproc s) (ticks s).
Definition set_huff x s := Ks (sb s) (flog s) (itable s) (rdc s) x (mm s) (ftable s) (pipes s) (procs s) (me s) (nextpid s) (initproc s) (ticks s).
Definition set_mm x s := Ks (sb s) (flog s) (itable s) (rdc s) (huff s) x (ftable s) (pipes s) (procs s) (me s) (nextpid s) (initproc s) (ticks s).
Definition set_ftable x s := Ks (sb s) (flog s) (itable s) (rdc s) (huff s) (mm s) x (pipes s) (procs s) (me s) (nextpid s) (initproc s) (ticks s).
Definition set_pipes x s := Ks (sb s) (flog s) (itable s) (rdc s) (huff s) (mm s) (ftable s) x (procs s) (me s) (nextpid s) (initproc s) (ticks s).
Definition set_procs x s := Ks (sb s) (flog s) (itable s) (rdc s) (huff s) (mm s) (ftable s) (pipes s) x (me s) (nextpid s) (initproc s) (ticks s).
Definition set_me x s := Ks (sb s) (flog s) (itable s) (rdc s) (huff s) (mm s) (ftable s) (pipes s) (procs s) x (nextpid s) (initproc s) (ticks s).
Definition set_nextpid x s := Ks (sb s) (flog s) (itable s) (rdc s) (huff s) (mm s) (ftable s) (pipes s) (procs s) (me s) x (initproc s) (ticks s).
Definition set_initproc x s := Ks (sb s) (flog s) (itable s) (rdc s) (huff s) (mm s) (ftable s) (pipes s) (procs s) (me s) (nextpid s) x (ticks s).
Definition set_ticks x s := Ks (sb s) (flog s) (itable s) (rdc s) (huff s) (mm s) (ftable s) (pipes s) (procs s) (me s) (nextpid s) (initproc s) x.

(** Operations of the layers below. *)
Definition on_log {A} (m : K lst A) : K ks A := zoom flog set_flog m.
Definition on_mm {A} (m : K kst A) : K ks A := zoom mm set_mm m.
Definition km (s : ks) : mem := kmem (mm s).
Definition set_km (m : mem) (s : ks) : ks := set_mm (set_mem m (mm s)) s.

Definition inode0 : inode := Inode 0 0 0 initsleeplock 0 0 0 0 0 0 (replicate 13 0).
Definition file0 : file := File FD_NONE 0 0 0 0 0 0 0.
Definition proc0 : proc :=
  Proc UNUSED 0 0 0 0 None 0 0 0 0 (Context_ 0 0 (replicate 12 0)) (replicate 16 None) None (replicate 16 0).

Definition geti (s : ks) (i : nat) : inode := default inode0 (itable s !! i).
Definition getf (s : ks) (i : nat) : file := default file0 (ftable s !! i).
Definition getp (s : ks) (i : nat) : proc := default proc0 (procs s !! i).

Definition updi (i : nat) (f : inode -> inode) (s : ks) : ks := set_itable (alter f i (itable s)) s.
Definition updf (i : nat) (f : file -> file) (s : ks) : ks := set_ftable (alter f i (ftable s)) s.
Definition updp (i : nat) (f : proc -> proc) (s : ks) : ks := set_procs (alter f i (procs s)) s.

Definition ip_get (i : nat) : K ks inode := kgets (fun s => geti s i).
Definition ip_set (i : nat) (f : inode -> inode) : K ks unit := kmodify (updi i f).
Definition f_get (i : nat) : K ks file := kgets (fun s => getf s i).
Definition f_set (i : nat) (f : file -> file) : K ks unit := kmodify (updf i f).
Definition p_get (i : nat) : K ks proc := kgets (fun s => getp s i).
Definition p_set (i : nat) (f : proc -> proc) : K ks unit := kmodify (updp i f).

(** [myproc()] *)
Definition myproc : K ks nat := kgets me.
Definition mycur : K ks proc := kgets (fun s => getp s (me s)).
Definition mypid (s : ks) : Z := p_pid (getp s (me s)).
