(* ===== verification/Wakeup.v ===== *)
(** The operations of kernel/proc.c that other components call on processes:
    [wakeup], [killed] and [setkilled]. *)

From S2P Require Import Prelude Kern State.

Definition set_state (x : procstate) (p : proc) : proc :=
  Proc x (p_chan p) (p_killed p) (p_xstate p) (p_pid p) (p_parent p) (p_kstack p) (p_sz p) (p_pagetable p) (p_trapframe p) (p_context p) (p_ofile p) (p_cwd p) (p_name p).
Definition set_chan (x : Z) (p : proc) : proc :=
  Proc (p_state p) x (p_killed p) (p_xstate p) (p_pid p) (p_parent p) (p_kstack p) (p_sz p) (p_pagetable p) (p_trapframe p) (p_context p) (p_ofile p) (p_cwd p) (p_name p).
Definition set_killed (x : Z) (p : proc) : proc :=
  Proc (p_state p) (p_chan p) x (p_xstate p) (p_pid p) (p_parent p) (p_kstack p) (p_sz p) (p_pagetable p) (p_trapframe p) (p_context p) (p_ofile p) (p_cwd p) (p_name p).

Definition proc_ids : list nat := seq 0 64.

Fixpoint wakeup_loop (ids : list nat) (chan : Z) : K ks unit :=
  match ids with
  | [] => mret tt
  | i :: ids =>
      s ← kget;
      (if decide (i = me s) then mret tt
       else
         acquire (LProc i);;
         p ← p_get i;
         (if decide (p_state p = SLEEPING /\ p_chan p = chan) then p_set i (set_state RUNNABLE) else mret tt);;
         release (LProc i));;
      wakeup_loop ids chan
  end.
Definition wakeup (chan : Z) : K ks unit := wakeup_loop proc_ids chan.

Definition setkilled (i : nat) : K ks unit :=
  acquire (LProc i);; p_set i (set_killed 1);; release (LProc i).

Definition killed (i : nat) : K ks Z :=
  acquire (LProc i);;
  p ← p_get i;
  release (LProc i);;
  mret (p_killed p).
