(* ===== verification/Fs.v ===== *)
(** The file system (kernel/fs.c, kernel/fs.h, kernel/stat.h): blocks, inodes and
    block maps.

    Blocks are read and written through the log and the block store, so every
    function makes the calls of the code: [bread], stores to the buffer,
    [log_write], [brelse].  The structures on the disk are read from and written
    to the bytes of a block.  [printf] is left out: it changes no state here. *)

From S2P Require Import Prelude Mem CString Kern Riscv Kalloc Vm Sleeplock Bio Block Log Huffman Pipe State.

Definition ROOTINO : Z := 1.
Definition FSMAGIC : Z := 0x10203040.
Definition NINDIRECT : Z := BSIZE / 4.
Definition MAXFILE : Z := NDIRECT + NINDIRECT.
Definition BPB : Z := BSIZE * 8.
Definition DIRSIZ : Z := 14.
Definition MAXPATH : Z := 128.
Definition T_DIR : Z := 1.
Definition T_FILE : Z := 2.
Definition T_DEVICE : Z := 3.
Definition COMPRESSION_MAGIC : Z := 0x436F6D70.

Definition s16 (z : Z) : Z := (z + 2 ^ 15) mod 2 ^ 16 - 2 ^ 15.

(** * On-disk structures *)

(** Fields of a structure in a block: [get n d k] reads the [n]-byte integer at
    offset [k], [put d k l] overwrites the bytes from [k] on. *)
Definition get (n : nat) (d : list Z) (k : Z) : Z := le_val (take n (drop (Z.to_nat k) d)).
Definition put (d : list Z) (k : Z) (l : list Z) : list Z :=
  take (Z.to_nat k) d ++ l ++ drop (Z.to_nat k + length l) d.

Definition sb_of (d : list Z) : superblock :=
  Superblock (get 4 d 0) (get 4 d 4) (get 4 d 8) (get 4 d 12) (get 4 d 16) (get 4 d 20) (get 4 d 24) (get 4 d 28).

Record dinode := Dinode {
  d_type : Z; d_major : Z; d_minor : Z; d_nlink : Z; d_size : Z; d_addrs : list Z }.

Definition sizeof_dinode : Z := 64.
Definition IPB : Z := BSIZE / sizeof_dinode.

(** [dip = (struct dinode * )bp->data + inum%IPB] *)
Definition dip_off (inum : Z) : Z := sizeof_dinode * (inum mod IPB).
Definition get_dinode (d : list Z) (k : Z) : dinode :=
  Dinode (s16 (get 2 d k)) (s16 (get 2 d (k + 2))) (s16 (get 2 d (k + 4))) (s16 (get 2 d (k + 6)))
         (get 4 d (k + 8)) ((fun i => get 4 d (k + 12 + 4 * i)) <$> seqZ 0 (NDIRECT + 1)).
Definition dinode_bytes (x : dinode) : list Z :=
  le_bytes 2 (d_type x) ++ le_bytes 2 (d_major x) ++ le_bytes 2 (d_minor x) ++ le_bytes 2 (d_nlink x) ++
  le_bytes 4 (d_size x) ++ mjoin (le_bytes 4 <$> d_addrs x).

Definition IBLOCK (i : Z) (s : superblock) : Z := i / IPB + sb_inodestart s.
Definition BBLOCK (b : Z) (s : superblock) : Z := b / BPB + sb_bmapstart s.

Definition sizeof_dirent : Z := 16.

Record compression_header := Compression_header {
  ch_magic : Z; ch_compressed : Z; ch_length : Z; ch_tree_size : Z }.
Definition sizeof_ch : Z := 16.
Definition ch_of (d : list Z) : compression_header :=
  Compression_header (get 4 d 0) (get 4 d 4) (get 4 d 8) (get 4 d 12).
Definition ch_bytes (x : compression_header) : list Z :=
  le_bytes 4 (ch_magic x) ++ le_bytes 4 (ch_compressed x) ++ le_bytes 4 (ch_length x) ++ le_bytes 4 (ch_tree_size x).

Record stat := Stat { st_dev : Z; st_ino : Z; st_type : Z; st_nlink : Z; st_size : Z }.

(** [bread(dev, b)] with the data of the buffer, stores to it, and the log. *)
Definition bread (dev b : Z) : K ks (list Z) := on_log (on_blk (Blk.bread b)).
Definition bdata (b : Z) : K ks (list Z) := on_log (on_blk (Blk.data b)).
Definition bstore (b : Z) (d : list Z) : K ks unit := on_log (on_blk (Blk.store b d)).
Definition brelse (b : Z) : K ks unit := on_log (on_blk (Blk.brelse b)).
Definition log_write (b : Z) : K ks unit := on_log (Log.log_write b).

(** Assignments to fields of an inode. *)
Definition with_ref (k : Z) (x : inode) : inode :=
  Inode (i_dev x) (i_inum x) k (i_lock x) (i_valid x) (i_type x) (i_major x) (i_minor x) (i_nlink x) (i_size x) (i_addrs x).
Definition with_lock (l : sleeplock) (x : inode) : inode :=
  Inode (i_dev x) (i_inum x) (i_ref x) l (i_valid x) (i_type x) (i_major x) (i_minor x) (i_nlink x) (i_size x) (i_addrs x).
Definition with_valid (v : Z) (x : inode) : inode :=
  Inode (i_dev x) (i_inum x) (i_ref x) (i_lock x) v (i_type x) (i_major x) (i_minor x) (i_nlink x) (i_size x) (i_addrs x).
Definition with_type (t : Z) (x : inode) : inode :=
  Inode (i_dev x) (i_inum x) (i_ref x) (i_lock x) (i_valid x) t (i_major x) (i_minor x) (i_nlink x) (i_size x) (i_addrs x).
Definition with_dev (ma mi nl : Z) (x : inode) : inode :=
  Inode (i_dev x) (i_inum x) (i_ref x) (i_lock x) (i_valid x) (i_type x) ma mi nl (i_size x) (i_addrs x).
Definition with_size (z : Z) (x : inode) : inode :=
  Inode (i_dev x) (i_inum x) (i_ref x) (i_lock x) (i_valid x) (i_type x) (i_major x) (i_minor x) (i_nlink x) z (i_addrs x).
Definition with_addr (k : Z) (a : Z) (x : inode) : inode :=
  Inode (i_dev x) (i_inum x) (i_ref x) (i_lock x) (i_valid x) (i_type x) (i_major x) (i_minor x) (i_nlink x) (i_size x)
        (<[Z.to_nat k := a]> (i_addrs x)).
Definition with_dinode (d : dinode) (x : inode) : inode :=
  Inode (i_dev x) (i_inum x) (i_ref x) (i_lock x) (i_valid x)
        (d_type d) (d_major d) (d_minor d) (d_nlink d) (d_size d) (d_addrs d).
Definition addr (x : inode) (k : Z) : Z := default 0 (i_addrs x !! Z.to_nat k).
Definition dinode_of (x : inode) : dinode :=
  Dinode (i_type x) (i_major x) (i_minor x) (i_nlink x) (i_size x) (i_addrs x).

(** * Superblock and blocks *)

Definition readsb (dev : Z) : K ks superblock :=
  d ← bread dev 1;
  brelse 1;;
  mret (sb_of d).

Definition fsinit (dev : Z) : K ks unit :=
  x ← readsb dev;
  kmodify (set_sb x);;
  if negb (sb_magic x =? FSMAGIC) then panic "invalid file system"
  else on_log (initlog dev (sb_logstart x) (sb_nlog x)).

Definition bzero (dev bno : Z) : K ks unit :=
  bread dev bno;;
  bstore bno zero_block;;
  log_write bno;;
  brelse bno.

(** The bit of [bi] in a bitmap block. *)
Definition bit_of (bi : Z) : Z := Z.shiftl 1 (bi mod 8).
Definition byte_of (d : list Z) (bi : Z) : Z := default 0 (d !! Z.to_nat (bi / 8)).
Definition bit_set (d : list Z) (bi : Z) : bool := negb (Z.land (byte_of d bi) (bit_of bi) =? 0).

(** The inner loop of [balloc]: the first clear bit. *)
Fixpoint find_free (fuel : nat) (d : list Z) (b bi size : Z) : option Z :=
  match fuel with
  | O => None
  | S fuel =>
      if (bi <? BPB) && (b + bi <? size)
      then if negb (bit_set d bi) then Some bi else find_free fuel d b (bi + 1) size
      else None
  end.

(** [b] is an [int]: its overflow is undefined. *)
Fixpoint balloc_loop (fuel : nat) (dev b : Z) : K ks Z :=
  match fuel with
  | O => panic "balloc: fuel"
  | S fuel =>
      s ← kget;
      if b <? sb_size (sb s)
      then
        let bb := BBLOCK b (sb s) in
        d ← bread dev bb;
        match find_free (Z.to_nat BPB) d b 0 (sb_size (sb s)) with
        | Some bi =>
            bstore bb (<[Z.to_nat (bi / 8) := Z.lor (byte_of d bi) (bit_of bi)]> d);;
            log_write bb;;
            brelse bb;;
            bzero dev (b + bi);;
            mret (b + bi)
        | None =>
            brelse bb;;
            if b + BPB <? 2 ^ 31 then balloc_loop fuel dev (b + BPB)
            else panic "undefined: overflow of b in balloc"
        end
      else mret 0
  end.

Definition balloc (dev : Z) : K ks Z :=
  s ← kget; balloc_loop (S (Z.to_nat (sb_size (sb s)))) dev 0.

Definition bfree (dev b : Z) : K ks unit :=
  s ← kget;
  let bb := BBLOCK b (sb s) in
  d ← bread dev bb;
  let bi := b mod BPB in
  if Z.land (byte_of d bi) (bit_of bi) =? 0 then panic "freeing free block"
  else
    bstore bb (<[Z.to_nat (bi / 8) := Z.land (byte_of d bi) (Z.lnot (bit_of bi))]> d);;
    log_write bb;;
    brelse bb.

(** * Inodes *)

Definition iinit : list inode := replicate (Z.to_nat NINODE) inode0.

(** The loop of [iget]: the entry of the inode, else the first empty entry. *)
Fixpoint iget_scan (l : list inode) (k : nat) (dev inum : Z) (empty : option nat) : nat + option nat :=
  match l with
  | [] => inr empty
  | x :: l =>
      if (i_ref x >? 0) && (i_dev x =? dev) && (i_inum x =? inum) then inl k
      else iget_scan l (S k) dev inum
             (match empty with None => if i_ref x =? 0 then Some k else None | e => e end)
  end.

Definition iget (dev inum : Z) : K ks nat :=
  acquire LItable;;
  s ← kget;
  match iget_scan (itable s) 0 dev inum None with
  | inl i =>
      ip_set i (fun x => with_ref (i_ref x + 1) x);;
      release LItable;;
      mret i
  | inr None => panic "iget: no inodes"
  | inr (Some i) =>
      ip_set i (fun x => Inode dev inum 1 (i_lock x) 0 (i_type x) (i_major x) (i_minor x) (i_nlink x)
                           (i_size x) (i_addrs x));;
      release LItable;;
      mret i
  end.

Fixpoint ialloc_loop (fuel : nat) (dev inum type : Z) : K ks (option nat) :=
  match fuel with
  | O => panic "ialloc: fuel"
  | S fuel =>
      s ← kget;
      if inum <? sb_ninodes (sb s)
      then
        let b := IBLOCK inum (sb s) in
        d ← bread dev b;
        if d_type (get_dinode d (dip_off inum)) =? 0
        then
          bstore b (put (put d (dip_off inum) (replicate 64 0)) (dip_off inum) (le_bytes 2 type));;
          log_write b;;
          brelse b;;
          i ← iget dev inum;
          mret (Some i)
        else brelse b;; ialloc_loop fuel dev (inum + 1) type
      else mret None
  end.

Definition ialloc (dev type : Z) : K ks (option nat) :=
  s ← kget; ialloc_loop (S (Z.to_nat (sb_ninodes (sb s)))) dev 1 type.

Definition iupdate (ip : nat) : K ks unit :=
  s ← kget;
  let x := geti s ip in
  let b := IBLOCK (i_inum x) (sb s) in
  d ← bread (i_dev x) b;
  bstore b (put d (dip_off (i_inum x)) (dinode_bytes (dinode_of x)));;
  log_write b;;
  brelse b.

Definition idup (ip : nat) : K ks nat :=
  acquire LItable;;
  ip_set ip (fun x => with_ref (i_ref x + 1) x);;
  release LItable;;
  mret ip.

Definition ip_lockid (i : nat) : lockid := LSleep (Z.of_nat i).
Definition acquire_ip (i : nat) : K ks unit :=
  acquiresleep (fun s => i_lock (geti s i)) (fun l => updi i (with_lock l)) (ip_lockid i) mypid.
Definition release_ip (i : nat) : K ks unit :=
  releasesleep (fun l => updi i (with_lock l)) (ip_lockid i).
Definition holding_ip (i : nat) : K ks bool :=
  holdingsleep (fun s => i_lock (geti s i)) (ip_lockid i) mypid.

Definition ilock (ip : option nat) : K ks unit :=
  match ip with
  | None => panic "ilock"
  | Some i =>
      x ← ip_get i;
      if i_ref x <? 1 then panic "ilock"
      else
        acquire_ip i;;
        s ← kget;
        let x := geti s i in
        if i_valid x =? 0
        then
          let b := IBLOCK (i_inum x) (sb s) in
          d ← bread (i_dev x) b;
          ip_set i (with_dinode (get_dinode d (dip_off (i_inum x))));;
          brelse b;;
          ip_set i (with_valid 1);;
          x ← ip_get i;
          if i_type x =? 0 then panic "ilock: no type" else mret tt
        else mret tt
  end.

Definition iunlock (ip : option nat) : K ks unit :=
  match ip with
  | None => panic "iunlock"
  | Some i =>
      r ← holding_ip i;
      x ← ip_get i;
      if negb r || (i_ref x <? 1) then panic "iunlock" else release_ip i
  end.

(** * Inode content *)

Definition bmap (ip : nat) (bn : Z) : K ks Z :=
  x ← ip_get ip;
  if bn <? NDIRECT
  then
    if addr x bn =? 0
    then
      a ← balloc (i_dev x);
      if a =? 0 then mret 0 else ip_set ip (with_addr bn a);; mret a
    else mret (addr x bn)
  else
    let bn := bn - NDIRECT in
    if bn <? NINDIRECT
    then
      ind ← (if addr x NDIRECT =? 0
             then
               a ← balloc (i_dev x);
               if a =? 0 then mret 0 else ip_set ip (with_addr NDIRECT a);; mret a
             else mret (addr x NDIRECT));
      if ind =? 0 then mret 0
      else
        d ← bread (i_dev x) ind;
        a ← (if get 4 d (4 * bn) =? 0
             then
               a ← balloc (i_dev x);
               (if a =? 0 then mret tt
                else
                  d ← bdata ind;
                  bstore ind (put d (4 * bn) (le_bytes 4 a));;
                  log_write ind);;
               mret a
             else mret (get 4 d (4 * bn)));
        brelse ind;;
        mret a
    else panic "bmap: out of range".

Fixpoint itrunc_direct (ids : list Z) (ip : nat) : K ks unit :=
  match ids with
  | [] => mret tt
  | i :: ids =>
      x ← ip_get ip;
      (if addr x i =? 0 then mret tt
       else bfree (i_dev x) (addr x i);; ip_set ip (with_addr i 0));;
      itrunc_direct ids ip
  end.

(** The entries [a[j]] of the indirect block. *)
Fixpoint itrunc_indirect (js : list Z) (dev ind : Z) : K ks unit :=
  match js with
  | [] => mret tt
  | j :: js =>
      d ← bdata ind;
      (if get 4 d (4 * j) =? 0 then mret tt else bfree dev (get 4 d (4 * j)));;
      itrunc_indirect js dev ind
  end.

Definition itrunc (ip : nat) : K ks unit :=
  itrunc_direct (seqZ 0 NDIRECT) ip;;
  x ← ip_get ip;
  let ind := addr x NDIRECT in
  (if ind =? 0 then mret tt
   else
     bread (i_dev x) ind;;
     itrunc_indirect (seqZ 0 NINDIRECT) (i_dev x) ind;;
     brelse ind;;
     bfree (i_dev x) ind;;
     ip_set ip (with_addr NDIRECT 0));;
  ip_set ip (with_size 0);;
  iupdate ip.

Definition iput (ip : nat) : K ks unit :=
  acquire LItable;;
  x ← ip_get ip;
  (if (i_ref x =? 1) && negb (i_valid x =? 0) && (i_nlink x =? 0)
   then
     acquire_ip ip;;
     release LItable;;
     itrunc ip;;
     ip_set ip (with_type 0);;
     iupdate ip;;
     ip_set ip (with_valid 0);;
     release_ip ip;;
     acquire LItable
   else mret tt);;
  ip_set ip (fun x => with_ref (i_ref x - 1) x);;
  release LItable.

Definition iunlockput (ip : nat) : K ks unit :=
  iunlock (Some ip);; iput ip.

Definition stati (ip : nat) : K ks stat :=
  x ← ip_get ip;
  mret (Stat (i_dev x) (i_inum x) (i_type x) (i_nlink x) (i_size x)).
