(* ===== verification/FsData.v ===== *)
(** File contents, directories and path names (the second half of kernel/fs.c,
    and [either_copyin] and [either_copyout] of kernel/proc.c).

    Buffers of the cache are values while page buffers, strings and the locals
    whose address is taken live in kernel memory.  A copy between a cache buffer
    and user memory goes through [BUFWIN], where the buffer's data stands in
    kernel memory during the copy; a fault leaves the bytes copied before it.
    What C leaves undefined, a copy past the end of a cache buffer, is the
    outcome [Panic "undefined: ..."].  A loop over the blocks of a range takes
    fuel that covers the blocks the range touches. *)

From S2P Require Import Prelude Mem CString Kern Riscv Kalloc Vm Sleeplock Bio Block Log Huffman Pipe State Fs.

(** * Copies to and from user space *)

(** Kernel addresses of locals: the running process's kernel stack. *)
Definition STACK : Z := 2 ^ 40.
Definition BUFWIN : Z := 2 ^ 41.

Definition either_copyout (user_dst : bool) (dst src len : Z) : K ks Z :=
  p ← mycur;
  if user_dst then on_mm (copyout (p_pagetable p) dst src len)
  else kmodify (fun s => set_km (memmove dst src len (km s)) s);; mret 0.

Definition either_copyin (dst : Z) (user_src : bool) (src len : Z) : K ks Z :=
  p ← mycur;
  if user_src then on_mm (copyin (p_pagetable p) dst src len)
  else kmodify (fun s => set_km (memmove dst src len (km s)) s);; mret 0.

(** The same from and to the bytes of a cache buffer. *)
Definition copyout_buf (user_dst : bool) (dst : Z) (l : list Z) : K ks Z :=
  kmodify (fun s => set_km (stbytes (km s) BUFWIN l) s);;
  either_copyout user_dst dst BUFWIN (Z.of_nat (length l)).

Definition copyin_buf (l : list Z) (user_src : bool) (src : Z) : K ks (Z * list Z) :=
  kmodify (fun s => set_km (stbytes (km s) BUFWIN l) s);;
  r ← either_copyin BUFWIN user_src src (Z.of_nat (length l));
  m ← kgets km;
  mret (r, ldbytes m BUFWIN (length l)).

(** [n] bytes from offset [k] of a cache buffer. *)
Definition buf_slice (b : list Z) (k n : Z) : K ks (list Z) :=
  if k + n <=? Z.of_nat (length b) then mret (take (Z.to_nat n) (drop (Z.to_nat k) b))
  else panic "undefined: read past the end of a buffer".

(** Overwrite the bytes from offset [k] of a cache buffer. *)
Definition buf_copy (b : list Z) (k : Z) (l : list Z) : K ks (list Z) :=
  if k + Z.of_nat (length l) <=? Z.of_nat (length b) then mret (put b k l)
  else panic "undefined: copy past the end of a buffer".

Section data.
Context (end_ : Z).

Definition kalloc : K ks Z := on_mm Kalloc.kalloc.
Definition kfree (pa : Z) : K ks unit := on_mm (Kalloc.kfree end_ pa).

(** * readi *)

Definition chunk (off left : Z) : Z := Z.min left (BSIZE - off mod BSIZE).
Definition block_fuel (n : Z) : nat := Z.to_nat (n / BSIZE) + 3.

(** Uncompressed data, one block at a time. *)
Fixpoint readi_loop (fuel : nat) (ip : nat) (user_dst : bool) (dst off n tot : Z) : K ks Z :=
  match fuel with
  | O => panic "readi: fuel"
  | S fuel =>
      if tot <? n
      then
        x ← ip_get ip;
        b ← bmap ip (off / BSIZE);
        d ← bread (i_dev x) b;
        let m := chunk off (n - tot) in
        l ← buf_slice d (off mod BSIZE) m;
        r ← copyout_buf user_dst dst l;
        brelse b;;
        if r =? -1 then mret (-1)
        else readi_loop fuel ip user_dst (dst + m) (off + m) n (tot + m)
      else mret (s32 tot)
  end.

(** The compressed bytes behind the header, into the page [comp_buf].  [tot] and
    the difference are unsigned, so a [comp_size] below zero counts as large; the
    fuel covers every block a file can have. *)
Fixpoint read_comp (fuel : nat) (ip : nat) (comp_buf comp_size tot : Z) : K ks unit :=
  match fuel with
  | O => panic "readi: fuel"
  | S fuel =>
      if tot <? u32 comp_size
      then
        x ← ip_get ip;
        b ← bmap ip ((tot + sizeof_ch) / BSIZE);
        d ← bread (i_dev x) b;
        let m := chunk (tot + sizeof_ch) (u32 (comp_size - tot)) in
        l ← buf_slice d ((tot + sizeof_ch) mod BSIZE) m;
        kmodify (fun s => set_km (stbytes (km s) (comp_buf + tot) l) s);;
        brelse b;;
        read_comp fuel ip comp_buf comp_size (tot + m)
      else mret tt
  end.

Definition set_cached_buf (a : Z) : K ks unit :=
  kmodify (fun s => set_rdc (Dcache a (cached_inum (rdc s)) (cached_length (rdc s))) s).

(** Fill the cache of the last decompressed file; [Some r] is [return r]. *)
Definition fill_cache (ip : nat) (ch : compression_header) : K ks (option Z) :=
  c ← kgets rdc;
  (if cached_decomp_buf c =? 0 then mret tt
   else kfree (cached_decomp_buf c);; set_cached_buf 0);;
  comp_buf ← kalloc;
  out ← kalloc;
  set_cached_buf out;;
  if (comp_buf =? 0) || (out =? 0)
  then
    (if comp_buf =? 0 then mret tt else kfree comp_buf);;
    (if out =? 0 then mret tt else set_cached_buf 0);;
    mret (Some (-1))
  else
    x ← ip_get ip;
    let comp_size := s32 (i_size x - sizeof_ch) in
    read_comp (Z.to_nat MAXFILE + 2) ip comp_buf comp_size 0;;
    s ← kget;
    let len := s32 (ch_length ch) in
    match decompress_huffman (Some (ldbytes (km s) comp_buf (Z.to_nat comp_size))) comp_size
            (Some (ldbytes (km s) out (Z.to_nat len))) len (huff s) with
    | None => panic "undefined: decompress_huffman"
    | Some (decomp_size, bytes, hs) =>
        kmodify (fun s => set_km (stbytes (km s) out bytes) (set_huff hs s));;
        kfree comp_buf;;
        if decomp_size <? 0
        then kfree out;; set_cached_buf 0;; mret (Some (-1))
        else
          kmodify (fun s => set_rdc (Dcache out (s32 (i_inum x)) len) s);;
          mret None
    end.

(** The branch for a file whose header says it is compressed. *)
Definition readi_compressed (ip : nat) (ch : compression_header) (user_dst : bool) (dst off n : Z) : K ks Z :=
  c ← kgets rdc;
  x ← ip_get ip;
  r ← (if (cached_decomp_buf c =? 0) || negb (u32 (cached_inum c) =? i_inum x)
       then fill_cache ip ch else mret None);
  match r with
  | Some r => mret r
  | None =>
      c ← kgets rdc;
      if off >=? u32 (cached_length c) then mret 0
      else
        let n := if u32 (off + n) >? u32 (cached_length c) then u32 (cached_length c - off) else n in
        r ← either_copyout user_dst dst (cached_decomp_buf c + off) n;
        if r =? -1 then mret (-1) else mret (s32 n)
  end.

Definition readi (ip : nat) (user_dst : bool) (dst off n : Z) : K ks Z :=
  x ← ip_get ip;
  if (off >? i_size x) || (u32 (off + n) <? off) then mret 0
  else
    let n := if u32 (off + n) >? i_size x then u32 (i_size x - off) else n in
    ch ← (if i_type x =? T_FILE
          then
            b ← bmap ip 0;
            d ← bread (i_dev x) b;
            brelse b;;
            mret (Some (ch_of d))
          else mret None);
    match ch with
    | Some ch =>
        if ch_compressed ch =? 1 then readi_compressed ip ch user_dst dst off n
        else readi_loop (block_fuel n) ip user_dst dst off n 0
    | None => readi_loop (block_fuel n) ip user_dst dst off n 0
    end.

(** * writei *)

(** Store [n] bytes of [temp_buf] compressed in the first block, if they become
    fewer; [Some r] is [return r]. *)
Definition try_compress (ip : nat) (temp_buf n : Z) : K ks (option Z) :=
  comp_buf ← kalloc;
  if comp_buf =? 0 then mret None
  else
    s ← kget;
    match compress_huffman (Some (ldbytes (km s) temp_buf (Z.to_nat n))) n
            (Some (ldbytes (km s) comp_buf (Z.to_nat PGSIZE))) PGSIZE (huff s) with
    | None => panic "undefined: compress_huffman"
    | Some (comp_size, comp, hs) =>
        kmodify (fun s => set_km (stbytes (km s) comp_buf comp) (set_huff hs s));;
        if (comp_size >? 0) && (comp_size <? n)
        then
          x ← ip_get ip;
          b ← bmap ip 0;
          d ← bread (i_dev x) b;
          d ← buf_copy d 0 (ch_bytes (Compression_header COMPRESSION_MAGIC 1 n comp_size));
          d ← buf_copy d sizeof_ch (take (Z.to_nat comp_size) comp);
          bstore b d;;
          log_write b;;
          brelse b;;
          ip_set ip (with_size (comp_size + sizeof_ch));;
          iupdate ip;;
          kfree temp_buf;;
          kfree comp_buf;;
          mret (Some (s32 n))
        else kfree comp_buf;; mret None
    end.

(** The branch for a regular file written from its start; [None] falls through
    to the plain write. *)
Definition writei_compressed (ip : nat) (user_src : bool) (src n : Z) : K ks (option Z) :=
  temp_buf ← kalloc;
  if temp_buf =? 0 then mret (Some (-1))
  else
    r ← either_copyin temp_buf user_src src n;
    if r =? -1 then kfree temp_buf;; mret (Some (-1))
    else
      r ← (if n >? sizeof_ch then try_compress ip temp_buf n else mret None);
      match r with
      | Some r => mret (Some r)
      | None => kfree temp_buf;; mret None
      end.

Fixpoint writei_loop (fuel : nat) (ip : nat) (user_src : bool) (src off n tot : Z) : K ks (Z * Z) :=
  match fuel with
  | O => panic "writei: fuel"
  | S fuel =>
      if tot <? n
      then
        x ← ip_get ip;
        b ← bmap ip (off / BSIZE);
        d ← bread (i_dev x) b;
        let m := chunk off (n - tot) in
        l ← buf_slice d (off mod BSIZE) m;
        '(r, l) ← copyin_buf l user_src src;
        bstore b (put d (off mod BSIZE) l);;
        if r =? -1 then brelse b;; mret (tot, off)
        else
          log_write b;;
          brelse b;;
          writei_loop fuel ip user_src (src + m) (off + m) n (tot + m)
      else mret (tot, off)
  end.

Definition writei (ip : nat) (user_src : bool) (src off n : Z) : K ks Z :=
  x ← ip_get ip;
  if (off >? i_size x) || (u32 (off + n) <? off) then mret (-1)
  else if u32 (off + n) >? MAXFILE * BSIZE then mret (-1)
  else
    r ← (if (i_type x =? T_FILE) && (off =? 0) then writei_compressed ip user_src src n else mret None);
    match r with
    | Some r => mret r
    | None =>
        '(tot, off) ← writei_loop (block_fuel n) ip user_src src off n 0;
        x ← ip_get ip;
        (if off >? i_size x then ip_set ip (with_size off) else mret tt);;
        iupdate ip;;
        mret (s32 tot)
    end.

(** * Directories *)

Definition namecmp (s t : Z) (m : mem) : Z := strncmp s t DIRSIZ m.

(** The [struct dirent de] on the kernel stack: a 2-byte inode number and the name. *)
Definition DE : Z := STACK.
Definition de_inum (m : mem) : Z := ldn 2 m DE.
Definition de_name : Z := DE + 2.

Fixpoint dirlookup_loop (fuel : nat) (dp : nat) (name off : Z) : K ks (option (nat * Z)) :=
  match fuel with
  | O => panic "dirlookup: fuel"
  | S fuel =>
      x ← ip_get dp;
      if off <? i_size x
      then
        r ← readi dp false DE off sizeof_dirent;
        if negb (r =? sizeof_dirent) then panic "dirlookup read"
        else
          m ← kgets km;
          if de_inum m =? 0 then dirlookup_loop fuel dp name (off + sizeof_dirent)
          else if namecmp name de_name m =? 0
          then i ← iget (i_dev x) (de_inum m); mret (Some (i, off))
          else dirlookup_loop fuel dp name (off + sizeof_dirent)
      else mret None
  end.

Definition dir_fuel (size : Z) : nat := Z.to_nat (size / sizeof_dirent) + 2.

(** The inode and the offset of its entry ([*poff]). *)
Definition dirlookup (dp : nat) (name : Z) : K ks (option (nat * Z)) :=
  x ← ip_get dp;
  if negb (i_type x =? T_DIR) then panic "dirlookup not DIR"
  else dirlookup_loop (dir_fuel (i_size x)) dp name 0.

(** The offset of the first empty entry, or of the end. *)
Fixpoint empty_loop (fuel : nat) (dp : nat) (off : Z) : K ks Z :=
  match fuel with
  | O => panic "dirlink: fuel"
  | S fuel =>
      x ← ip_get dp;
      if off <? i_size x
      then
        r ← readi dp false DE off sizeof_dirent;
        if negb (r =? sizeof_dirent) then panic "dirlink read"
        else
          m ← kgets km;
          if de_inum m =? 0 then mret off else empty_loop fuel dp (off + sizeof_dirent)
      else mret off
  end.

Definition dirlink (dp : nat) (name inum : Z) : K ks Z :=
  r ← dirlookup dp name;
  match r with
  | Some (ip, _) => iput ip;; mret (-1)
  | None =>
      x ← ip_get dp;
      off ← empty_loop (dir_fuel (i_size x)) dp 0;
      kmodify (fun s => set_km (stn 2 (strncpy de_name name DIRSIZ (km s)) DE inum) s);;
      r ← writei dp false DE off sizeof_dirent;
      if negb (r =? sizeof_dirent) then mret (-1) else mret 0
  end.

(** * Paths *)

Definition SLASH : Z := 47.

(** [while( *path == '/') path++] *)
Fixpoint skip_slashes (fuel : nat) (path : Z) (m : mem) : option Z :=
  match fuel with
  | O => None
  | S fuel => if ld m path =? SLASH then skip_slashes fuel (path + 1) m else Some path
  end.

(** [while( *path != '/' && *path != 0) path++] *)
Fixpoint elem_end (fuel : nat) (path : Z) (m : mem) : option Z :=
  match fuel with
  | O => None
  | S fuel =>
      if negb (ld m path =? SLASH) && negb (ld m path =? 0) then elem_end fuel (path + 1) m else Some path
  end.

(** The new path, 0 for null, and the memory with [name] filled in. *)
Definition skipelem (fuel : nat) (path name : Z) (m : mem) : option (Z * mem) :=
  path ← skip_slashes fuel path m;
  if ld m path =? 0 then Some (0, m)
  else
    let s := path in
    path ← elem_end fuel path m;
    let len := path - s in
    let m := if len >=? DIRSIZ then memmove name s DIRSIZ m
             else st (memmove name s len m) (name + len) 0 in
    path ← skip_slashes fuel path m;
    Some (path, m).

Fixpoint namex_loop (fuel : nat) (ip : nat) (path : Z) (nameiparent : bool) (name : Z) : K ks (option nat) :=
  match fuel with
  | O => panic "namex: fuel"
  | S fuel' =>
      m ← kgets km;
      match skipelem (S (Z.to_nat MAXPATH)) path name m with
      | None => panic "namex: fuel"
      | Some (path, m) =>
          kmodify (set_km m);;
          if path =? 0
          then if nameiparent then iput ip;; mret None else mret (Some ip)
          else
            ilock (Some ip);;
            x ← ip_get ip;
            if negb (i_type x =? T_DIR) then iunlockput ip;; mret None
            else if nameiparent && (ld m path =? 0) then iunlock (Some ip);; mret (Some ip)
            else
              r ← dirlookup ip name;
              match r with
              | None => iunlockput ip;; mret None
              | Some (next, _) => iunlockput ip;; namex_loop fuel' next path nameiparent name
              end
      end
  end.

Definition namex (path : Z) (nameiparent : bool) (name : Z) : K ks (option nat) :=
  s ← kget;
  ip ← (if ld (km s) path =? SLASH then iget ROOTDEV ROOTINO else idup (default 0%nat (p_cwd (getp s (me s)))));
  namex_loop (S (Z.to_nat MAXPATH)) ip path nameiparent name.

(** [namei]'s own buffer for the name. *)
Definition NAMEBUF : Z := STACK + 64.

Definition namei (path : Z) : K ks (option nat) := namex path false NAMEBUF.
Definition nameiparent (path name : Z) : K ks (option nat) := namex path true name.

End data.
