(* ===== verification/FileOps.v ===== *)
(** Open files (kernel/file.c) and the ends of pipes (kernel/pipe.c).

    [devsw] is filled in by the drivers at boot; its entries are arguments here.
    A read or write that has to wait on a pipe is the outcome [Panic "sleep"]: what
    happens from one wakeup to the next is the step relation of Pipe.v. *)

From S2P Require Import Prelude Mem CString Kern Riscv Kalloc Vm Sleeplock Bio Block Log Huffman Pipe State Wakeup Fs FsData.

Section files.
Context (end_ : Z).
(** [devsw[major].read] and [devsw[major].write], null if no driver registered. *)
Context (devread devwrite : Z -> option (bool -> Z -> Z -> K ks Z)).

Definition begin_op : K ks unit := on_log Log.begin_op.
Definition end_op : K ks unit := on_log Log.end_op.

Definition set_ref (k : Z) (f : file) : file :=
  File (f_type f) k (f_readable f) (f_writable f) (f_pipe f) (f_ip f) (f_off f) (f_major f).
Definition set_ftype (t : ftype) (f : file) : file :=
  File t (f_ref f) (f_readable f) (f_writable f) (f_pipe f) (f_ip f) (f_off f) (f_major f).
Definition set_off (z : Z) (f : file) : file :=
  File (f_type f) (f_ref f) (f_readable f) (f_writable f) (f_pipe f) (f_ip f) z (f_major f).
Definition set_rw (r w : Z) (f : file) : file :=
  File (f_type f) (f_ref f) r w (f_pipe f) (f_ip f) (f_off f) (f_major f).
Definition set_pipe (a : Z) (f : file) : file :=
  File (f_type f) (f_ref f) (f_readable f) (f_writable f) a (f_ip f) (f_off f) (f_major f).
Definition set_ip (i : nat) (f : file) : file :=
  File (f_type f) (f_ref f) (f_readable f) (f_writable f) (f_pipe f) i (f_off f) (f_major f).
Definition set_major (m : Z) (f : file) : file :=
  File (f_type f) (f_ref f) (f_readable f) (f_writable f) (f_pipe f) (f_ip f) (f_off f) m.

(** The first entry with no references. *)
Definition free_file (l : list file) : option nat := fst <$> list_find (fun f => f_ref f = 0) l.

Definition filealloc : K ks (option nat) :=
  acquire LFtable;;
  s ← kget;
  match free_file (ftable s) with
  | Some i => f_set i (set_ref 1);; release LFtable;; mret (Some i)
  | None => release LFtable;; mret None
  end.

Definition filedup (i : nat) : K ks nat :=
  acquire LFtable;;
  f ← f_get i;
  if f_ref f <? 1 then panic "filedup"
  else f_set i (set_ref (f_ref f + 1));; release LFtable;; mret i.

(** The channels [&pi->nread] and [&pi->nwrite]. *)
Definition nread_chan (pi : Z) : Z := pi + 536.
Definition nwrite_chan (pi : Z) : Z := pi + 540.

Definition pipeclose (pi : Z) (writable : Z) : K ks unit :=
  acquire (LPipe pi);;
  kmodify (fun s => set_pipes (alter (pipe_close (negb (writable =? 0))) pi (pipes s)) s);;
  wakeup (if negb (writable =? 0) then nread_chan pi else nwrite_chan pi);;
  s ← kget;
  match pipes s !! pi with
  | None => panic "undefined: no such pipe"
  | Some x =>
      if (readopen x =? 0) && (writeopen x =? 0)
      then
        release (LPipe pi);;
        kfree end_ pi;;
        kmodify (fun s => set_pipes (delete pi (pipes s)) s)
      else release (LPipe pi)
  end.

Definition fileclose (i : nat) : K ks unit :=
  acquire LFtable;;
  f ← f_get i;
  if f_ref f <? 1 then panic "fileclose"
  else
    f_set i (set_ref (f_ref f - 1));;
    if f_ref f - 1 >? 0 then release LFtable
    else
      ff ← f_get i;
      f_set i (fun f => set_ftype FD_NONE (set_ref 0 f));;
      release LFtable;;
      match f_type ff with
      | FD_PIPE => pipeclose (f_pipe ff) (f_writable ff)
      | FD_INODE | FD_DEVICE => begin_op;; iput (f_ip ff);; end_op
      | FD_NONE => mret tt
      end.

(** [struct stat] in memory: 24 bytes, four of them padding that is not set. *)
Definition STATBUF : Z := STACK + 128.
Definition stat_store (x : stat) (m : mem) : mem :=
  stn 8 (stn 2 (stn 2 (stn 4 (stn 4 m STATBUF (st_dev x)) (STATBUF + 4) (st_ino x)) (STATBUF + 8) (st_type x))
           (STATBUF + 10) (st_nlink x)) (STATBUF + 16) (st_size x).

Definition filestat (i : nat) (addr : Z) : K ks Z :=
  p ← mycur;
  f ← f_get i;
  match f_type f with
  | FD_INODE | FD_DEVICE =>
      ilock (Some (f_ip f));;
      x ← stati (f_ip f);
      kmodify (fun s => set_km (stat_store x (km s)) s);;
      iunlock (Some (f_ip f));;
      r ← on_mm (copyout (p_pagetable p) addr STATBUF 24);
      if r <? 0 then mret (-1) else mret 0
  | _ => mret (-1)
  end.

(** * Pipes *)

(** One [char ch] on the stack. *)
Definition CHBUF : Z := STACK + 160.

Fixpoint pipewrite_loop (fuel : nat) (pi addr n i : Z) : K ks Z :=
  match fuel with
  | O => panic "pipewrite: fuel"
  | S fuel =>
      if i <? n
      then
        s ← kget;
        let pr := getp s (me s) in
        match pipes s !! pi with
        | None => panic "undefined: no such pipe"
        | Some x =>
            k ← (if readopen x =? 0 then mret 1 else killed (me s));
            if negb (k =? 0) then release (LPipe pi);; mret (-1)
            else if pipe_full x then wakeup (nread_chan pi);; panic "sleep"
            else
              r ← on_mm (copyin (p_pagetable pr) CHBUF (u64 (addr + i)) 1);
              if r =? -1 then wakeup (nread_chan pi);; release (LPipe pi);; mret i
              else
                kmodify (fun s => set_pipes (<[pi := put_byte (ld (km s) CHBUF) x]> (pipes s)) s);;
                pipewrite_loop fuel pi addr n (i + 1)
        end
      else wakeup (nread_chan pi);; release (LPipe pi);; mret i
  end.

Definition pipewrite (pi addr n : Z) : K ks Z :=
  acquire (LPipe pi);;
  pipewrite_loop (Z.to_nat PIPESIZE + 2) pi addr n 0.

Fixpoint piperead_loop (fuel : nat) (pi addr n i : Z) : K ks Z :=
  match fuel with
  | O => panic "piperead: fuel"
  | S fuel =>
      if i <? n
      then
        s ← kget;
        let pr := getp s (me s) in
        match pipes s !! pi with
        | None => panic "undefined: no such pipe"
        | Some x =>
            if pipe_empty x then wakeup (nwrite_chan pi);; release (LPipe pi);; mret i
            else
              let '(ch, x) := get_byte x in
              kmodify (fun s => set_pipes (<[pi := x]> (pipes s)) s);;
              kmodify (fun s => set_km (st (km s) CHBUF ch) s);;
              r ← on_mm (copyout (p_pagetable pr) (u64 (addr + i)) CHBUF 1);
              if r =? -1 then wakeup (nwrite_chan pi);; release (LPipe pi);; mret i
              else piperead_loop fuel pi addr n (i + 1)
        end
      else wakeup (nwrite_chan pi);; release (LPipe pi);; mret i
  end.

Definition piperead (pi addr n : Z) : K ks Z :=
  acquire (LPipe pi);;
  s ← kget;
  match pipes s !! pi with
  | None => panic "undefined: no such pipe"
  | Some x =>
      if pipe_empty x && negb (writeopen x =? 0)
      then
        k ← killed (me s);
        if negb (k =? 0) then release (LPipe pi);; mret (-1)
        else panic "sleep"
      else piperead_loop (Z.to_nat PIPESIZE + 2) pi addr n 0
  end.

(** On success the two files, for reading and for writing. *)
Definition pipealloc : K ks (option (nat * nat)) :=
  f0 ← filealloc;
  match f0 with
  | None => mret None
  | Some f0 =>
      f1 ← filealloc;
      match f1 with
      | None => fileclose f0;; mret None
      | Some f1 =>
          pi ← kalloc;
          if pi =? 0 then fileclose f0;; fileclose f1;; mret None
          else
            kmodify (fun s => set_pipes (<[pi := pipe_new]> (pipes s)) s);;
            f_set f0 (fun f => set_pipe pi (set_rw 1 0 (set_ftype FD_PIPE f)));;
            f_set f1 (fun f => set_pipe pi (set_rw 0 1 (set_ftype FD_PIPE f)));;
            mret (Some (f0, f1))
      end
  end.

(** * Reading and writing *)

Definition dev_entry (tbl : Z -> option (bool -> Z -> Z -> K ks Z)) (major : Z) : option (bool -> Z -> Z -> K ks Z) :=
  if (major <? 0) || (major >=? NDEV) then None else tbl major.

Definition fileread (i : nat) (addr n : Z) : K ks Z :=
  f ← f_get i;
  if f_readable f =? 0 then mret (-1)
  else
    match f_type f with
    | FD_PIPE => piperead (f_pipe f) addr n
    | FD_DEVICE =>
        match dev_entry devread (f_major f) with
        | None => mret (-1)
        | Some rd => rd true addr n
        end
    | FD_INODE =>
        ilock (Some (f_ip f));;
        r ← readi end_ (f_ip f) true addr (f_off f) (u32 n);
        (if r >? 0 then f_set i (fun f => set_off (u32 (f_off f + r)) f) else mret tt);;
        iunlock (Some (f_ip f));;
        mret r
    | FD_NONE => panic "fileread"
    end.

Definition max_write : Z := ((MAXOPBLOCKS - 1 - 1 - 2) / 2) * BSIZE.

(** The loop over [max]-byte pieces, one transaction each; returns [i]. *)
Fixpoint filewrite_loop (fuel : nat) (i : nat) (addr n done : Z) : K ks Z :=
  match fuel with
  | O => panic "filewrite: fuel"
  | S fuel =>
      if done <? n
      then
        let n1 := if n - done >? max_write then max_write else n - done in
        begin_op;;
        f ← f_get i;
        ilock (Some (f_ip f));;
        r ← writei end_ (f_ip f) true (u64 (addr + done)) (f_off f) (u32 n1);
        (if r >? 0 then f_set i (fun f => set_off (u32 (f_off f + r)) f) else mret tt);;
        iunlock (Some (f_ip f));;
        end_op;;
        if negb (r =? n1) then mret done else filewrite_loop fuel i addr n (done + r)
      else mret done
  end.

Definition filewrite (i : nat) (addr n : Z) : K ks Z :=
  f ← f_get i;
  if f_writable f =? 0 then mret (-1)
  else
    match f_type f with
    | FD_PIPE => pipewrite (f_pipe f) addr n
    | FD_DEVICE =>
        match dev_entry devwrite (f_major f) with
        | None => mret (-1)
        | Some wr => wr true addr n
        end
    | FD_INODE =>
        done ← filewrite_loop (Z.to_nat (n / max_write) + 2) i addr n 0;
        mret (if done =? n then n else -1)
    | FD_NONE => panic "filewrite"
    end.

End files.
