(* ===== verification/Frame.v ===== *)
(** What the file system and the open files leave alone.

    [keeps R m] says that operation [m], whenever it returns, takes its state to
    one related by [R].  For a preorder [R] this is closed under sequencing, so
    that one tactic walks through a whole operation; loops are by induction on
    their fuel.  The instance here: no operation of kernel/fs.c, kernel/file.c or
    kernel/pipe.c touches the process table, the current process or [nextpid]. *)

From S2P Require Import Prelude Mem CString Kern Riscv Kalloc Vm Sleeplock Bio Block Log Huffman Pipe State Wakeup Fs FsData FileOps.

Definition keeps {A} (R : ks -> ks -> Prop) (m : K ks A) : Prop :=
  forall h s a h' s', m h s = Ok a h' s' -> R s s'.

Section keeps.
Context (R : ks -> ks -> Prop) {HR : PreOrder R}.

Lemma keeps_ret {A} (a : A) : keeps R (mret a).
Proof. intros h s x h' s' [= <- <- <-]. reflexivity. Qed.

Lemma keeps_bind {A B} (m : K ks A) (f : A -> K ks B) :
  keeps R m -> (forall a, keeps R (f a)) -> keeps R (m ≫= f).
Proof.
  intros Hm Hf h s b h' s' H. apply bind_inv in H as (a & h1 & s1 & H1 & H2).
  transitivity s1; [by eapply Hm|by eapply Hf].
Qed.

Lemma keeps_kget : keeps R kget.
Proof. intros h s x h' s' [= <- <- <-]. reflexivity. Qed.

Lemma keeps_kgets {A} (f : ks -> A) : keeps R (kgets f).
Proof. intros h s x h' s' [= <- <- <-]. reflexivity. Qed.

Lemma keeps_panic {A} msg : keeps R (panic (A := A) msg).
Proof. by intros h s x h' s'. Qed.

Lemma keeps_acquire lk : keeps R (acquire lk).
Proof. intros h s x h' s'. unfold acquire. case_decide; [done|]. intros [= <- <- <-]. reflexivity. Qed.

Lemma keeps_release lk : keeps R (release lk).
Proof. intros h s x h' s'. unfold release. case_decide; [|done]. intros [= <- <- <-]. reflexivity. Qed.

Lemma keeps_kmodify f : (forall s, R s (f s)) -> keeps R (kmodify f).
Proof. intros H h s x h' s' [= <- <- <-]. apply H. Qed.

Lemma keeps_on_log {A} (m : K lst A) : (forall s x, R s (set_flog x s)) -> keeps R (on_log m).
Proof. intros H h s x h' s'. unfold on_log, zoom. destruct (m h (flog s)); [|done]. intros [= <- <- <-]. apply H. Qed.

Lemma keeps_on_mm {A} (m : K kst A) : (forall s x, R s (set_mm x s)) -> keeps R (on_mm m).
Proof. intros H h s x h' s'. unfold on_mm, zoom. destruct (m h (mm s)); [|done]. intros [= <- <- <-]. apply H. Qed.
End keeps.

(** Sleep locks kept in the state. *)
Section sleeplock.
Context (R : ks -> ks -> Prop) {HR : PreOrder R}.
Context (get : ks -> sleeplock) (set : sleeplock -> ks -> ks) (lid : lockid) (pid : ks -> Z).
Hypothesis Hset : forall l s, R s (set l s).

Lemma keeps_acquiresleep : keeps R (acquiresleep get set lid pid).
Proof.
  apply keeps_bind; [done|by apply keeps_acquire|]. intros _. apply keeps_bind; [done|by apply keeps_kget|].
  intros s. destruct (negb _); [apply keeps_panic|]. apply keeps_bind; [done| |intros _; by apply keeps_release].
  apply keeps_kmodify. intros s'. apply Hset.
Qed.

Lemma keeps_releasesleep : keeps R (releasesleep set lid).
Proof.
  apply keeps_bind; [done|by apply keeps_acquire|]. intros _.
  apply keeps_bind; [done| |intros _; by apply keeps_release]. apply keeps_kmodify. apply Hset.
Qed.

Lemma keeps_holdingsleep : keeps R (holdingsleep get lid pid).
Proof.
  apply keeps_bind; [done|by apply keeps_acquire|]. intros _. apply keeps_bind; [done|by apply keeps_kget|].
  intros s. apply keeps_bind; [done|by apply keeps_release|]. intros _. by apply keeps_ret.
Qed.
End sleeplock.

Create HintDb frame discriminated.
#[export] Hint Constants Opaque : frame.

(** Walk through an operation: binds, tests and matches are taken apart, calls of
    operations already treated are found in the database. *)
Ltac keeps_tac :=
  cbv zeta;
  lazymatch goal with
  | |- keeps _ (mbind _ _) => apply keeps_bind; [exact _|keeps_tac|intros ?; keeps_tac]
  | |- keeps _ (mret _) => apply keeps_ret; exact _
  | |- keeps _ kget => apply keeps_kget; exact _
  | |- keeps _ (kgets _) => apply keeps_kgets; exact _
  | |- keeps _ (panic _) => apply keeps_panic
  | |- keeps _ (acquire _) => apply keeps_acquire; exact _
  | |- keeps _ (release _) => apply keeps_release; exact _
  | |- keeps _ (kmodify _) => apply keeps_kmodify; intros ?; solve [auto with frame]
  | |- keeps _ (on_log _) => apply keeps_on_log; intros ? ?; solve [auto with frame]
  | |- keeps _ (on_mm _) => apply keeps_on_mm; intros ? ?; solve [auto with frame]
  | |- keeps _ (acquiresleep _ _ _ _) => apply keeps_acquiresleep; [exact _|intros ? ?; solve [auto with frame]]
  | |- keeps _ (releasesleep _ _) => apply keeps_releasesleep; [exact _|intros ? ?; solve [auto with frame]]
  | |- keeps _ (holdingsleep _ _ _) => apply keeps_holdingsleep; exact _
  | |- keeps _ (match ?x with _ => _ end) => destruct x; keeps_tac
  | |- keeps _ _ => solve [eauto with frame]
  end.

(** * The process table *)

Definition same_procs (s s' : ks) : Prop :=
  procs s' = procs s /\ me s' = me s /\ nextpid s' = nextpid s /\ initproc s' = initproc s /\ ticks s' = ticks s.

#[export] Instance same_procs_preorder : PreOrder same_procs.
Proof.
  split; [by intros s|]. intros s1 s2 s3 (?&?&?&?&?) (?&?&?&?&?). unfold same_procs. split_and!; congruence.
Qed.

#[export] Hint Extern 1 (same_procs _ _) => (repeat split; reflexivity) : frame.

(** And the table of open files: what the operations of the file system leave alone. *)
Definition same_tabs (s s' : ks) : Prop := same_procs s s' /\ ftable s' = ftable s.

#[export] Instance same_tabs_preorder : PreOrder same_tabs.
Proof.
  split; [by intros s; split|]. intros s1 s2 s3 [? ?] [? ?]. split; [by transitivity s2|congruence].
Qed.

Abbreviation fsok := (keeps same_tabs).

Lemma keeps_tabs {A} (m : K ks A) : fsok m -> keeps same_procs m.
Proof. intros H h s a h' s' E. by destruct (H _ _ _ _ _ E). Qed.

#[export] Hint Extern 1 (same_tabs _ _) => (repeat split; reflexivity) : frame.
#[export] Hint Extern 4 (keeps same_procs _) => (apply keeps_tabs; solve [eauto with frame]) : frame.

Lemma fs_bread dev b : fsok (bread dev b). Proof. unfold bread. keeps_tac. Qed.
Lemma fs_bdata b : fsok (bdata b). Proof. unfold bdata. keeps_tac. Qed.
Lemma fs_bstore b d : fsok (bstore b d). Proof. unfold bstore. keeps_tac. Qed.
Lemma fs_brelse b : fsok (brelse b). Proof. unfold brelse. keeps_tac. Qed.
Lemma fs_log_write b : fsok (log_write b). Proof. unfold log_write. keeps_tac. Qed.
Lemma fs_ip_get i : fsok (ip_get i). Proof. unfold ip_get. keeps_tac. Qed.
Lemma fs_ip_set i f : fsok (ip_set i f). Proof. unfold ip_set. keeps_tac. Qed.
Lemma fs_f_get i : fsok (f_get i). Proof. unfold f_get. keeps_tac. Qed.
Lemma sp_f_set i f : keeps same_procs (f_set i f). Proof. unfold f_set. keeps_tac. Qed.
Lemma fs_mycur : fsok mycur. Proof. unfold mycur. keeps_tac. Qed.
Lemma fs_myproc : fsok myproc. Proof. unfold myproc. keeps_tac. Qed.
#[export] Hint Resolve fs_bread fs_bdata fs_bstore fs_brelse fs_log_write fs_ip_get fs_ip_set fs_f_get sp_f_set
  fs_mycur fs_myproc : frame.

Lemma fs_bzero dev b : fsok (bzero dev b). Proof. unfold bzero. keeps_tac. Qed.
#[export] Hint Resolve fs_bzero : frame.
Lemma fs_balloc_loop fuel dev b : fsok (balloc_loop fuel dev b).
Proof. revert b. induction fuel; intros b; cbn [balloc_loop]; keeps_tac. Qed.
#[export] Hint Resolve fs_balloc_loop : frame.
Lemma fs_balloc dev : fsok (balloc dev). Proof. unfold balloc. keeps_tac. Qed.
Lemma fs_bfree dev b : fsok (bfree dev b). Proof. unfold bfree. keeps_tac. Qed.
Lemma fs_iget dev inum : fsok (iget dev inum). Proof. unfold iget. keeps_tac. Qed.
#[export] Hint Resolve fs_balloc fs_bfree fs_iget : frame.
Lemma fs_ialloc_loop fuel dev inum type : fsok (ialloc_loop fuel dev inum type).
Proof. revert inum. induction fuel; intros inum; cbn [ialloc_loop]; keeps_tac. Qed.
#[export] Hint Resolve fs_ialloc_loop : frame.
Lemma fs_ialloc dev type : fsok (ialloc dev type). Proof. unfold ialloc. keeps_tac. Qed.
Lemma fs_iupdate ip : fsok (iupdate ip). Proof. unfold iupdate. keeps_tac. Qed.
Lemma fs_idup ip : fsok (idup ip). Proof. unfold idup. keeps_tac. Qed.
Lemma fs_acquire_ip i : fsok (acquire_ip i). Proof. unfold acquire_ip. keeps_tac. Qed.
Lemma fs_release_ip i : fsok (release_ip i). Proof. unfold release_ip. keeps_tac. Qed.
Lemma fs_holding_ip i : fsok (holding_ip i). Proof. unfold holding_ip. keeps_tac. Qed.
#[export] Hint Resolve fs_ialloc fs_iupdate fs_idup fs_acquire_ip fs_release_ip fs_holding_ip : frame.
Lemma fs_ilock ip : fsok (ilock ip). Proof. unfold ilock. keeps_tac. Qed.
Lemma fs_iunlock ip : fsok (iunlock ip). Proof. unfold iunlock. keeps_tac. Qed.
Lemma fs_bmap ip bn : fsok (bmap ip bn). Proof. unfold bmap. keeps_tac. Qed.
Lemma fs_itrunc_direct ids ip : fsok (itrunc_direct ids ip).
Proof. induction ids; cbn [itrunc_direct]; keeps_tac. Qed.
Lemma fs_itrunc_indirect js dev ind : fsok (itrunc_indirect js dev ind).
Proof. induction js; cbn [itrunc_indirect]; keeps_tac. Qed.
#[export] Hint Resolve fs_ilock fs_iunlock fs_bmap fs_itrunc_direct fs_itrunc_indirect : frame.
Lemma fs_itrunc ip : fsok (itrunc ip). Proof. unfold itrunc. keeps_tac. Qed.
#[export] Hint Resolve fs_itrunc : frame.
Lemma fs_iput ip : fsok (iput ip). Proof. unfold iput. keeps_tac. Qed.
#[export] Hint Resolve fs_iput : frame.
Lemma fs_iunlockput ip : fsok (iunlockput ip). Proof. unfold iunlockput. keeps_tac. Qed.
Lemma fs_stati ip : fsok (stati ip). Proof. unfold stati. keeps_tac. Qed.
#[export] Hint Resolve fs_iunlockput fs_stati : frame.

Section data.
Context (end_ : Z).

Lemma fs_either_copyout u d x n : fsok (either_copyout u d x n). Proof. unfold either_copyout. keeps_tac. Qed.
Lemma fs_either_copyin d u x n : fsok (either_copyin d u x n). Proof. unfold either_copyin. keeps_tac. Qed.
#[local] Hint Resolve fs_either_copyout fs_either_copyin : frame.
Lemma fs_copyout_buf u d l : fsok (copyout_buf u d l). Proof. unfold copyout_buf. keeps_tac. Qed.
Lemma fs_copyin_buf l u x : fsok (copyin_buf l u x). Proof. unfold copyin_buf. keeps_tac. Qed.
Lemma fs_buf_slice b k n : fsok (buf_slice b k n). Proof. unfold buf_slice. keeps_tac. Qed.
Lemma fs_buf_copy b k l : fsok (buf_copy b k l). Proof. unfold buf_copy. keeps_tac. Qed.
Lemma fs_kalloc : fsok kalloc. Proof. unfold kalloc. keeps_tac. Qed.
Lemma fs_kfree pa : fsok (kfree end_ pa). Proof. unfold kfree. keeps_tac. Qed.
#[local] Hint Resolve fs_copyout_buf fs_copyin_buf fs_buf_slice fs_buf_copy fs_kalloc fs_kfree : frame.
Lemma fs_readi_loop fuel ip u dst off n tot : fsok (readi_loop fuel ip u dst off n tot).
Proof. revert dst off tot. induction fuel; intros dst off tot; cbn [readi_loop]; keeps_tac. Qed.
Lemma fs_read_comp fuel ip b n tot : fsok (read_comp fuel ip b n tot).
Proof. revert tot. induction fuel; intros tot; cbn [read_comp]; keeps_tac. Qed.
#[local] Hint Resolve fs_readi_loop fs_read_comp : frame.
Lemma fs_set_cached_buf a : fsok (set_cached_buf a). Proof. unfold set_cached_buf. keeps_tac. Qed.
#[local] Hint Resolve fs_set_cached_buf : frame.
Lemma fs_fill_cache ip ch : fsok (fill_cache end_ ip ch). Proof. unfold fill_cache. keeps_tac. Qed.
#[local] Hint Resolve fs_fill_cache : frame.
Lemma fs_readi_compressed ip ch u dst off n : fsok (readi_compressed end_ ip ch u dst off n).
Proof. unfold readi_compressed. keeps_tac. Qed.
#[local] Hint Resolve fs_readi_compressed : frame.
Lemma fs_readi ip u dst off n : fsok (readi end_ ip u dst off n). Proof. unfold readi. keeps_tac. Qed.
Lemma fs_try_compress ip b n : fsok (try_compress end_ ip b n). Proof. unfold try_compress. keeps_tac. Qed.
#[local] Hint Resolve fs_readi fs_try_compress : frame.
Lemma fs_writei_compressed ip u src n : fsok (writei_compressed end_ ip u src n).
Proof. unfold writei_compressed. keeps_tac. Qed.
Lemma fs_writei_loop fuel ip u src off n tot : fsok (writei_loop fuel ip u src off n tot).
Proof. revert src off tot. induction fuel; intros src off tot; cbn [writei_loop]; keeps_tac. Qed.
#[local] Hint Resolve fs_writei_compressed fs_writei_loop : frame.
Lemma fs_writei ip u src off n : fsok (writei end_ ip u src off n). Proof. unfold writei. keeps_tac. Qed.
#[local] Hint Resolve fs_writei : frame.
Lemma fs_dirlookup_loop fuel dp name off : fsok (dirlookup_loop end_ fuel dp name off).
Proof. revert off. induction fuel; intros off; cbn [dirlookup_loop]; keeps_tac. Qed.
#[local] Hint Resolve fs_dirlookup_loop : frame.
Lemma fs_dirlookup dp name : fsok (dirlookup end_ dp name). Proof. unfold dirlookup. keeps_tac. Qed.
Lemma fs_empty_loop fuel dp off : fsok (empty_loop end_ fuel dp off).
Proof. revert off. induction fuel; intros off; cbn [empty_loop]; keeps_tac. Qed.
#[local] Hint Resolve fs_dirlookup fs_empty_loop : frame.
Lemma fs_dirlink dp name inum : fsok (dirlink end_ dp name inum). Proof. unfold dirlink. keeps_tac. Qed.
Lemma fs_namex_loop fuel ip path np name : fsok (namex_loop end_ fuel ip path np name).
Proof. revert ip path. induction fuel; intros ip path; cbn [namex_loop]; keeps_tac. Qed.
#[local] Hint Resolve fs_dirlink fs_namex_loop : frame.
Lemma fs_namex path np name : fsok (namex end_ path np name). Proof. unfold namex. keeps_tac. Qed.
#[local] Hint Resolve fs_namex : frame.
Lemma fs_namei path : fsok (namei end_ path). Proof. unfold namei. keeps_tac. Qed.
Lemma fs_nameiparent path name : fsok (nameiparent end_ path name). Proof. unfold nameiparent. keeps_tac. Qed.

Context (devread devwrite : Z -> option (bool -> Z -> Z -> K ks Z)).
Lemma fs_begin_op : fsok begin_op. Proof. unfold begin_op. keeps_tac. Qed.
Lemma fs_end_op : fsok end_op. Proof. unfold end_op. keeps_tac. Qed.
#[local] Hint Resolve fs_begin_op fs_end_op : frame.
Lemma sp_filealloc : keeps same_procs filealloc. Proof. unfold filealloc. keeps_tac. Qed.
Lemma sp_filedup i : keeps same_procs (filedup i). Proof. unfold filedup. keeps_tac. Qed.
#[local] Hint Resolve sp_filealloc sp_filedup : frame.
Lemma fs_filestat i a : fsok (filestat i a). Proof. unfold filestat. keeps_tac. Qed.
End data.

#[export] Hint Resolve fs_either_copyout fs_either_copyin fs_kalloc fs_kfree fs_readi fs_writei fs_dirlookup fs_dirlink
  fs_namei fs_nameiparent fs_begin_op fs_end_op sp_filealloc sp_filedup fs_filestat : frame.
