(* ===== verification/ProcOps.v ===== *)
(** Processes (kernel/proc.c).

    The process table is [procs]; [parent] is an index into it.  Everything that
    hangs from a process is the real thing: [allocproc] builds its page table with
    Vm.v in kernel memory, [fork] copies user memory, duplicates files and the
    current directory, [exit] closes them and [wait] frees the rest.

    A process gives up its CPU in [sched].  The code up to the context switch and
    the code after it are separate definitions ([sleep_enter] and [sleep_leave],
    [yield_enter] and [yield_leave]; [exit] never comes back); the scheduler's side
    is [sched_pick] and [sched_back].  [wait] is one pass over the table: a call
    that finds only live children goes to sleep, the outcome [Panic "sleep"].
    [procdump] only prints.  [wakeup], [killed] and [setkilled] are in Wakeup.v. *)

From S2P Require Import Prelude Mem CString Kern Riscv Kalloc Vm Sleeplock Bio Block Log Huffman Pipe State Wakeup Fs FsData FileOps.

Definition set_xstate (x : Z) (p : proc) : proc :=
  Proc (p_state p) (p_chan p) (p_killed p) x (p_pid p) (p_parent p) (p_kstack p) (p_sz p) (p_pagetable p) (p_trapframe p) (p_context p) (p_ofile p) (p_cwd p) (p_name p).
Definition set_pid (x : Z) (p : proc) : proc :=
  Proc (p_state p) (p_chan p) (p_killed p) (p_xstate p) x (p_parent p) (p_kstack p) (p_sz p) (p_pagetable p) (p_trapframe p) (p_context p) (p_ofile p) (p_cwd p) (p_name p).
Definition set_parent (x : option nat) (p : proc) : proc :=
  Proc (p_state p) (p_chan p) (p_killed p) (p_xstate p) (p_pid p) x (p_kstack p) (p_sz p) (p_pagetable p) (p_trapframe p) (p_context p) (p_ofile p) (p_cwd p) (p_name p).
Definition set_sz (x : Z) (p : proc) : proc :=
  Proc (p_state p) (p_chan p) (p_killed p) (p_xstate p) (p_pid p) (p_parent p) (p_kstack p) x (p_pagetable p) (p_trapframe p) (p_context p) (p_ofile p) (p_cwd p) (p_name p).
Definition set_pagetable (x : Z) (p : proc) : proc :=
  Proc (p_state p) (p_chan p) (p_killed p) (p_xstate p) (p_pid p) (p_parent p) (p_kstack p) (p_sz p) x (p_trapframe p) (p_context p) (p_ofile p) (p_cwd p) (p_name p).
Definition set_trapframe (x : Z) (p : proc) : proc :=
  Proc (p_state p) (p_chan p) (p_killed p) (p_xstate p) (p_pid p) (p_parent p) (p_kstack p) (p_sz p) (p_pagetable p) x (p_context p) (p_ofile p) (p_cwd p) (p_name p).
Definition set_context (x : context) (p : proc) : proc :=
  Proc (p_state p) (p_chan p) (p_killed p) (p_xstate p) (p_pid p) (p_parent p) (p_kstack p) (p_sz p) (p_pagetable p) (p_trapframe p) x (p_ofile p) (p_cwd p) (p_name p).
Definition set_ofile (fd : Z) (x : option nat) (p : proc) : proc :=
  Proc (p_state p) (p_chan p) (p_killed p) (p_xstate p) (p_pid p) (p_parent p) (p_kstack p) (p_sz p) (p_pagetable p) (p_trapframe p) (p_context p) (<[Z.to_nat fd := x]> (p_ofile p)) (p_cwd p) (p_name p).
Definition set_cwd (x : option nat) (p : proc) : proc :=
  Proc (p_state p) (p_chan p) (p_killed p) (p_xstate p) (p_pid p) (p_parent p) (p_kstack p) (p_sz p) (p_pagetable p) (p_trapframe p) (p_context p) (p_ofile p) x (p_name p).
Definition set_name (x : list Z) (p : proc) : proc :=
  Proc (p_state p) (p_chan p) (p_killed p) (p_xstate p) (p_pid p) (p_parent p) (p_kstack p) (p_sz p) (p_pagetable p) (p_trapframe p) (p_context p) (p_ofile p) (p_cwd p) x.

(** [safestrcpy(dst, src, n)] on arrays of characters, with kernel/string.c's routine. *)
Definition safestrcpy_name (dst src : list Z) (n : Z) : list Z :=
  ldbytes (safestrcpy 0 4096 n (stbytes (stbytes ∅ 0 dst) 4096 src)) 0 (length dst).

(** The address of a process, as a channel to sleep on; 0 is null. *)
Definition proc_chan (p : option nat) : Z :=
  match p with None => 0 | Some i => 2 ^ 42 + Z.of_nat i end.

Definition ofile (p : proc) (fd : Z) : option nat := default None (p_ofile p !! Z.to_nat fd).

Definition procinit : list proc :=
  (fun i => Proc UNUSED 0 0 0 0 None (KSTACK (Z.of_nat i)) 0 0 0 (Context_ 0 0 (replicate 12 0))
                 (replicate 16 None) None (replicate 16 0)) <$> proc_ids.

Definition initcode : list Z :=
  [0x17; 0x05; 0x00; 0x00; 0x13; 0x05; 0x45; 0x02;
   0x97; 0x05; 0x00; 0x00; 0x93; 0x85; 0x35; 0x02;
   0x93; 0x08; 0x70; 0x00; 0x73; 0x00; 0x00; 0x00;
   0x93; 0x08; 0x20; 0x00; 0x73; 0x00; 0x00; 0x00;
   0xef; 0xf0; 0x9f; 0xff; 0x2f; 0x69; 0x6e; 0x69;
   0x74; 0x00; 0x00; 0x24; 0x00; 0x00; 0x00; 0x00;
   0x00; 0x00; 0x00; 0x00].

(** The data segment's copies of [initcode] and of the string "/". *)
Definition INITCODE : Z := STACK + 256.
Definition ROOTSTR : Z := STACK + 320.

(** * Sleeping and waking *)

(** [sched] up to [swtch]: exactly the lock of this process is held, so
    [noff] is 1, and interrupts are off. *)
Definition sched : K ks unit := fun h s =>
  let i := me s in
  if decide (LProc i ∉ h) then Panic "sched p->lock"
  else if negb (length h =? 1)%nat then Panic "sched locks"
  else if decide (p_state (getp s i) = RUNNING) then Panic "sched running"
  else Ok tt h s.

Definition sleep_enter (chan : Z) (lk : lockid) : K ks unit :=
  i ← myproc;
  acquire (LProc i);;
  release lk;;
  p_set i (set_chan chan);;
  p_set i (set_state SLEEPING);;
  sched.

Definition sleep_leave (lk : lockid) : K ks unit :=
  i ← myproc;
  p_set i (set_chan 0);;
  release (LProc i);;
  acquire lk.

Definition yield_enter : K ks unit :=
  i ← myproc;
  acquire (LProc i);;
  p_set i (set_state RUNNABLE);;
  sched.

Definition yield_leave : K ks unit :=
  i ← myproc; release (LProc i).

(** One turn of the scheduler's inner loop: [true] if it switches to process [i],
    with its lock held. *)
Definition sched_pick (i : nat) : K ks bool :=
  acquire (LProc i);;
  p ← p_get i;
  if decide (p_state p = RUNNABLE)
  then p_set i (set_state RUNNING);; kmodify (set_me i);; mret true
  else release (LProc i);; mret false.

(** When the process has switched back. *)
Definition sched_back (i : nat) : K ks unit := release (LProc i).

(** * Killing *)

Fixpoint kill_loop (ids : list nat) (pid : Z) : K ks Z :=
  match ids with
  | [] => mret (-1)
  | i :: ids =>
      acquire (LProc i);;
      p ← p_get i;
      if p_pid p =? pid
      then
        p_set i (set_killed 1);;
        (if decide (p_state p = SLEEPING) then p_set i (set_state RUNNABLE) else mret tt);;
        release (LProc i);;
        mret 0
      else release (LProc i);; kill_loop ids pid
  end.
Definition kill (pid : Z) : K ks Z := kill_loop proc_ids pid.

(** * Creation and destruction *)

Section proc.
Context (end_ trampoline forkret : Z).

Definition allocpid : K ks Z :=
  acquire LPid;;
  s ← kget;
  kmodify (set_nextpid (s32 (nextpid s + 1)));;
  release LPid;;
  mret (nextpid s).

Definition proc_pagetable (i : nat) : K ks Z :=
  p ← p_get i;
  on_mm (
    pagetable ← uvmcreate;
    if pagetable =? 0 then mret 0
    else
      r ← mappages pagetable TRAMPOLINE PGSIZE trampoline (Z.lor PTE_R PTE_X);
      if r <? 0 then uvmfree end_ pagetable 0;; mret 0
      else
        r ← mappages pagetable TRAPFRAME PGSIZE (p_trapframe p) (Z.lor PTE_R PTE_W);
        if r <? 0
        then
          uvmunmap end_ pagetable TRAMPOLINE 1 false;;
          uvmfree end_ pagetable 0;;
          mret 0
        else mret pagetable).

Definition proc_freepagetable (pagetable sz : Z) : K ks unit :=
  on_mm (
    uvmunmap end_ pagetable TRAMPOLINE 1 false;;
    uvmunmap end_ pagetable TRAPFRAME 1 false;;
    uvmfree end_ pagetable sz).

Definition freeproc (i : nat) : K ks unit :=
  p ← p_get i;
  (if p_trapframe p =? 0 then mret tt else kfree end_ (p_trapframe p));;
  p_set i (set_trapframe 0);;
  (if p_pagetable p =? 0 then mret tt else proc_freepagetable (p_pagetable p) (p_sz p));;
  p_set i (fun p => Proc UNUSED 0 0 0 0 None (p_kstack p) 0 0 (p_trapframe p) (p_context p)
                         (p_ofile p) (p_cwd p) (<[0%nat := 0]> (p_name p))).

(** The search; the lock of the process found stays held. *)
Fixpoint allocproc_loop (ids : list nat) : K ks (option nat) :=
  match ids with
  | [] => mret None
  | i :: ids =>
      acquire (LProc i);;
      p ← p_get i;
      if decide (p_state p = UNUSED) then mret (Some i)
      else release (LProc i);; allocproc_loop ids
  end.

Definition allocproc : K ks (option nat) :=
  r ← allocproc_loop proc_ids;
  match r with
  | None => mret None
  | Some i =>
      pid ← allocpid;
      p_set i (fun p => set_state USED (set_pid pid p));;
      tf ← kalloc;
      p_set i (set_trapframe tf);;
      if tf =? 0 then freeproc i;; release (LProc i);; mret None
      else
        pt ← proc_pagetable i;
        p_set i (set_pagetable pt);;
        if pt =? 0 then freeproc i;; release (LProc i);; mret None
        else
          p_set i (fun p => set_context (Context_ forkret (p_kstack p + PGSIZE) (replicate 12 0)) p);;
          mret (Some i)
  end.

(** A null result would fault at the next access; [userinit] runs at boot. *)
Definition userinit : K ks unit :=
  r ← allocproc;
  match r with
  | None => panic "undefined: null process"
  | Some i =>
      kmodify (set_initproc (Some i));;
      kmodify (fun s => set_km (stbytes (km s) INITCODE initcode) s);;
      p ← p_get i;
      on_mm (uvmfirst (p_pagetable p) INITCODE 52);;
      p_set i (set_sz PGSIZE);;
      on_mm (wr64 (p_trapframe p + tf_epc) 0);;
      on_mm (wr64 (p_trapframe p + tf_sp) PGSIZE);;
      p_set i (fun p => set_name (safestrcpy_name (p_name p) [105; 110; 105; 116; 99; 111; 100; 101; 0] 16) p);;
      kmodify (fun s => set_km (stbytes (km s) ROOTSTR [SLASH; 0]) s);;
      ip ← namei end_ ROOTSTR;
      p_set i (set_cwd ip);;
      p_set i (set_state RUNNABLE);;
      release (LProc i)
  end.

Definition growproc (n : Z) : K ks Z :=
  i ← myproc;
  p ← p_get i;
  let sz := p_sz p in
  if n >? 0
  then
    sz ← on_mm (uvmalloc end_ (p_pagetable p) sz (u64 (sz + n)) PTE_W);
    if sz =? 0 then mret (-1) else p_set i (set_sz sz);; mret 0
  else if n <? 0
  then
    sz ← on_mm (uvmdealloc end_ (p_pagetable p) sz (u64 (sz + n)));
    p_set i (set_sz sz);; mret 0
  else mret 0.

Fixpoint dup_files (fds : list Z) (p np : nat) : K ks unit :=
  match fds with
  | [] => mret tt
  | fd :: fds =>
      x ← p_get p;
      match ofile x fd with
      | None => mret tt
      | Some f => f' ← filedup f; p_set np (set_ofile fd (Some f'))
      end;;
      dup_files fds p np
  end.

Definition fork : K ks Z :=
  i ← myproc;
  r ← allocproc;
  match r with
  | None => mret (-1)
  | Some np =>
      p ← p_get i;
      x ← p_get np;
      r ← on_mm (uvmcopy end_ (p_pagetable p) (p_pagetable x) (p_sz p));
      if r <? 0 then freeproc np;; release (LProc np);; mret (-1)
      else
        p_set np (set_sz (p_sz p));;
        kmodify (fun s => set_km (memmove (p_trapframe x) (p_trapframe p) sizeof_trapframe (km s)) s);;
        on_mm (wr64 (p_trapframe x + tf_a 0) 0);;
        dup_files (seqZ 0 NOFILE) i np;;
        cwd ← idup (default 0%nat (p_cwd p));
        p_set np (set_cwd (Some cwd));;
        p_set np (fun x => set_name (safestrcpy_name (p_name x) (p_name p) 16) x);;
        x ← p_get np;
        let pid := p_pid x in
        release (LProc np);;
        acquire LWait;;
        p_set np (set_parent (Some i));;
        release LWait;;
        acquire (LProc np);;
        p_set np (set_state RUNNABLE);;
        release (LProc np);;
        mret pid
  end.

Fixpoint reparent_loop (ids : list nat) (p : nat) : K ks unit :=
  match ids with
  | [] => mret tt
  | i :: ids =>
      s ← kget;
      (if decide (p_parent (getp s i) = Some p)
       then p_set i (set_parent (initproc s));; wakeup (proc_chan (initproc s))
       else mret tt);;
      reparent_loop ids p
  end.
Definition reparent (p : nat) : K ks unit := reparent_loop proc_ids p.

Fixpoint close_files (fds : list Z) (i : nat) : K ks unit :=
  match fds with
  | [] => mret tt
  | fd :: fds =>
      p ← p_get i;
      match ofile p fd with
      | None => mret tt
      | Some f => fileclose end_ f;; p_set i (set_ofile fd None)
      end;;
      close_files fds i
  end.

(** Up to the context switch, from which a zombie never returns. *)
Definition exit (status : Z) : K ks unit :=
  i ← myproc;
  s ← kget;
  if decide (initproc s = Some i) then panic "init exiting"
  else
    close_files (seqZ 0 NOFILE) i;;
    begin_op;;
    p ← p_get i;
    iput (default 0%nat (p_cwd p));;
    end_op;;
    p_set i (set_cwd None);;
    acquire LWait;;
    reparent i;;
    p ← p_get i;
    wakeup (proc_chan (p_parent p));;
    acquire (LProc i);;
    p_set i (set_xstate status);;
    p_set i (set_state ZOMBIE);;
    release LWait;;
    sched.

(** The local [xstate] of a child stands here while it is copied out. *)
Definition XSTATE : Z := STACK + 336.

(** One pass over the table: [inl r] is a return, [inr havekids] its end. *)
Fixpoint wait_loop (ids : list nat) (i : nat) (addr : Z) (havekids : bool) : K ks (Z + bool) :=
  match ids with
  | [] => mret (inr havekids)
  | k :: ids =>
      pp ← p_get k;
      if decide (p_parent pp = Some i)
      then
        acquire (LProc k);;
        pp ← p_get k;
        if decide (p_state pp = ZOMBIE)
        then
          p ← p_get i;
          r ← (if addr =? 0 then mret 0
               else
                 kmodify (fun s => set_km (stn 4 (km s) XSTATE (p_xstate pp)) s);;
                 on_mm (copyout (p_pagetable p) addr XSTATE 4));
          if r <? 0
          then release (LProc k);; release LWait;; mret (inl (-1))
          else
            freeproc k;;
            release (LProc k);;
            release LWait;;
            mret (inl (p_pid pp))
        else
          release (LProc k);;
          wait_loop ids i addr true
      else wait_loop ids i addr havekids
  end.

Definition wait (addr : Z) : K ks Z :=
  i ← myproc;
  acquire LWait;;
  r ← wait_loop proc_ids i addr false;
  match r with
  | inl r => mret r
  | inr havekids =>
      k ← (if havekids then killed i else mret 0);
      if negb havekids || negb (k =? 0) then release LWait;; mret (-1)
      else panic "sleep"
  end.

(** * Information *)

Record procinfo := Procinfo { pi_pid : Z; pi_ppid : Z; pi_state : Z; pi_sz : Z; pi_name : list Z }.

(** The first entry with the pid, unused ones included. *)
Definition find_pid (s : ks) (pid : Z) : option nat :=
  head (filter (fun i => p_pid (getp s i) = pid) proc_ids).

Definition pid_of_parent (s : ks) (p : proc) (dflt : Z) : Z :=
  match p_parent p with Some k => p_pid (getp s k) | None => dflt end.

(** [info] is null or the structure to fill; its name is overwritten up to the NUL. *)
Definition getprocsinfo (pid : Z) (info : option procinfo) : K ks (Z * option procinfo) :=
  match info with
  | None => mret (-1, None)
  | Some info =>
      s ← kget;
      match find_pid s pid with
      | None => mret (-1, Some info)
      | Some i =>
          let p := getp s i in
          mret (0, Some (Procinfo (p_pid p) (pid_of_parent s p 0) (state_num (p_state p)) (p_sz p)
                           (safestrcpy_name (pi_name info) (p_name p) 16)))
      end
  end.

End proc.
