(* ===== verification/Sysfile.v ===== *)
(** System call arguments (kernel/syscall.c) and the file system's system calls
    (kernel/sysfile.c, kernel/fcntl.h), except [sys_exec], which is in Exec.v.

    Arguments are the saved registers in the trapframe of the running process.
    Path names are copied from user space into buffers on the kernel stack.  A
    [goto bad] is a call of the cleanup code that follows the label. *)

From S2P Require Import Prelude Mem CString Kern Riscv Kalloc Vm Sleeplock Bio Block Log Huffman Pipe State Wakeup Fs FsData FileOps ProcOps.

Definition O_RDONLY : Z := 0x000.
Definition O_WRONLY : Z := 0x001.
Definition O_RDWR : Z := 0x002.
Definition O_CREATE : Z := 0x200.
Definition O_TRUNC : Z := 0x400.

(** Buffers on the kernel stack, and the string constants of this file. *)
Definition PATH1 : Z := STACK + 4096.
Definition PATH2 : Z := STACK + 4096 + 128.
Definition NAME : Z := STACK + 4096 + 256.
Definition ADDRBUF : Z := STACK + 4096 + 272.
Definition FDBUF : Z := STACK + 4096 + 288.
Definition DOT : Z := STACK + 4096 + 304.
Definition DOTDOT : Z := STACK + 4096 + 312.

Definition put_str (a : Z) (l : list Z) : K ks unit := kmodify (fun s => set_km (stbytes (km s) a (l ++ [0])) s).

(** * Arguments *)

(** The value at [addr], or [None] for the result -1. *)
Definition fetchaddr (addr : Z) : K ks (option Z) :=
  p ← mycur;
  if (addr >=? p_sz p) || (u64 (addr + 8) >? p_sz p) then mret None
  else
    r ← on_mm (copyin (p_pagetable p) ADDRBUF addr 8);
    if negb (r =? 0) then mret None
    else m ← kgets km; mret (Some (ld64 m ADDRBUF)).

Definition fetchstr (addr buf max : Z) : K ks Z :=
  p ← mycur;
  r ← on_mm (copyinstr (p_pagetable p) buf addr max);
  if r <? 0 then mret (-1)
  else
    m ← kgets km;
    match strlen (S (Z.to_nat max)) buf m with
    | Some n => mret n
    | None => panic "fetchstr: fuel"
    end.

Definition argraw (n : Z) : K ks Z :=
  s ← kget;
  if (0 <=? n) && (n <=? 5)
  then mret (ld64 (km s) (p_trapframe (getp s (me s)) + tf_a n))
  else panic "argraw".

Definition argint (n : Z) : K ks Z := x ← argraw n; mret (s32 x).
Definition argaddr (n : Z) : K ks Z := argraw n.
Definition argstr (n buf max : Z) : K ks Z := addr ← argaddr n; fetchstr addr buf max.

(** The descriptor and its file, or [None] for -1. *)
Definition argfd (n : Z) : K ks (option (Z * nat)) :=
  fd ← argint n;
  p ← mycur;
  if (fd <? 0) || (fd >=? NOFILE) then mret None
  else match ofile p fd with None => mret None | Some f => mret (Some (fd, f)) end.

(** The lowest free descriptor. *)
Definition free_fd (p : proc) : option nat := fst <$> list_find (fun x => x = None) (take 16 (p_ofile p)).

Definition fdalloc (f : nat) : K ks Z :=
  i ← myproc;
  p ← mycur;
  match free_fd p with
  | Some fd => p_set i (set_ofile (Z.of_nat fd) (Some f));; mret (Z.of_nat fd)
  | None => mret (-1)
  end.

Section sys.
Context (end_ : Z).
Context (devread devwrite : Z -> option (bool -> Z -> Z -> K ks Z)).

(** * Descriptors *)

Definition sys_dup : K ks Z :=
  r ← argfd 0;
  match r with
  | None => mret (-1)
  | Some (_, f) =>
      fd ← fdalloc f;
      if fd <? 0 then mret (-1) else filedup f;; mret fd
  end.

Definition sys_read : K ks Z :=
  p ← argaddr 1;
  n ← argint 2;
  r ← argfd 0;
  match r with None => mret (-1) | Some (_, f) => fileread end_ devread f p n end.

Definition sys_write : K ks Z :=
  p ← argaddr 1;
  n ← argint 2;
  r ← argfd 0;
  match r with None => mret (-1) | Some (_, f) => filewrite end_ devwrite f p n end.

Definition sys_close : K ks Z :=
  r ← argfd 0;
  match r with
  | None => mret (-1)
  | Some (fd, f) =>
      i ← myproc;
      p_set i (set_ofile fd None);;
      fileclose end_ f;;
      mret 0
  end.

Definition sys_fstat : K ks Z :=
  st ← argaddr 1;
  r ← argfd 0;
  match r with None => mret (-1) | Some (_, f) => filestat f st end.

(** * Links *)

Definition add_nlink (k : Z) (x : inode) : inode :=
  with_dev (i_major x) (i_minor x) (s16 (i_nlink x + k)) x.

Definition link_bad (ip : nat) : K ks Z :=
  ilock (Some ip);;
  ip_set ip (add_nlink (-1));;
  iupdate ip;;
  iunlockput ip;;
  end_op;;
  mret (-1).

Definition sys_link : K ks Z :=
  r ← argstr 0 PATH1 MAXPATH;
  if r <? 0 then mret (-1)
  else
    r ← argstr 1 PATH2 MAXPATH;
    if r <? 0 then mret (-1)
    else
      begin_op;;
      r ← namei end_ PATH1;
      match r with
      | None => end_op;; mret (-1)
      | Some ip =>
          ilock (Some ip);;
          x ← ip_get ip;
          if i_type x =? T_DIR then iunlockput ip;; end_op;; mret (-1)
          else
            ip_set ip (add_nlink 1);;
            iupdate ip;;
            iunlock (Some ip);;
            r ← nameiparent end_ PATH2 NAME;
            match r with
            | None => link_bad ip
            | Some dp =>
                ilock (Some dp);;
                s ← kget;
                r ← (if negb (i_dev (geti s dp) =? i_dev (geti s ip)) then mret (-1)
                     else dirlink end_ dp NAME (i_inum (geti s ip)));
                if r <? 0 then iunlockput dp;; link_bad ip
                else iunlockput dp;; iput ip;; end_op;; mret 0
            end
      end.

Fixpoint isdirempty_loop (fuel : nat) (dp : nat) (off : Z) : K ks bool :=
  match fuel with
  | O => panic "isdirempty: fuel"
  | S fuel =>
      x ← ip_get dp;
      if off <? i_size x
      then
        r ← readi end_ dp false DE off sizeof_dirent;
        if negb (r =? sizeof_dirent) then panic "isdirempty: readi"
        else
          m ← kgets km;
          if negb (de_inum m =? 0) then mret false
          else isdirempty_loop fuel dp (off + sizeof_dirent)
      else mret true
  end.

Definition isdirempty (dp : nat) : K ks bool :=
  x ← ip_get dp; isdirempty_loop (dir_fuel (i_size x)) dp (2 * sizeof_dirent).

Definition unlink_bad (dp : nat) : K ks Z := iunlockput dp;; end_op;; mret (-1).

Definition sys_unlink : K ks Z :=
  r ← argstr 0 PATH1 MAXPATH;
  if r <? 0 then mret (-1)
  else
    begin_op;;
    r ← nameiparent end_ PATH1 NAME;
    match r with
    | None => end_op;; mret (-1)
    | Some dp =>
        ilock (Some dp);;
        put_str DOT [46];;
        put_str DOTDOT [46; 46];;
        m ← kgets km;
        if (namecmp NAME DOT m =? 0) || (namecmp NAME DOTDOT m =? 0) then unlink_bad dp
        else
          r ← dirlookup end_ dp NAME;
          match r with
          | None => unlink_bad dp
          | Some (ip, off) =>
              ilock (Some ip);;
              x ← ip_get ip;
              if i_nlink x <? 1 then panic "unlink: nlink < 1"
              else
                empty ← (if i_type x =? T_DIR then isdirempty ip else mret true);
                if negb empty then iunlockput ip;; unlink_bad dp
                else
                  kmodify (fun s => set_km (memset DE 0 sizeof_dirent (km s)) s);;
                  r ← writei end_ dp false DE off sizeof_dirent;
                  if negb (r =? sizeof_dirent) then panic "unlink: writei"
                  else
                    (if i_type x =? T_DIR then ip_set dp (add_nlink (-1));; iupdate dp else mret tt);;
                    iunlockput dp;;
                    ip_set ip (add_nlink (-1));;
                    iupdate ip;;
                    iunlockput ip;;
                    end_op;;
                    mret 0
          end
    end.

(** * Creation *)

Definition create_fail (ip dp : nat) : K ks (option nat) :=
  ip_set ip (fun x => with_dev (i_major x) (i_minor x) 0 x);;
  iupdate ip;;
  iunlockput ip;;
  iunlockput dp;;
  mret None.

(** The entries "." and ".." of a new directory; negative on failure. *)
Definition link_dots (ip : nat) (self parent : Z) : K ks Z :=
  put_str DOT [46];;
  put_str DOTDOT [46; 46];;
  r ← dirlink end_ ip DOT self;
  if r <? 0 then mret r else dirlink end_ ip DOTDOT parent.

Definition create (path type major minor : Z) : K ks (option nat) :=
  r ← nameiparent end_ path NAME;
  match r with
  | None => mret None
  | Some dp =>
      ilock (Some dp);;
      r ← dirlookup end_ dp NAME;
      match r with
      | Some (ip, _) =>
          iunlockput dp;;
          ilock (Some ip);;
          x ← ip_get ip;
          if (type =? T_FILE) && ((i_type x =? T_FILE) || (i_type x =? T_DEVICE)) then mret (Some ip)
          else iunlockput ip;; mret None
      | None =>
          d ← ip_get dp;
          r ← ialloc (i_dev d) type;
          match r with
          | None => iunlockput dp;; mret None
          | Some ip =>
              ilock (Some ip);;
              ip_set ip (with_dev (s16 major) (s16 minor) 1);;
              iupdate ip;;
              x ← ip_get ip;
              r ← (if type =? T_DIR then link_dots ip (i_inum x) (i_inum d) else mret 0);
              if r <? 0 then create_fail ip dp
              else
                r ← dirlink end_ dp NAME (i_inum x);
                if r <? 0 then create_fail ip dp
                else
                  (if type =? T_DIR then ip_set dp (add_nlink 1);; iupdate dp else mret tt);;
                  iunlockput dp;;
                  mret (Some ip)
          end
      end
  end.

(** The inode to open, locked; [None] if the call has failed and cleaned up. *)
Definition open_inode (omode : Z) : K ks (option nat) :=
  if negb (Z.land omode O_CREATE =? 0)
  then
    r ← create PATH1 T_FILE 0 0;
    match r with None => end_op;; mret None | Some ip => mret (Some ip) end
  else
    r ← namei end_ PATH1;
    match r with
    | None => end_op;; mret None
    | Some ip =>
        ilock (Some ip);;
        x ← ip_get ip;
        if (i_type x =? T_DIR) && negb (omode =? O_RDONLY)
        then iunlockput ip;; end_op;; mret None
        else mret (Some ip)
    end.

Definition sys_open : K ks Z :=
  omode ← argint 1;
  n ← argstr 0 PATH1 MAXPATH;
  if n <? 0 then mret (-1)
  else
    begin_op;;
    r ← open_inode omode;
    match r with
    | None => mret (-1)
    | Some ip =>
        x ← ip_get ip;
        if (i_type x =? T_DEVICE) && ((i_major x <? 0) || (i_major x >=? NDEV))
        then iunlockput ip;; end_op;; mret (-1)
        else
          f ← filealloc;
          match f with
          | None => iunlockput ip;; end_op;; mret (-1)
          | Some f =>
              fd ← fdalloc f;
              if fd <? 0 then fileclose end_ f;; iunlockput ip;; end_op;; mret (-1)
              else
                (if i_type x =? T_DEVICE
                 then f_set f (fun y => set_major (i_major x) (set_ftype FD_DEVICE y))
                 else f_set f (fun y => set_off 0 (set_ftype FD_INODE y)));;
                f_set f (set_ip ip);;
                f_set f (set_rw (if Z.land omode O_WRONLY =? 0 then 1 else 0)
                                (if (Z.land omode O_WRONLY =? 0) && (Z.land omode O_RDWR =? 0) then 0 else 1));;
                (if negb (Z.land omode O_TRUNC =? 0) && (i_type x =? T_FILE) then itrunc ip else mret tt);;
                iunlock (Some ip);;
                end_op;;
                mret fd
          end
    end.

Definition sys_mkdir : K ks Z :=
  begin_op;;
  n ← argstr 0 PATH1 MAXPATH;
  r ← (if n <? 0 then mret None else create PATH1 T_DIR 0 0);
  match r with
  | None => end_op;; mret (-1)
  | Some ip => iunlockput ip;; end_op;; mret 0
  end.

Definition sys_mknod : K ks Z :=
  begin_op;;
  major ← argint 1;
  minor ← argint 2;
  n ← argstr 0 PATH1 MAXPATH;
  r ← (if n <? 0 then mret None else create PATH1 T_DEVICE major minor);
  match r with
  | None => end_op;; mret (-1)
  | Some ip => iunlockput ip;; end_op;; mret 0
  end.

Definition sys_chdir : K ks Z :=
  i ← myproc;
  begin_op;;
  n ← argstr 0 PATH1 MAXPATH;
  r ← (if n <? 0 then mret None else namei end_ PATH1);
  match r with
  | None => end_op;; mret (-1)
  | Some ip =>
      ilock (Some ip);;
      x ← ip_get ip;
      if negb (i_type x =? T_DIR) then iunlockput ip;; end_op;; mret (-1)
      else
        iunlock (Some ip);;
        p ← mycur;
        iput (default 0%nat (p_cwd p));;
        end_op;;
        p_set i (set_cwd (Some ip));;
        mret 0
  end.

(** * Pipes *)

Definition close_both (rf wf : nat) : K ks Z := fileclose end_ rf;; fileclose end_ wf;; mret (-1).

Definition sys_pipe : K ks Z :=
  fdarray ← argaddr 0;
  r ← pipealloc end_;
  match r with
  | None => mret (-1)
  | Some (rf, wf) =>
      i ← myproc;
      fd0 ← fdalloc rf;
      if fd0 <? 0 then close_both rf wf
      else
        fd1 ← fdalloc wf;
        if fd1 <? 0 then p_set i (set_ofile fd0 None);; close_both rf wf
        else
          p ← mycur;
          kmodify (fun s => set_km (stn 4 (stn 4 (km s) FDBUF fd0) (FDBUF + 4) fd1) s);;
          r ← on_mm (copyout (p_pagetable p) fdarray FDBUF 4);
          r ← (if r <? 0 then mret r else on_mm (copyout (p_pagetable p) (u64 (fdarray + 4)) (FDBUF + 4) 4));
          if r <? 0
          then p_set i (set_ofile fd0 None);; p_set i (set_ofile fd1 None);; close_both rf wf
          else mret 0
  end.

End sys.
