(* ===== verification/Exec.v ===== *)
(** Program loading (kernel/exec.c, kernel/elf.h) and [sys_exec].

    The ELF structures are read by [readi] into kernel memory and their fields
    taken from there.  [argv] is the array of kernel addresses of the argument
    strings, up to its null entry. *)

From S2P Require Import Prelude Mem CString Kern Riscv Kalloc Vm Sleeplock Bio Block Log Huffman Pipe State Wakeup Fs FsData FileOps ProcOps Sysfile.

Definition ELF_MAGIC : Z := 0x464C457F.
Definition ELF_PROG_LOAD : Z := 1.
Definition MAXARG : Z := 32.
Definition USERSTACK : Z := 1.

(** Locals of [exec]: the two structures and [ustack]. *)
Definition ELF : Z := STACK + 8192.
Definition PH : Z := STACK + 8192 + 64.
Definition USTACK : Z := STACK + 8192 + 128.

(** [struct elfhdr] *)
Definition sizeof_elfhdr : Z := 64.
Definition elf_magic (m : mem) : Z := ldn 4 m ELF.
Definition elf_entry (m : mem) : Z := ldn 8 m (ELF + 24).
Definition elf_phoff (m : mem) : Z := ldn 8 m (ELF + 32).
Definition elf_phnum (m : mem) : Z := ldn 2 m (ELF + 56).

(** [struct proghdr] *)
Record proghdr := Proghdr { ph_type : Z; ph_flags : Z; ph_off : Z; ph_vaddr : Z; ph_filesz : Z; ph_memsz : Z }.
Definition sizeof_proghdr : Z := 56.
Definition get_proghdr (m : mem) : proghdr :=
  Proghdr (ldn 4 m PH) (ldn 4 m (PH + 4)) (ldn 8 m (PH + 8)) (ldn 8 m (PH + 16)) (ldn 8 m (PH + 32)) (ldn 8 m (PH + 40)).

Definition flags2perm (flags : Z) : Z :=
  let perm := if negb (Z.land flags 1 =? 0) then PTE_X else 0 in
  if negb (Z.land flags 2 =? 0) then Z.lor perm PTE_W else perm.

Section exec.
Context (end_ trampoline : Z).

Fixpoint loadseg_loop (fuel : nat) (pagetable va : Z) (ip : nat) (offset sz i : Z) : K ks Z :=
  match fuel with
  | O => panic "loadseg: fuel"
  | S fuel =>
      if i <? sz
      then
        pa ← on_mm (walkaddr pagetable (u64 (va + i)));
        if pa =? 0 then panic "loadseg: address should exist"
        else
          let n := if sz - i <? PGSIZE then sz - i else PGSIZE in
          r ← readi end_ ip false pa (u32 (offset + i)) n;
          if negb (r =? n) then mret (-1)
          else loadseg_loop fuel pagetable va ip offset sz (u32 (i + PGSIZE))
      else mret 0
  end.

Definition loadseg (pagetable va : Z) (ip : nat) (offset sz : Z) : K ks Z :=
  loadseg_loop (Z.to_nat (sz / PGSIZE) + 2) pagetable va ip offset sz 0.

(** The program headers; the result is whether all went well, and [sz]. *)
Fixpoint load_loop (k : nat) (ip : nat) (pagetable off sz : Z) : K ks (bool * Z) :=
  match k with
  | O => mret (true, sz)
  | S k =>
      r ← readi end_ ip false PH (u32 off) sizeof_proghdr;
      if negb (r =? sizeof_proghdr) then mret (false, sz)
      else
        m ← kgets km;
        let ph := get_proghdr m in
        if negb (ph_type ph =? ELF_PROG_LOAD) then load_loop k ip pagetable (off + sizeof_proghdr) sz
        else if ph_memsz ph <? ph_filesz ph then mret (false, sz)
        else if u64 (ph_vaddr ph + ph_memsz ph) <? ph_vaddr ph then mret (false, sz)
        else if negb (ph_vaddr ph mod PGSIZE =? 0) then mret (false, sz)
        else
          sz1 ← on_mm (uvmalloc end_ pagetable sz (u64 (ph_vaddr ph + ph_memsz ph)) (flags2perm (ph_flags ph)));
          if sz1 =? 0 then mret (false, sz)
          else
            r ← loadseg pagetable (ph_vaddr ph) ip (u32 (ph_off ph)) (u32 (ph_filesz ph));
            if r <? 0 then mret (false, sz1)
            else load_loop k ip pagetable (off + sizeof_proghdr) sz1
  end.

(** Push the argument strings; [None] is [goto bad].  Returns [sp] and [ustack]. *)
Fixpoint push_args (argv : list Z) (pagetable stackbase sp : Z) (ustack : list Z) : K ks (option (Z * list Z)) :=
  match argv with
  | [] => mret (Some (sp, ustack))
  | a :: argv =>
      if Z.of_nat (length ustack) >=? MAXARG then mret None
      else
        m ← kgets km;
        match strlen (S (Z.to_nat PGSIZE)) a m with
        | None => panic "exec: fuel"
        | Some n =>
            let sp := u64 (sp - (n + 1)) in
            let sp := sp - sp mod 16 in
            if sp <? stackbase then mret None
            else
              r ← on_mm (copyout pagetable sp a (n + 1));
              if r <? 0 then mret None
              else push_args argv pagetable stackbase sp (ustack ++ [sp])
        end
  end.

(** [for(last=s=path; *s; s++) if( *s == '/') last = s+1] *)
Fixpoint last_elem (fuel : nat) (s last : Z) (m : mem) : Z :=
  match fuel with
  | O => last
  | S fuel =>
      if ld m s =? 0 then last
      else last_elem fuel (s + 1) (if ld m s =? SLASH then s + 1 else last) m
  end.

(** The cleanup after [bad:], with the inode still locked or already released. *)
Definition exec_bad (pagetable sz : Z) (ip : option nat) : K ks Z :=
  (if pagetable =? 0 then mret tt else proc_freepagetable end_ pagetable sz);;
  match ip with
  | Some ip => iunlockput ip;; end_op
  | None => mret tt
  end;;
  mret (-1).

(** From the user stack on: nothing can undo it any more after the arguments. *)
Definition exec_stack (path : Z) (argv : list Z) (pagetable sz entry : Z) : K ks Z :=
  i ← myproc;
  p ← p_get i;
  let oldsz := p_sz p in
  let sz := PGROUNDUP sz in
  sz1 ← on_mm (uvmalloc end_ pagetable sz (u64 (sz + (USERSTACK + 1) * PGSIZE)) PTE_W);
  if sz1 =? 0 then exec_bad pagetable sz None
  else
    let sz := sz1 in
    on_mm (uvmclear pagetable (sz - (USERSTACK + 1) * PGSIZE));;
    let stackbase := sz - USERSTACK * PGSIZE in
    r ← push_args argv pagetable stackbase sz [];
    match r with
    | None => exec_bad pagetable sz None
    | Some (sp, ustack) =>
        let argc := Z.of_nat (length ustack) in
        let sp := u64 (sp - (argc + 1) * 8) in
        let sp := sp - sp mod 16 in
        if sp <? stackbase then exec_bad pagetable sz None
        else
          kmodify (fun s => set_km (stbytes (km s) USTACK (mjoin (le_bytes 8 <$> (ustack ++ [0])))) s);;
          r ← on_mm (copyout pagetable sp USTACK ((argc + 1) * 8));
          if r <? 0 then exec_bad pagetable sz None
          else
            on_mm (wr64 (p_trapframe p + tf_a 1) sp);;
            m ← kgets km;
            let last := last_elem (S (Z.to_nat MAXPATH)) path path m in
            p_set i (fun p => set_name (safestrcpy_name (p_name p) (ldbytes m last 16) 16) p);;
            p_set i (fun p => set_sz sz (set_pagetable pagetable p));;
            on_mm (wr64 (p_trapframe p + tf_epc) entry);;
            on_mm (wr64 (p_trapframe p + tf_sp) sp);;
            proc_freepagetable end_ (p_pagetable p) oldsz;;
            mret argc
    end.

Definition exec (path : Z) (argv : list Z) : K ks Z :=
  i ← myproc;
  begin_op;;
  r ← namei end_ path;
  match r with
  | None => end_op;; mret (-1)
  | Some ip =>
      ilock (Some ip);;
      r ← readi end_ ip false ELF 0 sizeof_elfhdr;
      m ← kgets km;
      if negb (r =? sizeof_elfhdr) || negb (elf_magic m =? ELF_MAGIC) then exec_bad 0 0 (Some ip)
      else
        pagetable ← proc_pagetable end_ trampoline i;
        if pagetable =? 0 then exec_bad 0 0 (Some ip)
        else
          '(ok, sz) ← load_loop (Z.to_nat (elf_phnum m)) ip pagetable (s32 (elf_phoff m)) 0;
          if negb ok then exec_bad pagetable sz (Some ip)
          else
            iunlockput ip;;
            end_op;;
            exec_stack path argv pagetable sz (elf_entry m)
  end.

(** Fetch the arguments from entry [i] on; the strings fetched so far, and
    whether the terminating null was reached. *)
Fixpoint fetch_args (fuel : nat) (uargv i : Z) (argv : list Z) : K ks (bool * list Z) :=
  match fuel with
  | O => panic "sys_exec: fuel"
  | S fuel =>
      if i >=? MAXARG then mret (false, argv)
      else
        r ← fetchaddr (u64 (uargv + 8 * i));
        match r with
        | None => mret (false, argv)
        | Some uarg =>
            if uarg =? 0 then mret (true, argv)
            else
              a ← kalloc;
              if a =? 0 then mret (false, argv)
              else
                r ← fetchstr uarg a PGSIZE;
                if r <? 0 then mret (false, argv ++ [a])
                else fetch_args fuel uargv (i + 1) (argv ++ [a])
        end
  end.

Fixpoint free_args (argv : list Z) : K ks unit :=
  match argv with
  | [] => mret tt
  | a :: argv => kfree end_ a;; free_args argv
  end.

Definition sys_exec : K ks Z :=
  uargv ← argaddr 1;
  r ← argstr 0 PATH1 MAXPATH;
  if r <? 0 then mret (-1)
  else
    r ← fetch_args (Z.to_nat MAXARG + 1) uargv 0 [];
    ret ← (if r.1 : bool then exec PATH1 r.2 else mret (-1));
    free_args r.2;;
    mret ret.

End exec.
