(* ===== verification/Syscall.v ===== *)
(** Process system calls (kernel/sysproc.c), the system call table
    (kernel/syscall.c, kernel/syscall.h) and the clock tick of kernel/trap.c.

    A handler's result is stored in the saved [a0] as a [uint64]; [sys_exit] does
    not come back, and a handler that sleeps is the outcome [Panic "sleep"]. *)

From S2P Require Import Prelude Mem CString Kern Riscv Kalloc Vm Sleeplock Bio Block Log Huffman Pipe State Wakeup Fs FsData FileOps ProcOps Sysfile Exec.

Section sysproc.
Context (end_ trampoline forkret : Z).
Context (devread devwrite : Z -> option (bool -> Z -> Z -> K ks Z)).

Definition sys_exit : K ks Z := n ← argint 0; exit end_ n;; panic "zombie exit".

Definition sys_getpid : K ks Z := p ← mycur; mret (p_pid p).

Definition sys_fork : K ks Z := fork end_ trampoline forkret.

Definition sys_wait : K ks Z := p ← argaddr 0; wait end_ p.

Definition sys_sbrk : K ks Z :=
  n ← argint 0;
  p ← mycur;
  let addr := p_sz p in
  r ← growproc end_ n;
  if r <? 0 then mret (-1) else mret addr.

(** The loop of [sys_sleep] from one wakeup to the next: [None] sleeps again.
    [ticks - ticks0] is unsigned. *)
Definition sleep_check (ticks0 n : Z) : K ks (option Z) :=
  s ← kget;
  if u32 (ticks s - ticks0) <? n
  then
    k ← killed (me s);
    if negb (k =? 0) then release LTicks;; mret (Some (-1)) else mret None
  else release LTicks;; mret (Some 0).

Definition sys_sleep : K ks Z :=
  n ← argint 0;
  let n := if n <? 0 then 0 else n in
  acquire LTicks;;
  s ← kget;
  r ← sleep_check (ticks s) n;
  match r with Some r => mret r | None => panic "sleep" end.

Definition sys_kill : K ks Z := pid ← argint 0; kill pid.

Definition sys_uptime : K ks Z :=
  acquire LTicks;;
  s ← kget;
  release LTicks;;
  mret (ticks s).

(** The part of [clockintr] that keeps time; [&ticks] is the channel. *)
Definition TICKS_CHAN : Z := 2 ^ 43.
Definition clockintr (cpuid : Z) : K ks unit :=
  if cpuid =? 0
  then
    acquire LTicks;;
    kmodify (fun s => set_ticks (u32 (ticks s + 1)) s);;
    wakeup TICKS_CHAN;;
    release LTicks
  else mret tt.

(** * Process information *)

Definition sys_getmemusage : K ks Z :=
  pid ← argint 0;
  s ← kget;
  match find_pid s pid with
  | Some i => mret (p_sz (getp s i))
  | None => mret (-1)
  end.

(** [struct procinfo] on the stack: pid, ppid, state, padding, sz, name. *)
Definition PIBUF : Z := STACK + 12288.
Definition PINAME : Z := STACK + 12352.
Definition sizeof_procinfo : Z := 40.

(** Assign the fields; [ppid] is left as it was in [sys_ps]. *)
Definition fill_info (p : proc) (ppid : option Z) (m : mem) : mem :=
  let m := stn 4 m PIBUF (p_pid p) in
  let m := match ppid with Some x => stn 4 m (PIBUF + 4) x | None => m end in
  let m := stn 4 m (PIBUF + 8) (state_num (p_state p)) in
  let m := stn 8 m (PIBUF + 16) (p_sz p) in
  safestrcpy (PIBUF + 24) PINAME 16 (stbytes m PINAME (p_name p)).

Fixpoint ps_loop (ids : list nat) (u_procinfo max count : Z) : K ks Z :=
  match ids with
  | [] => mret count
  | i :: ids =>
      if count <? max
      then
        p ← p_get i;
        if decide (p_state p = UNUSED) then ps_loop ids u_procinfo max count
        else
          kmodify (fun s => set_km (fill_info p None (km s)) s);;
          c ← mycur;
          r ← on_mm (copyout (p_pagetable c) (u64 (u_procinfo + sizeof_procinfo * count)) PIBUF sizeof_procinfo);
          if r <? 0 then mret (-1) else ps_loop ids u_procinfo max (count + 1)
      else mret count
  end.

Definition sys_ps : K ks Z :=
  u_procinfo ← argaddr 0;
  max ← argint 1;
  ps_loop proc_ids u_procinfo max 0.

Fixpoint pinfo_loop (ids : list nat) (pid uaddr : Z) : K ks Z :=
  match ids with
  | [] => mret (-1)
  | i :: ids =>
      acquire (LProc i);;
      p ← p_get i;
      if p_pid p =? pid
      then
        s ← kget;
        kmodify (fun s => set_km (fill_info p (Some (pid_of_parent s p (-1))) (km s)) s);;
        release (LProc i);;
        c ← mycur;
        r ← on_mm (copyout (p_pagetable c) uaddr PIBUF sizeof_procinfo);
        if r <? 0 then mret (-1) else mret 0
      else release (LProc i);; pinfo_loop ids pid uaddr
  end.

Definition sys_pinfo : K ks Z :=
  pid ← argint 0;
  uaddr ← argaddr 1;
  pinfo_loop proc_ids pid uaddr.

Fixpoint idle_loop (ids : list nat) : K ks Z :=
  match ids with
  | [] => mret (-1)
  | i :: ids =>
      acquire (LProc i);;
      p ← p_get i;
      if decide (p_state p = SLEEPING) then release (LProc i);; mret (p_pid p)
      else release (LProc i);; idle_loop ids
  end.

Definition sys_getidlepid : K ks Z := idle_loop proc_ids.

Definition is_active (p : proc) : bool :=
  match p_state p with RUNNING | RUNNABLE | SLEEPING => true | _ => false end.

(** The pids of the active processes in table order, at most [max_count]. *)
Definition active_pids (s : ks) (max_count : Z) : list Z :=
  take (Z.to_nat max_count) (p_pid <$> filter (fun p => is_active p = true) ((fun i => getp s i) <$> proc_ids)).

Definition PIDBUF : Z := STACK + 12416.

Definition sys_getactiveprocesses : K ks Z :=
  max_count ← argint 0;
  pids_addr ← argaddr 1;
  s ← kget;
  let l := active_pids s max_count in
  kmodify (fun s => set_km (stbytes (km s) PIDBUF (mjoin (le_bytes 4 <$> l))) s);;
  c ← mycur;
  r ← on_mm (copyout (p_pagetable c) pids_addr PIDBUF (4 * Z.of_nat (length l)));
  if r <? 0 then mret (-1) else mret (Z.of_nat (length l)).

(** * Dispatch *)

Definition syscalls (num : Z) : option (K ks Z) :=
  match num with
  | 1 => Some sys_fork
  | 2 => Some sys_exit
  | 3 => Some sys_wait
  | 4 => Some (sys_pipe end_)
  | 5 => Some (sys_read end_ devread)
  | 6 => Some sys_kill
  | 7 => Some (sys_exec end_ trampoline)
  | 8 => Some sys_fstat
  | 9 => Some (sys_chdir end_)
  | 10 => Some sys_dup
  | 11 => Some sys_getpid
  | 12 => Some sys_sbrk
  | 13 => Some sys_sleep
  | 14 => Some sys_uptime
  | 15 => Some (sys_open end_)
  | 16 => Some (sys_write end_ devwrite)
  | 17 => Some (sys_mknod end_)
  | 18 => Some (sys_unlink end_)
  | 19 => Some (sys_link end_)
  | 20 => Some (sys_mkdir end_)
  | 21 => Some (sys_close end_)
  | 22 => Some sys_getmemusage
  | 23 => Some sys_ps
  | 24 => Some sys_pinfo
  | 25 => Some sys_getidlepid
  | 26 => Some sys_getactiveprocesses
  | _ => None
  end.

Definition syscall : K ks unit :=
  s ← kget;
  let p := getp s (me s) in
  let num := s32 (ld64 (km s) (p_trapframe p + tf_a 7)) in
  match syscalls num with
  | Some f => r ← f; on_mm (wr64 (p_trapframe p + tf_a 0) (u64 r))
  | None => on_mm (wr64 (p_trapframe p + tf_a 0) (u64 (-1)))
  end.

End sysproc.
