(* ===== verification/Steady.v ===== *)
(** What system calls other than the ones on descriptors and process creation do
    to the tables of the kernel.

    [Steady R] is the interface between the walk through the system calls and the
    invariants proved from it: a preorder on states that allows what those calls
    do to processes and open files -- changes of the file system and of memory,
    assignments that leave the pid, the state and the descriptors of a process
    alone, waking a sleeping process, freeing a dead one, and assignments to an
    open file other than to its reference count.  Every operation of the kernel
    but the ones that create, close or duplicate is shown to keep any such
    relation. *)

From S2P Require Import Prelude Mem CString Kern Riscv Kalloc Vm Sleeplock Bio Block Log Huffman Pipe State Wakeup Fs FsData FileOps Frame ProcOps Sysfile Exec Syscall.

(** * Entries of the table *)

(** An assignment to one entry. *)
Lemma lookup_updp i f s j :
  procs (updp i f s) !! j = if decide (i = j) then f <$> procs s !! j else procs s !! j.
Proof.
  unfold updp, set_procs. cbn [procs]. case_decide as E.
  - subst. apply list_lookup_alter_eq.
  - by apply list_lookup_alter_ne.
Qed.

(** Reading an entry and then acting on what was read. *)
Definition keeps_at {A} (R : ks -> ks -> Prop) (i : nat) (p : proc) (m : K ks A) : Prop :=
  forall h s a h' s', getp s i = p -> m h s = Ok a h' s' -> R s s'.

Lemma keeps_p_get {A} R i (f : proc -> K ks A) : (forall p, keeps_at R i p (f p)) -> keeps R (p_get i ≫= f).
Proof. intros H h s a h' s' E. exact (H (getp s i) h s a h' s' eq_refl E). Qed.

Lemma keeps_at_keeps {A} R i p (m : K ks A) : keeps R m -> keeps_at R i p m.
Proof. intros H h s a h' s' _ E. by eapply H. Qed.

Lemma keeps_at_set {A} R i p g (k : unit -> K ks A) :
  Transitive R -> (forall s, getp s i = p -> R s (updp i g s)) -> keeps R (k tt) -> keeps_at R i p (p_set i g ≫= k).
Proof.
  intros HT Hg Hk h s a h' s' Ep E. apply bind_inv in E as ([] & h1 & s1 & E1 & E).
  injection E1 as <- <-. transitivity (updp i g s); [by apply Hg|by eapply Hk].
Qed.

Lemma getp_lookup s i p : procs s !! i = Some p -> getp s i = p.
Proof. intros H. unfold getp. by rewrite H. Qed.

(** Conclude from a run [H] of an operation the tactic can walk through. *)
Ltac keeps_run R H :=
  match type of H with
  | ?m ?h ?s = Ok _ _ _ =>
      let Hk := fresh in assert (keeps R m) as Hk by keeps_tac; exact (Hk _ _ _ _ _ H)
  end.

Lemma fs_p_get i : fsok (p_get i). Proof. unfold p_get. keeps_tac. Qed.
#[export] Hint Resolve fs_p_get : frame.

(** * Steady relations *)

Definition quiet (p p' : proc) : Prop :=
  p_pid p' = p_pid p /\ p_state p' = p_state p /\ p_ofile p' = p_ofile p.

(** A process that does not run and is not asleep. *)
Definition dead (p : proc) : bool :=
  match p_state p with UNUSED | USED | ZOMBIE => true | _ => false end.

(** The last assignments of [freeproc]. *)
Definition freed (p : proc) : proc :=
  Proc UNUSED 0 0 0 0 None (p_kstack p) 0 0 (p_trapframe p) (p_context p) (p_ofile p) (p_cwd p) (<[0%nat := 0]> (p_name p)).

Class Steady (R : ks -> ks -> Prop) : Prop := {
  steady_preorder :: PreOrder R;
  steady_tabs : forall s s', same_tabs s s' -> R s s';
  steady_p : forall i f s, (forall p, quiet p (f p)) -> R s (updp i f s);
  steady_f : forall i g s, (forall f, f_ref (g f) = f_ref f) -> R s (updf i g s);
  steady_wake : forall i s, p_state (getp s i) = SLEEPING -> R s (updp i (set_state RUNNABLE) s);
  steady_free : forall i s, dead (getp s i) = true -> R s (updp i freed s) }.

Section steady.
Context (R : ks -> ks -> Prop) `{HR : Steady R}.

Lemma keeps_steady_tabs {A} (m : K ks A) : fsok m -> keeps R m.
Proof. intros H h s a h' s' E. apply steady_tabs. by eapply H. Qed.

Lemma keeps_steady_p i f : (forall p, quiet p (f p)) -> keeps R (p_set i f).
Proof. intros H. apply keeps_kmodify. intros s. by apply steady_p. Qed.

Lemma keeps_steady_f i g : (forall f, f_ref (g f) = f_ref f) -> keeps R (f_set i g).
Proof. intros H. apply keeps_kmodify. intros s. by apply steady_f. Qed.
End steady.

#[export] Hint Extern 2 (keeps ?R (p_set _ _)) => (apply (keeps_steady_p R); intros ?; repeat split; reflexivity) : frame.
#[export] Hint Extern 2 (keeps ?R (f_set _ _)) => (apply (keeps_steady_f R); intros ?; reflexivity) : frame.
#[export] Hint Extern 3 (keeps ?R _) => (apply (keeps_steady_tabs R); solve [eauto with frame]) : frame.
#[export] Hint Extern 0 (Steady _) => (exact _) : frame.

Section ops.
Context (R : ks -> ks -> Prop) `{HR : Steady R}.
Abbreviation sok := (keeps R).
#[local] Hint Extern 1 (R _ _) => (apply steady_tabs; repeat split; reflexivity) : frame.

Lemma st_wakeup_loop ids chan : sok (wakeup_loop ids chan).
Proof.
  induction ids as [|i ids IH]; cbn [wakeup_loop]; [keeps_tac|].
  apply keeps_bind; [exact _|keeps_tac|intros s]. apply keeps_bind; [exact _| |intros _; keeps_tac].
  case_decide as Hme; [keeps_tac|]. apply keeps_bind; [exact _|keeps_tac|intros _].
  apply keeps_p_get. intros p. case_decide as D; [|apply keeps_at_keeps; keeps_tac].
  apply keeps_at_set; [exact _| |keeps_tac].
  intros s' <-. destruct D as [D _]. by apply steady_wake.
Qed.
Lemma st_wakeup chan : sok (wakeup chan). Proof. apply st_wakeup_loop. Qed.

Lemma st_kill_loop ids pid : sok (kill_loop ids pid).
Proof.
  induction ids as [|i ids IH]; cbn [kill_loop]; [keeps_tac|].
  apply keeps_bind; [exact _|keeps_tac|intros _]. apply keeps_p_get. intros p.
  destruct (p_pid p =? pid); [|apply keeps_at_keeps; keeps_tac].
  intros h s a h' s' <- E. apply bind_inv in E as ([] & h1 & s1 & E1 & E). injection E1 as <- <-.
  transitivity (updp i (set_killed 1) s).
  { by apply steady_p. }
  revert E. case_decide as D; [|intros E; keeps_run R E].
  intros E. apply bind_inv in E as ([] & h2 & s2 & E2 & E). injection E2 as <- <-.
  transitivity (updp i (set_state RUNNABLE) (updp i (set_killed 1) s)); [|keeps_run R E].
  apply steady_wake. unfold getp in D |- *. rewrite lookup_updp, decide_True by done. by destruct (procs s !! i).
Qed.
Lemma st_kill pid : sok (kill pid). Proof. apply st_kill_loop. Qed.

Lemma st_setkilled i : sok (setkilled i). Proof. unfold setkilled. keeps_tac. Qed.
Lemma st_killed i : sok (killed i). Proof. unfold killed. keeps_tac. Qed.
#[local] Hint Resolve st_wakeup st_kill st_setkilled st_killed : frame.

Context (end_ trampoline forkret : Z).

(** ** Pipes *)

Lemma st_pipeclose pi w : sok (pipeclose end_ pi w). Proof. unfold pipeclose. keeps_tac. Qed.
Lemma st_pipewrite_loop fuel pi addr n i : sok (pipewrite_loop fuel pi addr n i).
Proof. revert i. induction fuel; intros i; cbn [pipewrite_loop]; keeps_tac. Qed.
Lemma st_piperead_loop fuel pi addr n i : sok (piperead_loop fuel pi addr n i).
Proof. revert i. induction fuel; intros i; cbn [piperead_loop]; keeps_tac. Qed.
#[local] Hint Resolve st_pipewrite_loop st_piperead_loop : frame.
Lemma st_pipewrite pi addr n : sok (pipewrite pi addr n). Proof. unfold pipewrite. keeps_tac. Qed.
Lemma st_piperead pi addr n : sok (piperead pi addr n). Proof. unfold piperead. keeps_tac. Qed.
#[local] Hint Resolve st_pipewrite st_piperead : frame.

(** ** Processes *)

Lemma fs_proc_freepagetable pt sz : fsok (proc_freepagetable end_ pt sz).
Proof. unfold proc_freepagetable. keeps_tac. Qed.
Lemma fs_proc_pagetable i : fsok (proc_pagetable end_ trampoline i).
Proof. unfold proc_pagetable. keeps_tac. Qed.
#[local] Hint Resolve fs_proc_freepagetable fs_proc_pagetable : frame.

Lemma st_growproc n : sok (growproc end_ n). Proof. unfold growproc. keeps_tac. Qed.
Lemma st_reparent_loop ids p : sok (reparent_loop ids p).
Proof. induction ids; cbn [reparent_loop]; keeps_tac. Qed.
#[local] Hint Resolve st_growproc st_reparent_loop : frame.
Lemma st_reparent p : sok (reparent p). Proof. unfold reparent. keeps_tac. Qed.

(** Freeing a dead entry. *)
Lemma freeproc_steady i h s a h' s' :
  dead (getp s i) = true -> freeproc end_ i h s = Ok a h' s' -> R s s'.
Proof.
  intros Hi E. unfold freeproc in E. apply bind_inv in E as (p & h1 & s1 & E1 & E). injection E1 as <- <- <-.
  apply bind_inv in E as ([] & h1 & s1 & E1 & E).
  assert (same_tabs s s1) as F1.
  { keeps_run same_tabs E1. }
  apply bind_inv in E as ([] & h2 & s2 & E2 & E). injection E2 as <- <-.
  apply bind_inv in E as ([] & h3 & s3 & E3 & E).
  assert (same_tabs (updp i (set_trapframe 0) s1) s3) as F3.
  { keeps_run same_tabs E3. }
  injection E as <- <- <-.
  transitivity s1; [by apply steady_tabs|].
  transitivity (updp i (set_trapframe 0) s1); [by apply steady_p|].
  transitivity s3; [by apply steady_tabs|]. apply (steady_free i s3).
  destruct F3 as [(F3 & _) _], F1 as [(F1 & _) _]. unfold getp in *.
  rewrite F3, lookup_updp, decide_True, F1 by done. by destruct (procs s !! i).
Qed.

Lemma st_wait_loop ids i addr hk : sok (wait_loop end_ ids i addr hk).
Proof.
  revert hk. induction ids as [|k ids IH]; intros hk; cbn [wait_loop]; [keeps_tac|].
  apply keeps_bind; [exact _|keeps_tac|intros pp]. case_decide as Hp; [|keeps_tac].
  apply keeps_bind; [exact _|keeps_tac|intros _]. apply keeps_p_get. intros q.
  case_decide as Hz; [|apply keeps_at_keeps; keeps_tac].
  intros h s a h' s' Eq E. apply bind_inv in E as (p & h1 & s1 & E1 & E). injection E1 as _ <- <-.
  apply bind_inv in E as (r & h2 & s2 & E2 & E).
  assert (same_tabs s s2) as F.
  { keeps_run same_tabs E2. }
  transitivity s2; [by apply steady_tabs|]. destruct (r <? 0).
  - keeps_run R E.
  - apply bind_inv in E as ([] & h3 & s3 & E3 & E). transitivity s3.
    + eapply freeproc_steady; [|exact E3]. destruct F as [(F & _) _]. unfold getp, dead in *. by rewrite F, Eq, Hz.
    + keeps_run R E.
Qed.
#[local] Hint Resolve st_wait_loop : frame.
Lemma st_wait addr : sok (wait end_ addr). Proof. unfold wait. keeps_tac. Qed.

Lemma st_exec_stack path argv pt sz entry : sok (exec_stack end_ path argv pt sz entry).
Proof.
  assert (forall argv pt sb sp us, fsok (push_args argv pt sb sp us)) as Hpush.
  { clear. intros argv pt sb. induction argv; intros sp us; cbn [push_args]; keeps_tac. }
  assert (forall pt sz ip, fsok (exec_bad end_ pt sz ip)) by (intros; unfold exec_bad; keeps_tac).
  unfold exec_stack. keeps_tac.
Qed.

Lemma fs_load_loop k ip pt off sz : fsok (load_loop end_ k ip pt off sz).
Proof.
  assert (forall fuel pt va ip off sz i, fsok (loadseg_loop end_ fuel pt va ip off sz i)) as Hl.
  { intros fuel. induction fuel; intros; cbn [loadseg_loop]; keeps_tac. }
  assert (forall pt va ip off sz, fsok (loadseg end_ pt va ip off sz)) by (intros; unfold loadseg; keeps_tac).
  revert off sz. induction k; intros off sz; cbn [load_loop]; keeps_tac.
Qed.
#[local] Hint Resolve st_exec_stack fs_load_loop : frame.

Lemma st_exec path argv : sok (exec end_ trampoline path argv).
Proof.
  assert (forall pt sz ip, fsok (exec_bad end_ pt sz ip)) by (intros; unfold exec_bad; keeps_tac).
  unfold exec. keeps_tac.
Qed.
#[local] Hint Resolve st_exec st_wait : frame.

(** * System calls *)

Lemma fs_fetchaddr a : fsok (fetchaddr a). Proof. unfold fetchaddr. keeps_tac. Qed.
Lemma fs_fetchstr a b n : fsok (fetchstr a b n). Proof. unfold fetchstr. keeps_tac. Qed.
Lemma fs_argraw n : fsok (argraw n). Proof. unfold argraw. keeps_tac. Qed.
#[local] Hint Resolve fs_fetchaddr fs_fetchstr fs_argraw : frame.
Lemma fs_argint n : fsok (argint n). Proof. unfold argint. keeps_tac. Qed.
Lemma fs_argaddr n : fsok (argaddr n). Proof. unfold argaddr. keeps_tac. Qed.
#[local] Hint Resolve fs_argint fs_argaddr : frame.
Lemma fs_argstr n b m : fsok (argstr n b m). Proof. unfold argstr. keeps_tac. Qed.
Lemma fs_argfd n : fsok (argfd n). Proof. unfold argfd. keeps_tac. Qed.
#[local] Hint Resolve fs_argstr fs_argfd : frame.

Lemma fs_put_str a l : fsok (put_str a l). Proof. unfold put_str. keeps_tac. Qed.
#[local] Hint Resolve fs_put_str : frame.
Lemma fs_link_bad ip : fsok (link_bad ip). Proof. unfold link_bad. keeps_tac. Qed.
Lemma fs_unlink_bad ip : fsok (unlink_bad ip). Proof. unfold unlink_bad. keeps_tac. Qed.
Lemma fs_isdirempty dp : fsok (isdirempty end_ dp).
Proof.
  assert (forall fuel off, fsok (isdirempty_loop end_ fuel dp off)).
  { intros fuel. induction fuel; intros; cbn [isdirempty_loop]; keeps_tac. }
  unfold isdirempty. keeps_tac.
Qed.
Lemma fs_create_fail ip dp : fsok (create_fail ip dp). Proof. unfold create_fail. keeps_tac. Qed.
Lemma fs_link_dots ip a b : fsok (link_dots end_ ip a b). Proof. unfold link_dots. keeps_tac. Qed.
#[local] Hint Resolve fs_link_bad fs_unlink_bad fs_isdirempty fs_create_fail fs_link_dots : frame.
Lemma fs_create path t a b : fsok (create end_ path t a b). Proof. unfold create. keeps_tac. Qed.
#[local] Hint Resolve fs_create : frame.
Lemma fs_open_inode o : fsok (open_inode end_ o). Proof. unfold open_inode. keeps_tac. Qed.
#[local] Hint Resolve fs_open_inode : frame.

Lemma st_sys_fstat : sok sys_fstat. Proof. unfold sys_fstat. keeps_tac. Qed.
Lemma st_sys_link : sok (sys_link end_). Proof. unfold sys_link. keeps_tac. Qed.
Lemma st_sys_unlink : sok (sys_unlink end_). Proof. unfold sys_unlink. keeps_tac. Qed.
Lemma st_sys_mkdir : sok (sys_mkdir end_). Proof. unfold sys_mkdir. keeps_tac. Qed.
Lemma st_sys_mknod : sok (sys_mknod end_). Proof. unfold sys_mknod. keeps_tac. Qed.
Lemma st_sys_chdir : sok (sys_chdir end_). Proof. unfold sys_chdir. keeps_tac. Qed.

Lemma st_sys_exec : sok (sys_exec end_ trampoline).
Proof.
  assert (forall fuel ua i argv, fsok (fetch_args fuel ua i argv)).
  { intros fuel. induction fuel; intros; cbn [fetch_args]; keeps_tac. }
  assert (forall l, fsok (free_args end_ l)) by (intros l; induction l; cbn [free_args]; keeps_tac).
  unfold sys_exec. keeps_tac.
Qed.

Lemma st_sys_wait : sok (sys_wait end_). Proof. unfold sys_wait. keeps_tac. Qed.
Lemma st_sys_sbrk : sok (sys_sbrk end_). Proof. unfold sys_sbrk. keeps_tac. Qed.
Lemma st_sys_sleep : sok sys_sleep. Proof. unfold sys_sleep, sleep_check. keeps_tac. Qed.
Lemma st_sys_kill : sok sys_kill. Proof. unfold sys_kill. keeps_tac. Qed.
Lemma st_sys_ps : sok sys_ps.
Proof.
  assert (forall ids u m c, fsok (ps_loop ids u m c)).
  { intros ids. induction ids; intros; cbn [ps_loop]; keeps_tac. }
  unfold sys_ps. keeps_tac.
Qed.
Lemma st_sys_pinfo : sok sys_pinfo.
Proof.
  assert (forall ids a b, fsok (pinfo_loop ids a b)).
  { intros ids. induction ids; intros; cbn [pinfo_loop]; keeps_tac. }
  unfold sys_pinfo. keeps_tac.
Qed.
Lemma st_sys_getidlepid : sok sys_getidlepid.
Proof.
  assert (forall ids, fsok (idle_loop ids)) by (intros ids; induction ids; cbn [idle_loop]; keeps_tac).
  unfold sys_getidlepid. keeps_tac.
Qed.
Lemma st_sys_getactiveprocesses : sok sys_getactiveprocesses.
Proof. unfold sys_getactiveprocesses. keeps_tac. Qed.
Context (devread devwrite : Z -> option (bool -> Z -> Z -> K ks Z)).
(** The drivers keep the relation too. *)
Hypothesis devread_ok : forall major f, devread major = Some f -> forall u a n, sok (f u a n).
Hypothesis devwrite_ok : forall major f, devwrite major = Some f -> forall u a n, sok (f u a n).

Lemma st_dev_entry tbl major f :
  (forall major f, tbl major = Some f -> forall u a n, sok (f u a n)) ->
  dev_entry tbl major = Some f -> forall u a n, sok (f u a n).
Proof. intros H. unfold dev_entry. case_match; [done|]. apply H. Qed.

Lemma st_fileread i a n : sok (fileread end_ devread i a n).
Proof.
  unfold fileread. apply keeps_bind; [exact _|keeps_tac|intros f]. case_match; [keeps_tac|].
  destruct (f_type f); [keeps_tac|keeps_tac|keeps_tac|]. case_match eqn:E; [|keeps_tac].
  by eapply st_dev_entry in E.
Qed.

Lemma st_filewrite i a n : sok (filewrite end_ devwrite i a n).
Proof.
  assert (forall fuel i a n d, sok (filewrite_loop end_ fuel i a n d)).
  { intros fuel. induction fuel; intros; cbn [filewrite_loop]; keeps_tac. }
  unfold filewrite. apply keeps_bind; [exact _|keeps_tac|intros f]. case_match; [keeps_tac|].
  destruct (f_type f); [keeps_tac|keeps_tac|keeps_tac|]. case_match eqn:E; [|keeps_tac].
  by eapply st_dev_entry in E.
Qed.

Lemma st_sys_read : sok (sys_read end_ devread).
Proof. pose proof st_fileread. pose proof fs_argint. pose proof fs_argaddr. pose proof fs_argfd. unfold sys_read. keeps_tac. Qed.
Lemma st_sys_write : sok (sys_write end_ devwrite).
Proof. pose proof st_filewrite. pose proof fs_argint. pose proof fs_argaddr. pose proof fs_argfd. unfold sys_write. keeps_tac. Qed.

Lemma st_sys_getpid : sok sys_getpid. Proof. unfold sys_getpid. keeps_tac. Qed.
Lemma st_sys_uptime : sok sys_uptime. Proof. unfold sys_uptime. keeps_tac. Qed.
Lemma st_sys_getmemusage : sok sys_getmemusage.
Proof. pose proof fs_argint. unfold sys_getmemusage. keeps_tac. Qed.


(** Every system call but [fork], [exit] and the ones on descriptors. *)
Definition steady_call (num : Z) : Prop := num ∉ [1; 2; 4; 10; 15; 21].

#[local] Hint Resolve st_sys_wait st_sys_read st_sys_kill st_sys_exec st_sys_fstat st_sys_chdir
  st_sys_sbrk st_sys_sleep st_sys_write st_sys_mknod st_sys_unlink st_sys_link
  st_sys_mkdir st_sys_ps st_sys_pinfo st_sys_getidlepid st_sys_getactiveprocesses
  st_sys_getpid st_sys_uptime st_sys_getmemusage : frame.

Definition each (o : option (K ks Z)) : Prop := match o with Some f => sok f | None => True end.

Lemma st_each num : steady_call num -> each (syscalls end_ trampoline forkret devread devwrite num).
Proof.
  intros H. destruct num as [|p|p]; [exact I| |exact I].
  do 5 (try destruct p as [p|p|]); cbn [syscalls each]; first [exact I|solve [auto with frame]|destruct H; set_solver].
Qed.

Lemma st_syscalls num f :
  steady_call num -> syscalls end_ trampoline forkret devread devwrite num = Some f -> sok f.
Proof. intros H1 E. pose proof (st_each num H1) as H. by rewrite E in H. Qed.
End ops.

#[export] Hint Resolve st_wakeup st_kill st_setkilled st_killed st_pipeclose st_reparent fs_proc_freepagetable fs_proc_pagetable
  fs_argint fs_argaddr fs_argstr fs_argfd fs_open_inode fs_create : frame.
