(* ===== verification/Scenario.v ===== *)
(** A concrete kernel in which witnesses are evaluated: eight free pages above
    a kernel that ends at [end0], an empty disk, and one process, the first,
    running with pid 1.  Its trapframe holds the number and the arguments of a
    system call. *)

From S2P Require Import Prelude Mem CString Kern Riscv Kalloc Vm Sleeplock Bio Block Log Huffman Pipe State Wakeup Fs FsData FileOps ProcOps Sysfile Exec Syscall.

Definition end0 : Z := 0x80030000.
Definition trap0 : Z := 0x80020000.

(** [freerange] on eight pages. *)
Definition pages0 : kst := res_state (Kst ∅ 0) (freerange end0 end0 (end0 + 8 * PGSIZE) [] (Kst ∅ 0)).

Definition proc1 : proc :=
  Proc RUNNING 0 0 0 1 None 0 0 0x80021000 trap0 (Context_ 0 0 (replicate 12 0))
    (replicate 16 None) (Some 0%nat) (105 :: 110 :: 105 :: 116 :: replicate 12 0).

(** System call [num] with its arguments, about to be dispatched. *)
Definition calling (num : Z) (args : list Z) (d : disk) : ks :=
  let m := st64 (kmem pages0) (trap0 + tf_a 7) num in
  let m := stbytes m (trap0 + tf_a 0) (mjoin (le_bytes 8 <$> args)) in
  Ks (Superblock 0x10203040 2000 1954 200 30 2 32 45)
     (Lst 2 30 0 0 1 [] (Blk.init d))
     (Inode 1 1 1 initsleeplock 1 1 0 0 1 1024 (replicate 13 0) :: replicate 49 inode0)
     (Dcache 0 (-1) 0) hst0 (Kst m (freelist pages0))
     (replicate 100 file0) ∅ (proc1 :: replicate 63 proc0) 0 2 (Some 0%nat) 0.

(** Evaluation of a run: whether it returns, and a fact of its last state. *)
Definition returns {A S} (r : res A S) (f : A -> list lockid -> S -> bool) : bool :=
  match r with Ok a h s => f a h s | Panic _ => false end.

Lemma returns_ex {A S} (r : res A S) f : returns r f = true -> exists a h s, r = Ok a h s /\ f a h s = true.
Proof. destruct r as [a h s|]; [|done]. intros H. by exists a, h, s. Qed.
