(* ===== verification/Balloc.v ===== *)
(** Block allocation (kernel/fs.c [balloc], [bzero], [bmap], [readi], and
    kernel/file.c [fileread]).

    [isfree] reads the bitmap in the cached view of the disk.  [logged b d] is the
    state after the contents of block [b] became [d] in a transaction: the view
    has them, the block is in the log's header and pinned in the cache. *)

From S2P Require Import Prelude Mem CString Kern Riscv Kalloc Vm Sleeplock Bio Block Log LogCrash Huffman Pipe State Wakeup Fs FsData FileOps Scenario.

Definition bk (s : ks) : Blk.bk := blk (flog s).
Definition set_bk (a : Blk.bk) (s : ks) : ks := set_flog (set_blk a (flog s)) s.

Definition logged (b : Z) (d : list Z) (s : ks) : ks :=
  let l := flog s in
  let a := blk l in
  set_flog (Lst (start l) (lsize l) (outstanding l) (committing l) (ldev l)
              (if decide (b ∈ lh l) then lh l else lh l ++ [b])
              (Blk.Bk (<[b := d]> (Blk.view a)) (Blk.dsk a) (Blk.past a)
                 (if decide (b ∈ lh l) then Blk.refs a else Blk.rset b (Blk.rref (Blk.refs a) b + 1) (Blk.refs a))
                 (Blk.held a))) s.

(** The cache counts only references that exist. *)
Definition counted (s : ks) : Prop := forall b n, Blk.refs (bk s) !! b = Some n -> 0 < n.

Lemma ks_eta s : set_flog (flog s) s = s.
Proof. by destruct s. Qed.

Lemma bread_ks dev b h s :
  b ∉ Blk.held (bk s) -> refs_room (bk s) b ->
  bread dev b h s = Ok (dread (Blk.view (bk s)) b) h (set_bk (after_read b (bk s)) s).
Proof. intros H R. unfold bread, on_log, on_blk, zoom. fold (bk s). by rewrite (blk_bread_ok b h (bk s) H R). Qed.

Lemma rset_twice b n k r : Blk.rset b n (Blk.rset b k r) = Blk.rset b n r.
Proof. apply map_eq. intros c. rewrite !lookup_rset. by case_decide. Qed.

Lemma rset_same b r : (forall n, r !! b = Some n -> n <> 0) -> Blk.rset b (Blk.rref r b) r = r.
Proof. intros H. rewrite <-(rset_twice b (Blk.rref r b) 1). by apply rset_back. Qed.

(** A block read and released. *)
Lemma brelse_ks b h s :
  b ∉ Blk.held (bk s) -> counted s -> brelse b h (set_bk (after_read b (bk s)) s) = Ok tt h s.
Proof.
  intros H C. unfold brelse, on_log, on_blk, zoom. cbn [set_bk flog set_flog blk set_blk].
  rewrite blk_brelse_ok by (cbn; set_solver). f_equal.
  assert (Blk.set_held (Blk.held (after_read b (bk s)) ∖ {[b]})
            (Blk.set_ref b (Blk.ref (after_read b (bk s)) b - 1) (after_read b (bk s))) = bk s) as ->.
  { apply bk_eq; try done.
    - intros c. unfold after_read, Blk.ref. cbn [Blk.refs Blk.set_held Blk.set_ref].
      rewrite rset_twice, rref_rset, decide_True by done. rewrite Z.add_simpl_r. unfold Blk.ref.
      rewrite lookup_rset. case_decide; [|done]. subst. unfold Blk.rref.
      destruct (Blk.refs (bk s) !! c) as [n|] eqn:E; [|done]. cbn. pose proof (C c n E).
      destruct (Z.eqb_spec n 0); [lia|done].
    - intros c. cbn. set_solver. }
  unfold bk, set_bk. destruct s as [? []]. done.
Qed.

(** The log accepts another block. *)
Definition can_log (s : ks) : Prop :=
  1 <= outstanding (flog s) /\ lh_n (flog s) < LOGSIZE /\ lh_n (flog s) < lsize (flog s) - 1.

Lemma write_done b d h s :
  LLog ∉ h -> b ∉ Blk.held (bk s) -> counted s -> can_log s ->
  (bstore b d;; log_write b;; brelse b) h (set_bk (after_read b (bk s)) s) = Ok tt h (logged b d s).
Proof.
  intros Hh H C (L1 & L2 & L3). unfold bstore. erewrite bind_ok by reflexivity.
  unfold log_write. erewrite bind_ok.
  2:{ unfold on_log at 1, zoom at 1. rewrite log_write_l by done. reflexivity. }
  unfold brelse, on_log at 1, zoom at 1, on_blk at 1, zoom at 1.
  rewrite blk_brelse_ok by (cbn [flog set_flog]; case_decide; cbn; set_solver). f_equal. unfold logged, set_bk, bk in *. cbn [flog set_flog lh set_blk blk set_lh]. cbn [Blk.refs after_read Blk.set_held Blk.set_ref].
  destruct s as [x1 l x3 x4 x5 x6 x7 x8 x9 x10 x11 x12 x13]. cbn [flog] in *. unfold set_flog. cbn [sb flog itable rdc huff mm ftable pipes procs me nextpid initproc ticks].
  f_equal. destruct (decide (b ∈ lh l)) as [D|D]; cbn [lh set_lh set_blk blk start lsize outstanding committing ldev].
  - unfold set_blk, set_lh. cbn [start lsize outstanding committing ldev lh blk]. f_equal. apply bk_eq; try done.
    + intros c. unfold Blk.ref. cbn [Blk.refs Blk.set_held Blk.set_ref Blk.store after_read blk].
      rewrite rset_twice, rref_rset, decide_True, Z.add_simpl_r by done. unfold Blk.ref. cbn [Blk.refs].
      rewrite rset_same; [done|]. intros n Hn. pose proof (C b n Hn). lia.
    + intros c. cbn. set_solver.
  - unfold set_blk, set_lh. cbn [start lsize outstanding committing ldev lh blk]. f_equal. apply bk_eq; try done.
    + intros c. unfold Blk.ref. cbn [Blk.refs Blk.set_held Blk.set_ref after_read blk].
      rewrite !rset_twice, !rref_rset, !decide_True by done. unfold Blk.ref. do 2 f_equal. lia.
    + intros c. cbn. set_solver.
Qed.

Lemma write_ks {A} b d (k : K ks A) h s :
  LLog ∉ h -> b ∉ Blk.held (bk s) -> counted s -> can_log s ->
  (bstore b d;; log_write b;; brelse b;; k) h (set_bk (after_read b (bk s)) s) = k h (logged b d s).
Proof.
  intros Hh H C L. pose proof (write_done b d h s Hh H C L) as E. revert E. generalize (set_bk (after_read b (bk s)) s).
  intros s0. unfold mbind, K_bind. destruct (bstore b d h s0) as [[] h1 s1|]; [|done].
  destruct (log_write b h1 s1) as [[] h2 s2|]; [|done]. by intros ->.
Qed.

(** * The bitmap *)

Lemma land_bit v k : 0 <= k -> (Z.land v (Z.shiftl 1 k) =? 0) = negb (Z.testbit v k).
Proof.
  intros Hk. rewrite Z.shiftl_1_l. destruct (Z.testbit v k) eqn:E; cbn.
  - apply Z.eqb_neq. intros H. assert (Z.testbit (Z.land v (2 ^ k)) k = true) as X.
    { by rewrite Z.land_spec, E, Z.pow2_bits_true. }
    rewrite H, Z.bits_0 in X. done.
  - apply Z.eqb_eq. apply Z.bits_inj'. intros j Hj. rewrite Z.land_spec, Z.bits_0, Z.pow2_bits_eqb by done.
    destruct (Z.eqb_spec k j) as [->|]; [by rewrite E|apply andb_false_r].
Qed.

Lemma bit_set_testbit d x : bit_set d x = Z.testbit (byte_of d x) (x mod 8).
Proof. unfold bit_set, bit_of. rewrite land_bit, negb_involutive; [done|]. apply Z.mod_pos_bound. lia. Qed.

(** Bitmap block [d] with the bit [bi] set, as [balloc] stores it. *)
Definition with_bit (d : list Z) (bi : Z) : list Z :=
  <[Z.to_nat (bi / 8) := Z.lor (byte_of d bi) (bit_of bi)]> d.

Lemma bit_set_with d bi x :
  length d = 1024%nat -> 0 <= bi < BPB -> 0 <= x < BPB ->
  bit_set (with_bit d bi) x = if decide (x = bi) then true else bit_set d x.
Proof.
  unfold BPB, BSIZE. intros Hl Hb Hx. rewrite !bit_set_testbit. unfold byte_of at 1, with_bit.
  destruct (decide (x / 8 = bi / 8)) as [E|E].
  - rewrite E, list_lookup_insert_eq by (rewrite Hl; zdm). cbn [default from_option id].
    rewrite Z.lor_spec. unfold bit_of. rewrite Z.shiftl_1_l, Z.pow2_bits_eqb by zdm.
    unfold byte_of. rewrite E. case_decide as D.
    + subst. by rewrite Z.eqb_refl, orb_true_r.
    + destruct (Z.eqb_spec (bi mod 8) (x mod 8)); [zdm|]. by rewrite orb_false_r.
  - rewrite list_lookup_insert_ne by zdm. rewrite decide_False by (intros ->; done). done.
Qed.

Lemma find_free_ok fuel d b bi size :
  BPB - bi <= Z.of_nat fuel -> 0 <= bi ->
  match find_free fuel d b bi size with
  | Some k => bi <= k < BPB /\ b + k < size /\ bit_set d k = false /\ forall j, bi <= j < k -> bit_set d j = true
  | None => forall j, bi <= j < BPB -> b + j < size -> bit_set d j = true
  end.
Proof.
  revert bi. induction fuel as [|fuel IH]; intros bi Hf Hb; cbn [find_free]; [intros; lia|].
  destruct (Z.ltb_spec bi BPB), (Z.ltb_spec (b + bi) size); cbn [andb]; try (intros; lia).
  destruct (bit_set d bi) eqn:E; cbn [negb].
  - specialize (IH (bi + 1) ltac:(lia) ltac:(lia)). destruct (find_free fuel d b (bi + 1) size) as [k|].
    + destruct IH as (H1 & H2 & H3 & H4). split_and!; [lia..|exact H3|]. intros j Hj.
      destruct (decide (j = bi)) as [->|]; [done|apply H4; lia].
    + intros j Hj Hs. destruct (decide (j = bi)) as [->|]; [done|apply IH; lia].
  - split_and!; [lia..|exact E|]. intros; lia.
Qed.

(** Block [x] is free. *)
Definition isfree (s : ks) (x : Z) : Prop :=
  bit_set (dread (Blk.view (bk s)) (BBLOCK x (sb s))) (x mod BPB) = false.

(** What [balloc] starts from: in a transaction with room for two more blocks, no
    buffer held, two buffers to spare, and a disk small enough for the [int] [b]. *)
Record alloc_ready (s : ks) : Prop := {
  ar_held : Blk.held (bk s) = ∅;
  ar_refs : counted s;
  ar_room : Z.of_nat (size (Blk.refs (bk s))) < NBUF - 1;
  ar_trans : 1 <= outstanding (flog s);
  ar_log : lh_n (flog s) + 1 < LOGSIZE /\ lh_n (flog s) + 1 < lsize (flog s) - 1;
  ar_size : sb_size (sb s) <= 2 ^ 31 - BPB }.

Lemma ready_read s b : alloc_ready s -> (b ∉ Blk.held (bk s)) /\ refs_room (bk s) b.
Proof. intros [H _ R _ _ _]. split; [rewrite H; set_solver|]. right. lia. Qed.

Definition taken (r : Z) (s : ks) : ks :=
  logged r zero_block
    (logged (BBLOCK r (sb s)) (with_bit (dread (Blk.view (bk s)) (BBLOCK r (sb s))) (r mod BPB)) s).

Lemma size_rset b n r : (size (Blk.rset b n r) <= S (size r))%nat.
Proof.
  unfold Blk.rset. case_match.
  - rewrite map_size_delete. destruct (_ !! b); unfold id; lia.
  - rewrite map_size_insert. destruct (_ !! b); unfold id; lia.
Qed.

Lemma counted_logged b d s : counted s -> counted (logged b d s).
Proof.
  intros C x n. change (Blk.refs (bk (logged b d s))) with
    (if decide (b ∈ lh (flog s)) then Blk.refs (bk s) else Blk.rset b (Blk.rref (Blk.refs (bk s)) b + 1) (Blk.refs (bk s))).
  destruct (decide (b ∈ lh (flog s))); [apply C|]. rewrite lookup_rset. case_decide; [|apply C]. subst. case_match; [done|].
  intros [= <-]. unfold Blk.rref. destruct (Blk.refs (bk s) !! x) as [m|] eqn:E; cbn; [|lia]. pose proof (C x m E). lia.
Qed.

(** The second block can be logged too. *)
Lemma ready_logged b d s c :
  alloc_ready s ->
  (c ∉ Blk.held (bk (logged b d s))) /\ refs_room (bk (logged b d s)) c /\ counted (logged b d s) /\ can_log (logged b d s).
Proof.
  intros [H C R T [L1 L2] _]. split_and!; [| |by apply counted_logged|].
  - change (Blk.held (bk (logged b d s))) with (Blk.held (bk s)). rewrite H. set_solver.
  - right. change (Blk.refs (bk (logged b d s))) with
      (if decide (b ∈ lh (flog s)) then Blk.refs (bk s) else Blk.rset b (Blk.rref (Blk.refs (bk s)) b + 1) (Blk.refs (bk s))).
    case_decide; [lia|]. pose proof (size_rset b (Blk.rref (Blk.refs (bk s)) b + 1) (Blk.refs (bk s))). lia.
  - assert (lh_n (flog (logged b d s)) <= lh_n (flog s) + 1) as Hl.
    { unfold lh_n, logged. cbn [flog set_flog lh]. case_decide; [lia|]. rewrite length_app. cbn. lia. }
    unfold can_log. change (outstanding (flog (logged b d s))) with (outstanding (flog s)).
    change (lsize (flog (logged b d s))) with (lsize (flog s)). lia.
Qed.

Lemma bblock_at q bi s : 0 <= bi < BPB -> BBLOCK (BPB * q + bi) s = BBLOCK (BPB * q) s /\ (BPB * q + bi) mod BPB = bi.
Proof. unfold BBLOCK, BPB, BSIZE. intros. split; zdm. Qed.

Lemma balloc_loop_ok fuel dev q s :
  alloc_ready s -> 0 <= q -> (0 < fuel)%nat -> sb_size (sb s) - BPB * q <= BPB * (Z.of_nat fuel - 1) ->
  (forall x, 0 <= x < BPB * q -> x < sb_size (sb s) -> ~ isfree s x) ->
  exists r, (r = 0 /\ balloc_loop fuel dev (BPB * q) [] s = Ok r [] s /\ (forall x, 0 <= x < sb_size (sb s) -> ~ isfree s x)) \/
    (0 <= r < sb_size (sb s) /\ isfree s r /\ (forall x, 0 <= x < r -> ~ isfree s x) /\
     balloc_loop fuel dev (BPB * q) [] s = Ok r [] (taken r s)).
Proof.
  intros R. revert q. induction fuel as [|fuel IH]; intros q Hq H0 Hf Hn; cbn [balloc_loop]; [lia|].
  rewrite kget_bind. destruct (Z.ltb_spec (BPB * q) (sb_size (sb s))) as [L|L].
  2:{ exists 0. left. split_and!; [done..|]. intros x Hx. apply Hn; lia. }
  set (bb := BBLOCK (BPB * q) (sb s)). destruct (ready_read s bb R) as [H1 H2].
  erewrite bind_ok by by apply bread_ks. set (d := dread _ bb).
  pose proof (find_free_ok (Z.to_nat BPB) d (BPB * q) 0 (sb_size (sb s)) ltac:(unfold BPB, BSIZE; lia) ltac:(lia)) as F.
  assert (forall k, 0 <= k < BPB -> isfree s (BPB * q + k) <-> bit_set d k = false) as Hfree.
  { intros k Hk. unfold isfree. destruct (bblock_at q k (sb s) Hk) as [-> ->]. done. }
  destruct (find_free _ d (BPB * q) 0 _) as [k|].
  - destruct F as (F1 & F2 & F3 & F4). exists (BPB * q + k). right.
    assert (0 <= BPB * q) by (unfold BPB, BSIZE; lia). split_and!; [lia|lia|by apply Hfree|..].
    + intros x Hx Hx'. destruct (Z.lt_ge_cases x (BPB * q)); [by apply (Hn x); [lia|lia|]|].
      replace x with (BPB * q + (x - BPB * q)) in Hx' by lia. apply Hfree in Hx'; [|lia]. rewrite F4 in Hx' by lia. done.
    + rewrite write_ks; [|set_solver|done|apply R|split_and!; apply R || (destruct (ar_log _ R); lia)].
      unfold bzero. set (s1 := logged bb _ s). destruct (ready_logged bb (with_bit d k) s (BPB * q + k) R) as (G1 & G2 & G3 & G4).
      fold (with_bit d k) in s1. fold s1 in G1, G2, G3, G4.
      rewrite (bind_ok _ _ _ s1 tt [] (logged (BPB * q + k) zero_block s1)).
      * unfold taken. destruct (bblock_at q k (sb s) F1) as [-> ->]. done.
      * erewrite bind_ok by by apply bread_ks. apply write_done; [set_solver|done..].
  - erewrite bind_ok by (apply brelse_ks; [done|apply R]).
    destruct (Z.ltb_spec (BPB * q + BPB) (2 ^ 31)); [|pose proof (ar_size _ R); lia].
    replace (BPB * q + BPB) with (BPB * (q + 1)) by lia. apply IH; [lia|unfold BPB, BSIZE in *; lia|lia|].
    intros x Hx Hs Hx'. destruct (Z.lt_ge_cases x (BPB * q)); [by apply (Hn x); [lia|lia|]|].
    replace x with (BPB * q + (x - BPB * q)) in Hx' by lia. apply Hfree in Hx'; [|lia]. rewrite F in Hx' by lia. done.
Qed.

Lemma view_taken r s c :
  dread (Blk.view (bk (taken r s))) c =
  if decide (r = c) then zero_block
  else if decide (BBLOCK r (sb s) = c) then with_bit (dread (Blk.view (bk s)) c) (r mod BPB)
  else dread (Blk.view (bk s)) c.
Proof.
  unfold taken, logged, bk. cbn [flog set_flog blk Blk.view sb]. rewrite !dread_insert.
  case_decide; [done|]. case_decide as D; [|done]. by rewrite D.
Qed.

Lemma free_taken r s x :
  length (dread (Blk.view (bk s)) (BBLOCK r (sb s))) = 1024%nat -> r <> BBLOCK x (sb s) -> 0 <= r -> 0 <= x ->
  isfree (taken r s) x <-> isfree s x /\ x <> r.
Proof.
  intros Hl Hb Hr Hx. unfold isfree. change (sb (taken r s)) with (sb s). rewrite view_taken, decide_False by done.
  assert (0 < BPB) by (unfold BPB, BSIZE; lia).
  case_decide as D.
  - assert (r / BPB = x / BPB) as Hd by (unfold BBLOCK in D; lia). rewrite <-D, bit_set_with by (done || by apply Z.mod_pos_bound).
    case_decide as E.
    + split; [done|]. intros [_ N]. destruct N. rewrite (Z.div_mod x BPB), (Z.div_mod r BPB) by lia. congruence.
    + split; [|tauto]. intros ?. split; [done|]. intros ->. done.
  - split; [|tauto]. intros ?. split; [done|]. intros ->. done.
Qed.

Lemma lh_taken r s : r ∈ lh (flog (taken r s)) /\ BBLOCK r (sb s) ∈ lh (flog (taken r s)).
Proof. unfold taken, logged. cbn [flog set_flog lh sb]. repeat case_decide; set_solver. Qed.

(** C21: [balloc] takes the first free block.  In a transaction with room for two
    blocks, no buffer held and at most 2^31 - 8192 blocks on the disk, it returns 0
    and changes nothing if no block of the disk is free; otherwise it returns the lowest free block, which is then zeroed and no
    longer free, while every other block stays free or not and keeps its contents
    but for the bitmap, and both blocks written are in the log. *)
Theorem balloc_takes_first_free (dev : Z) (s : ks) :
  alloc_ready s ->
  (forall x, 0 <= x < sb_size (sb s) -> length (dread (Blk.view (bk s)) (BBLOCK x (sb s))) = 1024%nat) ->
  (forall x, 0 <= x < sb_size (sb s) -> ~ isfree s (BBLOCK x (sb s))) ->
  exists r s', balloc dev [] s = Ok r [] s' /\
    ((r = 0 /\ s' = s /\ forall x, 0 <= x < sb_size (sb s) -> ~ isfree s x) \/
     (0 <= r < sb_size (sb s) /\ isfree s r /\ (forall x, 0 <= x < r -> ~ isfree s x) /\
      (forall x, 0 <= x < sb_size (sb s) -> isfree s' x <-> isfree s x /\ x <> r) /\
      dread (Blk.view (bk s')) r = zero_block /\
      (forall c, c <> r -> c <> BBLOCK r (sb s) -> dread (Blk.view (bk s')) c = dread (Blk.view (bk s)) c) /\
      r ∈ lh (flog s') /\ BBLOCK r (sb s) ∈ lh (flog s'))).
Proof.
  intros R Hl Hm. unfold balloc. rewrite kget_bind.
  destruct (balloc_loop_ok (S (Z.to_nat (sb_size (sb s)))) dev 0 s R) as (r & [(-> & E & H)|(Hr & Hf & H & E)]);
    [lia|lia|unfold BPB, BSIZE; lia|intros; lia|..].
  - exists 0, s. split; [done|]. by left.
  - exists r, (taken r s). split; [done|]. right. destruct (lh_taken r s) as [L1 L2].
    split_and!; [lia|lia|done|done| | | |done|done].
    + intros x Hx. apply free_taken; [by apply Hl| |lia|lia]. intros ->. by apply (Hm x Hx).
    + by rewrite view_taken, decide_True.
    + intros c Hc1 Hc2. by rewrite view_taken, !decide_False by congruence.
Qed.

(** A transaction on a disk of 2000 blocks whose bitmap, block 45, has the first
    46 blocks in use. *)
Definition sample_bitmap : list Z := [255; 255; 255; 255; 255; 63] ++ replicate 1018 0.
Definition in_trans : ks :=
  let s := calling 16 [] {[45 := sample_bitmap]} in set_flog (set_outstanding 1 (flog s)) s.

Lemma in_trans_ready : alloc_ready in_trans.
Proof. by split. Qed.

Lemma balloc_takes_first_free_witness : exists s',
  balloc 1 [] in_trans = Ok 46 [] s' /\ ~ isfree s' 46 /\ isfree s' 47.
Proof.
  destruct (balloc_takes_first_free 1 in_trans) as (r & s' & E & H).
  - apply in_trans_ready.
  - intros x Hx. assert (BBLOCK x (sb in_trans) = 45) as -> by (unfold BBLOCK, BPB, BSIZE; cbn in *; zdm).
    vm_compute. reflexivity.
  - intros x Hx. assert (BBLOCK x (sb in_trans) = 45) as -> by (unfold BBLOCK, BPB, BSIZE; cbn in *; zdm).
    vm_compute. discriminate.
  - assert (r = 46) as ->.
    { destruct (returns_ex (balloc 1 [] in_trans) (fun r _ _ => r =? 46) ltac:(vm_compute; reflexivity)) as (r' & h & s1 & E1 & F).
      apply Z.eqb_eq in F. rewrite E in E1. congruence. }
    exists s'. split; [exact E|]. destruct H as [(H & _)|(_ & _ & _ & H & _)]; [discriminate|].
    split.
    + intros H1. apply H in H1; [|vm_compute; split; [discriminate|reflexivity]]. by destruct H1.
    + apply H; [vm_compute; split; [discriminate|reflexivity]|]. split; [vm_compute; reflexivity|discriminate].
Defined.
