(* ===== verification/ReadEmpty.v ===== *)
(** Reading an empty regular file (kernel/fs.c [readi], [bmap], [balloc];
    kernel/file.c [fileread]).

    [readi] looks at the first block of a regular file for a compression header
    before it looks at the number of bytes to read.  For a file that has no block
    yet, [bmap] then allocates one, and [fileread] has not opened a transaction. *)

From S2P Require Import Prelude Mem CString Kern Riscv Kalloc Vm Sleeplock Bio Block Log LogCrash Huffman Pipe State Wakeup Fs FsData FileOps Scenario Balloc.

(** No transaction is open and no buffer in use. *)
Record between_trans (s : ks) : Prop := {
  bt_held : Blk.held (bk s) = ∅;
  bt_refs : counted s;
  bt_room : Z.of_nat (size (Blk.refs (bk s))) < NBUF;
  bt_none : outstanding (flog s) = 0;
  bt_log : lh (flog s) = [];
  bt_size : 1 < lsize (flog s);
  bt_disk : sb_size (sb s) <= 2 ^ 31 }.

Lemma log_write_outside b h l :
  LLog ∉ h -> outstanding l < 1 -> lh l = [] -> 1 < lsize l ->
  Log.log_write b h l = Panic "log_write outside of trans".
Proof.
  intros Hh H1 H2 H3. unfold Log.log_write. kstep. rewrite kget_bind. unfold lh_n. rewrite H2. cbn [length].
  destruct (Z.geb_spec (Z.of_nat 0) LOGSIZE); [unfold LOGSIZE, MAXOPBLOCKS in *; lia|].
  destruct (Z.geb_spec (Z.of_nat 0) (lsize l - 1)); [lia|]. cbn [orb]. by destruct (Z.ltb_spec (outstanding l) 1); [|lia].
Qed.

Lemma balloc_outside fuel dev q s x :
  between_trans s -> 0 <= q -> BPB * q <= x < sb_size (sb s) -> isfree s x ->
  (0 < fuel)%nat -> sb_size (sb s) - BPB * q <= BPB * (Z.of_nat fuel - 1) ->
  balloc_loop fuel dev (BPB * q) [] s = Panic "log_write outside of trans".
Proof.
  intros [H C R O L S D]. revert q. induction fuel as [|fuel IH]; intros q Hq Hx Hf H0 Hs; [lia|]. cbn [balloc_loop].
  rewrite kget_bind. destruct (Z.ltb_spec (BPB * q) (sb_size (sb s))); [|lia].
  set (bb := BBLOCK (BPB * q) (sb s)).
  assert (bb ∉ Blk.held (bk s)) as Hbb by (rewrite H; set_solver).
  erewrite bind_ok by (apply bread_ks; [done|right; lia]). set (d := dread _ bb).
  pose proof (find_free_ok (Z.to_nat BPB) d (BPB * q) 0 (sb_size (sb s)) ltac:(unfold BPB, BSIZE; lia) ltac:(lia)) as F.
  destruct (find_free _ d (BPB * q) 0 _) as [k|].
  - erewrite bind_ok by reflexivity. apply bind_panic. unfold log_write, on_log, zoom. cbn [flog set_flog].
    rewrite log_write_outside; [done|set_solver| | |]; cbn [set_bk flog set_flog outstanding set_blk lh lsize]; [lia|done|done].
  - erewrite bind_ok by (apply brelse_ks; done). replace (BPB * q + BPB) with (BPB * (q + 1)) by lia.
    assert (BPB * (q + 1) <= x) as Lq; [|destruct (Z.ltb_spec (BPB * (q + 1)) (2 ^ 31)); [|lia];
      apply IH; [lia|lia|done|unfold BPB, BSIZE in *; lia|lia]].
    destruct (Z.lt_ge_cases x (BPB * (q + 1))) as [Lx|Lx]; [|lia]. exfalso.
    assert (0 <= x - BPB * q < BPB) as Hk by lia. destruct (bblock_at q (x - BPB * q) (sb s) Hk) as [E1 E2].
    replace (BPB * q + (x - BPB * q)) with x in * by lia. unfold isfree in Hf. rewrite E1, E2 in Hf. fold bb d in Hf.
    rewrite F in Hf by lia. done.
Qed.

(** An empty regular file that is in the inode table with no block of its own. *)
Record empty_file (s : ks) (ip : nat) : Prop := {
  ef_in : (ip < length (itable s))%nat;
  ef_ref : 1 <= i_ref (geti s ip);
  ef_lock : slocked (i_lock (geti s ip)) = 0;
  ef_valid : i_valid (geti s ip) <> 0;
  ef_type : i_type (geti s ip) = T_FILE;
  ef_size : i_size (geti s ip) = 0;
  ef_addr : addr (geti s ip) 0 = 0 }.

Lemma geti_updi s ip f : (ip < length (itable s))%nat -> geti (updi ip f s) ip = f (geti s ip).
Proof.
  intros [x Hx]%lookup_lt_is_Some_2. unfold geti, updi, set_itable. cbn [itable]. by rewrite list_lookup_alter_eq, Hx.
Qed.

Lemma ilock_ok s ip :
  empty_file s ip ->
  exists l, ilock (Some ip) [] s = Ok tt [] (updi ip (with_lock l) s).
Proof.
  intros [H1 H2 H3 H4 H5 H6 H7]. exists (Sleeplock 1 (mypid s)). unfold ilock, ip_get. erewrite bind_ok by reflexivity.
  destruct (Z.ltb_spec (i_ref (geti s ip)) 1); [lia|]. erewrite bind_ok.
  2:{ unfold acquire_ip. apply acquiresleep_ok; [set_solver|done]. }
  rewrite kget_bind. cbv zeta. rewrite geti_updi by done. cbn [i_valid with_lock].
  by rewrite (proj2 (Z.eqb_neq _ _) H4).
Qed.

Section read.
Context (end_ : Z) (devread : Z -> option (bool -> Z -> Z -> K ks Z)).

(** C36: reading an empty file panics the kernel.  If a regular file of size 0 has
    no block, no transaction is open, no buffer is held and the disk, of at most 2^31
    blocks, has a free block, then a read of any number of bytes through a
    readable descriptor at offset 0 ends in the panic of [log_write]. *)
Theorem read_empty_file_panics (fi : nat) (uaddr n x : Z) (s : ks) :
  between_trans s -> 0 <= x < sb_size (sb s) -> isfree s x ->
  f_readable (getf s fi) <> 0 -> f_type (getf s fi) = FD_INODE -> f_off (getf s fi) = 0 ->
  empty_file s (f_ip (getf s fi)) ->
  fileread end_ devread fi uaddr n [] s = Panic "log_write outside of trans".
Proof.
  intros T Hx Hf Hr Ht Ho He. unfold fileread, f_get. erewrite bind_ok by reflexivity.
  rewrite (proj2 (Z.eqb_neq _ _) Hr), Ht, Ho. set (ip := f_ip _) in *.
  destruct (ilock_ok s ip He) as [l El]. erewrite bind_ok by exact El. apply bind_panic.
  pose proof He as [H1 H2 H3 H4 H5 H6 H7]. set (s1 := updi ip (with_lock l) s).
  assert (geti s1 ip = with_lock l (geti s ip)) as Hg by by apply geti_updi.
  unfold readi, ip_get. erewrite bind_ok by reflexivity. rewrite Hg. cbn [i_size i_type with_lock i_dev].
  rewrite H6, H5. cbn [Z.gtb Z.compare]. destruct (Z.ltb_spec (u32 (0 + u32 n)) 0) as [X|_].
  { pose proof (u32_range (0 + u32 n)). lia. }
  cbn [orb]. change (T_FILE =? T_FILE) with true. cbv iota zeta. apply bind_panic, bind_panic.
  unfold bmap, ip_get. erewrite bind_ok by reflexivity. rewrite Hg. change (0 <? NDIRECT) with true. cbv iota.
  change (addr (with_lock l (geti s ip)) 0) with (addr (geti s ip) 0). rewrite H7. cbn [Z.eqb]. apply bind_panic.
  unfold balloc. rewrite kget_bind. apply (balloc_outside _ _ 0 s1 x); [|lia|cbn; lia|done|lia|].
  - by destruct T.
  - change (sb s1) with (sb s). unfold BPB, BSIZE. lia.
Qed.
End read.

(** Descriptor 0 is open on inode 2, created and never written. *)
Definition opened_empty : ks :=
  let s := calling 5 [0; 4096; 10] {[45 := sample_bitmap]} in
  set_itable (geti s 0 :: Inode 1 2 1 initsleeplock 1 2 0 0 1 0 (replicate 13 0) :: replicate 48 inode0)
    (set_ftable (File FD_INODE 1 1 1 0 1 0 0 :: replicate 99 file0) s).

Lemma read_empty_file_panics_witness :
  fileread end0 (fun _ => None) 0 4096 10 [] opened_empty = Panic "log_write outside of trans".
Proof.
  apply (read_empty_file_panics end0 (fun _ => None) 0 4096 10 46 opened_empty).
  - by split.
  - split; vm_compute; [discriminate|reflexivity].
  - vm_compute. reflexivity.
  - discriminate.
  - reflexivity.
  - reflexivity.
  - split; cbn; try lia; reflexivity.
Defined.
