(* ===== verification/ProcInv.v ===== *)
(** Process identity across system calls (kernel/proc.c, kernel/sysproc.c,
    kernel/sysfile.c, kernel/exec.c).

    [pid_rel] is what every operation but process creation does to the table:
    entries keep their pid and stay used or unused, except that a child that has
    been waited for becomes free.  [while_running] adds that the calling process
    stays the running one.  Walking through all system calls with the tactic of
    Frame.v gives the invariant at the end. *)

From S2P Require Import Prelude Mem CString Kern Riscv Kalloc Vm Sleeplock Bio Block Log Huffman Pipe State Wakeup Fs FsData FileOps Frame ProcOps Sysfile Exec Syscall Steady Scenario.

(** * Relations on the table *)

Definition same_id (p p' : proc) : Prop :=
  (p_pid p' = p_pid p /\ (p_state p' = UNUSED <-> p_state p = UNUSED)) \/
  (p_pid p' = 0 /\ p_state p' = UNUSED).

Definition pid_rel (s s' : ks) : Prop :=
  nextpid s' = nextpid s /\ length (procs s') = length (procs s) /\
  forall i p, procs s !! i = Some p -> exists p', procs s' !! i = Some p' /\ same_id p p'.

Definition running (s : ks) : Prop := exists p, procs s !! me s = Some p /\ p_state p = RUNNING.

Definition while_running (s s' : ks) : Prop := running s -> pid_rel s s' /\ me s' = me s /\ running s'.

#[export] Instance pid_rel_preorder : PreOrder pid_rel.
Proof.
  split.
  - intros s. split_and!; try done. intros i p Hp. exists p. split; [done|]. by left.
  - intros s1 s2 s3 (N1 & L1 & P1) (N2 & L2 & P2). split_and!; [congruence..|].
    intros i p Hp. destruct (P1 i p Hp) as (p' & Hp' & I1). destruct (P2 i p' Hp') as (p'' & Hp'' & I2).
    exists p''. split; [done|]. unfold same_id in *. naive_solver congruence.
Qed.

#[export] Instance while_running_preorder : PreOrder while_running.
Proof.
  split.
  - intros s Hs. split_and!; [reflexivity|done|done].
  - intros s1 s2 s3 H1 H2 Hr. destruct (H1 Hr) as (P1 & M1 & R1). destruct (H2 R1) as (P2 & M2 & R2).
    split_and!; [by transitivity s2|congruence|done].
Qed.

Abbreviation pok := (keeps while_running).

Lemma same_procs_running s s' : same_procs s s' -> while_running s s'.
Proof.
  intros (E1 & E2 & E3 & _) (p & Hp & Hr). split_and!; [|done|].
  - split_and!; [done|by rewrite E1|]. intros i q Hq. exists q. rewrite E1. split; [done|]. by left.
  - exists p. by rewrite E1, E2.
Qed.

Lemma keeps_fs {A} (m : K ks A) : keeps same_procs m -> pok m.
Proof. intros H h s a h' s' E. by eapply same_procs_running, H. Qed.

Lemma upd_running i f s :
  (forall p, procs s !! i = Some p -> same_id p (f p) /\ (i = me s -> p_state p = RUNNING -> p_state (f p) = RUNNING)) ->
  while_running s (updp i f s).
Proof.
  intros Hf (q & Hq & Hr). split_and!.
  - split_and!; [done|apply length_alter|]. intros j p Hp. rewrite lookup_updp, Hp. case_decide as E.
    + subst j. exists (f p). split; [done|]. by apply Hf.
    + exists p. split; [done|]. by left.
  - done.
  - unfold running. rewrite lookup_updp. cbn [me updp set_procs]. rewrite Hq. case_decide as E.
    + subst i. exists (f q). split; [done|]. by apply (Hf q).
    + exists q. done.
Qed.

Lemma pset_running i f s :
  (forall p, p_pid (f p) = p_pid p /\ p_state (f p) = p_state p) -> while_running s (updp i f s).
Proof.
  intros Hf. apply upd_running. intros p _. destruct (Hf p) as [E1 E2].
  split; [|intros _ ?; congruence]. left. by rewrite E1, E2.
Qed.

Lemma pok_p_set i f :
  (forall p, p_pid (f p) = p_pid p /\ p_state (f p) = p_state p) -> pok (p_set i f).
Proof. intros Hf. apply keeps_kmodify. intros s. by apply pset_running. Qed.

#[export] Hint Extern 2 (keeps while_running (p_set _ _)) => (apply pok_p_set; intros ?; split; reflexivity) : frame.
#[export] Hint Extern 3 (keeps while_running _) => (apply keeps_fs; solve [eauto with frame]) : frame.
#[export] Hint Extern 1 (while_running _ _) => (apply same_procs_running; repeat split; reflexivity) : frame.

(** Changing the state of an entry that is not the caller's between two used states. *)
Lemma state_running i x s :
  p_state (getp s i) <> UNUSED -> (i = me s -> p_state (getp s i) <> RUNNING \/ x = RUNNING) -> x <> UNUSED ->
  while_running s (updp i (set_state x) s).
Proof.
  intros Hu Hm Hx. apply upd_running. intros p Hp. rewrite (getp_lookup _ _ _ Hp) in *. split.
  - left. split; [done|]. cbn. naive_solver.
  - intros E Hr. destruct (Hm E); [done|]. by subst x.
Qed.

#[export] Instance while_running_steady : Steady while_running.
Proof.
  split.
  - exact _.
  - intros s s' [H _]. by apply same_procs_running.
  - intros i f s Hf. apply pset_running. intros p. by destruct (Hf p) as (? & ? & _).
  - intros i g s _. by apply same_procs_running.
  - intros i s Hs. apply state_running; rewrite ?Hs; [done|by left|done].
  - intros i s Hd. apply upd_running. intros p Hp. rewrite (getp_lookup _ _ _ Hp) in Hd. split; [by right|].
    intros _ Hr. unfold dead in Hd. by rewrite Hr in Hd.
Qed.

(** The rest of the operations and system calls. *)
Section ops.
Context (end_ : Z).
Lemma pok_fileclose i : pok (fileclose end_ i). Proof. unfold fileclose. keeps_tac. Qed.
#[local] Hint Resolve pok_fileclose : frame.
Lemma pok_pipealloc : pok (pipealloc end_). Proof. unfold pipealloc. keeps_tac. Qed.
Lemma pok_fdalloc f : pok (fdalloc f). Proof. unfold fdalloc. keeps_tac. Qed.
Lemma pok_close_both a b : pok (close_both end_ a b). Proof. unfold close_both. keeps_tac. Qed.
#[local] Hint Resolve pok_pipealloc pok_fdalloc pok_close_both : frame.
Lemma pok_sys_dup : pok sys_dup. Proof. unfold sys_dup. keeps_tac. Qed.
Lemma pok_sys_close : pok (sys_close end_). Proof. unfold sys_close. keeps_tac. Qed.
Lemma pok_sys_open : pok (sys_open end_). Proof. unfold sys_open. keeps_tac. Qed.
Lemma pok_sys_pipe : pok (sys_pipe end_). Proof. unfold sys_pipe. keeps_tac. Qed.
End ops.

(** * Creation *)

(** Every process that is in use has its own pid, below [nextpid]; pid 0 marks
    the free entries. *)
Record pids_ok (s : ks) : Prop := {
  pk_next : 0 < nextpid s;
  pk_unused : forall i p, procs s !! i = Some p -> p_state p = UNUSED -> p_pid p = 0;
  pk_used : forall i p, procs s !! i = Some p -> p_state p <> UNUSED -> 0 < p_pid p < nextpid s;
  pk_distinct : forall i j p q, procs s !! i = Some p -> procs s !! j = Some q ->
    p_state p <> UNUSED -> p_pid p = p_pid q -> i = j }.

Lemma pid_rel_ok s s' : pid_rel s s' -> pids_ok s -> pids_ok s'.
Proof.
  intros (N & L & P) [K1 K2 K3 K4].
  assert (forall i p', procs s' !! i = Some p' -> exists p, procs s !! i = Some p /\ same_id p p') as Hback.
  { intros i p' Hp'. destruct (lookup_lt_is_Some_2 (procs s) i) as [p Hp].
    - rewrite <-L. by eapply lookup_lt_Some.
    - exists p. split; [done|]. destruct (P i p Hp) as (q & Hq & I). by simplify_eq. }
  split.
  - by rewrite N.
  - intros i p' Hp' Hu. destruct (Hback i p' Hp') as (p & Hp & [[E1 E2]|[E1 E2]]); [|done].
    rewrite E1. eapply K2; [done|]. by apply E2.
  - intros i p' Hp' Hu. destruct (Hback i p' Hp') as (p & Hp & [[E1 E2]|[E1 E2]]); [|done].
    rewrite E1, N. eapply K3; [done|]. by rewrite <-E2.
  - intros i j p' q' Hp' Hq' Hu Epq. destruct (Hback i p' Hp') as (p & Hp & [[E1 E2]|[E1 E2]]); [|done].
    destruct (Hback j q' Hq') as (q & Hq & [[F1 F2]|[F1 F2]]).
    + eapply K4; [done..| |congruence]. by rewrite <-E2.
    + exfalso. pose proof (K3 i p Hp). rewrite <-E2, <-E1, Epq, F1 in H. destruct (H Hu). lia.
Qed.

Lemma allocproc_loop_spec ids h s r h' s' :
  allocproc_loop ids h s = Ok r h' s' ->
  s' = s /\ forall i, r = Some i -> i ∈ ids /\ p_state (getp s i) = UNUSED.
Proof.
  revert h. induction ids as [|k ids IH]; intros h; cbn [allocproc_loop].
  - by intros [= <- <- <-].
  - intros E. apply bind_inv in E as ([] & h1 & s1 & E1 & E). unfold acquire in E1. case_decide; [done|].
    injection E1 as <- <-. apply bind_inv in E as (p & h2 & s2 & E2 & E). injection E2 as <- <- <-.
    revert E. case_decide as D.
    + intros [= <- <- <-]. split; [done|]. intros i [= <-]. split; [by left|done].
    + intros E. apply bind_inv in E as ([] & h3 & s3 & E3 & E). unfold release in E3. case_decide; [|done].
      injection E3 as <- <-. apply IH in E as [-> E]. split; [done|]. intros i Hi.
      destruct (E i Hi). split; [by right|done].
Qed.

Lemma acquire_inv {S} lk h (s : S) a h' s' : acquire lk h s = Ok a h' s' -> s' = s.
Proof. unfold acquire. case_decide; [done|]. by intros [= <- <- <-]. Qed.

Lemma release_inv {S} lk h (s : S) a h' s' : release lk h s = Ok a h' s' -> s' = s.
Proof. unfold release. case_decide; [|done]. by intros [= <- <- <-]. Qed.

Lemma allocpid_spec h s r h' s' :
  allocpid h s = Ok r h' s' -> r = nextpid s /\ s' = set_nextpid (s32 (nextpid s + 1)) s.
Proof.
  unfold allocpid. intros H. kinv H. apply acquire_inv in E as ->. injection E0 as <- <- <-.
  injection E1 as <- <- <-. apply release_inv in E2 as ->. by injection H as <- <- <-.
Qed.

(** While entry [np] is being set up its state is USED. *)
Definition setting_up (np : nat) (s s' : ks) : Prop :=
  p_state (getp s np) = USED -> while_running s s' /\ p_state (getp s' np) = USED.

#[export] Instance setting_up_preorder np : PreOrder (setting_up np).
Proof.
  split.
  - intros s Hs. split; [reflexivity|done].
  - intros s1 s2 s3 H1 H2 Hs. destruct (H1 Hs) as [W1 U1]. destruct (H2 U1) as [W2 U2].
    split; [by transitivity s2|done].
Qed.

Lemma same_procs_using np s s' : same_procs s s' -> setting_up np s s'.
Proof.
  intros H Hs. split; [by apply same_procs_running|]. destruct H as (E & _). unfold getp in *. by rewrite E.
Qed.

Lemma getp_updp i f s j :
  (forall p, p_state (f p) = p_state p) -> p_state (getp (updp i f s) j) = p_state (getp s j).
Proof.
  intros Hf. unfold getp. rewrite lookup_updp. case_decide; [|done]. subst.
  destruct (procs s !! j); [apply Hf|done].
Qed.

Lemma keeps_setting_up_fs {A} np (m : K ks A) : keeps same_procs m -> keeps (setting_up np) m.
Proof. intros H h s a h' s' E. by eapply same_procs_using, H. Qed.

Lemma keeps_setting_up_set np i f :
  (forall p, p_pid (f p) = p_pid p /\ p_state (f p) = p_state p) -> keeps (setting_up np) (p_set i f).
Proof.
  intros Hf. apply keeps_kmodify. intros s Hs. split; [by apply pset_running|].
  rewrite getp_updp; [done|]. intros p. apply Hf.
Qed.

#[local] Hint Extern 2 (keeps (setting_up _) (p_set _ _)) => (apply keeps_setting_up_set; intros ?; split; reflexivity) : frame.
#[local] Hint Extern 3 (keeps (setting_up _) _) => (apply keeps_setting_up_fs; solve [eauto with frame]) : frame.
#[local] Hint Extern 1 (setting_up _ _ _) => (apply same_procs_using; repeat split; reflexivity) : frame.

(** One step of a run under [setting_up]: [H] relates the first state to the current. *)
Ltac advance np H E :=
  let x := fresh "x" in let h := fresh "h" in let s := fresh "s" in let E1 := fresh "E" in
  apply bind_inv in E as (x & h & s & E1 & E);
  match type of E1 with
  | ?m ?h1 ?s1 = Ok _ _ _ =>
      let Hk := fresh in assert (keeps (setting_up np) m) as Hk by keeps_tac;
      apply Hk in E1; apply (transitivity H) in E1; clear H Hk; rename E1 into H
  end.

Section create.
Context (end_ trampoline forkret : Z).
#[local] Hint Resolve fs_proc_freepagetable fs_proc_pagetable : frame.

Lemma keeps_setting_up_dup fds p np np' : keeps (setting_up np') (dup_files fds p np).
Proof. induction fds; cbn [dup_files]; keeps_tac. Qed.
#[local] Hint Resolve keeps_setting_up_dup : frame.

Lemma freeproc_using np s0 h s a h' s' :
  setting_up np s0 s -> p_state (getp s0 np) = USED -> freeproc end_ np h s = Ok a h' s' -> while_running s0 s'.
Proof.
  intros H Hu E. destruct (H Hu) as [W U]. transitivity s; [done|].
  eapply (freeproc_steady while_running); [|exact E]. unfold dead. by rewrite U.
Qed.

(** A free entry gets the next pid. *)
Lemma new_pid s i :
  pids_ok s -> running s -> nextpid s + 1 < 2 ^ 31 -> p_state (getp s i) = UNUSED -> (i < length (procs s))%nat ->
  let s2 := updp i (fun p => set_state USED (set_pid (nextpid s) p)) (set_nextpid (s32 (nextpid s + 1)) s) in
  pids_ok s2 /\ running s2 /\ me s2 = me s /\ nextpid s2 = nextpid s + 1 /\ p_state (getp s2 i) = USED /\ i <> me s.
Proof.
  intros [K1 K2 K3 K4] (q & Hq & Hqr) Hn Hu Hi s2.
  destruct (lookup_lt_is_Some_2 _ _ Hi) as [p Hp]. rewrite (getp_lookup _ _ _ Hp) in Hu.
  assert (i <> me s) as Him by (intros ->; congruence).
  assert (nextpid s2 = nextpid s + 1) as Hnp by (cbn; apply s32_small; lia).
  assert (forall j, procs s2 !! j = if decide (i = j) then Some (set_state USED (set_pid (nextpid s) p)) else procs s !! j) as Hl.
  { intros j. unfold s2. rewrite lookup_updp. cbn [procs set_nextpid]. case_decide; [subst; by rewrite Hp|done]. }
  split_and!; [|..|done].
  - split.
    + lia.
    + intros j x. rewrite Hl. case_decide; [by intros [= <-]|]. apply K2.
    + intros j x. rewrite Hl, Hnp. case_decide.
      * intros [= <-] _. cbn. lia.
      * intros Hx Hxu. pose proof (K3 j x Hx Hxu). lia.
    + intros j k x y. rewrite !Hl. case_decide as Dj; case_decide as Dk; subst; try done.
      * intros [= <-] Hy _ E. cbn in E. destruct (decide (p_state y = UNUSED)) as [Yu|Yu].
        -- pose proof (K2 k y Hy Yu). lia.
        -- pose proof (K3 k y Hy Yu). lia.
      * intros Hx [= <-] Hxu E. cbn in E. pose proof (K3 j x Hx Hxu). lia.
      * apply K4.
  - exists q. rewrite Hl. cbn [me s2 updp set_procs set_nextpid]. rewrite decide_False by done. done.
  - done.
  - done.
  - unfold getp. rewrite Hl, decide_True by done. done.
Qed.

Lemma allocproc_ok h s r h' s' :
  pids_ok s -> running s -> nextpid s + 1 < 2 ^ 31 -> length (procs s) = 64%nat ->
  allocproc end_ trampoline forkret h s = Ok r h' s' ->
  pids_ok s' /\ running s' /\ nextpid s <= nextpid s' <= nextpid s + 1 /\ length (procs s') = 64%nat /\
  forall i, r = Some i -> p_state (getp s' i) = USED.
Proof.
  intros Hk Hr Hn Hlen E. unfold allocproc in E. apply bind_inv in E as (r1 & h1 & s1 & E1 & E).
  apply allocproc_loop_spec in E1 as [-> H1]. destruct r1 as [i|].
  2:{ injection E as <- <- <-. split_and!; try done; lia. }
  destruct (H1 i eq_refl) as [Hi Hu]. apply bind_inv in E as (pid & h2 & s2 & E2 & E).
  apply allocpid_spec in E2 as [-> ->]. apply bind_inv in E as ([] & h3 & s3 & E3 & E).
  destruct (new_pid s i Hk Hr Hn Hu) as (N1 & N2 & N3 & N4 & N5 & N6).
  { rewrite Hlen. apply elem_of_seq in Hi. lia. }
  injection E3 as <- <-. set (sn := updp i _ _) in *.
  assert (setting_up i sn sn) as U by reflexivity.
  assert (forall sf, while_running sn sf -> pids_ok sf /\ running sf /\
            nextpid s <= nextpid sf <= nextpid s + 1 /\ length (procs sf) = 64%nat) as Hfin.
  { intros sf W. destruct (W N2) as (P & M & R). split_and!; [by eapply pid_rel_ok|done|..].
    - destruct P as (P & _). lia.
    - destruct P as (P & _). lia.
    - destruct P as (_ & L & _). rewrite L. unfold sn, updp, set_procs. cbn [procs]. by rewrite length_alter. }
  advance i U E. advance i U E. destruct (x =? 0).
  { apply bind_inv in E as ([] & h4 & s4 & E4 & E). eapply freeproc_using in E4; [|exact U|done].
    apply bind_inv in E as ([] & h5 & s5 & E5 & E). apply release_inv in E5 as ->. injection E as <- <- <-.
    destruct (Hfin _ E4) as (?&?&[? ?]&?). by split_and!. }
  advance i U E. advance i U E. destruct (x1 =? 0).
  { apply bind_inv in E as ([] & h6 & s6 & E6 & E). eapply freeproc_using in E6; [|exact U|done].
    apply bind_inv in E as ([] & h7 & s7 & E7 & E). apply release_inv in E7 as ->. injection E as <- <- <-.
    destruct (Hfin _ E6) as (?&?&[? ?]&?). by split_and!. }
  advance i U E. injection E as <- <- <-. destruct (U N5) as [W U']. destruct (Hfin _ W) as (?&?&[? ?]&?).
  split_and!; try done. by intros j [= <-].
Qed.

Lemma fork_ok h s r h' s' :
  pids_ok s -> running s -> nextpid s + 1 < 2 ^ 31 -> length (procs s) = 64%nat ->
  fork end_ trampoline forkret h s = Ok r h' s' ->
  pids_ok s' /\ running s' /\ nextpid s <= nextpid s' <= nextpid s + 1 /\ length (procs s') = 64%nat.
Proof.
  intros Hk Hr Hn Hlen E. unfold fork in E. apply bind_inv in E as (i & h0 & s0 & E0 & E). injection E0 as <- <- <-.
  apply bind_inv in E as (r1 & h1 & s1 & E1 & E).
  apply allocproc_ok in E1 as (K1 & R1 & N1 & L1 & U1); try done.
  assert (forall sf, while_running s1 sf -> pids_ok sf /\ running sf /\
            nextpid s <= nextpid sf <= nextpid s + 1 /\ length (procs sf) = 64%nat) as Hfin.
  { intros sf W. destruct (W R1) as (P & M & R). split_and!; [by eapply pid_rel_ok|done|..].
    - destruct P as (P & _). lia.
    - destruct P as (P & _). lia.
    - destruct P as (_ & L & _). by rewrite L. }
  destruct r1 as [np|]; [|injection E as <- <- <-; apply Hfin; reflexivity].
  pose proof (U1 np eq_refl) as Hu. assert (setting_up np s1 s1) as U by reflexivity.
  do 3 advance np U E. destruct (x1 <? 0).
  { apply bind_inv in E as ([] & h6 & s6 & E6 & E). eapply freeproc_using in E6; [|exact U|done].
    apply bind_inv in E as ([] & h7 & s7 & E7 & E). apply release_inv in E7 as ->. injection E as <- <- <-.
    by apply Hfin. }
  do 13 advance np U E. destruct (U Hu) as [W U'].
  apply bind_inv in E as ([] & h20 & s20 & E20 & E). injection E20 as <- <-.
  apply bind_inv in E as ([] & h21 & s21 & E21 & E). apply release_inv in E21 as ->. injection E as <- <- <-.
  apply Hfin. match type of U' with p_state (getp ?x _) = _ => transitivity x end; [done|]. apply state_running; rewrite ?U'; [done|by left|done].
Qed.
End create.

(** * Every system call *)

Section calls.
Context (end_ trampoline forkret : Z).
Context (devread devwrite : Z -> option (bool -> Z -> Z -> K ks Z)).
(** Drivers leave the identity of processes alone. *)
Hypothesis devread_pok : forall major f, devread major = Some f -> forall u a n, pok (f u a n).
Hypothesis devwrite_pok : forall major f, devwrite major = Some f -> forall u a n, pok (f u a n).

Lemma pok_syscalls num f :
  num <> 1 -> num <> 2 -> syscalls end_ trampoline forkret devread devwrite num = Some f -> pok f.
Proof.
  intros H1 H2 E. destruct (decide (num ∈ [1; 2; 4; 10; 15; 21])) as [D|D].
  - rewrite !elem_of_cons in D. destruct D as [D|[D|[D|[D|[D|[D|D]]]]]]; subst; try done; [..|by apply elem_of_nil in D];
      apply (inj Some) in E as <-.
    + apply pok_sys_pipe.
    + apply pok_sys_dup.
    + apply pok_sys_open.
    + apply pok_sys_close.
  - eapply st_syscalls; [exact _|exact devread_pok|exact devwrite_pok|exact D|exact E].
Qed.

(** C11: process identity.  In a system whose live processes have distinct pids
    below nextpid, and nextpid not at the end of the ints, every system call that
    returns to its process without having slept, whatever it does to files, memory and other processes and whether it succeeds or fails,
    leaves a system with the same property, with the caller still running and
    nextpid advanced by at most one. *)
Theorem pids_stay_unique (h h' : list lockid) (s s' : ks) :
  pids_ok s -> running s -> length (procs s) = 64%nat -> nextpid s + 1 < 2 ^ 31 ->
  syscall end_ trampoline forkret devread devwrite h s = Ok tt h' s' ->
  pids_ok s' /\ running s' /\ length (procs s') = 64%nat /\ nextpid s <= nextpid s' <= nextpid s + 1.
Proof.
  intros Hk Hr Hl Hn E. unfold syscall in E. rewrite kget_bind in E.
  set (num := s32 _) in E. set (a0 := p_trapframe _ + tf_a 0) in E.
  assert (forall sm s1, while_running sm s1 -> pids_ok sm -> running sm -> length (procs sm) = 64%nat ->
            pids_ok s1 /\ running s1 /\ length (procs s1) = 64%nat /\ nextpid s1 = nextpid sm) as Hrel.
  { intros sm s1 W K R L. destruct (W R) as (P & _ & R'). split_and!; [by eapply pid_rel_ok|done|..].
    - destruct P as (_ & P & _). by rewrite P.
    - by destruct P as (P & _). }
  assert (forall v h1 s1 h2 s2, on_mm (wr64 a0 v) h1 s1 = Ok tt h2 s2 -> while_running s1 s2) as Hw.
  { intros v h1 s1 h2 s2 E1. apply same_procs_running. keeps_run same_procs E1. }
  destruct (syscalls end_ trampoline forkret devread devwrite num) as [f|] eqn:Ef.
  2:{ apply Hw in E. destruct (Hrel _ _ E Hk Hr Hl) as (?&?&?&->). split_and!; try done; lia. }
  apply bind_inv in E as (r & h1 & s1 & E1 & E). apply Hw in E.
  destruct (decide (num = 1)) as [->|N1].
  { apply (inj Some) in Ef as <-. apply fork_ok in E1 as (K1 & R1 & [N1 N2] & L1); try done.
    destruct (Hrel _ _ E K1 R1 L1) as (?&?&?&->). by split_and!. }
  destruct (decide (num = 2)) as [->|N2].
  { apply (inj Some) in Ef as <-. unfold sys_exit in E1. apply bind_inv in E1 as (n & h2 & s2 & _ & E1).
    by apply bind_inv in E1 as (? & ? & ? & _ & E1). }
  pose proof (pok_syscalls num f N1 N2 Ef _ _ _ _ _ E1) as W.
  destruct (Hrel _ _ W Hk Hr Hl) as (K1 & R1 & L1 & N3). destruct (Hrel _ _ E K1 R1 L1) as (?&?&?&->).
  split_and!; try done; lia.
Qed.
End calls.

(** * A witness *)

Lemma calling_procs num args d i p :
  procs (calling num args d) !! i = Some p -> i = 0%nat /\ p = proc1 \/ p = proc0.
Proof.
  cbn [procs calling]. destruct i; cbn [lookup list_lookup]; [intros [= <-]; by left|].
  intros [-> _]%lookup_replicate. by right.
Qed.

Lemma calling_pids_ok num args d : pids_ok (calling num args d).
Proof.
  split; [done|..].
  - intros i p [[-> ->]| ->]%calling_procs; done.
  - intros i p [[-> ->]| ->]%calling_procs; [by cbn|done].
  - intros i j p q [[-> ->]| ->]%calling_procs [[-> ->]| ->]%calling_procs; done.
Qed.

Definition no_devices : Z -> option (bool -> Z -> Z -> K ks Z) := fun _ => None.

(** [fork] by the first process succeeds and the child gets pid 2. *)
Lemma pids_stay_unique_witness : exists h s,
  syscall end0 0x80029000 0 no_devices no_devices [] (calling 1 [] ∅) = Ok tt h s /\
  ld64 (km s) (trap0 + tf_a 0) = 2 /\ pids_ok s.
Proof.
  destruct (returns_ex (syscall end0 0x80029000 0 no_devices no_devices [] (calling 1 [] ∅))
              (fun _ _ s => ld64 (km s) (trap0 + tf_a 0) =? 2)) as ([] & h & s & E & F).
  { vm_compute. reflexivity. }
  exists h, s. split; [exact E|]. split; [by apply Z.eqb_eq in F|].
  eapply (pids_stay_unique end0 0x80029000 0 no_devices no_devices); [| |apply calling_pids_ok|..|exact E].
  - discriminate.
  - discriminate.
  - exists proc1. split; reflexivity.
  - reflexivity.
  - reflexivity.
Defined.
