(* ===== verification/Timer.v ===== *)
(** Sleeping for a number of clock ticks, from the interrupt to the return of the
    system call (kernel/trap.c [clockintr], kernel/proc.c [wakeup], [sleep] and
    the scheduler, kernel/sysproc.c [sys_sleep]).

    [turn] is what one clock tick does to a process that sleeps in [sys_sleep]:
    the interrupt counts and wakes it, the scheduler picks it, [sleep] returns in
    it, it looks at the clock, and it either leaves the loop or sleeps again. *)

From S2P Require Import Prelude Mem CString Kern Riscv Kalloc Vm Sleeplock Bio Block Log Huffman Pipe State Wakeup Fs FsData FileOps ProcOps Sysfile Exec Syscall Frame Steady Scenario ProcInv.

(** Process [i] sleeps since [ticks0] for [n] ticks; the interrupt comes while [c]
    runs, which is not a process of the table when the CPU is idle. *)
Definition turn (c i : nat) (ticks0 n : Z) : K ks (option Z) :=
  kmodify (set_me c);;
  clockintr 0;;
  b ← sched_pick i;
  if b : bool
  then
    sleep_leave LTicks;;
    r ← sleep_check ticks0 n;
    match r with
    | Some r => mret (Some r)
    | None => sleep_enter TICKS_CHAN LTicks;; sched_back i;; mret None
    end
  else sched_back i;; mret None.

(** At most [k] ticks, until the process leaves the loop: the number of ticks it
    took and the result. *)
Fixpoint turns (k : nat) (c i : nat) (ticks0 n : Z) : K ks (option (Z * Z)) :=
  match k with
  | O => mret None
  | S k =>
      r ← turn c i ticks0 n;
      match r with
      | Some r => mret (Some (1, r))
      | None =>
          r ← turns k c i ticks0 n;
          mret (match r with Some (j, r) => Some (j + 1, r) | None => None end)
      end
  end.

(** * Waking *)

Definition wake_one (chan : Z) (s : ks) (i : nat) : ks :=
  if decide (i <> me s /\ p_state (getp s i) = SLEEPING /\ p_chan (getp s i) = chan)
  then updp i (set_state RUNNABLE) s else s.

Lemma wakeup_loop_ok ids chan h s :
  (forall i, i ∈ ids -> LProc i ∉ h) -> wakeup_loop ids chan h s = Ok tt h (foldl (wake_one chan) s ids).
Proof.
  revert s. induction ids as [|i ids IH]; intros s Hh; [done|]. cbn [wakeup_loop foldl].
  unfold mbind at 1, K_bind at 1. cbn [kget]. assert (LProc i ∉ h) as Hi by (apply Hh; set_solver).
  assert (forall s1, (wakeup_loop ids chan) h s1 = Ok tt h (foldl (wake_one chan) s1 ids)) as IH' by (intros; apply IH; set_solver).
  unfold wake_one at 2. destruct (decide (i = me s)) as [E|E].
  { rewrite decide_False by tauto. erewrite bind_ok by reflexivity. apply IH'. }
  erewrite bind_ok; [apply IH'|]. kstep. erewrite bind_ok by reflexivity. case_decide as D.
  - rewrite decide_True by tauto. erewrite bind_ok by reflexivity. by kstep.
  - rewrite decide_False by tauto. erewrite bind_ok by reflexivity. by kstep.
Qed.

Lemma wake_one_frame chan s i : me (wake_one chan s i) = me s /\ ticks (wake_one chan s i) = ticks s.
Proof. unfold wake_one. by case_decide. Qed.

Lemma wake_all_frame chan ids s :
  me (foldl (wake_one chan) s ids) = me s /\ ticks (foldl (wake_one chan) s ids) = ticks s.
Proof.
  revert s. induction ids as [|i ids IH]; intros s; [done|]. cbn.
  destruct (IH (wake_one chan s i)) as [-> ->]. apply wake_one_frame.
Qed.

(** A process keeps everything but a state of sleep on the channel. *)
Lemma wake_one_at chan s i j p :
  procs s !! j = Some p ->
  procs (wake_one chan s i) !! j =
  Some (if decide (i = j /\ j <> me s /\ p_state p = SLEEPING /\ p_chan p = chan) then set_state RUNNABLE p else p).
Proof.
  intros Hj. unfold wake_one. destruct (decide (i = j)) as [->|N].
  - rewrite (getp_lookup _ _ _ Hj). case_decide as D.
    + rewrite lookup_updp, Hj, decide_True by done. by rewrite decide_True.
    + rewrite decide_False by tauto. done.
  - rewrite (decide_False (P := i = j /\ _)) by tauto. case_decide; [|done]. by rewrite lookup_updp, decide_False.
Qed.

Lemma wake_all_at chan ids s j p :
  procs s !! j = Some p ->
  procs (foldl (wake_one chan) s ids) !! j =
  Some (if decide (j ∈ ids /\ j <> me s /\ p_state p = SLEEPING /\ p_chan p = chan) then set_state RUNNABLE p else p).
Proof.
  revert s p. induction ids as [|i ids IH]; intros s p Hj; cbn [foldl].
  { rewrite decide_False; [done|]. by intros [?%elem_of_nil _]. }
  rewrite (IH _ _ (wake_one_at chan s i j p Hj)). destruct (wake_one_frame chan s i) as [-> _].
  f_equal. destruct (decide (i = j)) as [->|N].
  - destruct (decide (j <> me s /\ p_state p = SLEEPING /\ p_chan p = chan)) as [D|D].
    + rewrite (decide_True (P := j = j /\ _)) by tauto. rewrite decide_False by (cbn; naive_solver).
      rewrite decide_True; [done|]. split; [by left|done].
    + rewrite (decide_False (P := j = j /\ _)) by tauto. rewrite !decide_False by tauto. done.
  - rewrite (decide_False (P := i = j /\ _)) by tauto. apply decide_ext. rewrite elem_of_cons. naive_solver.
Qed.

(** The tick counts, and wakes the processes that sleep on it. *)
Lemma clockintr_ok s j p :
  procs s !! j = Some p -> (j < 64)%nat ->
  exists s', clockintr 0 [] s = Ok tt [] s' /\ ticks s' = u32 (ticks s + 1) /\ me s' = me s /\
    procs s' !! j = Some (if decide (j <> me s /\ p_state p = SLEEPING /\ p_chan p = TICKS_CHAN) then set_state RUNNABLE p else p).
Proof.
  intros Hj Hl. unfold clockintr. cbn [Z.eqb]. kstep. erewrite bind_ok by reflexivity.
  set (s1 := set_ticks _ s). erewrite bind_ok.
  2:{ apply wakeup_loop_ok. intros i _. set_solver. }
  eexists. split; [by kstep|]. destruct (wake_all_frame TICKS_CHAN proc_ids s1) as [-> ->].
  split_and!; [done..|]. rewrite (wake_all_at _ _ s1 j p Hj). f_equal. apply decide_ext.
  change (me s1) with (me s). assert (j ∈ proc_ids) by (apply elem_of_seq; lia). tauto.
Qed.

(** Process [i] is asleep in [sys_sleep], with its killed flag. *)
Definition sleeper (s : ks) (i : nat) (k : Z) : Prop :=
  exists p, procs s !! i = Some p /\ p_state p = SLEEPING /\ p_chan p = TICKS_CHAN /\ p_killed p = k.

Lemma at_updp i f s p : procs s !! i = Some p -> procs (updp i f s) !! i = Some (f p).
Proof. intros H. by rewrite lookup_updp, decide_True, H by done. Qed.

(** What the process does when the scheduler picks it. *)
Lemma picked s i p :
  procs s !! i = Some p -> p_state p = RUNNABLE ->
  exists s', sched_pick i [] s = Ok true [LProc i] s' /\ me s' = i /\ ticks s' = ticks s /\
    procs s' !! i = Some (set_state RUNNING p).
Proof.
  intros Hp Hr. unfold sched_pick. kstep. erewrite bind_ok by reflexivity.
  rewrite (getp_lookup _ _ _ Hp), decide_True by done. do 2 (erewrite bind_ok by reflexivity).
  eexists. split; [reflexivity|]. split_and!; [done..|]. by apply (at_updp i _ s p).
Qed.

Lemma left_sleep s i p :
  procs s !! i = Some p -> me s = i ->
  exists s', sleep_leave LTicks [LProc i] s = Ok tt [LTicks] s' /\ me s' = i /\ ticks s' = ticks s /\
    procs s' !! i = Some (set_chan 0 p).
Proof.
  intros Hp Hm. unfold sleep_leave. do 2 (erewrite bind_ok by reflexivity). rewrite Hm.
  eexists. split; [do 2 kstep; reflexivity|]. split_and!; [done..|]. by apply (at_updp i _ s p).
Qed.

Lemma checked ticks0 n s i p :
  procs s !! i = Some p -> me s = i ->
  sleep_check ticks0 n [LTicks] s =
  if u32 (ticks s - ticks0) <? n
  then if p_killed p =? 0 then Ok None [LTicks] s else Ok (Some (-1)) [] s
  else Ok (Some 0) [] s.
Proof.
  intros Hp Hm. unfold sleep_check. erewrite bind_ok by reflexivity. rewrite Hm. case_match; [|by kstep].
  erewrite bind_ok. 2:{ unfold killed. kstep. erewrite bind_ok by reflexivity. by kstep. }
  rewrite (getp_lookup _ _ _ Hp). destruct (p_killed p =? 0); [done|]. cbn [negb]. by kstep.
Qed.

Lemma slept_again s i p :
  procs s !! i = Some p -> me s = i ->
  exists s', sleep_enter TICKS_CHAN LTicks [LTicks] s = Ok tt [LProc i] s' /\ ticks s' = ticks s /\
    sleeper s' i (p_killed p).
Proof.
  intros Hp Hm. unfold sleep_enter. erewrite bind_ok by reflexivity. rewrite Hm. kstep.
  erewrite bind_ok by reflexivity. do 2 (erewrite bind_ok by reflexivity).
  set (s2 := updp i (set_state SLEEPING) (updp i (set_chan TICKS_CHAN) s)).
  assert (procs s2 !! i = Some (set_state SLEEPING (set_chan TICKS_CHAN p))) as H2 by by do 2 apply at_updp.
  exists s2. unfold sched. change (me s2) with (me s). rewrite Hm, (getp_lookup _ _ _ H2).
  rewrite decide_False by set_solver. split_and!; [done..|]. by exists (set_state SLEEPING (set_chan TICKS_CHAN p)).
Qed.

Lemma turn_ok c i ticks0 n k s :
  (i < 64)%nat -> c <> i -> sleeper s i k ->
  exists s', ticks s' = u32 (ticks s + 1) /\
    if u32 (ticks s' - ticks0) <? n
    then if k =? 0 then turn c i ticks0 n [] s = Ok None [] s' /\ sleeper s' i 0
         else turn c i ticks0 n [] s = Ok (Some (-1)) [] s'
    else turn c i ticks0 n [] s = Ok (Some 0) [] s'.
Proof.
  intros Hi Hc (p & Hp & Hs & Hch & Hk). unfold turn. erewrite bind_ok by reflexivity.
  destruct (clockintr_ok (set_me c s) i p Hp Hi) as (s1 & E1 & T1 & M1 & P1). erewrite bind_ok by exact E1.
  change (ticks (set_me c s)) with (ticks s) in T1. rewrite decide_True in P1 by (split_and!; done). destruct (picked s1 i _ P1 eq_refl) as (s2 & E2 & M2 & T2 & P2).
  erewrite bind_ok by exact E2. destruct (left_sleep s2 i _ P2 M2) as (s3 & E3 & M3 & T3 & P3).
  erewrite bind_ok by exact E3. pose proof (checked ticks0 n s3 i _ P3 M3) as E4. cbn [p_killed set_chan set_state] in E4.
  rewrite Hk in E4. assert (ticks s3 = u32 (ticks s + 1)) as T by congruence.
  destruct (u32 (ticks s3 - ticks0) <? n) eqn:En.
  - destruct (k =? 0) eqn:Ek.
    + destruct (slept_again s3 i _ P3 M3) as (s4 & E5 & T4 & S4). exists s4. split; [congruence|].
      rewrite T4, En. erewrite bind_ok by exact E4. cbv iota. erewrite bind_ok by exact E5.
      apply Z.eqb_eq in Ek. cbn [p_killed set_chan set_state] in S4. rewrite Hk, Ek in S4. split; [|done].
      unfold sched_back. by kstep.
    + exists s3. split; [done|]. rewrite En. by erewrite bind_ok by exact E4.
  - exists s3. split; [done|]. rewrite En. by erewrite bind_ok by exact E4.
Qed.

Lemma turns_ok c i ticks0 n j k s :
  (i < 64)%nat -> c <> i -> sleeper s i 0 -> 0 <= j -> ticks s = u32 (ticks0 + j) -> j + Z.of_nat k < 2 ^ 32 -> j < n ->
  exists s', turns k c i ticks0 n [] s = Ok (if n - j <=? Z.of_nat k then Some (n - j, 0) else None) [] s'.
Proof.
  intros Hi Hc. revert j s. induction k as [|k IH]; intros j s Hs Hj Ht Hk Hn; cbn [turns].
  { exists s. destruct (Z.leb_spec (n - j) (Z.of_nat 0)); [lia|done]. }
  destruct (turn_ok c i ticks0 n 0 s Hi Hc Hs) as (s1 & T & E). cbn [Z.eqb] in E.
  assert (u32 (ticks s1 - ticks0) = j + 1) as Hd by (rewrite T, Ht; unfold u32; zdm). rewrite Hd in E.
  destruct (Z.ltb_spec (j + 1) n) as [L|L].
  - destruct E as [E S1]. erewrite bind_ok by exact E. cbv iota.
    destruct (IH (j + 1) s1 S1) as (s2 & E2); [lia|rewrite T, Ht; unfold u32; zdm|lia|lia|].
    erewrite bind_ok by exact E2. exists s2.
    destruct (Z.leb_spec (n - (j + 1)) (Z.of_nat k)), (Z.leb_spec (n - j) (Z.of_nat (S k))); try lia; [|done].
    cbn. do 3 f_equal. lia.
  - erewrite bind_ok by exact E. exists s1. assert (n - j = 1) as -> by lia.
    destruct (Z.leb_spec 1 (Z.of_nat (S k))); [done|lia].
Qed.

(** C22: [sys_sleep(n)], [n > 0], returns after exactly [n] ticks.  A process
    that went to sleep at [ticks0] for [n] ticks and is not killed is woken at every tick and leaves the loop
    with 0 at the [n]-th and at no earlier one, wherever the 32-bit tick counter
    stands and even if it wraps. *)
Theorem sleep_returns (c i k : nat) (n : Z) (s : ks) :
  (i < 64)%nat -> c <> i -> sleeper s i 0 -> 0 <= ticks s < 2 ^ 32 -> 0 < n < 2 ^ 31 -> Z.of_nat k < 2 ^ 32 ->
  exists s', turns k c i (ticks s) n [] s = Ok (if n <=? Z.of_nat k then Some (n, 0) else None) [] s'.
Proof.
  intros Hi Hc Hs Ht Hn Hk.
  destruct (turns_ok c i (ticks s) n 0 k s Hi Hc Hs) as (s' & E); [lia|rewrite Z.add_0_r, u32_small; lia|lia|lia|].
  rewrite Z.sub_0_r in E. by exists s'.
Qed.

(** A sleep of three ticks that begins just before the counter wraps. *)
Definition sleeping_kernel : ks :=
  set_ticks (2 ^ 32 - 1) (updp 5 (fun p => set_state SLEEPING (set_chan TICKS_CHAN p)) (calling 13 [3] ∅)).

Lemma sleep_returns_witness : exists s',
  turns 10 0 5 (ticks sleeping_kernel) 3 [] sleeping_kernel = Ok (Some (3, 0)) [] s'.
Proof.
  apply (sleep_returns 0 5 10 3 sleeping_kernel); [lia|lia| |cbn; lia|lia|lia].
  exists (set_state SLEEPING (set_chan TICKS_CHAN proc0)). split_and!; reflexivity.
Defined.
