(* ===== verification/KillZero.v ===== *)
(** kill(0) and the free entries of the process table (kernel/proc.c [kill],
    [allocproc], [fork]).

    A free entry has pid 0, and [kill] compares pids without looking at the state
    of the entry, so [kill(0)] finds the first free one and marks it killed.
    [allocproc] does not clear the mark. *)

From S2P Require Import Prelude Mem CString Kern Riscv Kalloc Vm Sleeplock Bio Block Log Huffman Pipe State Wakeup Fs FsData FileOps Frame ProcOps Sysfile Exec Syscall Steady Scenario ProcInv.

(** What the creation of process [np] leaves alone. *)
Definition marked (np : nat) (s s' : ks) : Prop :=
  p_killed (getp s' np) = p_killed (getp s np) /\ p_pid (getp s' np) = p_pid (getp s np) /\
  length (procs s') = length (procs s).

#[export] Instance marked_preorder np : PreOrder (marked np).
Proof. split; [done|]. intros s1 s2 s3 (A & B & C) (A' & B' & C'). split_and!; congruence. Qed.

Lemma same_procs_marked np s s' : same_procs s s' -> marked np s s'.
Proof. intros (E & _). unfold marked, getp. by rewrite E. Qed.

Lemma keeps_marked_fs {A} np (m : K ks A) : keeps same_procs m -> keeps (marked np) m.
Proof. intros H h s a h' s' E. by eapply same_procs_marked, H. Qed.

Lemma keeps_marked_set np i f :
  (forall p, p_pid (f p) = p_pid p /\ p_killed (f p) = p_killed p) -> keeps (marked np) (p_set i f).
Proof.
  intros Hf. apply keeps_kmodify. intros s. unfold marked, getp. rewrite lookup_updp. split_and!.
  - case_decide; [|done]. destruct (procs s !! np); [apply Hf|done].
  - case_decide; [|done]. destruct (procs s !! np); [apply Hf|done].
  - unfold updp, set_procs. cbn [procs]. apply length_alter.
Qed.

#[local] Hint Extern 2 (keeps (marked _) (p_set _ _)) => (apply keeps_marked_set; intros ?; split; reflexivity) : frame.
#[local] Hint Extern 3 (keeps (marked _) _) => (apply keeps_marked_fs; solve [eauto with frame]) : frame.
#[local] Hint Extern 1 (marked _ _ _) => (apply same_procs_marked; repeat split; reflexivity) : frame.

Ltac follow np H E :=
  let x := fresh "x" in let h := fresh "h" in let s := fresh "s" in let E1 := fresh "E" in
  apply bind_inv in E as (x & h & s & E1 & E);
  match type of E1 with
  | ?m ?h1 ?s1 = Ok _ _ _ =>
      let Hk := fresh in assert (keeps (marked np) m) as Hk by keeps_tac;
      apply Hk in E1; apply (transitivity H) in E1; clear H Hk; rename E1 into H
  end.

(** The searches stop at the first free entry. *)
Lemma allocproc_first a i b h s :
  (forall j, LProc j ∉ h) -> (forall j, j ∈ a -> p_state (getp s j) <> UNUSED) -> p_state (getp s i) = UNUSED ->
  allocproc_loop (a ++ i :: b) h s = Ok (Some i) (LProc i :: h) s.
Proof.
  intros Hh Ha Hi. induction a as [|j a IH]; cbn [app allocproc_loop].
  - rewrite (bind_ok (acquire (LProc i)) _ _ _ tt (LProc i :: h) s) by by apply acquire_ok.
    erewrite bind_ok by reflexivity. by rewrite decide_True.
  - rewrite (bind_ok (acquire (LProc j)) _ _ _ tt (LProc j :: h) s) by by apply acquire_ok.
    erewrite bind_ok by reflexivity. rewrite decide_False by (apply Ha; set_solver).
    rewrite (bind_ok (release (LProc j)) _ _ _ tt h s) by by apply release_ok. apply IH. set_solver.
Qed.

Lemma kill_first a i b h s pid :
  (forall j, LProc j ∉ h) -> (forall j, j ∈ a -> p_pid (getp s j) <> pid) ->
  p_pid (getp s i) = pid -> p_state (getp s i) <> SLEEPING ->
  kill_loop (a ++ i :: b) pid h s = Ok 0 h (updp i (set_killed 1) s).
Proof.
  intros Hh Ha Hi Hs. induction a as [|j a IH]; cbn [app kill_loop].
  - rewrite (bind_ok (acquire (LProc i)) _ _ _ tt (LProc i :: h) s) by by apply acquire_ok.
    erewrite bind_ok by reflexivity. rewrite Hi, Z.eqb_refl. erewrite bind_ok by reflexivity.
    rewrite decide_False by done. erewrite bind_ok by reflexivity.
    rewrite (bind_ok (release (LProc i)) _ _ _ tt h (updp i (set_killed 1) s)) by by apply release_ok. done.
  - rewrite (bind_ok (acquire (LProc j)) _ _ _ tt (LProc j :: h) s) by by apply acquire_ok.
    erewrite bind_ok by reflexivity. rewrite (proj2 (Z.eqb_neq _ _)) by (apply Ha; set_solver).
    rewrite (bind_ok (release (LProc j)) _ _ _ tt h s) by by apply release_ok. apply IH. set_solver.
Qed.

Lemma proc_ids_split i : (i < 64)%nat -> proc_ids = seq 0 i ++ i :: seq (S i) (63 - i).
Proof.
  intros. unfold proc_ids. replace 64%nat with (i + S (63 - i))%nat at 1 by lia. by rewrite seq_app.
Qed.

Section fork.
Context (end_ trampoline forkret : Z).
#[local] Hint Resolve fs_proc_freepagetable fs_proc_pagetable : frame.

Lemma keeps_marked_dup fds p np np' : keeps (marked np') (dup_files fds p np).
Proof. induction fds; cbn [dup_files]; keeps_tac. Qed.
#[local] Hint Resolve keeps_marked_dup : frame.

(** A new process has the mark its entry had while it was free. *)
Lemma allocproc_marked i s r h s' :
  (i < length (procs s))%nat -> (i < 64)%nat ->
  (forall j, (j < i)%nat -> p_state (getp s j) <> UNUSED) -> p_state (getp s i) = UNUSED ->
  allocproc end_ trampoline forkret [] s = Ok (Some r) h s' ->
  r = i /\ p_killed (getp s' i) = p_killed (getp s i) /\ (i < length (procs s'))%nat.
Proof.
  intros Hl Hi Hj Hu E. unfold allocproc in E. rewrite (proc_ids_split i Hi) in E.
  erewrite bind_ok in E.
  2:{ apply allocproc_first; [set_solver|intros j Hj'%elem_of_seq; apply Hj; lia|done]. }
  apply bind_inv in E as (pid & h1 & s1 & E1 & E). apply allocpid_spec in E1 as [_ ->].
  apply bind_inv in E as ([] & h2 & s2 & E2 & E). injection E2 as <- <-.
  set (s0 := updp i _ _) in E. assert (p_killed (getp s0 i) = p_killed (getp s i) /\ (i < length (procs s0))%nat) as [M0 L0].
  { destruct (lookup_lt_is_Some_2 _ _ Hl) as [p Hp]. unfold s0, getp. rewrite lookup_updp, decide_True by done.
    cbn [procs set_nextpid]. rewrite Hp. split; [done|]. unfold updp, set_procs. cbn [procs set_nextpid]. by rewrite length_alter. }
  assert (marked i s0 s0) as U by reflexivity. clearbody s0. do 2 follow i U E. destruct (x =? 0).
  { apply bind_inv in E as (? & ? & ? & _ & E). by apply bind_inv in E as (? & ? & ? & _ & E). }
  do 2 follow i U E. destruct (x1 =? 0).
  { apply bind_inv in E as (? & ? & ? & _ & E). by apply bind_inv in E as (? & ? & ? & _ & E). }
  follow i U E. injection E as <- <- <-. destruct U as (U1 & U2 & U3). split_and!; [done|congruence|congruence].
Qed.

Lemma fork_marked i s r h s' :
  (i < length (procs s))%nat -> (i < 64)%nat ->
  (forall j, (j < i)%nat -> p_state (getp s j) <> UNUSED) -> p_state (getp s i) = UNUSED ->
  fork end_ trampoline forkret [] s = Ok r h s' -> r <> -1 ->
  exists p, procs s' !! i = Some p /\ p_pid p = r /\ p_killed p = p_killed (getp s i).
Proof.
  intros Hl Hi Hj Hu E Hr. unfold fork in E. apply bind_inv in E as (c & h0 & s0 & E0 & E). injection E0 as <- <- <-.
  apply bind_inv in E as (r1 & h1 & s1 & E1 & E). destruct r1 as [np|]; [|by injection E as <- <- <-].
  apply allocproc_marked with (i := i) in E1 as (-> & M1 & L1); [|done..].
  assert (marked i s1 s1) as U by reflexivity. do 3 follow i U E. destruct (x1 <? 0).
  { apply bind_inv in E as (? & ? & ? & _ & E). apply bind_inv in E as (? & ? & ? & _ & E). by injection E as <- <- <-. }
  do 7 follow i U E. apply bind_inv in E as (y & hy & sy & Ey & E). injection Ey as <- <- <-.
  match type of U with marked _ _ ?t => set (sp := t) in * end.
  assert (marked i sp sp) as V by reflexivity. clearbody sp. do 7 follow i V E. injection E as <- <- <-.
  destruct U as (U1 & U2 & U3), V as (V1 & V2 & V3).
  match type of V3 with length (procs ?t) = _ => destruct (lookup_lt_is_Some_2 (procs t) i) as [p Hp]; [lia|] end.
  rewrite (getp_lookup _ _ _ Hp) in *. exists p. split_and!; [done|congruence|congruence].
Qed.

(** C37: [kill(0)] condemns a process that does not exist yet.  In a kernel whose
    free entries have pid 0 and whose live ones do not, [kill(0)] reports success
    and marks the first free entry, and the next [fork] that succeeds creates its
    child in that entry, already killed. *)
Theorem kill_zero_marks_next_child (i : nat) (s : ks) :
  pids_ok s -> length (procs s) = 64%nat -> (i < 64)%nat ->
  p_state (getp s i) = UNUSED -> (forall j, (j < i)%nat -> p_state (getp s j) <> UNUSED) ->
  exists s1, kill 0 [] s = Ok 0 [] s1 /\
    forall r h s2, fork end_ trampoline forkret [] s1 = Ok r h s2 -> r <> -1 ->
      exists p, procs s2 !! i = Some p /\ p_pid p = r /\ p_killed p = 1.
Proof.
  intros Hk Hl Hi Hu Hj. destruct (lookup_lt_is_Some_2 (procs s) i) as [p Hp]; [lia|].
  pose proof (getp_lookup _ _ _ Hp) as Hg. exists (updp i (set_killed 1) s). split.
  - unfold kill. rewrite (proc_ids_split i Hi). apply kill_first; [set_solver| |..].
    + intros j Hj'%elem_of_seq. destruct (lookup_lt_is_Some_2 (procs s) j) as [q Hq]; [lia|].
      rewrite (getp_lookup _ _ _ Hq). specialize (Hj j ltac:(lia)). rewrite (getp_lookup _ _ _ Hq) in Hj.
      pose proof (pk_used _ Hk j q Hq Hj). lia.
    + rewrite Hg in *. by apply (pk_unused _ Hk i p).
    + by rewrite Hu.
  - intros r h s2 E Hr. assert (p_killed (getp (updp i (set_killed 1) s) i) = 1) as Hm.
    { unfold getp. by rewrite lookup_updp, decide_True, Hp by done. }
    rewrite <-Hm. eapply fork_marked; [|done| | |exact E|done].
    + unfold updp, set_procs. cbn [procs]. rewrite length_alter. lia.
    + intros j Hlt. rewrite getp_updp by done. by apply Hj.
    + by rewrite getp_updp.
Qed.
End fork.

(** After [kill(0)] the first process forks; its child, pid 2, is killed. *)
Definition condemned : ks := res_state (calling 6 [0] ∅) (kill 0 [] (calling 6 [0] ∅)).

Lemma kill_zero_marks_next_child_witness : exists h s2 p,
  kill 0 [] (calling 6 [0] ∅) = Ok 0 [] condemned /\ fork end0 0x80029000 0 [] condemned = Ok 2 h s2 /\
  procs s2 !! 1%nat = Some p /\ p_pid p = 2 /\ p_killed p = 1.
Proof.
  destruct (kill_zero_marks_next_child end0 0x80029000 0 1 (calling 6 [0] ∅)) as (s1 & E & H).
  - apply calling_pids_ok.
  - reflexivity.
  - lia.
  - reflexivity.
  - intros [|j] Hj; [discriminate|lia].
  - assert (s1 = condemned) as -> by (unfold condemned; rewrite E; reflexivity).
    destruct (returns_ex (fork end0 0x80029000 0 [] condemned) (fun r _ _ => r =? 2)) as (r & h & s2 & E2 & F).
    { vm_compute. reflexivity. }
    apply Z.eqb_eq in F as ->. destruct (H 2 h s2 E2) as (p & H1 & H2 & H3); [discriminate|].
    exists h, s2, p. split_and!; assumption.
Defined.
