(* ===== verification/FileRefs.v ===== *)
(** Reference counts of open files across system calls (kernel/file.c,
    kernel/sysfile.c, kernel/proc.c).

    [counts X d s] says that in state [s] the reference count of every entry of
    the open-file table is the number of descriptors that name it, over all
    processes, plus the references [d] that the running system call holds without
    a descriptor yet; and that a process that is free, being created or a zombie
    has no descriptors, but for the process [X] that is being set up.  [still] is
    what the calls that touch no descriptor do. *)

From S2P Require Import Prelude Mem CString Kern Riscv Kalloc Vm Sleeplock Bio Block Log Huffman Pipe State Wakeup Fs FsData FileOps Frame ProcOps Sysfile Exec Syscall Steady Scenario ProcInv.

(** * Counting *)

Definition cnt (j : nat) (l : list (option nat)) : Z := Z.of_nat (length (filter (fun x => x = Some j) l)).
Definition fd_count (j : nat) (ps : list proc) : Z := foldr (fun p n => cnt j (p_ofile p) + n) 0 ps.
Definition one (x : option nat) (j : nat) : Z := if decide (x = Some j) then 1 else 0.

Lemma fds_app j l1 l2 : cnt j (l1 ++ l2) = cnt j l1 + cnt j l2.
Proof. unfold cnt. rewrite filter_app, length_app. lia. Qed.

Lemma fds_cons j x l : cnt j (x :: l) = one x j + cnt j l.
Proof. unfold cnt, one. rewrite filter_cons. case_decide; cbn [length]; lia. Qed.

Lemma cnt_insert j k x y l : l !! k = Some y -> cnt j (<[k := x]> l) = cnt j l - one y j + one x j.
Proof.
  revert k. induction l as [|z l IH]; intros [|k]; try done; cbn [lookup list_lookup].
  - intros [= ->]. change (<[0%nat := x]> (y :: l)) with (x :: l). rewrite !fds_cons. lia.
  - intros H. change (<[S k := x]> (z :: l)) with (z :: <[k := x]> l). rewrite !fds_cons, (IH _ H). lia.
Qed.

Lemma fd_count_alter j i f ps p :
  ps !! i = Some p -> fd_count j (alter f i ps) = fd_count j ps - cnt j (p_ofile p) + cnt j (p_ofile (f p)).
Proof.
  revert i. induction ps as [|q ps IH]; intros [|i]; try done; cbn [lookup list_lookup].
  - intros [= ->]. cbn. lia.
  - intros H. cbn. unfold fd_count in *. cbn. rewrite (IH _ H). lia.
Qed.

Lemma fd_count_ext j ps ps' :
  length ps' = length ps -> (forall i p, ps !! i = Some p -> exists p', ps' !! i = Some p' /\ p_ofile p' = p_ofile p) ->
  fd_count j ps' = fd_count j ps.
Proof.
  revert ps'. induction ps as [|p ps IH]; intros [|p' ps'] Hl Hp; try done. cbn.
  destruct (Hp 0%nat p eq_refl) as (q & [= <-] & ->). f_equal. apply IH; [by injection Hl|].
  intros i x Hx. exact (Hp (S i) x Hx).
Qed.

(** * Calls that touch no descriptor *)

Definition same_fds (p p' : proc) : Prop := p_ofile p' = p_ofile p /\ dead p' = dead p.

Definition still (s s' : ks) : Prop :=
  (forall j, f_ref (getf s' j) = f_ref (getf s j)) /\ length (ftable s') = length (ftable s) /\
  length (procs s') = length (procs s) /\ me s' = me s /\
  forall i p, procs s !! i = Some p -> exists p', procs s' !! i = Some p' /\ same_fds p p'.

#[export] Instance still_preorder : PreOrder still.
Proof.
  split.
  - intros s. split_and!; try done. intros i p Hp. by exists p.
  - intros s1 s2 s3 (F1 & L1 & P1 & M1 & I1) (F2 & L2 & P2 & M2 & I2). split_and!; [intros j; by rewrite F2|congruence..|].
    intros i p Hp. destruct (I1 i p Hp) as (p' & Hp' & [A1 B1]). destruct (I2 i p' Hp') as (p'' & Hp'' & [A2 B2]).
    exists p''. split; [done|]. split; congruence.
Qed.

Lemma still_updp i f s : (forall p, procs s !! i = Some p -> same_fds p (f p)) -> still s (updp i f s).
Proof.
  intros Hf. split_and!; [done|done|apply length_alter|done|]. intros j p Hp. rewrite lookup_updp, Hp. case_decide.
  - subst. exists (f p). split; [done|]. by apply Hf.
  - by exists p.
Qed.

#[export] Instance still_steady : Steady still.
Proof.
  split.
  - exact _.
  - intros s s' [(P & M & _) F]. unfold still, getf. rewrite P, M, F. split_and!; try done. intros i p Hp. by exists p.
  - intros i f s Hf. apply still_updp. intros p _. destruct (Hf p) as (_ & E1 & E2). split; [done|]. unfold dead. by rewrite E1.
  - intros i g s Hg. split_and!; [|apply length_alter|done|done|intros k p Hp; by exists p].
    intros j. unfold getf, updf, set_ftable. cbn [ftable]. destruct (decide (i = j)) as [->|N].
    + rewrite list_lookup_alter_eq. destruct (ftable s !! j); [apply Hg|done].
    + by rewrite list_lookup_alter_ne.
  - intros i s Hs. apply still_updp. intros p Hp. rewrite (getp_lookup _ _ _ Hp) in Hs. split; [done|]. unfold dead. cbn. by rewrite Hs.
  - intros i s Hd. apply still_updp. intros p Hp. rewrite (getp_lookup _ _ _ Hp) in Hd. split; [done|]. by rewrite Hd.
Qed.

#[export] Hint Extern 1 (still _ _) => (apply steady_tabs; repeat split; reflexivity) : frame.

(** * The invariant *)

Definition no_fds (p : proc) : Prop := forall k, (k < 16)%nat -> p_ofile p !! k = Some None.

Record counts (X : option nat) (d : nat -> Z) (s : ks) : Prop := {
  co_procs : length (procs s) = 64%nat;
  co_fds : forall i p, procs s !! i = Some p -> length (p_ofile p) = 16%nat;
  co_dead : forall i p, procs s !! i = Some p -> dead p = true -> X <> Some i -> no_fds p;
  co_ref : forall j, f_ref (getf s j) = fd_count j (procs s) + d j }.

Lemma counts_still X d s s' : counts X d s -> still s s' -> counts X d s'.
Proof.
  intros [C1 C2 C3 C4] (F & L & P & M & I).
  assert (forall i p', procs s' !! i = Some p' -> exists p, procs s !! i = Some p /\ same_fds p p') as Hb.
  { intros i p' Hp'. destruct (lookup_lt_is_Some_2 (procs s) i) as [p Hp]; [rewrite <-P; by eapply lookup_lt_Some|].
    exists p. split; [done|]. destruct (I i p Hp) as (q & Hq & S). by simplify_eq. }
  split.
  - congruence.
  - intros i p' Hp'. destruct (Hb i p' Hp') as (p & Hp & -> & _). by eapply C2.
  - intros i p' Hp' Hd Hx. destruct (Hb i p' Hp') as (p & Hp & E1 & E2). unfold no_fds. rewrite E1. eapply C3; [done|congruence|done].
  - intros j. rewrite F, C4. f_equal. symmetry. apply fd_count_ext; [done|]. intros i p Hp.
    destruct (I i p Hp) as (p' & Hp' & E & _). by exists p'.
Qed.

Definition plus (d : nat -> Z) (k : Z) (j : nat) : nat -> Z := fun i => d i + (if decide (i = j) then k else 0).

Lemma counts_ext X d d' s : counts X d s -> (forall j, d j = d' j) -> counts X d' s.
Proof. intros [C1 C2 C3 C4] H. split; try done. intros j. by rewrite <-H. Qed.

(** The running process is alive. *)
Definition live (s : ks) : Prop := exists p, procs s !! me s = Some p /\ dead p = false.

Definition good (X : option nat) (d : nat -> Z) (s : ks) : Prop := counts X d s /\ live s.

Lemma good_still X d s s' : good X d s -> still s s' -> good X d s'.
Proof.
  intros [C (p & Hp & Hd)] S. split; [by eapply counts_still|]. destruct S as (_ & _ & _ & M & I).
  destruct (I _ _ Hp) as (p' & Hp' & _ & E). exists p'. rewrite M. split; [done|congruence].
Qed.

Lemma good_ext X d d' s : good X d s -> (forall j, d j = d' j) -> good X d' s.
Proof. intros [C L] H. split; [by eapply counts_ext|done]. Qed.

Ltac deltas :=
  let j := fresh "j" in
  intros j; unfold plus, one; repeat case_decide; simplify_eq; try lia; try done.

(** Assignment to an open file. *)
Lemma good_fset X d s j f g k :
  ftable s !! j = Some f -> f_ref (g f) = f_ref f + k -> good X d s -> good X (plus d k j) (updf j g s).
Proof.
  intros Hf Hg [[C1 C2 C3 C4] L]. split; [|done]. split; try done. intros i.
  change (procs (updf j g s)) with (procs s). unfold plus. rewrite Z.add_assoc, <-C4.
  unfold getf, updf, set_ftable. cbn [ftable]. case_decide as D.
  - subst. by rewrite list_lookup_alter_eq, Hf.
  - rewrite list_lookup_alter_ne by done. lia.
Qed.

(** Assignment to a descriptor. *)
Lemma good_ofile X d s i p fd x y :
  procs s !! i = Some p -> p_ofile p !! Z.to_nat fd = Some y -> (dead p = true -> X = Some i) ->
  good X d s -> good X (fun j => d j + one y j - one x j) (updp i (set_ofile fd x) s).
Proof.
  intros Hp Hy Hx [[C1 C2 C3 C4] (q & Hq & Hd)]. split.
  - split.
    + unfold updp, set_procs. cbn [procs]. by rewrite length_alter.
    + intros k z. rewrite lookup_updp. case_decide; [|apply C2]. subst. rewrite Hp. intros [= <-]. cbn.
      rewrite length_insert. by eapply C2.
    + intros k z. rewrite lookup_updp. case_decide; [|apply C3]. subst. rewrite Hp. intros [= <-] Hz Hk.
      destruct Hk. by apply Hx.
    + intros j. change (getf (updp i (set_ofile fd x) s) j) with (getf s j). rewrite C4.
      unfold updp, set_procs. cbn [procs]. rewrite (fd_count_alter j i _ _ p Hp). cbn [set_ofile p_ofile].
      rewrite (cnt_insert _ _ _ y) by done. lia.
  - unfold live. change (me (updp i (set_ofile fd x) s)) with (me s). rewrite lookup_updp, Hq. case_decide.
    + by exists (set_ofile fd x q).
    + by exists q.
Qed.

Lemma updf_same_procs j g s : procs (updf j g s) = procs s /\ me (updf j g s) = me s.
Proof. done. Qed.

(** Descriptors and liveness of every process are as before. *)
Definition kept (s s' : ks) : Prop :=
  me s' = me s /\ forall i p, procs s !! i = Some p -> exists p', procs s' !! i = Some p' /\ same_fds p p'.

#[export] Instance kept_preorder : PreOrder kept.
Proof.
  split.
  - intros s. split; [done|]. intros i p Hp. by exists p.
  - intros s1 s2 s3 (M1 & I1) (M2 & I2). split; [congruence|].
    intros i p Hp. destruct (I1 i p Hp) as (p' & Hp' & [A1 B1]). destruct (I2 i p' Hp') as (p'' & Hp'' & [A2 B2]).
    exists p''. split; [done|]. split; congruence.
Qed.

Lemma still_kept s s' : still s s' -> kept s s'.
Proof. intros (_ & _ & _ & M & I). by split. Qed.

(** One step of a run that touches no descriptor: [C] is the invariant so far. *)
Ltac pass C E :=
  let x := fresh "x" in let h := fresh "h" in let s := fresh "s" in let E1 := fresh "E" in
  apply bind_inv in E as (x & h & s & E1 & E);
  match type of E1 with
  | ?m ?h1 ?s1 = Ok _ _ _ =>
      let Hk := fresh in assert (keeps still m) as Hk by keeps_tac;
      apply Hk in E1; apply (good_still _ _ _ _ C) in E1; clear C Hk; rename E1 into C
  end.
Ltac trail S E :=
  let x := fresh "x" in let h := fresh "h" in let s := fresh "s" in let E1 := fresh "E" in
  apply bind_inv in E as (x & h & s & E1 & E);
  match type of E1 with
  | ?m ?h1 ?s1 = Ok _ _ _ =>
      let Hk := fresh in assert (keeps still m) as Hk by keeps_tac;
      apply Hk in E1; apply (transitivity S) in E1; clear S Hk; rename E1 into S
  end.
Ltac pass_end C E :=
  match type of E with
  | ?m ?h1 ?s1 = Ok _ _ _ =>
      let Hk := fresh in assert (keeps still m) as Hk by keeps_tac;
      apply Hk in E; apply (good_still _ _ _ _ C) in E; clear C Hk; rename E into C
  end.

Section files.
Context (end_ : Z).

Lemma filealloc_good X d h s r h' s' :
  good X d s -> filealloc h s = Ok r h' s' ->
  match r with Some j => good X (plus d 1 j) s' | None => good X d s' end /\ procs s' = procs s /\ me s' = me s.
Proof.
  intros C E. unfold filealloc in E. apply bind_inv in E as ([] & h1 & s1 & E1 & E). apply acquire_inv in E1 as ->.
  rewrite kget_bind in E. destruct (free_file (ftable s)) as [j|] eqn:Ef.
  - unfold free_file in Ef. destruct (list_find _ (ftable s)) as [[j' f]|] eqn:El; [|done]. injection Ef as ->.
    apply list_find_Some in El as (Hf & Hz & _).
    apply bind_inv in E as ([] & h2 & s2 & E2 & E). injection E2 as <- <-.
    apply bind_inv in E as ([] & h3 & s3 & E3 & E). apply release_inv in E3 as ->. injection E as <- <- <-.
    split; [|done]. eapply good_fset; [exact Hf| |done]. cbn. lia.
  - apply bind_inv in E as ([] & h3 & s3 & E3 & E). apply release_inv in E3 as ->. by injection E as <- <- <-.
Qed.

Lemma ref_in_table s j : 1 <= f_ref (getf s j) -> exists f, ftable s !! j = Some f /\ getf s j = f.
Proof. unfold getf. destruct (ftable s !! j) as [f|]; [by exists f|cbn; lia]. Qed.

Lemma filedup_good X d f h s r h' s' :
  good X d s -> filedup f h s = Ok r h' s' -> r = f /\ good X (plus d 1 f) s' /\ procs s' = procs s /\ me s' = me s.
Proof.
  intros C E. unfold filedup in E. apply bind_inv in E as ([] & h1 & s1 & E1 & E). apply acquire_inv in E1 as ->.
  apply bind_inv in E as (y & h2 & s2 & E2 & E). injection E2 as <- <- <-.
  destruct (Z.ltb_spec (f_ref (getf s f)) 1); [done|]. destruct (ref_in_table s f) as (y & Hy & Hg); [lia|].
  rewrite Hg in *.
  apply bind_inv in E as ([] & h2 & s2 & E2 & E). injection E2 as <- <-.
  apply bind_inv in E as ([] & h3 & s3 & E3 & E). apply release_inv in E3 as ->. injection E as <- <- <-.
  split_and!; [done| |done|done]. by eapply good_fset.
Qed.

Lemma fileclose_good X d f h s h' s' :
  good X d s -> fileclose end_ f h s = Ok tt h' s' -> good X (plus d (-1) f) s' /\ kept s s'.
Proof.
  intros C E. unfold fileclose in E. apply bind_inv in E as ([] & h1 & s1 & E1 & E). apply acquire_inv in E1 as ->.
  apply bind_inv in E as (y & h2 & s2 & E2 & E). injection E2 as <- <- <-.
  destruct (Z.ltb_spec (f_ref (getf s f)) 1); [done|]. destruct (ref_in_table s f) as (y & Hy & Hg); [lia|].
  rewrite Hg in *. apply bind_inv in E as ([] & h2 & s2 & E2 & E). injection E2 as <- <-.
  assert (good X (plus d (-1) f) (updf f (set_ref (f_ref y - 1)) s)) as C1 by (by eapply good_fset).
  revert E. destruct (Z.gtb_spec (f_ref y - 1) 0) as [G|G]; intros E.
  { apply release_inv in E as ->. split; [done|]. split; [done|]. intros i p Hp. by exists p. }
  apply bind_inv in E as (ff & h3 & s3 & E3 & E). injection E3 as <- <- <-.
  apply bind_inv in E as ([] & h4 & s4 & E4 & E). injection E4 as <- <-.
  set (s4 := updf f _ (updf f _ s)) in E.
  assert (good X (plus d (-1) f) s4) as C2.
  { eapply good_ext; [eapply (good_fset _ _ _ f (set_ref (f_ref y - 1) y) _ 0); [| |exact C1]|deltas].
    - unfold updf, set_ftable. cbn [ftable]. by rewrite list_lookup_alter_eq, Hy.
    - cbn. lia. }
  assert (kept s s4) as K4 by (split; [done|intros i p Hp; by exists p]). clearbody s4.
  assert (keeps still (release LFtable;; match f_type (getf (updf f (set_ref (f_ref y - 1)) s) f) with
      | FD_PIPE => pipeclose end_ (f_pipe (getf (updf f (set_ref (f_ref y - 1)) s) f)) (f_writable (getf (updf f (set_ref (f_ref y - 1)) s) f))
      | FD_NONE => mret tt
      | _ => begin_op;; iput (f_ip (getf (updf f (set_ref (f_ref y - 1)) s) f));; end_op end)) as Hk by keeps_tac.
  apply Hk in E. split; [by eapply good_still|]. transitivity s4; [done|by apply still_kept].
Qed.

(** ** System calls on descriptors *)

Lemma argfd_inv n h s r h' s' :
  argfd n h s = Ok r h' s' ->
  s' = s /\ forall fd f, r = Some (fd, f) -> 0 <= fd < 16 /\ ofile (getp s (me s)) fd = Some f.
Proof.
  unfold argfd, argint, argraw. intros E. apply bind_inv in E as (fd & h1 & s1 & E1 & E).
  assert (s1 = s) as ->.
  { apply bind_inv in E1 as (x & h2 & s2 & E2 & E1). rewrite kget_bind in E2. injection E1 as _ _ <-.
    destruct (_ && _) in E2; [by injection E2|discriminate E2]. }
  apply bind_inv in E as (p & h3 & s3 & E3 & E). injection E3 as <- <- <-. revert E.
  destruct (Z.ltb_spec fd 0), (Z.geb_spec fd NOFILE); cbn [orb]; try (intros [= <- <- <-]; by split).
  destruct (ofile (getp s (me s)) fd) as [f|] eqn:Ef; intros [= <- <- <-]; (split; [done|]); [|done].
  intros ? ? [= <- <-]. split; [unfold NOFILE in *; lia|done].
Qed.

Lemma live_at s : live s -> exists p, procs s !! me s = Some p /\ getp s (me s) = p /\ dead p = false.
Proof. intros (p & Hp & Hd). exists p. split_and!; [done|by apply getp_lookup|done]. Qed.

Lemma fdalloc_good X d f h s r h' s' :
  good X d s -> fdalloc f h s = Ok r h' s' ->
  me s' = me s /\
  ((r = -1 /\ s' = s) \/
   (0 <= r < 16 /\ good X (plus d (-1) f) s' /\ s' = updp (me s) (set_ofile r (Some f)) s /\
    p_ofile (getp s (me s)) !! Z.to_nat r = Some None)).
Proof.
  intros [C L] E. unfold fdalloc in E. apply bind_inv in E as (i & h1 & s1 & E1 & E). injection E1 as <- <- <-.
  apply bind_inv in E as (p & h1 & s1 & E1 & E). injection E1 as <- <- <-.
  destruct (free_fd (getp s (me s))) as [k|] eqn:Ek; [|by injection E as <- <- <-; eauto].
  apply bind_inv in E as ([] & h1 & s1 & E1 & E). injection E1 as <- <-. injection E as <- <- <-. split; [done|]. right.
  unfold free_fd in Ek. destruct (list_find _ _) as [[k' y]|] eqn:El; [|done]. injection Ek as ->.
  apply list_find_Some in El as (Hk & -> & _). apply lookup_take_Some in Hk as [Hk Hlt].
  destruct (live_at s L) as (p & Hp & Hg & Hd). rewrite Hg in *. rewrite Nat2Z.id.
  split_and!; [lia|lia| |done|done].
  eapply good_ext; [eapply (good_ofile X d s (me s) p _ (Some f) None)|deltas]; [done|by rewrite Nat2Z.id|congruence|by split].
Qed.

(** Dropping a descriptor of the running process. *)
Lemma good_drop X d s fd f :
  good X d s -> 0 <= fd < 16 -> ofile (getp s (me s)) fd = Some f ->
  good X (plus d 1 f) (updp (me s) (set_ofile fd None) s).
Proof.
  intros [C L] Hfd Hf. destruct (live_at s L) as (p & Hp & Hg & Hd). rewrite Hg in Hf. unfold ofile in Hf.
  eapply good_ext; [eapply (good_ofile X d s (me s) p fd None (Some f))|deltas]; [done| |congruence|by split].
  destruct (lookup_lt_is_Some_2 (p_ofile p) (Z.to_nat fd)) as [y Hy].
  { rewrite (co_fds _ _ _ C _ _ Hp). lia. }
  rewrite Hy in Hf |- *. cbn in Hf. by f_equal.
Qed.

Abbreviation none := (fun _ : nat => 0).

Lemma good_plus_back X d k j s : good X (plus (plus d k j) (- k) j) s -> good X d s.
Proof. intros C. eapply good_ext; [exact C|deltas]. Qed.

Lemma dup_good X d h s r h' s' : good X d s -> sys_dup h s = Ok r h' s' -> good X d s'.
Proof.
  intros C E. unfold sys_dup in E. apply bind_inv in E as (x & h1 & s1 & E1 & E). apply argfd_inv in E1 as [-> H1].
  destruct x as [[fd f]|]; [|by injection E as <- <- <-].
  apply bind_inv in E as (k & h2 & s2 & E2 & E). apply (fdalloc_good X d) in E2 as (_ & [(-> & ->)|(Hk & C2 & _)]); [| |done].
  - by injection E as <- <- <-.
  - destruct (Z.ltb_spec k 0); [lia|]. apply bind_inv in E as (y & h3 & s3 & E3 & E).
    apply (filedup_good _ _ _ _ _ _ _ _ C2) in E3 as (_ & C3 & _). injection E as <- <- <-. by eapply (good_plus_back _ _ (-1)).
Qed.

Lemma close_good X d h s r h' s' : good X d s -> sys_close end_ h s = Ok r h' s' -> good X d s'.
Proof.
  intros C E. unfold sys_close in E. apply bind_inv in E as (x & h1 & s1 & E1 & E). apply argfd_inv in E1 as [-> H1].
  destruct x as [[fd f]|]; [|by injection E as <- <- <-]. destruct (H1 fd f eq_refl) as [Hfd Hf].
  apply bind_inv in E as (i & h2 & s2 & E2 & E). injection E2 as <- <- <-.
  apply bind_inv in E as ([] & h2 & s2 & E2 & E). injection E2 as <- <-.
  apply bind_inv in E as ([] & h3 & s3 & E3 & E). apply (fileclose_good X (plus d 1 f)) in E3 as [C3 _].
  - injection E as <- <- <-. by eapply (good_plus_back _ _ 1).
  - by apply good_drop.
Qed.

Lemma open_good X d h s r h' s' : good X d s -> sys_open end_ h s = Ok r h' s' -> good X d s'.
Proof.
  intros C E. unfold sys_open in E. do 2 pass C E. destruct (x0 <? 0); [by injection E as <- <- <-|].
  do 2 pass C E. destruct x2 as [ip|]; [|by injection E as <- <- <-]. pass C E. destruct (_ && _).
  { pass_end C E. done. }
  apply bind_inv in E as (f & h6 & s6 & E6 & E). apply (filealloc_good X d _ _ _ _ _ C) in E6 as (C6 & _).
  destruct f as [f|]; [|pass_end C6 E; done].
  apply bind_inv in E as (fd & h7 & s7 & E7 & E).
  apply (fdalloc_good _ _ _ _ _ _ _ _ C6) in E7 as (_ & [(-> & ->)|(Hk & C7 & _)]).
  - cbn [Z.ltb Z.compare] in E. apply bind_inv in E as ([] & h8 & s8 & E8 & E).
    apply (fileclose_good _ _ _ _ _ _ _ C6) in E8 as [C8 _]. apply (good_plus_back _ _ 1) in C8. pass_end C8 E. done.
  - apply (good_plus_back _ _ 1) in C7. destruct (Z.ltb_spec fd 0); [lia|]. pass_end C7 E. done.
Qed.

Lemma pipealloc_good X d h s r h' s' :
  good X d s -> pipealloc end_ h s = Ok r h' s' ->
  match r with Some (f0, f1) => good X (plus (plus d 1 f0) 1 f1) s' | None => good X d s' end.
Proof.
  intros C E. unfold pipealloc in E. apply bind_inv in E as (f0 & h1 & s1 & E1 & E).
  apply (filealloc_good X d _ _ _ _ _ C) in E1 as (C1 & _). destruct f0 as [f0|]; [|by injection E as <- <- <-].
  apply bind_inv in E as (f1 & h2 & s2 & E2 & E). apply (filealloc_good _ _ _ _ _ _ _ C1) in E2 as (C2 & _).
  destruct f1 as [f1|].
  - pass C2 E. destruct (x =? 0).
    + apply bind_inv in E as ([] & h4 & s4 & E4 & E). apply (fileclose_good _ _ _ _ _ _ _ C2) in E4 as [C4 _].
      apply bind_inv in E as ([] & h5 & s5 & E5 & E). apply (fileclose_good _ _ _ _ _ _ _ C4) in E5 as [C5 _].
      injection E as <- <- <-. eapply good_ext; [exact C5|deltas].
    + do 3 pass C2 E. by injection E as <- <- <-.
  - apply bind_inv in E as ([] & h4 & s4 & E4 & E). apply (fileclose_good _ _ _ _ _ _ _ C2) in E4 as [C4 _].
    injection E as <- <- <-. by eapply (good_plus_back _ _ 1).
Qed.

Lemma close_both_good X d rf wf h s r h' s' :
  good X (plus (plus d 1 rf) 1 wf) s -> close_both end_ rf wf h s = Ok r h' s' -> good X d s'.
Proof.
  intros C E. unfold close_both in E. apply bind_inv in E as ([] & h4 & s4 & E4 & E).
  apply (fileclose_good _ _ _ _ _ _ _ C) in E4 as [C4 _].
  apply bind_inv in E as ([] & h5 & s5 & E5 & E). apply (fileclose_good _ _ _ _ _ _ _ C4) in E5 as [C5 _].
  injection E as <- <- <-. eapply good_ext; [exact C5|deltas].
Qed.

(** A descriptor just stored, and one stored after it. *)
Lemma ofile_stored s i p fd x :
  procs s !! i = Some p -> (Z.to_nat fd < length (p_ofile p))%nat ->
  ofile (getp (updp i (set_ofile fd x) s) i) fd = x.
Proof.
  intros Hp Hl. unfold getp. rewrite lookup_updp, decide_True, Hp by done. cbn. unfold ofile. cbn [p_ofile set_ofile].
  by rewrite list_lookup_insert_eq.
Qed.

Lemma ofile_other s i fd fd' x :
  Z.to_nat fd <> Z.to_nat fd' -> ofile (getp (updp i (set_ofile fd x) s) i) fd' = ofile (getp s i) fd'.
Proof.
  intros Hn. unfold getp. rewrite lookup_updp, decide_True by done. destruct (procs s !! i); [|done]. cbn.
  unfold ofile. cbn [p_ofile set_ofile]. by rewrite list_lookup_insert_ne.
Qed.

Lemma kept_ofile s s' fd : live s -> kept s s' -> ofile (getp s' (me s')) fd = ofile (getp s (me s)) fd.
Proof.
  intros (p & Hp & _) (M & I). destruct (I _ _ Hp) as (p' & Hp' & E & _).
  rewrite M, (getp_lookup _ _ _ Hp), (getp_lookup _ _ _ Hp'). unfold ofile. by rewrite E.
Qed.

Lemma pipe_good X d h s r h' s' : good X d s -> sys_pipe end_ h s = Ok r h' s' -> good X d s'.
Proof.
  intros C E. unfold sys_pipe in E. pass C E. apply bind_inv in E as (y & h1 & s1 & E1 & E).
  apply (pipealloc_good _ _ _ _ _ _ _ C) in E1. destruct y as [[rf wf]|]; [|by injection E as <- <- <-].
  apply bind_inv in E as (i & h2 & s2 & E2 & E). injection E2 as <- <- <-.
  apply bind_inv in E as (fd0 & h3 & s3 & E3 & E).
  apply (fdalloc_good _ _ _ _ _ _ _ _ E1) in E3 as (M3 & [(-> & ->)|(Hk0 & C3 & Es3 & Hn0)]).
  { cbn [Z.ltb Z.compare] in E. by eapply close_both_good. }
  destruct (Z.ltb_spec fd0 0); [lia|].
  assert (ofile (getp s3 (me s3)) fd0 = Some rf) as O3.
  { rewrite M3, Es3. destruct (live_at s1 (proj2 E1)) as (p & Hp & _). eapply ofile_stored; [exact Hp|].
    rewrite (co_fds _ _ _ (proj1 E1) _ _ Hp). lia. }
  rewrite <-M3 in E. clear M3 Es3 Hn0 E1.
  apply bind_inv in E as (fd1 & h4 & s4 & E4 & E).
  apply (fdalloc_good _ _ _ _ _ _ _ _ C3) in E4 as (M4 & [(-> & ->)|(Hk1 & C4 & Es4 & Hn1)]).
  { cbn [Z.ltb Z.compare] in E. apply bind_inv in E as ([] & h5 & s5 & E5 & E). injection E5 as <- <-.
    eapply close_both_good; [|exact E]. eapply good_ext; [by eapply good_drop|deltas]. }
  destruct (Z.ltb_spec fd1 0); [lia|].
  assert (Z.to_nat fd1 <> Z.to_nat fd0) as Hne.
  { intros Hx. unfold ofile in O3. rewrite <-Hx, Hn1 in O3. done. }
  assert (ofile (getp s4 (me s4)) fd0 = Some rf /\ ofile (getp s4 (me s4)) fd1 = Some wf) as [O4 O4'].
  { rewrite M4, Es4. split; [by rewrite ofile_other|]. destruct (live_at s3 (proj2 C3)) as (p & Hp & _).
    eapply ofile_stored; [exact Hp|]. rewrite (co_fds _ _ _ (proj1 C3) _ _ Hp). lia. }
  rewrite <-M4 in E. clear M4 Es4 Hn1 O3 C3. assert (still s4 s4) as S by reflexivity.
  do 4 trail S E. pose proof (good_still _ _ _ _ C4 S) as C8. pose proof (still_kept _ _ S) as K.
  destruct (x3 <? 0).
  2:{ injection E as <- <- <-. eapply good_ext; [exact C8|deltas]. }
  rewrite <-(proj1 K) in E. pose proof (kept_ofile _ _ fd0 (proj2 C4) K) as Q0. pose proof (kept_ofile _ _ fd1 (proj2 C4) K) as Q1.
  rewrite O4 in Q0. rewrite O4' in Q1. apply bind_inv in E as ([] & h9 & s9 & E9 & E). injection E9 as <- <-.
  apply (good_drop _ _ _ fd0 rf) in C8; [|lia|done]. apply bind_inv in E as ([] & h10 & s10 & E10 & E). injection E10 as <- <-.
  eapply close_both_good; [|exact E]. match goal with |- good _ _ (updp (me ?t) _ ?s) => change (me t) with (me s) end.
  eapply good_ext; [eapply (good_drop _ _ _ fd1 wf); [exact C8|lia|]|deltas].
  match goal with |- ofile (getp (updp ?i ?f ?t) (me ?u)) _ = _ => change (me u) with i end. rewrite ofile_other; [done|]. congruence.
Qed.

(** ** Exit *)

(** Closing a list of descriptors of the running process. *)
Lemma close_files_good X d fds i h s h' s' :
  good X d s -> i = me s -> (forall fd, fd ∈ fds -> 0 <= fd < 16) -> close_files end_ fds i h s = Ok tt h' s' ->
  good X d s' /\ me s' = me s /\
  (forall fd, 0 <= fd -> fd ∈ fds \/ ofile (getp s (me s)) fd = None -> ofile (getp s' (me s')) fd = None).
Proof.
  revert h s. induction fds as [|fd fds IH]; intros h s C Hi Hr E; cbn [close_files] in E.
  { injection E as <- <-. split_and!; [done..|]. intros fd _ [H%elem_of_nil|H]; done. }
  apply bind_inv in E as (p & h1 & s1 & E1 & E). injection E1 as <- <- <-.
  apply bind_inv in E as ([] & h1 & s1 & E1 & E). rewrite Hi in E1.
  assert (good X d s1 /\ me s1 = me s /\
    (forall k, 0 <= k -> k = fd \/ ofile (getp s (me s)) k = None -> ofile (getp s1 (me s1)) k = None)) as (C1 & M1 & O1).
  { destruct (ofile (getp s (me s)) fd) as [f|] eqn:Ef.
    - apply bind_inv in E1 as ([] & h2 & s2 & E2 & E1). pose proof (fileclose_good _ _ _ _ _ _ _ C E2) as [C2 K].
      injection E1 as <- <-. rewrite <-(proj1 K). split_and!; [|done|].
      + eapply good_ext; [eapply (good_drop _ _ _ fd f); [exact C2|apply Hr; set_solver|]|deltas].
        by rewrite (kept_ofile _ _ _ (proj2 C) K).
      + intros k Hk Ho. change (me (updp (me s2) (set_ofile fd None) s2)) with (me s2).
        destruct (decide (k = fd)) as [->|N].
        * destruct (live_at s2 (proj2 C2)) as (q & Hq & _). eapply ofile_stored; [exact Hq|].
          rewrite (co_fds _ _ _ (proj1 C2) _ _ Hq). specialize (Hr fd ltac:(set_solver)). lia.
        * specialize (Hr fd ltac:(set_solver)). rewrite ofile_other by lia. destruct Ho as [|Ho]; [done|].
          rewrite (kept_ofile _ _ _ (proj2 C) K). by rewrite (proj1 K) in Ho.
    - injection E1 as <- <-. split_and!; [done..|]. intros k _ [->|Hk]; done. }
  apply IH in E as (C' & M' & O'); [|done|congruence|set_solver]. split_and!; [done|congruence|].
  intros k Hk [Hin|Hn]; apply O'; try done.
  - apply elem_of_cons in Hin as [->|Hin]; [right; by apply O1; [|left]|by left].
  - right. apply O1; [done|by right].
Qed.

Lemma counts_zombie d s :
  counts None d s -> no_fds (getp s (me s)) -> counts None d (updp (me s) (set_state ZOMBIE) s).
Proof.
  intros [C1 C2 C3 C4] N. split.
  - unfold updp, set_procs. cbn [procs]. by rewrite length_alter.
  - intros i p. rewrite lookup_updp. case_decide; [|apply C2]. subst. destruct (procs s !! me s) as [q|] eqn:Eq; [|done].
    intros [= <-]. exact (C2 _ q Eq).
  - intros i p. rewrite lookup_updp. case_decide; [|apply C3]. subst. destruct (procs s !! me s) as [q|] eqn:Eq; [|done].
    intros [= <-] _ _. by rewrite (getp_lookup _ _ _ Eq) in N.
  - intros j. change (getf (updp (me s) (set_state ZOMBIE) s) j) with (getf s j). rewrite C4. f_equal. symmetry.
    apply fd_count_ext; [unfold updp, set_procs; cbn [procs]; by rewrite length_alter|]. intros i p Hp.
    rewrite lookup_updp, Hp. case_decide; [by exists (set_state ZOMBIE p)|by exists p].
Qed.

(** What is left of [exit] keeps the counts: at the switch the process is a zombie
    without descriptors. *)
Lemma exit_counts d n h s h' s' :
  good None d s -> exit end_ n h s = Ok tt h' s' -> counts None d s'.
Proof.
  intros C E. unfold exit in E. apply bind_inv in E as (i & h1 & s1 & E1 & E). injection E1 as <- <- <-.
  rewrite kget_bind in E. case_decide; [done|]. apply bind_inv in E as ([] & h2 & s2 & E2 & E).
  apply close_files_good with (X := None) (d := d) in E2 as (C2 & M2 & O2); [|done|done|].
  2:{ intros fd ?%elem_of_seqZ. unfold NOFILE in *. lia. }
  rewrite <-M2 in E. assert (still s2 s2) as S by reflexivity. do 11 trail S E.
  match type of S with still _ ?t => set (sz := t) in * end. clearbody sz.
  pose proof (good_still _ _ _ _ C2 S) as [C3 L3]. pose proof (still_kept _ _ S) as K.
  apply bind_inv in E as ([] & hz & sy & Ez & E). injection Ez as <- <-. rewrite <-(proj1 K) in E.
  apply bind_inv in E as ([] & hy & sx & Ey & E). apply release_inv in Ey as ->.
  assert (s' = updp (me sz) (set_state ZOMBIE) sz) as ->.
  { unfold sched in E. repeat case_match; try done. by injection E. }
  apply counts_zombie; [done|]. intros k Hk. destruct (live_at sz L3) as (p & Hp & Hg & _). rewrite Hg.
  assert (ofile (getp sz (me sz)) (Z.of_nat k) = None) as Ho.
  { rewrite (kept_ofile _ _ _ (proj2 C2) K). apply O2; [lia|]. left. apply elem_of_seqZ. unfold NOFILE. lia. }
  rewrite Hg in Ho. unfold ofile in Ho. rewrite Nat2Z.id in Ho.
  destruct (lookup_lt_is_Some_2 (p_ofile p) k) as [y Hy]; [by rewrite (co_fds _ _ _ C3 _ _ Hp)|].
  rewrite Hy in *. cbn in Ho. by f_equal.
Qed.

(** ** Fork *)

Lemma still_allocpid : keeps still allocpid.
Proof.
  unfold allocpid. apply keeps_bind; [exact _|keeps_tac|intros _]. apply keeps_bind; [exact _|keeps_tac|intros s].
  apply keeps_bind; [exact _| |intros _; keeps_tac]. apply keeps_kmodify. intros s'.
  split_and!; try done. intros i p Hp. by exists p.
Qed.

Context (trampoline forkret : Z).

Lemma allocproc_still h s r h' s' :
  allocproc end_ trampoline forkret h s = Ok r h' s' ->
  still s s' /\ forall i, r = Some i -> (i < 64)%nat /\ p_state (getp s i) = UNUSED.
Proof.
  intros E. unfold allocproc in E. apply bind_inv in E as (r1 & h1 & s1 & E1 & E).
  apply allocproc_loop_spec in E1 as [-> H1]. destruct r1 as [i|]; [|by injection E as <- <- <-].
  destruct (H1 i eq_refl) as [Hi Hu]. apply elem_of_seq in Hi.
  apply bind_inv in E as (pid & h2 & s2 & E2 & E). apply still_allocpid in E2 as S.
  apply allocpid_spec in E2 as [_ Es2]. assert (procs s2 = procs s) as P2 by (by rewrite Es2). clear Es2.
  apply bind_inv in E as ([] & h3 & s3 & E3 & E). injection E3 as <- <-.
  assert (still s (updp i (fun p => set_state USED (set_pid pid p)) s2)) as S1.
  { transitivity s2; [done|]. apply still_updp. intros p Hp. rewrite P2 in Hp. rewrite (getp_lookup _ _ _ Hp) in Hu.
    split; [done|]. unfold dead. cbn. by rewrite Hu. }
  assert (forall t, still s t -> dead (getp t i) = true) as Hd.
  { intros t (_ & _ & P & _ & I). unfold getp, dead in *. destruct (procs s !! i) as [p|] eqn:Ep.
    - destruct (I i p Ep) as (p' & -> & _ & D). cbn in *. unfold dead in D. rewrite D. by rewrite Hu.
    - destruct (procs t !! i) as [q|] eqn:Eq; [|done].
      apply lookup_lt_Some in Eq. apply lookup_ge_None in Ep. lia. }
  assert (forall h t h2 r2 t2, still s t -> (freeproc end_ i;; release (LProc i);; mret None) h t = Ok r2 h2 t2 ->
            still s t2 /\ r2 = None (A := nat)) as Hfree.
  { intros h0 t h4 r2 t2 St Et. apply bind_inv in Et as ([] & h5 & t3 & E3 & Et).
    eapply (freeproc_steady still) in E3; [|by apply Hd]. apply bind_inv in Et as ([] & h6 & t4 & E4 & Et).
    apply release_inv in E4 as ->. injection Et as <- <- <-. split; [by transitivity t|done]. }
  do 2 trail S1 E. destruct (x =? 0).
  { apply Hfree in E as [S2 ->]; [|done]. by split. }
  do 2 trail S1 E. destruct (x1 =? 0).
  { apply Hfree in E as [S2 ->]; [|done]. by split. }
  trail S1 E. injection E as <- <- <-. split; [done|]. intros j [= <-]. split; [lia|done].
Qed.

(** The descriptors of the parent, copied to slots of the child that are empty. *)
Lemma dup_files_good d fds p np h s h' s' :
  good (Some np) d s -> np <> me s -> NoDup fds -> (forall fd, fd ∈ fds -> 0 <= fd < 16) ->
  (np < 64)%nat -> (forall fd, fd ∈ fds -> p_ofile (getp s np) !! Z.to_nat fd = Some None) ->
  dup_files fds p np h s = Ok tt h' s' -> good (Some np) d s' /\ me s' = me s.
Proof.
  intros C Hn Hnd Hr Hl. revert h s C Hn. induction Hnd as [|fd fds Hfd _ IH]; intros h s C Hn Ho E; cbn [dup_files] in E.
  { by injection E as <- <-. }
  apply bind_inv in E as (x & h1 & s1 & E1 & E). injection E1 as <- <- <-.
  apply bind_inv in E as ([] & h1 & s1 & E1 & E).
  assert (good (Some np) d s1 /\ me s1 = me s /\
    forall k, k ∈ fds -> p_ofile (getp s1 np) !! Z.to_nat k = Some None) as (C1 & M1 & O1).
  { destruct (ofile (getp s p) fd) as [f|].
    - apply bind_inv in E1 as (f' & h2 & s2 & E2 & E1). apply (filedup_good _ _ _ _ _ _ _ _ C) in E2 as (-> & C2 & P2 & M2).
      injection E1 as <- <-. destruct (lookup_lt_is_Some_2 (procs s2) np) as [q Hq]; [by rewrite (co_procs _ _ _ (proj1 C2))|].
      assert (getp s np = q) as Hg by (unfold getp; by rewrite <-P2, Hq). rewrite Hg in Ho. split_and!.
      + eapply good_ext; [eapply (good_ofile _ _ _ np q fd (Some f) None); [done|apply Ho; set_solver|done|exact C2]|deltas].
      + done.
      + intros k Hk. unfold getp. rewrite lookup_updp, decide_True, Hq by done. cbn.
        assert (k <> fd) as Hkf by (intros ->; done). pose proof (Hr fd ltac:(set_solver)). pose proof (Hr k ltac:(set_solver)).
        rewrite list_lookup_insert_ne by lia. apply Ho. set_solver.
    - injection E1 as <- <-. split_and!; [done..|]. intros k Hk. apply Ho. set_solver. }
  apply IH in E as [C' M']; [|set_solver|done|congruence|done]. split; [done|congruence].
Qed.

(** The new process starts to live. *)
Lemma good_born d s np : good (Some np) d s -> good None d (updp np (set_state RUNNABLE) s).
Proof.
  intros [[C1 C2 C3 C4] (q & Hq & Hd)]. split; [split|].
  - unfold updp, set_procs. cbn [procs]. by rewrite length_alter.
  - intros i p. rewrite lookup_updp. case_decide; [|apply C2]. subst. destruct (procs s !! i) as [x|] eqn:Eq; [|done].
    intros [= <-]. exact (C2 _ x Eq).
  - intros i p. rewrite lookup_updp. case_decide as D.
    + subst. destruct (procs s !! i) as [x|] eqn:Eq; [|done]. by intros [= <-].
    + intros Hp Hdp _. eapply C3; [done..|congruence].
  - intros j. change (getf (updp np (set_state RUNNABLE) s) j) with (getf s j). rewrite C4. f_equal. symmetry.
    apply fd_count_ext; [unfold updp, set_procs; cbn [procs]; by rewrite length_alter|]. intros i p Hp.
    rewrite lookup_updp, Hp. case_decide; [by exists (set_state RUNNABLE p)|by exists p].
  - unfold live. change (me (updp np (set_state RUNNABLE) s)) with (me s). rewrite lookup_updp, Hq. case_decide.
    + by exists (set_state RUNNABLE q).
    + by exists q.
Qed.

Lemma good_setup d s np : good None d s -> good (Some np) d s.
Proof. intros [[C1 C2 C3 C4] L]. split; [|done]. split; try done. intros i p Hp Hd _. by apply (C3 i p Hp Hd). Qed.

Lemma fork_good d h s r h' s' :
  good None d s -> fork end_ trampoline forkret h s = Ok r h' s' -> good None d s'.
Proof.
  intros C E. unfold fork in E. apply bind_inv in E as (c & h0 & s0 & E0 & E). injection E0 as <- <- <-.
  apply bind_inv in E as (r1 & h1 & s1 & E1 & E). apply allocproc_still in E1 as [S1 H1].
  destruct r1 as [np|]; [|by injection E as <- <- <-; eapply good_still].
  destruct (H1 np eq_refl) as [Hl Hu]. clear H1. do 3 trail S1 E.
  assert (forall t, still s t -> dead (getp t np) = true /\ no_fds (getp t np) /\ np <> me t) as Hd.
  { intros t St. pose proof (good_still _ _ _ _ C St) as [Ct (q & Hq & Hdq)].
    destruct (lookup_lt_is_Some_2 (procs s) np) as [p Hp]; [by rewrite (co_procs _ _ _ (proj1 C))|].
    destruct St as (_ & _ & _ & M & I). destruct (I np p Hp) as (p' & Hp' & _ & D).
    rewrite (getp_lookup _ _ _ Hp) in Hu. assert (dead p' = true) as Hd' by (rewrite D; unfold dead; by rewrite Hu).
    rewrite (getp_lookup _ _ _ Hp'). split_and!; [done|by eapply (co_dead _ _ _ Ct)|]. intros ->. congruence. }
  destruct (x1 <? 0).
  { apply bind_inv in E as ([] & h5 & t3 & E3 & E). eapply (freeproc_steady still) in E3; [|by apply Hd].
    apply bind_inv in E as ([] & h6 & t4 & E4 & E). apply release_inv in E4 as ->. injection E as <- <- <-.
    eapply good_still; [exact C|]. by etransitivity. }
  do 3 trail S1 E. apply bind_inv in E as ([] & h7 & s7 & E7 & E).
  match type of S1 with still _ ?t => set (sd := t) in * end. clearbody sd. destruct (Hd _ S1) as (D1 & D2 & D3).
  apply (dup_files_good d) in E7 as [C7 M7]; [|by apply good_setup, (good_still _ _ s)|done|apply NoDup_seqZ| |done|].
  2:{ intros fd ?%elem_of_seqZ. unfold NOFILE in *. lia. }
  2:{ intros fd ?%elem_of_seqZ. apply D2. unfold NOFILE in *. lia. }
  do 9 pass C7 E. apply bind_inv in E as ([] & hz & sz & Ez & E). injection Ez as <- <-.
  apply good_born in C7. pass C7 E. by injection E as <- <- <-.
Qed.
End files.

(** Nothing is in flight between system calls. *)
Abbreviation refs_ok := (counts None (fun _ => 0)).

Lemma cnt_nonneg j l : 0 <= cnt j l.
Proof. unfold cnt. lia. Qed.

Lemma fd_count_pos j ps i p k : ps !! i = Some p -> p_ofile p !! k = Some (Some j) -> 1 <= fd_count j ps.
Proof.
  assert (forall l k, l !! k = Some (Some j) -> 1 <= cnt j l) as H1.
  { intros l k0 H. apply list_elem_of_lookup_2 in H. unfold cnt.
    assert (Some j ∈ filter (fun x => x = Some j) l) as Hin by by apply list_elem_of_filter.
    destruct (filter (fun x => x = Some j) l); [by apply elem_of_nil in Hin|cbn; lia]. }
  assert (forall qs, 0 <= fd_count j qs) as H0.
  { intros qs. induction qs as [|q qs IH]; cbn; [lia|]. pose proof (cnt_nonneg j (p_ofile q)). unfold fd_count in IH. lia. }
  revert i. induction ps as [|q ps IH]; intros [|i]; try done; cbn [lookup list_lookup].
  - intros [= ->] Hk. cbn. specialize (H1 _ _ Hk). specialize (H0 ps). unfold fd_count in H0. lia.
  - intros Hp Hk. cbn. specialize (IH i Hp Hk). pose proof (cnt_nonneg j (p_ofile q)). unfold fd_count in IH. lia.
Qed.

Section calls.
Context (end_ trampoline forkret : Z).
Context (devread devwrite : Z -> option (bool -> Z -> Z -> K ks Z)).
(** Drivers leave descriptors and open files alone. *)
Hypothesis devread_still : forall major f, devread major = Some f -> forall u a n, keeps still (f u a n).
Hypothesis devwrite_still : forall major f, devwrite major = Some f -> forall u a n, keeps still (f u a n).

Lemma syscalls_good num f h s r h' s' :
  num <> 2 -> syscalls end_ trampoline forkret devread devwrite num = Some f ->
  good None (fun _ => 0) s -> f h s = Ok r h' s' -> good None (fun _ => 0) s'.
Proof.
  intros H2 Ef C E. destruct (decide (num ∈ [1; 2; 4; 10; 15; 21])) as [D|D].
  - rewrite !elem_of_cons in D. destruct D as [D|[D|[D|[D|[D|[D|D]]]]]]; subst; try done; [..|by apply elem_of_nil in D];
      apply (inj Some) in Ef as <-.
    + by eapply fork_good.
    + by eapply pipe_good.
    + by eapply dup_good.
    + by eapply open_good.
    + by eapply close_good.
  - eapply good_still; [exact C|].
    eapply (st_syscalls still end_ trampoline forkret devread devwrite); [exact devread_still|exact devwrite_still|exact D|exact Ef|exact E].
Qed.

(** C13: reference counts of open files are exact.  In a system where the count of
    every open file is the number of descriptors that name it, and only live
    processes have descriptors, every system call that returns, successful or
    not, and [exit] up to its last context switch, leaves such a system; so a file
    that a descriptor names is never handed out again by [filealloc], whose
    entries have count 0. *)
Theorem file_refs_exact (h : list lockid) (s : ks) :
  refs_ok s -> running s ->
  (forall h' s', syscall end_ trampoline forkret devread devwrite h s = Ok tt h' s' ->
     refs_ok s' /\
     forall i p k j, procs s' !! i = Some p -> p_ofile p !! k = Some (Some j) -> 1 <= f_ref (getf s' j)) /\
  (forall n h' s', exit end_ n h s = Ok tt h' s' -> refs_ok s').
Proof.
  intros C (q & Hq & Hr). assert (good None (fun _ => 0) s) as G.
  { split; [done|]. exists q. split; [done|]. unfold dead. by rewrite Hr. }
  split; [|intros n h' s' E; by eapply exit_counts]. intros h' s' E.
  assert (good None (fun _ => 0) s') as [G' _].
  { unfold syscall in E. rewrite kget_bind in E. destruct (syscalls _ _ _ _ _ _) as [f|] eqn:Ef.
    - apply bind_inv in E as (r & h1 & s1 & E1 & E). destruct (decide (s32 (ld64 (km s) (p_trapframe (getp s (me s)) + tf_a 7)) = 2)) as [D|D].
      + rewrite D in Ef. apply (inj Some) in Ef as <-. unfold sys_exit in E1.
        apply bind_inv in E1 as (n & h2 & s2 & _ & E1). by apply bind_inv in E1 as (? & ? & ? & _ & E1).
      + apply (syscalls_good _ _ _ _ _ _ _ D Ef G) in E1. pass_end E1 E. done.
    - pass_end G E. done. }
  split; [done|]. intros i p k j Hp Hk. rewrite (co_ref _ _ _ G'). pose proof (fd_count_pos j _ i p k Hp Hk). lia.
Qed.
End calls.

(** * A witness *)

Lemma calling_refs num args d : refs_ok (calling num args d).
Proof.
  split.
  - reflexivity.
  - intros i p [[-> ->]| ->]%calling_procs; reflexivity.
  - intros i p [[-> ->]| ->]%calling_procs; [done|]. intros _ _ k Hk. cbn [p_ofile proc0]. by apply lookup_replicate.
  - intros j. rewrite Z.add_0_r.
    assert (fd_count j (procs (calling num args d)) = 0) as ->.
    { unfold fd_count. cbn [procs calling foldr]. unfold cnt at 1. cbn. reflexivity. }
    unfold getf. cbn [ftable calling]. destruct (replicate 100 file0 !! j) as [f|] eqn:E; [|done].
    apply lookup_replicate in E as [-> _]. reflexivity.
Qed.

(** The first process has descriptor 0 open on the first file and forks. *)
Definition forking : ks :=
  updp 0 (set_ofile 0 (Some 0%nat)) (updf 0 (fun f => set_ftype FD_INODE (set_ref 1 f)) (calling 1 [] ∅)).

Lemma forking_refs : refs_ok forking.
Proof.
  assert (good None (fun _ => 0) (calling 1 [] ∅)) as G.
  { split; [apply calling_refs|]. exists proc1. split; reflexivity. }
  apply (good_fset _ _ _ 0 file0 (fun f => set_ftype FD_INODE (set_ref 1 f)) 1) in G; [|reflexivity..].
  apply (good_ofile _ _ _ 0 proc1 0 (Some 0%nat) None) in G as [G _]; [|reflexivity|reflexivity|discriminate].
  eapply counts_ext; [exact G|deltas].
Qed.

Lemma file_refs_exact_witness : exists h s,
  syscall end0 0x80029000 0 no_devices no_devices [] forking = Ok tt h s /\ f_ref (getf s 0) = 2 /\ refs_ok s.
Proof.
  destruct (returns_ex (syscall end0 0x80029000 0 no_devices no_devices [] forking) (fun _ _ s => f_ref (getf s 0) =? 2))
    as ([] & h & s & E & F).
  { vm_compute. reflexivity. }
  exists h, s. split; [exact E|]. split; [by apply Z.eqb_eq in F|].
  destruct (file_refs_exact end0 0x80029000 0 no_devices no_devices) with (h := @nil lockid) (s := forking) as [H _].
  - discriminate.
  - discriminate.
  - apply forking_refs.
  - exists (set_ofile 0 (Some 0%nat) proc1). split; reflexivity.
  - exact (proj1 (H h s E)).
Defined.
